(** * ctsTraffic: the socket broker and the command-line configuration

    A shallow embedding of [ctsTraffic/ctsSocketBroker.cpp] and of the
    argument parsing of [ctsTraffic/ctsConfig.cpp], with the properties the
    specification states about them.

    Conventions.
    - An [unsigned long] (32 bits under the Windows data model this code is
      written for) and an [unsigned long long] are integers in [Z]; every
      [++], [--], [+] and [*] of the source is followed by its reduction
      modulo [2^32] or [2^64].
    - A [wchar_t] is its code unit in [Z]; a [wchar_t*] argument is a buffer
      (a list of code units ending in [0]) and a pointer into it is an
      offset.
    - A C++ exception is a value of [exn]; code that may throw returns a
      [result].  [ctFatalCondition] ends the process (RaiseFailFastException):
      code that may do so returns a [fatal]. *)

From Stdlib Require Import ZArith Lia List Bool String Ascii.
From stdpp Require Import base option list.
Import ListNotations.

Local Open Scope Z_scope.

(** ** Machine integers *)

Definition MAXULONG : Z := 4294967295.
Definition MAXUINT32 : Z := 4294967295.
Definition MAXWORD : Z := 65535.
Definition MAXULONGLONG : Z := 18446744073709551615.

Definition wrap32 (z : Z) : Z := z mod 4294967296.
Definition wrap64 (z : Z) : Z := z mod 18446744073709551616.

(** ** Wide strings *)

(** A [wchar_t] string literal. *)
Definition L (s : string) : list Z :=
  map (fun c => Z.of_nat (nat_of_ascii c)) (list_ascii_of_string s).

(** [wcslen]: the offset of the terminator.  (The arguments are [_In_z_]:
    a buffer without terminator does not occur.) *)
Fixpoint wcslen (buf : list Z) : nat :=
  match buf with
  | [] => O
  | c :: rest => if c =? 0 then O else S (wcslen rest)
  end.

(** [std::find(first, last, v) - first] over the elements [range] of
    [first, last): the offset of the first [v], or of [last]. *)
Fixpoint std_find (range : list Z) (v : Z) : nat :=
  match range with
  | [] => O
  | c :: rest => if c =? v then O else S (std_find rest v)
  end.

(** The null-terminated string that starts at offset [p] of a buffer. *)
Definition string_at (buf : list Z) (p : nat) : list Z :=
  take (wcslen (drop p buf)) (drop p buf).

(** The buffer that holds a string. *)
Definition c_str (s : list Z) : list Z := s ++ [0].

(** ** Exceptions *)

Inductive exn : Type :=
| exception (what : string)
| invalid_argument (what : string)
| out_of_range (what : string)
| ctException (why : Z) (what : string).

Inductive result (A : Type) : Type :=
| Ok (a : A)
| Throw (e : exn).
Arguments Ok {A} a.
Arguments Throw {A} e.

#[global] Instance result_ret : MRet result := fun A a => Ok a.

#[global] Instance result_bind : MBind result := fun A B k r =>
  match r with
  | Ok a => k a
  | Throw e => Throw e
  end.

(** ** The settings the broker and the parser share (ctsConfig.h is not part
    of the embedded sources: the members are those the embedded code reads
    and writes, with the types of the values assigned to them) *)

Inductive ProtocolType : Set := NoProtocolSet | TCP | UDP.

Inductive IoPatternType : Set :=
  NoIoSet | Push | Pull | PushPull | Duplex | MediaStream.

#[global] Instance ProtocolType_eq_dec : EqDecision ProtocolType.
Proof. solve_decision. Defined.

#[global] Instance IoPatternType_eq_dec : EqDecision IoPatternType.
Proof. solve_decision. Defined.

(** The callable stored in [Settings->AcceptFunction]. *)
Inductive AcceptFunctionType : Set :=
  ctsSimpleAccept | ctsAcceptEx | ctsMediaStreamServerListener.

(** [ctl::ctSockaddr], as far as the parser looks at it. *)
Record ctSockaddr : Type := mkSockaddr {
  sockaddr_host : Z;
  sockaddr_port : Z
}.

Definition setPort (port : Z) (a : ctSockaddr) : ctSockaddr :=
  {| sockaddr_host := sockaddr_host a; sockaddr_port := port |}.

Record ctsConfigSettings : Type := mkSettings {
  Protocol : ProtocolType;
  IoPattern : IoPatternType;
  Port : Z;
  ListenAddresses : list ctSockaddr;
  TargetAddresses : list ctSockaddr;
  LocalPortLow : Z;
  LocalPortHigh : Z;
  Iterations : Z;
  ConnectionLimit : Z;
  AcceptLimit : Z;
  ConnectionThrottleLimit : Z;
  ServerExitLimit : Z;
  TimeLimit : Z;
  PrePostRecvs : Z;
  ShouldVerifyBuffers : bool;
  UseSharedBuffer : bool;
  AcceptFunction : option AcceptFunctionType
}.

(** Assignment to one member, [Settings->Member = v]. *)
Definition with_Protocol (v : ProtocolType) (s : ctsConfigSettings)
    : ctsConfigSettings :=
  {| Protocol := v;
     IoPattern := IoPattern s;
     Port := Port s;
     ListenAddresses := ListenAddresses s;
     TargetAddresses := TargetAddresses s;
     LocalPortLow := LocalPortLow s;
     LocalPortHigh := LocalPortHigh s;
     Iterations := Iterations s;
     ConnectionLimit := ConnectionLimit s;
     AcceptLimit := AcceptLimit s;
     ConnectionThrottleLimit := ConnectionThrottleLimit s;
     ServerExitLimit := ServerExitLimit s;
     TimeLimit := TimeLimit s;
     PrePostRecvs := PrePostRecvs s;
     ShouldVerifyBuffers := ShouldVerifyBuffers s;
     UseSharedBuffer := UseSharedBuffer s;
     AcceptFunction := AcceptFunction s |}.

Definition with_IoPattern (v : IoPatternType) (s : ctsConfigSettings)
    : ctsConfigSettings :=
  {| Protocol := Protocol s;
     IoPattern := v;
     Port := Port s;
     ListenAddresses := ListenAddresses s;
     TargetAddresses := TargetAddresses s;
     LocalPortLow := LocalPortLow s;
     LocalPortHigh := LocalPortHigh s;
     Iterations := Iterations s;
     ConnectionLimit := ConnectionLimit s;
     AcceptLimit := AcceptLimit s;
     ConnectionThrottleLimit := ConnectionThrottleLimit s;
     ServerExitLimit := ServerExitLimit s;
     TimeLimit := TimeLimit s;
     PrePostRecvs := PrePostRecvs s;
     ShouldVerifyBuffers := ShouldVerifyBuffers s;
     UseSharedBuffer := UseSharedBuffer s;
     AcceptFunction := AcceptFunction s |}.

Definition with_Port (v : Z) (s : ctsConfigSettings)
    : ctsConfigSettings :=
  {| Protocol := Protocol s;
     IoPattern := IoPattern s;
     Port := v;
     ListenAddresses := ListenAddresses s;
     TargetAddresses := TargetAddresses s;
     LocalPortLow := LocalPortLow s;
     LocalPortHigh := LocalPortHigh s;
     Iterations := Iterations s;
     ConnectionLimit := ConnectionLimit s;
     AcceptLimit := AcceptLimit s;
     ConnectionThrottleLimit := ConnectionThrottleLimit s;
     ServerExitLimit := ServerExitLimit s;
     TimeLimit := TimeLimit s;
     PrePostRecvs := PrePostRecvs s;
     ShouldVerifyBuffers := ShouldVerifyBuffers s;
     UseSharedBuffer := UseSharedBuffer s;
     AcceptFunction := AcceptFunction s |}.

Definition with_ListenAddresses (v : list ctSockaddr) (s : ctsConfigSettings)
    : ctsConfigSettings :=
  {| Protocol := Protocol s;
     IoPattern := IoPattern s;
     Port := Port s;
     ListenAddresses := v;
     TargetAddresses := TargetAddresses s;
     LocalPortLow := LocalPortLow s;
     LocalPortHigh := LocalPortHigh s;
     Iterations := Iterations s;
     ConnectionLimit := ConnectionLimit s;
     AcceptLimit := AcceptLimit s;
     ConnectionThrottleLimit := ConnectionThrottleLimit s;
     ServerExitLimit := ServerExitLimit s;
     TimeLimit := TimeLimit s;
     PrePostRecvs := PrePostRecvs s;
     ShouldVerifyBuffers := ShouldVerifyBuffers s;
     UseSharedBuffer := UseSharedBuffer s;
     AcceptFunction := AcceptFunction s |}.

Definition with_TargetAddresses (v : list ctSockaddr) (s : ctsConfigSettings)
    : ctsConfigSettings :=
  {| Protocol := Protocol s;
     IoPattern := IoPattern s;
     Port := Port s;
     ListenAddresses := ListenAddresses s;
     TargetAddresses := v;
     LocalPortLow := LocalPortLow s;
     LocalPortHigh := LocalPortHigh s;
     Iterations := Iterations s;
     ConnectionLimit := ConnectionLimit s;
     AcceptLimit := AcceptLimit s;
     ConnectionThrottleLimit := ConnectionThrottleLimit s;
     ServerExitLimit := ServerExitLimit s;
     TimeLimit := TimeLimit s;
     PrePostRecvs := PrePostRecvs s;
     ShouldVerifyBuffers := ShouldVerifyBuffers s;
     UseSharedBuffer := UseSharedBuffer s;
     AcceptFunction := AcceptFunction s |}.

Definition with_LocalPortLow (v : Z) (s : ctsConfigSettings)
    : ctsConfigSettings :=
  {| Protocol := Protocol s;
     IoPattern := IoPattern s;
     Port := Port s;
     ListenAddresses := ListenAddresses s;
     TargetAddresses := TargetAddresses s;
     LocalPortLow := v;
     LocalPortHigh := LocalPortHigh s;
     Iterations := Iterations s;
     ConnectionLimit := ConnectionLimit s;
     AcceptLimit := AcceptLimit s;
     ConnectionThrottleLimit := ConnectionThrottleLimit s;
     ServerExitLimit := ServerExitLimit s;
     TimeLimit := TimeLimit s;
     PrePostRecvs := PrePostRecvs s;
     ShouldVerifyBuffers := ShouldVerifyBuffers s;
     UseSharedBuffer := UseSharedBuffer s;
     AcceptFunction := AcceptFunction s |}.

Definition with_LocalPortHigh (v : Z) (s : ctsConfigSettings)
    : ctsConfigSettings :=
  {| Protocol := Protocol s;
     IoPattern := IoPattern s;
     Port := Port s;
     ListenAddresses := ListenAddresses s;
     TargetAddresses := TargetAddresses s;
     LocalPortLow := LocalPortLow s;
     LocalPortHigh := v;
     Iterations := Iterations s;
     ConnectionLimit := ConnectionLimit s;
     AcceptLimit := AcceptLimit s;
     ConnectionThrottleLimit := ConnectionThrottleLimit s;
     ServerExitLimit := ServerExitLimit s;
     TimeLimit := TimeLimit s;
     PrePostRecvs := PrePostRecvs s;
     ShouldVerifyBuffers := ShouldVerifyBuffers s;
     UseSharedBuffer := UseSharedBuffer s;
     AcceptFunction := AcceptFunction s |}.

Definition with_Iterations (v : Z) (s : ctsConfigSettings)
    : ctsConfigSettings :=
  {| Protocol := Protocol s;
     IoPattern := IoPattern s;
     Port := Port s;
     ListenAddresses := ListenAddresses s;
     TargetAddresses := TargetAddresses s;
     LocalPortLow := LocalPortLow s;
     LocalPortHigh := LocalPortHigh s;
     Iterations := v;
     ConnectionLimit := ConnectionLimit s;
     AcceptLimit := AcceptLimit s;
     ConnectionThrottleLimit := ConnectionThrottleLimit s;
     ServerExitLimit := ServerExitLimit s;
     TimeLimit := TimeLimit s;
     PrePostRecvs := PrePostRecvs s;
     ShouldVerifyBuffers := ShouldVerifyBuffers s;
     UseSharedBuffer := UseSharedBuffer s;
     AcceptFunction := AcceptFunction s |}.

Definition with_ConnectionLimit (v : Z) (s : ctsConfigSettings)
    : ctsConfigSettings :=
  {| Protocol := Protocol s;
     IoPattern := IoPattern s;
     Port := Port s;
     ListenAddresses := ListenAddresses s;
     TargetAddresses := TargetAddresses s;
     LocalPortLow := LocalPortLow s;
     LocalPortHigh := LocalPortHigh s;
     Iterations := Iterations s;
     ConnectionLimit := v;
     AcceptLimit := AcceptLimit s;
     ConnectionThrottleLimit := ConnectionThrottleLimit s;
     ServerExitLimit := ServerExitLimit s;
     TimeLimit := TimeLimit s;
     PrePostRecvs := PrePostRecvs s;
     ShouldVerifyBuffers := ShouldVerifyBuffers s;
     UseSharedBuffer := UseSharedBuffer s;
     AcceptFunction := AcceptFunction s |}.

Definition with_AcceptLimit (v : Z) (s : ctsConfigSettings)
    : ctsConfigSettings :=
  {| Protocol := Protocol s;
     IoPattern := IoPattern s;
     Port := Port s;
     ListenAddresses := ListenAddresses s;
     TargetAddresses := TargetAddresses s;
     LocalPortLow := LocalPortLow s;
     LocalPortHigh := LocalPortHigh s;
     Iterations := Iterations s;
     ConnectionLimit := ConnectionLimit s;
     AcceptLimit := v;
     ConnectionThrottleLimit := ConnectionThrottleLimit s;
     ServerExitLimit := ServerExitLimit s;
     TimeLimit := TimeLimit s;
     PrePostRecvs := PrePostRecvs s;
     ShouldVerifyBuffers := ShouldVerifyBuffers s;
     UseSharedBuffer := UseSharedBuffer s;
     AcceptFunction := AcceptFunction s |}.

Definition with_ConnectionThrottleLimit (v : Z) (s : ctsConfigSettings)
    : ctsConfigSettings :=
  {| Protocol := Protocol s;
     IoPattern := IoPattern s;
     Port := Port s;
     ListenAddresses := ListenAddresses s;
     TargetAddresses := TargetAddresses s;
     LocalPortLow := LocalPortLow s;
     LocalPortHigh := LocalPortHigh s;
     Iterations := Iterations s;
     ConnectionLimit := ConnectionLimit s;
     AcceptLimit := AcceptLimit s;
     ConnectionThrottleLimit := v;
     ServerExitLimit := ServerExitLimit s;
     TimeLimit := TimeLimit s;
     PrePostRecvs := PrePostRecvs s;
     ShouldVerifyBuffers := ShouldVerifyBuffers s;
     UseSharedBuffer := UseSharedBuffer s;
     AcceptFunction := AcceptFunction s |}.

Definition with_ServerExitLimit (v : Z) (s : ctsConfigSettings)
    : ctsConfigSettings :=
  {| Protocol := Protocol s;
     IoPattern := IoPattern s;
     Port := Port s;
     ListenAddresses := ListenAddresses s;
     TargetAddresses := TargetAddresses s;
     LocalPortLow := LocalPortLow s;
     LocalPortHigh := LocalPortHigh s;
     Iterations := Iterations s;
     ConnectionLimit := ConnectionLimit s;
     AcceptLimit := AcceptLimit s;
     ConnectionThrottleLimit := ConnectionThrottleLimit s;
     ServerExitLimit := v;
     TimeLimit := TimeLimit s;
     PrePostRecvs := PrePostRecvs s;
     ShouldVerifyBuffers := ShouldVerifyBuffers s;
     UseSharedBuffer := UseSharedBuffer s;
     AcceptFunction := AcceptFunction s |}.

Definition with_TimeLimit (v : Z) (s : ctsConfigSettings)
    : ctsConfigSettings :=
  {| Protocol := Protocol s;
     IoPattern := IoPattern s;
     Port := Port s;
     ListenAddresses := ListenAddresses s;
     TargetAddresses := TargetAddresses s;
     LocalPortLow := LocalPortLow s;
     LocalPortHigh := LocalPortHigh s;
     Iterations := Iterations s;
     ConnectionLimit := ConnectionLimit s;
     AcceptLimit := AcceptLimit s;
     ConnectionThrottleLimit := ConnectionThrottleLimit s;
     ServerExitLimit := ServerExitLimit s;
     TimeLimit := v;
     PrePostRecvs := PrePostRecvs s;
     ShouldVerifyBuffers := ShouldVerifyBuffers s;
     UseSharedBuffer := UseSharedBuffer s;
     AcceptFunction := AcceptFunction s |}.

Definition with_PrePostRecvs (v : Z) (s : ctsConfigSettings)
    : ctsConfigSettings :=
  {| Protocol := Protocol s;
     IoPattern := IoPattern s;
     Port := Port s;
     ListenAddresses := ListenAddresses s;
     TargetAddresses := TargetAddresses s;
     LocalPortLow := LocalPortLow s;
     LocalPortHigh := LocalPortHigh s;
     Iterations := Iterations s;
     ConnectionLimit := ConnectionLimit s;
     AcceptLimit := AcceptLimit s;
     ConnectionThrottleLimit := ConnectionThrottleLimit s;
     ServerExitLimit := ServerExitLimit s;
     TimeLimit := TimeLimit s;
     PrePostRecvs := v;
     ShouldVerifyBuffers := ShouldVerifyBuffers s;
     UseSharedBuffer := UseSharedBuffer s;
     AcceptFunction := AcceptFunction s |}.

Definition with_ShouldVerifyBuffers (v : bool) (s : ctsConfigSettings)
    : ctsConfigSettings :=
  {| Protocol := Protocol s;
     IoPattern := IoPattern s;
     Port := Port s;
     ListenAddresses := ListenAddresses s;
     TargetAddresses := TargetAddresses s;
     LocalPortLow := LocalPortLow s;
     LocalPortHigh := LocalPortHigh s;
     Iterations := Iterations s;
     ConnectionLimit := ConnectionLimit s;
     AcceptLimit := AcceptLimit s;
     ConnectionThrottleLimit := ConnectionThrottleLimit s;
     ServerExitLimit := ServerExitLimit s;
     TimeLimit := TimeLimit s;
     PrePostRecvs := PrePostRecvs s;
     ShouldVerifyBuffers := v;
     UseSharedBuffer := UseSharedBuffer s;
     AcceptFunction := AcceptFunction s |}.

Definition with_UseSharedBuffer (v : bool) (s : ctsConfigSettings)
    : ctsConfigSettings :=
  {| Protocol := Protocol s;
     IoPattern := IoPattern s;
     Port := Port s;
     ListenAddresses := ListenAddresses s;
     TargetAddresses := TargetAddresses s;
     LocalPortLow := LocalPortLow s;
     LocalPortHigh := LocalPortHigh s;
     Iterations := Iterations s;
     ConnectionLimit := ConnectionLimit s;
     AcceptLimit := AcceptLimit s;
     ConnectionThrottleLimit := ConnectionThrottleLimit s;
     ServerExitLimit := ServerExitLimit s;
     TimeLimit := TimeLimit s;
     PrePostRecvs := PrePostRecvs s;
     ShouldVerifyBuffers := ShouldVerifyBuffers s;
     UseSharedBuffer := v;
     AcceptFunction := AcceptFunction s |}.

Definition with_AcceptFunction (v : option AcceptFunctionType) (s : ctsConfigSettings)
    : ctsConfigSettings :=
  {| Protocol := Protocol s;
     IoPattern := IoPattern s;
     Port := Port s;
     ListenAddresses := ListenAddresses s;
     TargetAddresses := TargetAddresses s;
     LocalPortLow := LocalPortLow s;
     LocalPortHigh := LocalPortHigh s;
     Iterations := Iterations s;
     ConnectionLimit := ConnectionLimit s;
     AcceptLimit := AcceptLimit s;
     ConnectionThrottleLimit := ConnectionThrottleLimit s;
     ServerExitLimit := ServerExitLimit s;
     TimeLimit := TimeLimit s;
     PrePostRecvs := PrePostRecvs s;
     ShouldVerifyBuffers := ShouldVerifyBuffers s;
     UseSharedBuffer := UseSharedBuffer s;
     AcceptFunction := v |}.

(** ** What [Startup] calls and takes as given

    - [ctString::iordinal_equals] and [ctString::istarts_with]
      (ctl/ctString.hpp is not among the sources), on the strings their
      arguments point to;
    - [std::stoul] and [std::stoull], which give the value and the offset of
      the first character not converted, or throw;
    - the settings as [new ctsConfigSettings] leaves them;
    - the two system calls of [Startup] that can fail, with their error;
    - the constructors [ctsSimpleAccept()] and [ctsAcceptEx()] that
      [set_accept] runs, which return or throw (ctsAcceptEx.hpp is not among
      the sources);
    - the setters of ctsConfig.cpp that write statics and members which
      the settings record here does not hold; they are embedded one by
      one further down, with the state each writes.  For [Startup] each
      takes the settings and the argument vector and gives the vector it
      leaves, with the values it assigns to the members modelled here: the
      listening and target addresses for [set_address], the local port
      range for [set_localport], the pattern and the frame size of the media
      stream for [set_ioPattern], whether a jitter logger exists for
      [set_logging], nothing for the others. *)
Class Externals : Type := {
  iordinal_equals : list Z -> list Z -> bool;
  istarts_with : list Z -> list Z -> bool;
  stoul : list Z -> Z -> result (Z * nat);
  stoull : list Z -> Z -> result (Z * nat);
  stoul_range : forall s base v idx,
    stoul s base = Ok (v, idx) -> 0 <= v <= MAXULONG;
  stoull_range : forall s base v idx,
    stoull s base = Ok (v, idx) -> 0 <= v <= MAXULONGLONG;
  default_settings : ctsConfigSettings;
  CreateEvent_error : option Z;
  timeBeginPeriod_error : option Z;
  set_error : list (list Z) -> result (list (list Z));
  set_logging : list (list Z) -> result (list (list Z) * bool);
  set_address : ctsConfigSettings -> list (list Z)
                -> result (list (list Z) * (list ctSockaddr * list ctSockaddr));
  set_localport : ctsConfigSettings -> list (list Z)
                  -> result (list (list Z) * (Z * Z));
  set_ioPattern : ctsConfigSettings -> list (list Z)
                  -> result (list (list Z) * (IoPatternType * Z));
  set_threadpool : result unit;
  ctsSimpleAccept_constructor : ctsConfigSettings -> result unit;
  ctsAcceptEx_constructor : ctsConfigSettings -> result unit;
  set_options : ctsConfigSettings -> list (list Z) -> result (list (list Z));
  set_compartment : ctsConfigSettings -> list (list Z) -> result (list (list Z));
  set_buffer : ctsConfigSettings -> list (list Z) -> result (list (list Z));
  set_transfer : ctsConfigSettings -> list (list Z) -> result (list (list Z));
  set_ratelimit : ctsConfigSettings -> list (list Z) -> result (list (list Z));
  set_ioFunction : ctsConfigSettings -> list (list Z) -> result (list (list Z));
  set_create : ctsConfigSettings -> list (list Z) -> result (list (list Z));
  set_connect : ctsConfigSettings -> list (list Z) -> result (list (list Z))
}.

Module Config.

(** ** ctsConfig.cpp *)

Section Parser.

Context `{Externals}.

Definition DefaultPort : Z := 4444.
Definition DefaultAcceptLimit : Z := 10.
Definition DefaultAcceptExLimit : Z := 100.
Definition DefaultTcpConnectionLimit : Z := 8.
Definition DefaultUdpConnectionLimit : Z := 1.
Definition DefaultConnectionThrottleLimit : Z := 1000.

(** [InitOncectsConfigImpl]: the settings before any argument is read. *)
Definition InitOncectsConfigImpl : ctsConfigSettings :=
  with_UseSharedBuffer false
    (with_ShouldVerifyBuffers true
      (with_ServerExitLimit MAXULONGLONG
        (with_ConnectionThrottleLimit DefaultConnectionThrottleLimit
          (with_AcceptLimit DefaultAcceptLimit
            (with_ConnectionLimit 1
              (with_Iterations MAXULONGLONG
                (with_Port DefaultPort default_settings))))))).

(** Lines 184-200.  The result is the buffer as the call leaves it and the
    pointer returned: [None] for [nullptr], [Some p] for offset [p] of the
    buffer. *)
Definition ParseArgument (_input_argument _expected_param : list Z)
    : result (list Z * option nat) :=
  let param_end := wcslen _input_argument in
  let param_delimiter := std_find (take param_end _input_argument) 58 in
  if negb (param_delimiter + 1 <? param_end)%nat then
    Throw (invalid_argument "Invalid argument")
  else
    (* temporarily null-terminate it at the delimiter *)
    let buffer := <[param_delimiter := 0]> _input_argument in
    let return_value :=
      if iordinal_equals _expected_param (string_at buffer 0)
      then Some (param_delimiter + 1)%nat
      else None in
    let buffer := <[param_delimiter := 58]> buffer in
    Ok (buffer, return_value).

(** The four [as_integral] specialisations the embedded setters use. *)
Definition has_x (s : list Z) : bool :=
  existsb (fun c => (c =? 120) || (c =? 88)) s.

Definition as_integral_unsigned_long (_string : list Z) : result Z :=
  '(return_value, first_unconverted_offset) ←
    (if has_x _string then stoul _string 16 else stoul _string 10);
  if negb (first_unconverted_offset =? length _string)%nat
  then Throw (invalid_argument "Invalid argument: %s")
  else Ok return_value.

Definition as_integral_unsigned_short (_string : list Z) : result Z :=
  return_value ← as_integral_unsigned_long _string;
  if return_value >? MAXWORD
  then Throw (invalid_argument "Invalid argument: %s")
  else Ok return_value.

Definition as_integral_unsigned_long_long (_string : list Z) : result Z :=
  '(return_value, first_unconverted_offset) ←
    (if has_x _string then stoull _string 16 else stoull _string 10);
  if negb (first_unconverted_offset =? length _string)%nat
  then Throw (invalid_argument "Invalid argument: %s")
  else Ok return_value.

(** [std::find_if] over the vector, with a predicate that may write to the
    element it looks at and may throw: the vector as the search leaves it,
    and the index of the element found, if any. *)
Fixpoint find_if (pred : list Z -> result (list Z * bool))
    (args : list (list Z)) : result (list (list Z) * option nat) :=
  match args with
  | [] => Ok ([], None)
  | parameter :: rest =>
    '(parameter, found) ← pred parameter;
    if found : bool then Ok (parameter :: rest, Some O)
    else
      '(rest, found_arg) ← find_if pred rest;
      Ok (parameter :: rest, option_map S found_arg)
  end.

(** How every setter starts: the search for the first argument that
    [ParseArgument] accepts for [name] and, when there is one, the second
    call of [ParseArgument] on it.  The result is the vector, and the index
    of that argument with the string its value pointer points to.  Where a
    setter tests the settings between the two calls, the second call stands
    before the test here: it repeats the first on a buffer the first has
    left as it was ([ParseArgument_frame] below), so it does not throw. *)
Definition find_value (name : list Z) (args : list (list Z))
    : result (list (list Z) * option (nat * list Z)) :=
  '(args, found_arg) ←
    find_if (fun parameter =>
               '(parameter, value) ← ParseArgument parameter name;
               Ok (parameter, bool_decide (value <> None))) args;
  match found_arg with
  | None => Ok (args, None)
  | Some i =>
    '(parameter, value) ← ParseArgument (default [] (args !! i)) name;
    Ok (<[i := parameter]> args,
        Some (i, string_at parameter (default O value)))
  end.

Definition IsListening (s : ctsConfigSettings) : bool :=
  negb (bool_decide (ListenAddresses s = [])).

(** Lines 544-565 *)
Definition set_protocol (args : list (list Z)) (s : ctsConfigSettings)
    : result (list (list Z) * ctsConfigSettings) :=
  '(args, found_arg) ← find_value (L "-Protocol") args;
  match found_arg with
  | Some (i, value) =>
    s ← (if iordinal_equals (L "tcp") value then Ok (with_Protocol TCP s)
         else if iordinal_equals (L "udp") value then Ok (with_Protocol UDP s)
         else Throw (invalid_argument "-Protocol"));
    Ok (delete i args, s)
  | None => Ok (args, with_Protocol TCP s)
  end.

(** Lines 1009-1024 *)
Definition set_port (args : list (list Z)) (s : ctsConfigSettings)
    : result (list (list Z) * ctsConfigSettings) :=
  '(args, found_arg) ← find_value (L "-Port") args;
  match found_arg with
  | Some (i, value) =>
    port ← as_integral_unsigned_short value;
    let s := with_Port port s in
    if 0 =? Port s then Throw (invalid_argument "-Port")
    else Ok (delete i args, s)
  | None => Ok (args, s)
  end.

(** Lines 1033-1052 *)
Definition set_connections (args : list (list Z)) (s : ctsConfigSettings)
    : result (list (list Z) * ctsConfigSettings) :=
  '(args, found_arg) ← find_value (L "-connections") args;
  match found_arg with
  | Some (i, value) =>
    if IsListening s then
      Throw (invalid_argument
        "-Connections is only supported when running as a client")
    else
      limit ← as_integral_unsigned_long value;
      let s := with_ConnectionLimit limit s in
      if 0 =? ConnectionLimit s then Throw (invalid_argument "-connections")
      else Ok (delete i args, s)
  | None => Ok (args, s)
  end.

(** Lines 1059-1079 *)
Definition set_serverExitLimit (args : list (list Z)) (s : ctsConfigSettings)
    : result (list (list Z) * ctsConfigSettings) :=
  '(args, found_arg) ← find_value (L "-ServerExitLimit") args;
  match found_arg with
  | Some (i, value) =>
    if negb (IsListening s) then
      Throw (invalid_argument
        "-ServerExitLimit is only supported when running as a client")
    else
      limit ← as_integral_unsigned_long_long value;
      let s := with_ServerExitLimit limit s in
      let s := if 0 =? ServerExitLimit s
               then with_ServerExitLimit MAXULONGLONG s else s in
      Ok (delete i args, s)
  | None => Ok (args, s)
  end.

(** Lines 1086-1106 *)
Definition set_throttleConnections (args : list (list Z))
    (s : ctsConfigSettings) : result (list (list Z) * ctsConfigSettings) :=
  '(args, found_arg) ← find_value (L "-throttleconnections") args;
  match found_arg with
  | Some (i, value) =>
    if IsListening s then
      Throw (invalid_argument
        "-ThrottleConnections is only supported when running as a client")
    else
      limit ← as_integral_unsigned_long value;
      let s := with_ConnectionThrottleLimit limit s in
      let s := if 0 =? ConnectionThrottleLimit s
               then with_ConnectionThrottleLimit MAXUINT32 s else s in
      Ok (delete i args, s)
  | None => Ok (args, s)
  end.

(** Lines 1304-1322 *)
Definition set_iterations (args : list (list Z)) (s : ctsConfigSettings)
    : result (list (list Z) * ctsConfigSettings) :=
  '(args, found_arg) ← find_value (L "-Iterations") args;
  match found_arg with
  | Some (i, value) =>
    if IsListening s then
      Throw (invalid_argument
        "-Iterations is only supported when running as a client")
    else
      iterations ← as_integral_unsigned_long_long value;
      let s := with_Iterations iterations s in
      let s := if 0 =? Iterations s
               then with_Iterations MAXULONGLONG s else s in
      Ok (delete i args, s)
  | None => Ok (args, s)
  end.

(** Lines 1507-1525 *)
Definition set_prepostrecvs (args : list (list Z)) (s : ctsConfigSettings)
    : result (list (list Z) * ctsConfigSettings) :=
  '(args, found_arg) ← find_value (L "-PrePostRecvs") args;
  match found_arg with
  | Some (i, value) =>
    recvs ← as_integral_unsigned_long value;
    let s := with_PrePostRecvs recvs s in
    if 0 =? PrePostRecvs s then Throw (invalid_argument "-PrePostRecvs")
    else Ok (delete i args, s)
  | None => Ok (args, with_PrePostRecvs 1 s)
  end.

(** Lines 1606-1628 *)
Definition set_shouldVerifyBuffers (args : list (list Z))
    (s : ctsConfigSettings) : result (list (list Z) * ctsConfigSettings) :=
  '(args, found_arg) ← find_value (L "-verify") args;
  match found_arg with
  | Some (i, value) =>
    s ← (if iordinal_equals (L "always") value
            || iordinal_equals (L "data") value
         then Ok (with_UseSharedBuffer false
                    (with_ShouldVerifyBuffers true s))
         else if iordinal_equals (L "never") value
                 || iordinal_equals (L "connection") value
         then Ok (with_UseSharedBuffer true
                    (with_ShouldVerifyBuffers false s))
         else Throw (invalid_argument "-verify"));
    Ok (delete i args, s)
  | None => Ok (args, s)
  end.

(** Lines 1637-1652 *)
Definition set_timelimit (args : list (list Z)) (s : ctsConfigSettings)
    : result (list (list Z) * ctsConfigSettings) :=
  '(args, found_arg) ← find_value (L "-timelimit") args;
  match found_arg with
  | Some (i, value) =>
    limit ← as_integral_unsigned_long value;
    let s := with_TimeLimit limit s in
    if 0 =? Port s then Throw (invalid_argument "-timelimit")
    else Ok (delete i args, s)
  | None => Ok (args, s)
  end.

(** Lines 427-462 *)
Definition set_accept (args : list (list Z)) (s : ctsConfigSettings)
    : result (list (list Z) * ctsConfigSettings) :=
  let s := with_AcceptLimit DefaultAcceptExLimit s in
  '(args, found_arg) ← find_value (L "--acc") args;
  match found_arg with
  | Some (i, value) =>
    if negb (bool_decide (Protocol s = TCP)) then
      Throw (invalid_argument "--acc (only applicable to TCP)")
    else
      s ← (if iordinal_equals (L "accept") value then
             _ ← ctsSimpleAccept_constructor s;
             Ok (with_AcceptFunction (Some ctsSimpleAccept) s)
           else if iordinal_equals (L "AcceptEx") value then
             _ ← ctsAcceptEx_constructor s;
             Ok (with_AcceptFunction (Some ctsAcceptEx) s)
           else Throw (invalid_argument "--acc"));
      Ok (delete i args, s)
  | None =>
    if (0 <? length (ListenAddresses s))%nat then
      if negb (bool_decide (IoPattern s = MediaStream)) then
        _ ← ctsAcceptEx_constructor s;
        Ok (args, with_AcceptFunction (Some ctsAcceptEx) s)
      else Ok (args,
               with_AcceptFunction (Some ctsMediaStreamServerListener) s)
    else Ok (args, s)
  end.

(** [if (addr.port() == 0x0000) addr.setPort(Settings->Port)] *)
Definition assign_port (port : Z) (addr : ctSockaddr) : ctSockaddr :=
  if sockaddr_port addr =? 0 then setPort port addr else addr.

(** Lines 2101-2110 of [Startup]: the port for every listening and target
    address that has none. *)
Definition assign_ports (s : ctsConfigSettings) : ctsConfigSettings :=
  let s :=
    with_ListenAddresses (map (assign_port (Port s)) (ListenAddresses s)) s in
  with_TargetAddresses (map (assign_port (Port s)) (TargetAddresses s)) s.

(** Lines 2132-2136 of [Startup]: the default number of connections. *)
Definition default_ConnectionLimit (s : ctsConfigSettings)
    : ctsConfigSettings :=
  if bool_decide (Protocol s = UDP)
  then with_ConnectionLimit DefaultUdpConnectionLimit s
  else with_ConnectionLimit DefaultTcpConnectionLimit s.

Definition throw_if (condition : bool) (e : exn) : result unit :=
  if condition then Throw e else Ok tt.

(** Lines 2183-2198 of [Startup]: the verification settings and the count
    of receives posted. *)
Definition Startup_verify (args : list (list Z)) (s : ctsConfigSettings)
    : result (list (list Z) * ctsConfigSettings) :=
  let s := with_ShouldVerifyBuffers true s in
  let s := with_UseSharedBuffer false s in
  '(args, s) ← set_shouldVerifyBuffers args s;
  let s :=
    if bool_decide (Protocol s = UDP) then
      if negb (IsListening s) then with_UseSharedBuffer false s else s
    else s in
  '(args, s) ← set_prepostrecvs args s;
  _ ← throw_if (bool_decide (Protocol s = TCP) && ShouldVerifyBuffers s
                && (PrePostRecvs s >? 1))
        (invalid_argument
           "-PrePostRecvs > 1 requires -Verify:connection when using TCP");
  Ok (args, s).

(** Lines 2029-2158 of [Startup]: all it does before it calls
    [set_timelimit].  It either returns false after printing the usage, or
    goes on with the arguments left, the settings, and the frame size of
    the media stream. *)
Inductive Progress : Type :=
| Usage
| Parsing (args : list (list Z)) (s : ctsConfigSettings) (FrameSizeBytes : Z).

Definition Startup_settings (argv : list (list Z)) : result Progress :=
  let s := InitOncectsConfigImpl in
  if (length argv <? 2)%nat then Ok Usage
  else
  let args := drop 1 argv in
  '(args, found_help) ←
    find_if (fun _arg =>
               Ok (_arg, istarts_with (string_at _arg 0) (L "-Help")
                         || iordinal_equals (string_at _arg 0) (L "-?")))
            args;
  match found_help with
  | Some _ => Ok Usage
  | None =>
  _ ← match CreateEvent_error with
      | Some why => Throw (ctException why "CreateEvent")
      | None => Ok tt
      end;
  args ← set_error args;
  '(args, jitterlogger) ← set_logging args;
  '(args, (listen, target)) ← set_address s args;
  let s := with_TargetAddresses target (with_ListenAddresses listen s) in
  '(args, s) ← set_port args s;
  '(args, (low, high)) ← set_localport s args;
  let s := with_LocalPortHigh high (with_LocalPortLow low s) in
  let s := assign_ports s in
  '(args, s) ← set_protocol args s;
  _ ← throw_if (jitterlogger && negb (bool_decide (Protocol s = UDP)))
        (invalid_argument "Jitter can only be logged using UDP");
  '(args, (pattern, FrameSizeBytes)) ← set_ioPattern s args;
  let s := with_IoPattern pattern s in
  _ ← set_threadpool;
  _ ← throw_if (bool_decide (Protocol s = UDP)
                && negb (bool_decide (IoPattern s = MediaStream)))
        (invalid_argument "UDP only supports the MediaStream IO Pattern");
  _ ← throw_if (bool_decide (Protocol s = TCP)
                && bool_decide (IoPattern s = MediaStream))
        (invalid_argument "TCP does not support the MediaStream IO Pattern");
  let s := default_ConnectionLimit s in
  args ← set_options s args;
  args ← set_compartment s args;
  '(args, s) ← set_connections args s;
  '(args, s) ← set_throttleConnections args s;
  args ← set_buffer s args;
  args ← set_transfer s args;
  args ← set_ratelimit s args;
  '(args, s) ← set_iterations args s;
  '(args, s) ← set_serverExitLimit args s;
  Ok (Parsing args s FrameSizeBytes)
  end.

(** Lines 2159-2232 of [Startup]: from [set_timelimit] to the end. *)
Definition Startup_functions (args : list (list Z)) (s : ctsConfigSettings)
    (FrameSizeBytes : Z) : result ctsConfigSettings :=
  '(args, s) ← set_timelimit args s;
  _ ← throw_if ((0 <? FrameSizeBytes) && (FrameSizeBytes <? 20))
        (invalid_argument
           "The media stream frame size (buffer) must be at least 20 bytes");
  _ ← throw_if ((0 <? length (ListenAddresses s))%nat
                && negb (LocalPortLow s =? 0))
        (invalid_argument "Cannot specify both -listen and -LocalPort");
  _ ← (if negb (LocalPortLow s =? 0) then
         let numberOfPorts :=
           if LocalPortHigh s =? 0 then 1
           else (LocalPortHigh s - LocalPortLow s + 1) mod 65536 in
         throw_if (numberOfPorts <? ConnectionLimit s)
           (invalid_argument
              "Cannot specify more connections than specified local ports")
       else Ok tt);
  '(args, s) ← Startup_verify args s;
  args ← set_ioFunction s args;
  args ← set_create s args;
  args ← set_connect s args;
  '(args, s) ← set_accept args s;
  _ ← throw_if (negb (bool_decide (args = [])))
        (invalid_argument "unknown arguments");
  _ ← match timeBeginPeriod_error with
      | Some why => Throw (ctException why "timeBeginPeriod")
      | None => Ok tt
      end;
  Ok s.

(** [ctsConfig::Startup].  [argv] holds the [argc] arguments, the
    executable first.  The result is the value returned, with the settings
    when it is true. *)
Definition Startup (argv : list (list Z)) : result (option ctsConfigSettings) :=
  progress ← Startup_settings argv;
  match progress with
  | Usage => Ok None
  | Parsing args s FrameSizeBytes =>
    s ← Startup_functions args s FrameSizeBytes;
    Ok (Some s)
  end.

End Parser.

End Config.

Import Config.

(** The test [if (Settings->AcceptFunction)]: is a callable stored? *)
Definition has_AcceptFunction (cfg : ctsConfigSettings) : bool :=
  match AcceptFunction cfg with
  | Some _ => true
  | None => false
  end.

Module Broker.

(** ** ctsSocketBroker.cpp *)

(** Modelled from the spec: the connection record [ctsSocketState]
    (ctsSocketState.cpp is not among the sources).  The broker sees three
    phases of the lifecycle of section 4.5: a record is [Pending] from its
    creation until socket establishment (Creating, Connecting, Accepting),
    [Active] once it has told the broker [initiating_io] (InitiatingIo, Io),
    and [Closed] once it has told the broker [closing]; [is_closed] answers
    true in the last phase only. *)
Inductive SocketPhase : Set := Pending | Active | Closed.

#[global] Instance SocketPhase_eq_dec : EqDecision SocketPhase.
Proof. solve_decision. Defined.

(** The members of [class ctsSocketBroker].  [socket_pool] holds shared
    pointers: a pointer is the index of its record in the heap of the
    [World] below.  [done_event] is the state of the manual-reset event. *)
Record ctsSocketBroker : Type := mkBroker {
  socket_pool : list nat;
  total_connections_remaining : Z;   (* ULONGLONG *)
  pending_limit : Z;                 (* unsigned long *)
  pending_sockets : Z;               (* unsigned long *)
  active_sockets : Z;                (* unsigned long *)
  done_event : bool
}.

(** The broker together with the records it has created.  Records are
    shared with the threads that drive them, which change their phase; the
    broker only reads [is_closed]. *)
Record World : Type := mkWorld {
  heap : list SocketPhase;
  broker : ctsSocketBroker
}.

Definition is_closed (h : list SocketPhase) (p : nat) : bool :=
  match h !! p with
  | Some Closed => true
  | _ => false
  end.

(** The outcome of code guarded by [ctFatalCondition]. *)
Inductive fatal (A : Type) : Type :=
| Returns (a : A)
| FailFast.
Arguments Returns {A} a.
Arguments FailFast {A}.

(** Lines 32-59: the member initialisers and the limits taken from the
    settings. *)
Definition ctor_init (cfg : ctsConfigSettings) : ctsSocketBroker :=
  let total :=
    if has_AcceptFunction cfg then ServerExitLimit cfg
    else if Iterations cfg =? MAXULONGLONG then MAXULONGLONG
         else wrap64 (Iterations cfg * ConnectionLimit cfg) in
  let limit :=
    if has_AcceptFunction cfg then AcceptLimit cfg else ConnectionLimit cfg in
  let limit := if limit >? total then wrap32 total else limit in
  {| socket_pool := [];
     total_connections_remaining := total;
     pending_limit := limit;
     pending_sockets := 0;
     active_sockets := 0;
     done_event := false |}.

(** The four statements both loops share:
    push_back of a make_shared record, start() on it, ++pending_sockets,
    --total_connections_remaining. *)
Definition add_socket (w : World) : World :=
  let b := broker w in
  {| heap := heap w ++ [Pending];
     broker :=
       {| socket_pool := socket_pool b ++ [length (heap w)];
          total_connections_remaining :=
            wrap64 (total_connections_remaining b - 1);
          pending_limit := pending_limit b;
          pending_sockets := wrap32 (pending_sockets b + 1);
          active_sockets := active_sockets b;
          done_event := done_event b |} |}.

(** [std::make_shared] and [push_back] may throw.  [allocs] says how many
    records can still be constructed before one of them does: [None] when
    none ever throws. *)
Definition alloc_throws (allocs : option nat) : bool :=
  match allocs with
  | Some O => true
  | _ => false
  end.

Definition alloc_next (allocs : option nat) : option nat :=
  match allocs with
  | Some n => Some (Nat.pred n)
  | None => None
  end.

(** Lines 83-96: the constructor's loop.  An exception leaves the
    constructor: there is no broker then. *)
Fixpoint ctor_loop (fuel : nat) (cfg : ctsConfigSettings)
    (allocs : option nat) (w : World) : option World :=
  match fuel with
  | O => Some w
  | S fuel =>
    let b := broker w in
    if (0 <? total_connections_remaining b)
       && (pending_sockets b <? pending_limit b) then
      if alloc_throws allocs then None
      else
        let w := add_socket w in
        if negb (has_AcceptFunction cfg)
           && (ConnectionThrottleLimit cfg =? pending_sockets (broker w))
        then Some w
        else ctor_loop fuel cfg (alloc_next allocs) w
    else Some w
  end.

(** Lines 79-96, under the lock.  Each run of the loop body increments
    [pending_sockets], so the body runs at most
    [pending_limit - pending_sockets] times. *)
Definition ctor_fill (cfg : ctsConfigSettings) (allocs : option nat)
    (w : World) : option World :=
  let b := broker w in
  ctor_loop (Z.to_nat (pending_limit b - pending_sockets b)) cfg allocs w.

(** The state at line 72, where the constructor arms the timer: no record
    exists yet. *)
Definition armed (cfg : ctsConfigSettings) : World :=
  {| heap := []; broker := ctor_init cfg |}.

(** [ctsSocketBroker::ctsSocketBroker()], run without interruption. *)
Definition ctor (cfg : ctsConfigSettings) (allocs : option nat)
    : option World :=
  ctor_fill cfg allocs (armed cfg).

(** [ctsSocketBroker::initiating_io()] *)
Definition initiating_io (b : ctsSocketBroker) : fatal ctsSocketBroker :=
  if pending_sockets b =? 0 then FailFast
  else Returns
    {| socket_pool := socket_pool b;
       total_connections_remaining := total_connections_remaining b;
       pending_limit := pending_limit b;
       pending_sockets := wrap32 (pending_sockets b - 1);
       active_sockets := wrap32 (active_sockets b + 1);
       done_event := done_event b |}.

(** [ctsSocketBroker::closing(bool _was_active)] *)
Definition closing (_was_active : bool) (b : ctsSocketBroker)
    : fatal ctsSocketBroker :=
  if _was_active then
    if active_sockets b =? 0 then FailFast
    else Returns
      {| socket_pool := socket_pool b;
         total_connections_remaining := total_connections_remaining b;
         pending_limit := pending_limit b;
         pending_sockets := pending_sockets b;
         active_sockets := wrap32 (active_sockets b - 1);
         done_event := done_event b |}
  else
    if pending_sockets b =? 0 then FailFast
    else Returns
      {| socket_pool := socket_pool b;
         total_connections_remaining := total_connections_remaining b;
         pending_limit := pending_limit b;
         pending_sockets := wrap32 (pending_sockets b - 1);
         active_sockets := active_sockets b;
         done_event := done_event b |}.

(** Lines 195-203: erase the records that answer [is_closed]. *)
Definition reap (w : World) : World :=
  let b := broker w in
  {| heap := heap w;
     broker :=
       {| socket_pool :=
            filter (fun p => is_closed (heap w) p = false) (socket_pool b);
          total_connections_remaining := total_connections_remaining b;
          pending_limit := pending_limit b;
          pending_sockets := pending_sockets b;
          active_sockets := active_sockets b;
          done_event := done_event b |} |}.

(** Lines 217-235: the refill loop of the timer callback.  An exception is
    caught by the handler around the loop, which ends the callback. *)
Fixpoint timer_loop (fuel : nat) (cfg : ctsConfigSettings)
    (allocs : option nat) (w : World) : World :=
  match fuel with
  | O => w
  | S fuel =>
    let b := broker w in
    if (pending_sockets b <? pending_limit b)
       && (0 <? total_connections_remaining b) then
      if negb (has_AcceptFunction cfg)
         && (wrap32 (pending_sockets b + active_sockets b)
               >=? ConnectionLimit cfg)
      then w
      else if negb (has_AcceptFunction cfg)
              && (pending_sockets b >=? ConnectionThrottleLimit cfg)
      then w
      else if alloc_throws allocs then w
      else timer_loop fuel cfg (alloc_next allocs) (add_socket w)
    else w
  end.

Definition signal_done (w : World) : World :=
  let b := broker w in
  {| heap := heap w;
     broker :=
       {| socket_pool := socket_pool b;
          total_connections_remaining := total_connections_remaining b;
          pending_limit := pending_limit b;
          pending_sockets := pending_sockets b;
          active_sockets := active_sockets b;
          done_event := true |} |}.

(** [ctsSocketBroker::TimerCallback].  The second component tells whether
    [SetEvent(done_event)] was called. *)
Definition TimerCallback (cfg : ctsConfigSettings) (allocs : option nat)
    (w : World) : World * bool :=
  let w := reap w in
  let b := broker w in
  if (0 =? total_connections_remaining b)
     && (0 =? pending_sockets b)
     && (0 =? active_sockets b) then
    (signal_done w, true)
  else if done_event b then (w, false)
  else
    (timer_loop (Z.to_nat (pending_limit b - pending_sockets b))
       cfg allocs w, false).

(** *** The broker as a transition system

    Every member function takes the broker's critical section for its whole
    body, so a call is one step.  The constructor arms the timer at line 72
    and takes the lock for its loop at line 79 only: callbacks, and calls
    from the records they create, may come before that loop. *)

Definition count_phase (p : SocketPhase) (h : list SocketPhase) : Z :=
  Z.of_nat (length (filter (fun q => q = p) h)).

Definition with_broker (w : World) (b : ctsSocketBroker) : World :=
  {| heap := heap w; broker := b |}.

Definition with_phase (w : World) (i : nat) (p : SocketPhase)
    (b : ctsSocketBroker) : World :=
  {| heap := <[i := p]> (heap w); broker := b |}.

(** Calls in any order, by anyone: what the broker's interface allows.  A
    call that ends the process has no successor. *)
Inductive call_step (cfg : ctsConfigSettings) : World -> World -> Prop :=
| call_timer w allocs :
    call_step cfg w (TimerCallback cfg allocs w).1
| call_initiating_io w b' :
    initiating_io (broker w) = Returns b' ->
    call_step cfg w (with_broker w b')
| call_closing w was_active b' :
    closing was_active (broker w) = Returns b' ->
    call_step cfg w (with_broker w b')
| call_phase w i p :
    call_step cfg w (with_phase w i p (broker w)).

(** Calls under the protocol of the connection records: a [Pending] record
    calls [initiating_io] and becomes [Active], or calls [closing(false)]
    and is [Closed]; an [Active] record calls [closing(true)] and is
    [Closed]; a [Closed] record calls nothing. *)
Inductive protocol_step (cfg : ctsConfigSettings) : World -> World -> Prop :=
| protocol_timer w allocs :
    protocol_step cfg w (TimerCallback cfg allocs w).1
| protocol_initiating_io w i b' :
    heap w !! i = Some Pending ->
    initiating_io (broker w) = Returns b' ->
    protocol_step cfg w (with_phase w i Active b')
| protocol_closing_pending w i b' :
    heap w !! i = Some Pending ->
    closing false (broker w) = Returns b' ->
    protocol_step cfg w (with_phase w i Closed b')
| protocol_closing_active w i b' :
    heap w !! i = Some Active ->
    closing true (broker w) = Returns b' ->
    protocol_step cfg w (with_phase w i Closed b').

(** The states of a run.  The index tells whether the constructor's loop
    has run. *)
Inductive reach (step : ctsConfigSettings -> World -> World -> Prop)
    (cfg : ctsConfigSettings) : bool -> World -> Prop :=
| reach_armed : reach step cfg false (armed cfg)
| reach_fill w w' allocs :
    reach step cfg false w ->
    ctor_fill cfg allocs w = Some w' ->
    reach step cfg true w'
| reach_step d w w' :
    reach step cfg d w ->
    step cfg w w' ->
    reach step cfg d w'.

(** The runs in which no call comes before the end of the constructor. *)
Inductive reach_constructed
    (step : ctsConfigSettings -> World -> World -> Prop)
    (cfg : ctsConfigSettings) : World -> Prop :=
| constructed_ctor w allocs :
    ctor cfg allocs = Some w ->
    reach_constructed step cfg w
| constructed_step w w' :
    reach_constructed step cfg w ->
    step cfg w w' ->
    reach_constructed step cfg w'.

(** A chain of record constructions, each made with connections remaining. *)
Inductive constructions : World -> World -> Prop :=
| constructions_none w : constructions w w
| constructions_more w w' :
    0 < total_connections_remaining (broker w) ->
    constructions (add_socket w) w' ->
    constructions w w'.

(** The ranges of the members' types. *)
Definition broker_in_range (b : ctsSocketBroker) : Prop :=
  0 <= total_connections_remaining b <= MAXULONGLONG /\
  0 <= pending_limit b <= MAXULONG /\
  0 <= pending_sockets b <= MAXULONG /\
  0 <= active_sockets b <= MAXULONG.

(** The two limits of the client role. *)
Definition within_limits (cfg : ctsConfigSettings) (b : ctsSocketBroker)
    : Prop :=
  pending_sockets b + active_sockets b <= ConnectionLimit cfg /\
  pending_sockets b <= ConnectionThrottleLimit cfg.

(** Lines 217-229: the test of the callback's loop and its two [break]s,
    as one condition on the broker. *)
Definition refill_test (cfg : ctsConfigSettings) (b : ctsSocketBroker)
    : bool :=
  (pending_sockets b <? pending_limit b)
  && (0 <? total_connections_remaining b)
  && negb (negb (has_AcceptFunction cfg)
           && (wrap32 (pending_sockets b + active_sockets b)
                 >=? ConnectionLimit cfg))
  && negb (negb (has_AcceptFunction cfg)
           && (pending_sockets b >=? ConnectionThrottleLimit cfg)).

(** *** The specification's words, for comparison *)

(** Section 4.6: the product of iterations and connection limit,
    saturating. *)
Definition saturating_product (a b : Z) : Z := Z.min (a * b) MAXULONGLONG.

(** Section 4.6, action 3: the condition under which one more record is
    created. *)
Definition spec_refill_condition (cfg : ctsConfigSettings) (w : World)
    : bool :=
  let b := broker w in
  (pending_sockets b <? pending_limit b)
  && (0 <? total_connections_remaining b)
  && (has_AcceptFunction cfg
      || ((pending_sockets b + active_sockets b <? ConnectionLimit cfg)
          && (pending_sockets b <? ConnectionThrottleLimit cfg))).

End Broker.

Import Broker.

(** ** The ranges of the settings' types, and what the parser guarantees *)

(** What [Startup] guarantees of the port and of the four limits it
    reads: they are in the range of their type and not zero. *)
Definition limits_valid (s : ctsConfigSettings) : Prop :=
  0 < Port s <= MAXWORD /\
  0 < ConnectionLimit s <= MAXULONG /\
  0 < ConnectionThrottleLimit s <= MAXULONG /\
  0 < Iterations s <= MAXULONGLONG /\
  0 < ServerExitLimit s <= MAXULONGLONG.

Definition settings_in_range (cfg : ctsConfigSettings) : Prop :=
  0 <= Iterations cfg <= MAXULONGLONG /\
  0 <= ServerExitLimit cfg <= MAXULONGLONG /\
  0 <= ConnectionLimit cfg <= MAXULONG /\
  0 <= AcceptLimit cfg <= MAXULONG /\
  0 <= ConnectionThrottleLimit cfg <= MAXULONG.

(** The members of the settings other than [TimeLimit] are those of [s]. *)
Definition same_but_TimeLimit (s s' : ctsConfigSettings) : Prop :=
  Protocol s' = Protocol s /\
  IoPattern s' = IoPattern s /\
  Port s' = Port s /\
  ListenAddresses s' = ListenAddresses s /\
  TargetAddresses s' = TargetAddresses s /\
  LocalPortLow s' = LocalPortLow s /\
  LocalPortHigh s' = LocalPortHigh s /\
  Iterations s' = Iterations s /\
  ConnectionLimit s' = ConnectionLimit s /\
  AcceptLimit s' = AcceptLimit s /\
  ConnectionThrottleLimit s' = ConnectionThrottleLimit s /\
  ServerExitLimit s' = ServerExitLimit s /\
  PrePostRecvs s' = PrePostRecvs s /\
  ShouldVerifyBuffers s' = ShouldVerifyBuffers s /\
  UseSharedBuffer s' = UseSharedBuffer s /\
  AcceptFunction s' = AcceptFunction s.

(** ** The library functions, to evaluate the parser on examples

    Letters are compared after folding [a-z] to [A-Z]; numbers are read as
    [wcstoul] reads them. *)

Definition fold_case (c : Z) : Z :=
  if (97 <=? c) && (c <=? 122) then c - 32 else c.

Definition reference_iordinal_equals (a b : list Z) : bool :=
  bool_decide (map fold_case a = map fold_case b).

Definition reference_istarts_with (a b : list Z) : bool :=
  reference_iordinal_equals (take (length b) a) b.

Definition digit_value (base c : Z) : option Z :=
  if (48 <=? c) && (c <=? 57) then Some (c - 48)
  else if (base =? 16) && (97 <=? c) && (c <=? 102) then Some (c - 87)
  else if (base =? 16) && (65 <=? c) && (c <=? 70) then Some (c - 55)
  else None.

Fixpoint read_digits (base : Z) (s : list Z) (value : Z) (count : nat)
    : Z * nat :=
  match s with
  | c :: rest =>
    match digit_value base c with
    | Some d => read_digits base rest (value * base + d) (S count)
    | None => (value, count)
    end
  | [] => (value, count)
  end.

Definition skip_0x (base : Z) (s : list Z) : nat :=
  match s with
  | zero :: x :: d :: _ =>
    if (base =? 16) && (zero =? 48) && ((x =? 120) || (x =? 88))
       && bool_decide (is_Some (digit_value base d))
    then 2%nat else O
  | _ => O
  end.

(** [iswspace] on the characters a command line holds. *)
Definition is_space (c : Z) : bool :=
  ((9 <=? c) && (c <=? 13)) || (c =? 32).

Fixpoint skip_space (s : list Z) : nat :=
  match s with
  | c :: rest => if is_space c then S (skip_space rest) else O
  | [] => O
  end.

(** An optional sign: whether it is [-], and its length. *)
Definition read_sign (s : list Z) : bool * nat :=
  match s with
  | 45 :: _ => (true, 1%nat)
  | 43 :: _ => (false, 1%nat)
  | _ => (false, O)
  end.

(** What [wcstoul] and the like read: white space, a sign, [0x] when the
    base is 16, digits.  The result is the sign, the magnitude and the
    number of characters read, or [None] when there is no digit. *)
Definition read_number (s : list Z) (base : Z) : option (bool * Z * nat) :=
  let spaces := skip_space s in
  let '(negative, sign) := read_sign (drop spaces s) in
  let start := (spaces + sign)%nat in
  let prefix := skip_0x base (drop start s) in
  let '(value, count) := read_digits base (drop (start + prefix) s) 0 O in
  if (count =? 0)%nat then None
  else Some (negative, value, (start + prefix + count)%nat).

(** [std::stoul] and [std::stoull], for the largest value [max] of the
    type: a magnitude above [max] is out of range, and a negative number is
    negated in the unsigned type. *)
Definition reference_stou (max : Z) (s : list Z) (base : Z)
    : result (Z * nat) :=
  match read_number s base with
  | None => Throw (invalid_argument "invalid stoul argument")
  | Some (negative, value, idx) =>
    if (0 <=? value) && (value <=? max)
    then Ok (if negative then (max + 1 - value) mod (max + 1) else value, idx)
    else Throw (out_of_range "stoul argument out of range")
  end.

(** [std::stoll] *)
Definition reference_stoll (s : list Z) (base : Z) : result (Z * nat) :=
  match read_number s base with
  | None => Throw (invalid_argument "invalid stoll argument")
  | Some (negative, value, idx) =>
    if negative then
      if (0 <=? value) && (value <=? 9223372036854775808)
      then Ok (- value, idx)
      else Throw (out_of_range "stoll argument out of range")
    else
      if (0 <=? value) && (value <=? 9223372036854775807)
      then Ok (value, idx)
      else Throw (out_of_range "stoll argument out of range")
  end.

Definition reference_default_settings : ctsConfigSettings :=
  {| Protocol := NoProtocolSet;
     IoPattern := NoIoSet;
     Port := 0;
     ListenAddresses := [];
     TargetAddresses := [];
     LocalPortLow := 0;
     LocalPortHigh := 0;
     Iterations := 0;
     ConnectionLimit := 0;
     AcceptLimit := 0;
     ConnectionThrottleLimit := 0;
     ServerExitLimit := 0;
     TimeLimit := 0;
     PrePostRecvs := 0;
     ShouldVerifyBuffers := false;
     UseSharedBuffer := false;
     AcceptFunction := None |}.

(** The library functions, for the embedded setters to run on.  The
    setters themselves are tied to them further down, in
    [reference_externals]; none is called through this record. *)
Definition reference_library : Externals.
Proof.
  refine
    {| iordinal_equals := reference_iordinal_equals;
       istarts_with := reference_istarts_with;
       stoul := reference_stou MAXULONG;
       stoull := reference_stou MAXULONGLONG;
       default_settings := reference_default_settings;
       CreateEvent_error := None;
       timeBeginPeriod_error := None;
       set_error := fun _ => Throw (exception "not linked");
       set_logging := fun _ => Throw (exception "not linked");
       set_address := fun _ _ => Throw (exception "not linked");
       set_localport := fun _ _ => Throw (exception "not linked");
       set_ioPattern := fun _ _ => Throw (exception "not linked");
       set_threadpool := Throw (exception "not linked");
       ctsSimpleAccept_constructor := fun _ => Throw (exception "not linked");
       ctsAcceptEx_constructor := fun _ => Throw (exception "not linked");
       set_options := fun _ _ => Throw (exception "not linked");
       set_compartment := fun _ _ => Throw (exception "not linked");
       set_buffer := fun _ _ => Throw (exception "not linked");
       set_transfer := fun _ _ => Throw (exception "not linked");
       set_ratelimit := fun _ _ => Throw (exception "not linked");
       set_ioFunction := fun _ _ => Throw (exception "not linked");
       set_create := fun _ _ => Throw (exception "not linked");
       set_connect := fun _ _ => Throw (exception "not linked") |}.
  all: intros s base v idx; unfold reference_stou;
    destruct (read_number s base) as [[[negative value] n]|]; [|discriminate];
    match goal with
    | |- context [value <=? ?max] =>
      destruct ((0 <=? value) && (value <=? max)) eqn:Hr; [|discriminate];
      intros [= <- _]; apply andb_true_iff in Hr as [H0 H1];
      apply Z.leb_le in H0, H1;
      destruct negative; [|lia];
      pose proof (Z.mod_pos_bound (max + 1 - value) (max + 1));
      unfold MAXULONG, MAXULONGLONG in *; lia
    end.
Defined.

(** Command lines.  Every argument is the buffer of its string. *)
Definition command_line (words : list string) : list (list Z) :=
  map (fun w => c_str (L w)) words.

(** A client that keeps 8 connections, 2 of them pending at a time
    ([-connections:8 -throttleconnections:2]). *)
Definition throttled_client : ctsConfigSettings :=
  {| Protocol := TCP;
     IoPattern := Push;
     Port := 4444;
     ListenAddresses := [];
     TargetAddresses := [mkSockaddr 1 4444];
     LocalPortLow := 0;
     LocalPortHigh := 0;
     Iterations := MAXULONGLONG;
     ConnectionLimit := 8;
     AcceptLimit := 100;
     ConnectionThrottleLimit := 2;
     ServerExitLimit := MAXULONGLONG;
     TimeLimit := 0;
     PrePostRecvs := 1;
     ShouldVerifyBuffers := true;
     UseSharedBuffer := false;
     AcceptFunction := None |}.

(** A client asked for [2^63] iterations of 2 connections
    ([-iterations:9223372036854775808 -connections:2]). *)
Definition long_running_client : ctsConfigSettings :=
  {| Protocol := TCP;
     IoPattern := Push;
     Port := 4444;
     ListenAddresses := [];
     TargetAddresses := [mkSockaddr 1 4444];
     LocalPortLow := 0;
     LocalPortHigh := 0;
     Iterations := 9223372036854775808;
     ConnectionLimit := 2;
     AcceptLimit := 100;
     ConnectionThrottleLimit := 1000;
     ServerExitLimit := MAXULONGLONG;
     TimeLimit := 0;
     PrePostRecvs := 1;
     ShouldVerifyBuffers := true;
     UseSharedBuffer := false;
     AcceptFunction := None |}.

(** A server that exits after 3 connections, accepting 2 at a time. *)
Definition small_server : ctsConfigSettings :=
  {| Protocol := TCP;
     IoPattern := Push;
     Port := 4444;
     ListenAddresses := [mkSockaddr 0 4444];
     TargetAddresses := [];
     LocalPortLow := 0;
     LocalPortHigh := 0;
     Iterations := MAXULONGLONG;
     ConnectionLimit := 8;
     AcceptLimit := 2;
     ConnectionThrottleLimit := 1000;
     ServerExitLimit := 3;
     TimeLimit := 0;
     PrePostRecvs := 1;
     ShouldVerifyBuffers := true;
     UseSharedBuffer := false;
     AcceptFunction := Some ctsAcceptEx |}.

(** A server that listens on every address and is given no limit, and its
    settings as [Startup] leaves them: no limit on the connections it
    serves, 100 accepts pended at a time. *)
Definition listen_forever : list (list Z) :=
  command_line ["ctsTraffic.exe"; "-listen:*"]%string.

Definition busy_server : ctsConfigSettings :=
  {| Protocol := TCP;
     IoPattern := Push;
     Port := 4444;
     ListenAddresses := [mkSockaddr 2 4444; mkSockaddr 23 4444];
     TargetAddresses := [];
     LocalPortLow := 0;
     LocalPortHigh := 0;
     Iterations := MAXULONGLONG;
     ConnectionLimit := 8;
     AcceptLimit := 100;
     ConnectionThrottleLimit := 1000;
     ServerExitLimit := MAXULONGLONG;
     TimeLimit := 0;
     PrePostRecvs := 1;
     ShouldVerifyBuffers := true;
     UseSharedBuffer := false;
     AcceptFunction := Some ctsAcceptEx |}.

(** The first client with a time limit of a minute already stored. *)
Definition timed_client : ctsConfigSettings :=
  with_TimeLimit 60000 throttled_client.

(** A client asked for [2^63] iterations of 2 connections. *)
Definition overflowing_iterations : list (list Z) :=
  command_line ["ctsTraffic.exe"; "-target:host";
                "-iterations:9223372036854775808"; "-connections:2"]%string.

(** A TCP client that posts two receives and verifies the connection
    only. *)
Definition two_receives : list (list Z) :=
  command_line ["ctsTraffic.exe"; "-target:host"; "-PrePostRecvs:2";
                "-verify:connection"]%string.

(** A UDP client that receives a stream of a million bits per second for a
    minute, asked to verify the connection only. *)
Definition udp_client : list (list Z) :=
  command_line ["ctsTraffic.exe"; "-target:host"; "-protocol:udp";
                "-BitsPerSecond:1000000"; "-FrameRate:30"; "-BufferDepth:1";
                "-StreamLength:60"; "-verify:connection"]%string.

(** The client above once its first two records exist. *)
Definition two_pending : World :=
  add_socket (add_socket (armed throttled_client)).

(** The first client when its first record has called [initiating_io]. *)
Definition one_active : World :=
  match initiating_io (broker two_pending) with
  | Returns b' => with_phase two_pending 0 Active b'
  | FailFast => two_pending
  end.

(** ** What the broker keeps over a whole run *)

(** The counters of a broker against the records created so far and the
    limits it was constructed with; a signaled [done_event] goes with all
    three counters at zero. *)
Definition run_invariant (cfg : ctsConfigSettings) (w : World) : Prop :=
  broker_in_range (broker w) /\
  Z.of_nat (length (heap w)) + total_connections_remaining (broker w)
    = total_connections_remaining (ctor_init cfg) /\
  pending_limit (broker w) = pending_limit (ctor_init cfg) /\
  pending_sockets (broker w) <= pending_limit (broker w) /\
  (done_event (broker w) = true ->
   total_connections_remaining (broker w) = 0 /\
   pending_sockets (broker w) = 0 /\
   active_sockets (broker w) = 0).


(** A record of a run tells the broker that it closes, for the examples. *)
Definition close_record (was_active : bool) (i : nat) (w : World) : World :=
  match closing was_active (broker w) with
  | Returns b' => with_phase w i Closed b'
  | FailFast => w
  end.

(** The server above from its construction to the signal: its first two
    records close, the callback creates the third and last, which closes,
    and the next callback signals [done_event]. *)
Definition served_all : World :=
  let w := add_socket (add_socket (armed small_server)) in
  let w := close_record false 1 (close_record false 0 w) in
  let w := (TimerCallback small_server None w).1 in
  let w := close_record false 2 w in
  (TimerCallback small_server None w).1.



(** ** What [Startup] guarantees of the options of each role *)

(** The default [Startup] gives [ConnectionLimit] before it looks for
    [-connections]. *)
Definition protocol_ConnectionLimit (s : ctsConfigSettings) : Z :=
  if bool_decide (Protocol s = UDP)
  then Config.DefaultUdpConnectionLimit else Config.DefaultTcpConnectionLimit.

(** The options of the roles as [InitOncectsConfigImpl] sets them. *)
Definition client_defaults (s : ctsConfigSettings) : Prop :=
  Iterations s = MAXULONGLONG /\
  ConnectionThrottleLimit s = Config.DefaultConnectionThrottleLimit /\
  ServerExitLimit s = MAXULONGLONG.

(** A server keeps the defaults of the options of a client, and a client
    the default of the option of a server. *)
Definition role_defaults (s : ctsConfigSettings) : Prop :=
  (IsListening s = true ->
   Iterations s = MAXULONGLONG /\
   ConnectionThrottleLimit s = Config.DefaultConnectionThrottleLimit /\
   ConnectionLimit s = protocol_ConnectionLimit s) /\
  (IsListening s = false -> ServerExitLimit s = MAXULONGLONG).

(** A server that listens on every address and exits after three
    connections. *)
Definition listening_server : list (list Z) :=
  command_line ["ctsTraffic.exe"; "-listen:*"; "-ServerExitLimit:3"]%string.

Section Help.

Context `{Externals}.

(** The test of [Startup] for the help text. *)
Definition asks_for_help (_arg : list Z) : bool :=
  istarts_with (string_at _arg 0) (L "-Help")
  || iordinal_equals (string_at _arg 0) (L "-?").

End Help.

(** ** ctsConfig.cpp: the ranges and their accessors *)

Module Ranges.

(** The file's statics that hold a value or a range (lines 93-98), with
    [Settings->TcpBytesPerSecondPeriod], which [set_ratelimit] writes. *)
Record ctsConfigRanges : Type := mkRanges {
  buffersize_low : Z;             (* unsigned long *)
  buffersize_high : Z;            (* unsigned long *)
  ratelimit_low : Z;              (* long long *)
  ratelimit_high : Z;             (* long long *)
  transfer_low : Z;               (* unsigned long long *)
  transfer_high : Z;              (* unsigned long long *)
  TcpBytesPerSecondPeriod : Z     (* long long *)
}.

Definition DefaultTransfer : Z := 1073741824.
Definition DefaultBufferSize : Z := 65536.

(** The statics as the file initialises them. *)
Definition initial_ranges (period : Z) : ctsConfigRanges :=
  {| buffersize_low := 0; buffersize_high := 0;
     ratelimit_low := 0; ratelimit_high := 0;
     transfer_low := DefaultTransfer; transfer_high := 0;
     TcpBytesPerSecondPeriod := period |}.

(** A reference parameter [T&]: how to read and to write the variable it
    is bound to, in a state [Vars].  Two parameters bound to one variable are
    the same reference. *)
Record reference (Vars : Type) : Type := mkReference {
  read : Vars -> Z;
  write : Z -> Vars -> Vars
}.
Arguments read {Vars} _ _.
Arguments write {Vars} _ _ _.

Definition buffersize_low_ref : reference ctsConfigRanges :=
  {| read := buffersize_low;
     write v r :=
       {| buffersize_low := v; buffersize_high := buffersize_high r;
          ratelimit_low := ratelimit_low r; ratelimit_high := ratelimit_high r;
          transfer_low := transfer_low r; transfer_high := transfer_high r;
          TcpBytesPerSecondPeriod := TcpBytesPerSecondPeriod r |} |}.

Definition buffersize_high_ref : reference ctsConfigRanges :=
  {| read := buffersize_high;
     write v r :=
       {| buffersize_low := buffersize_low r; buffersize_high := v;
          ratelimit_low := ratelimit_low r; ratelimit_high := ratelimit_high r;
          transfer_low := transfer_low r; transfer_high := transfer_high r;
          TcpBytesPerSecondPeriod := TcpBytesPerSecondPeriod r |} |}.

Definition ratelimit_low_ref : reference ctsConfigRanges :=
  {| read := ratelimit_low;
     write v r :=
       {| buffersize_low := buffersize_low r;
          buffersize_high := buffersize_high r;
          ratelimit_low := v; ratelimit_high := ratelimit_high r;
          transfer_low := transfer_low r; transfer_high := transfer_high r;
          TcpBytesPerSecondPeriod := TcpBytesPerSecondPeriod r |} |}.

Definition transfer_low_ref : reference ctsConfigRanges :=
  {| read := transfer_low;
     write v r :=
       {| buffersize_low := buffersize_low r;
          buffersize_high := buffersize_high r;
          ratelimit_low := ratelimit_low r; ratelimit_high := ratelimit_high r;
          transfer_low := v; transfer_high := transfer_high r;
          TcpBytesPerSecondPeriod := TcpBytesPerSecondPeriod r |} |}.

Definition transfer_high_ref : reference ctsConfigRanges :=
  {| read := transfer_high;
     write v r :=
       {| buffersize_low := buffersize_low r;
          buffersize_high := buffersize_high r;
          ratelimit_low := ratelimit_low r; ratelimit_high := ratelimit_high r;
          transfer_low := transfer_low r; transfer_high := v;
          TcpBytesPerSecondPeriod := TcpBytesPerSecondPeriod r |} |}.

Definition with_TcpBytesPerSecondPeriod (v : Z) (r : ctsConfigRanges)
    : ctsConfigRanges :=
  {| buffersize_low := buffersize_low r; buffersize_high := buffersize_high r;
     ratelimit_low := ratelimit_low r; ratelimit_high := ratelimit_high r;
     transfer_low := transfer_low r; transfer_high := transfer_high r;
     TcpBytesPerSecondPeriod := v |}.

Definition LocalPortLow_ref : reference ctsConfigSettings :=
  {| read := LocalPortLow; write := with_LocalPortLow |}.

Definition LocalPortHigh_ref : reference ctsConfigSettings :=
  {| read := LocalPortHigh; write := with_LocalPortHigh |}.

(** [_value[i]], for [i] up to the terminator. *)
Definition char_at (buf : list Z) (i : nat) : Z := default 0 (buf !! i).

(** Lines 1107-1134.  [_value] is the buffer from the pointer on; what the
    function writes to it is not read again by its callers, which erase the
    argument or let the exception end [Startup]. *)
Definition get_range {Vars : Type} (as_integral : list Z -> result Z)
    (_value : list Z) (_out_low _out_high : reference Vars) (vars : Vars)
    : result Vars :=
  let value_length := wcslen _value in
  if (value_length <? 5)%nat
     || negb (char_at _value 0 =? 91)
     || negb (char_at _value (value_length - 1) =? 93)
  then Throw (invalid_argument "range value [###,###]")
  else
    let comma_delimiter := std_find (take value_length _value) 44 in
    if negb (comma_delimiter + 1 <? value_length)%nat
    then Throw (invalid_argument "range value [###,###]")
    else
      (* null-terminate the first number at the delimiter *)
      let buffer := <[comma_delimiter := 0]> _value in
      low ← as_integral (string_at buffer 1);
      let vars := write _out_low low vars in
      (* null-terminate the second number over the last ']' *)
      let buffer := <[(value_length - 1)%nat := 0]> buffer in
      high ← as_integral (string_at buffer (comma_delimiter + 1));
      let vars := write _out_high high vars in
      if read _out_high vars <? read _out_low vars
      then Throw (invalid_argument "range value [###,###]")
      else Ok vars.

Section Setters.

Context `{Externals}.

(** [std::stoll], and the one draw [random.uniform_int(low, high)] of a
    call of an accessor (ctRandom.hpp is not among the sources). *)
Variable stoll : list Z -> Z -> result (Z * nat).
Variable uniform_int : Z -> Z -> Z.

Definition as_integral_long_long (_string : list Z) : result Z :=
  '(return_value, first_unconverted_offset) ←
    (if has_x _string then stoll _string 16 else stoll _string 10);
  if negb (first_unconverted_offset =? length _string)%nat
  then Throw (invalid_argument "Invalid argument: %s")
  else Ok return_value.

(** Lines 1146-1172 *)
Definition set_buffer (args : list (list Z)) (s : ctsConfigSettings)
    (r : ctsConfigRanges) : result (list (list Z) * ctsConfigRanges) :=
  '(args, found_arg) ← find_value (L "-buffer") args;
  match found_arg with
  | Some (i, value) =>
    if negb (bool_decide (Protocol s = TCP)) then
      Throw (invalid_argument "-buffer (only applicable to TCP)")
    else
      r ← (if char_at value 0 =? 91
           then get_range as_integral_unsigned_long (c_str value)
                  buffersize_low_ref buffersize_high_ref r
           else
             v ← as_integral_unsigned_long value;
             Ok (write buffersize_low_ref v r));
      if 0 =? buffersize_low r then Throw (invalid_argument "-buffer")
      else Ok (delete i args, r)
  | None =>
    Ok (args,
        write buffersize_high_ref 0
          (write buffersize_low_ref DefaultBufferSize r))
  end.

(** Lines 1185-1208 *)
Definition set_transfer (args : list (list Z)) (s : ctsConfigSettings)
    (r : ctsConfigRanges) : result (list (list Z) * ctsConfigRanges) :=
  '(args, found_arg) ← find_value (L "-transfer") args;
  match found_arg with
  | Some (i, value) =>
    if negb (bool_decide (Protocol s = TCP)) then
      Throw (invalid_argument "-transfer (only applicable to TCP)")
    else
      r ← (if char_at value 0 =? 91
           then get_range as_integral_unsigned_long_long (c_str value)
                  transfer_low_ref transfer_high_ref r
           else
             v ← as_integral_unsigned_long_long value;
             Ok (write transfer_low_ref v r));
      if 0 =? transfer_low r then Throw (invalid_argument "-transfer")
      else Ok (delete i args, r)
  | None => Ok (args, r)
  end.

(** Lines 1220-1242 *)
Definition set_localport (args : list (list Z)) (s : ctsConfigSettings)
    : result (list (list Z) * ctsConfigSettings) :=
  '(args, found_arg) ← find_value (L "-LocalPort") args;
  match found_arg with
  | Some (i, value) =>
    s ← (if char_at value 0 =? 91
         then get_range as_integral_unsigned_short (c_str value)
                LocalPortLow_ref LocalPortHigh_ref s
         else
           v ← as_integral_unsigned_short value;
           Ok (with_LocalPortLow v s));
    if 0 =? LocalPortLow s then Throw (invalid_argument "-LocalPort")
    else Ok (delete i args, s)
  | None => Ok (args, s)
  end.

(** Lines 1255-1295.  Both reference parameters of [get_range] are bound
    to [ratelimit_low]. *)
Definition set_ratelimit (args : list (list Z)) (s : ctsConfigSettings)
    (r : ctsConfigRanges) : result (list (list Z) * ctsConfigRanges) :=
  '(args, found_ratelimit) ← find_value (L "-RateLimit") args;
  '(args, r) ←
    match found_ratelimit with
    | Some (i, value) =>
      if negb (bool_decide (Protocol s = TCP)) then
        Throw (invalid_argument "-RateLimit (only applicable to TCP)")
      else
        r ← (if char_at value 0 =? 91
             then get_range as_integral_long_long (c_str value)
                    ratelimit_low_ref ratelimit_low_ref r
             else
               v ← as_integral_long_long value;
               Ok (write ratelimit_low_ref v r));
        if 0 =? ratelimit_low r then Throw (invalid_argument "-RateLimit")
        else Ok (delete i args, r)
    | None => Ok (args, r)
    end;
  '(args, found_ratelimit_period) ← find_value (L "-RateLimitPeriod") args;
  match found_ratelimit_period with
  | Some (i, value) =>
    if negb (bool_decide (Protocol s = TCP)) then
      Throw (invalid_argument "-RateLimitPeriod (only applicable to TCP)")
    else if 0 =? ratelimit_low r then
      Throw (invalid_argument
               "-RateLimitPeriod requires specifying -RateLimit")
    else
      v ← as_integral_long_long value;
      Ok (delete i args, with_TcpBytesPerSecondPeriod v r)
  | None => Ok (args, r)
  end.

(** Lines 2962-3008: the accessors. *)
Definition GetBufferSize (r : ctsConfigRanges) : Z :=
  if 0 =? buffersize_high r then buffersize_low r
  else uniform_int (buffersize_low r) (buffersize_high r).

Definition GetMaxBufferSize (r : ctsConfigRanges) : Z :=
  if buffersize_high r =? 0 then buffersize_low r else buffersize_high r.

Definition GetTransferSize (r : ctsConfigRanges) : Z :=
  if 0 =? transfer_high r then transfer_low r
  else uniform_int (transfer_low r) (transfer_high r).

Definition GetTcpBytesPerSecond (r : ctsConfigRanges) : Z :=
  if 0 =? ratelimit_high r then ratelimit_low r
  else uniform_int (ratelimit_low r) (ratelimit_high r).

End Setters.

(** Two variables of a pair, for the examples. *)
Definition first_ref : reference (Z * Z) :=
  {| read := fst; write v p := (v, p.2) |}.

Definition second_ref : reference (Z * Z) :=
  {| read := snd; write v p := (p.1, v) |}.

End Ranges.

(** The arguments of a client that sends 16 to 4096 bytes at a time, and of
    one limited to between 9 and 1 bytes per second. *)
Definition buffer_range : list (list Z) :=
  command_line ["-buffer:[16,4096]"]%string.

Definition inverted_ratelimit : list (list Z) :=
  command_line ["-RateLimit:[9,1]"]%string.

Definition local_port_range : list (list Z) :=
  command_line ["-LocalPort:[50000,50007]"]%string.

(** ** SocketFunctions/ctsSimpleAccept.hpp *)

Module SimpleAccept.

(** A [LONG] after [InterlockedIncrement] or [InterlockedDecrement]. *)
Definition wrapLONG (z : Z) : Z :=
  (z + 2147483648) mod 4294967296 - 2147483648.

(** The members of [ctsSimpleAcceptImpl] that are vectors.  A [SOCKET] is
    its handle; a [weak_ptr<ctsSocket>] is the number of the socket. *)
Record ctsSimpleAcceptImpl : Type := mkImpl {
  listening_sockets : list nat;
  listening_sockets_refcount : list Z;
  accepting_sockets : list nat
}.

(** *** The constructor *)

(** What can leave the constructor. *)
Inductive thrown : Type :=
| ctException_thrown (why : Z) (what : string)
| std_exception (what : string)
| bad_alloc.

(** What the system answers to the calls the constructor makes for one
    address: the handle [WSASocket] returns ([None] for [INVALID_SOCKET])
    and the error it sets, what [SetPreBindOptions] returns, the errors of
    [bind] and [listen] ([None] when they succeed), and whether [push_back]
    finds memory.  ([SetPreConnectOptions] returns 0 whatever it is
    called with.) *)
Record listen_calls : Type := mkCalls {
  WSASocket : option nat;
  WSASocket_error : Z;
  SetPreBindOptions : Z;
  bind_error : option Z;
  listen_error : option Z;
  push_back_throws : bool
}.

Definition SetPreConnectOptions : Z := 0.
Definition NO_ERROR : Z := 0.

(** [closesocket]: the handle is no longer open. *)
Fixpoint closesocket (h : nat) (open : list nat) : list nat :=
  match open with
  | [] => []
  | h' :: rest => if decide (h' = h) then rest else h' :: closesocket h rest
  end.

(** The body of the loop over [Settings->ListenAddresses] for one address:
    the sockets open in the process and [listening_sockets] after it, with
    the exception when it throws.  The scope guard [closeSocketOnError]
    closes the socket on every exit but the last. *)
Definition listen_to (calls : listen_calls) (open listening : list nat)
    : list nat * list nat * option thrown :=
  match WSASocket calls with
  | None =>
    (open, listening,
     Some (ctException_thrown (WSASocket_error calls) "socket"))
  | Some listening_socket =>
    let open := open ++ [listening_socket] in
    let gle := SetPreBindOptions calls in
    if negb (gle =? NO_ERROR) then
      (closesocket listening_socket open, listening,
       Some (ctException_thrown gle "SetPreBindOptions"))
    else
    let gle := SetPreConnectOptions in
    if negb (gle =? NO_ERROR) then
      (closesocket listening_socket open, listening,
       Some (ctException_thrown gle "SetPreConnectOptions"))
    else
    match bind_error calls with
    | Some gle =>
      (closesocket listening_socket open, listening,
       Some (ctException_thrown gle "bind"))
    | None =>
    match listen_error calls with
    | Some gle =>
      (closesocket listening_socket open, listening,
       Some (ctException_thrown gle "listen"))
    | None =>
      if push_back_throws calls
      then (closesocket listening_socket open, listening, Some bad_alloc)
      else (open, listening ++ [listening_socket], None)
    end
    end
  end.

Fixpoint listen_loop (addresses : list listen_calls)
    (open listening : list nat) : list nat * list nat * option thrown :=
  match addresses with
  | [] => (open, listening, None)
  | calls :: rest =>
    match listen_to calls open listening with
    | (open, listening, None) => listen_loop rest open listening
    | failed => failed
    end
  end.

(** [~ctsSimpleAcceptImpl], as far as sockets go: it closes every
    listening socket, the first one first. *)
Definition destroy (listening open : list nat) : list nat :=
  foldl (fun open listening_socket => closesocket listening_socket open)
    open listening.

(** [ctsSimpleAccept::ctsSimpleAccept()] from the loop on, with one
    [listen_calls] for each of [Settings->ListenAddresses].  An exception
    destroys [pimpl], which closes the listening sockets there are;
    [resize_throws] tells whether the last statement finds memory. *)
Definition ctsSimpleAccept (addresses : list listen_calls)
    (resize_throws : bool) (open : list nat)
    : list nat * (thrown + ctsSimpleAcceptImpl) :=
  match listen_loop addresses open [] with
  | (open, listening, Some e) => (destroy listening open, inl e)
  | (open, listening, None) =>
    if bool_decide (listening = []) then
      (destroy listening open,
       inl (std_exception
              "ctsSimpleAccept invoked with no listening addresses specified"))
    else if resize_throws then (destroy listening open, inl bad_alloc)
    else
      (open,
       inr {| listening_sockets := listening;
              listening_sockets_refcount := replicate (length listening) 0;
              accepting_sockets := [] |})
  end.

(** *** The worker *)

(** Lines 205-216: the position of the first listening socket with the
    lowest count. *)
Fixpoint least_used (refcounts : list Z) (lowest_refcount : Z)
    (listener_counter listener_position : nat) : nat :=
  match refcounts with
  | [] => listener_position
  | refcount :: rest =>
    if refcount <? lowest_refcount
    then least_used rest refcount (S listener_counter) listener_counter
    else least_used rest lowest_refcount (S listener_counter)
           listener_position
  end.

Definition choose_listener (refcounts : list Z) : nat :=
  least_used refcounts (default 0 (refcounts !! O)) O O.

(** A thread in [ThreadPoolWorker]: it has taken a socket off the vector,
    or it is inside [accept] on the listening socket at a position. *)
Inductive worker : Type :=
| Popped (socket : nat)
| InAccept (socket : nat) (listener_position : nat).

(** The functor with the work submitted to the thread pool and not yet
    started, and the threads inside the callback. *)
Record Acceptor : Type := mkAcceptor {
  pimpl : ctsSimpleAcceptImpl;
  submitted : nat;
  workers : list worker
}.

Definition with_accepting (a : Acceptor) (sockets : list nat) (n : nat)
    (ws : list worker) : Acceptor :=
  {| pimpl := {| listening_sockets := listening_sockets (pimpl a);
                 listening_sockets_refcount :=
                   listening_sockets_refcount (pimpl a);
                 accepting_sockets := sockets |};
     submitted := n;
     workers := ws |}.

Definition with_refcount (a : Acceptor) (refcounts : list Z)
    (ws : list worker) : Acceptor :=
  {| pimpl := {| listening_sockets := listening_sockets (pimpl a);
                 listening_sockets_refcount := refcounts;
                 accepting_sockets := accepting_sockets (pimpl a) |};
     submitted := submitted a;
     workers := ws |}.

Definition refcount_at (a : Acceptor) (i : nat) : Z :=
  default 0 (listening_sockets_refcount (pimpl a) !! i).

(** The steps, each atomic in the code: [operator()] under the critical
    section, with or without memory for [push_back]; the start of
    [ThreadPoolWorker] under the critical section; the end of a worker
    whose socket is gone; the choice of a listening socket, made from
    counts read one by one without a lock ([observed]), with the
    interlocked increment; the interlocked decrement after [accept]. *)
Inductive step : Acceptor -> Acceptor -> Prop :=
| step_call a socket :
    step a (with_accepting a (accepting_sockets (pimpl a) ++ [socket])
              (S (submitted a)) (workers a))
| step_call_bad_alloc a :
    step a a
| step_pop a n rest socket :
    submitted a = S n ->
    accepting_sockets (pimpl a) = rest ++ [socket] ->
    step a (with_accepting a rest n (workers a ++ [Popped socket]))
| step_gone a ws1 socket ws2 :
    workers a = ws1 ++ Popped socket :: ws2 ->
    step a (with_refcount a (listening_sockets_refcount (pimpl a))
              (ws1 ++ ws2))
| step_accept a ws1 socket ws2 observed :
    workers a = ws1 ++ Popped socket :: ws2 ->
    length observed = length (listening_sockets_refcount (pimpl a)) ->
    let listener_position := choose_listener observed in
    step a (with_refcount a
              (<[listener_position :=
                   wrapLONG (refcount_at a listener_position + 1)]>
                 (listening_sockets_refcount (pimpl a)))
              (ws1 ++ InAccept socket listener_position :: ws2))
| step_accepted a ws1 socket listener_position ws2 :
    workers a = ws1 ++ InAccept socket listener_position :: ws2 ->
    step a (with_refcount a
              (<[listener_position :=
                   wrapLONG (refcount_at a listener_position - 1)]>
                 (listening_sockets_refcount (pimpl a)))
              (ws1 ++ ws2)).

(** The states of a functor that the constructor returned. *)
Inductive reachable (impl : ctsSimpleAcceptImpl) : Acceptor -> Prop :=
| reachable_constructed :
    reachable impl {| pimpl := impl; submitted := 0; workers := [] |}
| reachable_step a a' :
    reachable impl a -> step a a' -> reachable impl a'.

(** The workers inside [accept] on the listening socket at a position. *)
Fixpoint accepting_on (i : nat) (ws : list worker) : Z :=
  match ws with
  | [] => 0
  | InAccept _ listener_position :: rest =>
    (if decide (listener_position = i) then 1 else 0) + accepting_on i rest
  | Popped _ :: rest => accepting_on i rest
  end.

(** A functor with two listening sockets after two calls of [operator()]
    whose workers are both inside [accept]. *)
Definition two_listeners : ctsSimpleAcceptImpl :=
  {| listening_sockets := [7%nat; 8%nat];
     listening_sockets_refcount := [0; 0];
     accepting_sockets := [] |}.

Definition both_accepting : Acceptor :=
  {| pimpl := {| listening_sockets := [7%nat; 8%nat];
                 listening_sockets_refcount := [1; 1];
                 accepting_sockets := [] |};
     submitted := 0;
     workers := [InAccept 1 0; InAccept 0 1] |}.

(** The counts of four listening sockets. *)
Definition busy_listeners : list Z := [2; 1; 3; 1].

(** Two addresses to listen on, the second of which cannot be bound. *)
Definition second_bind_fails : list listen_calls :=
  [ {| WSASocket := Some 7%nat; WSASocket_error := 0; SetPreBindOptions := 0;
       bind_error := None; listen_error := None;
       push_back_throws := false |};
    {| WSASocket := Some 8%nat; WSASocket_error := 0; SetPreBindOptions := 0;
       bind_error := Some 10048; listen_error := None;
       push_back_throws := false |} ].

End SimpleAccept.

(** ** ctl/ctNetAdapterAddresses.hpp *)

Module NetAdapterAddresses.

(** [IP_ADAPTER_ADDRESSES], as far as this code reads it.  A pointer to an
    adapter ([PIP_ADAPTER_ADDRESSES]) is the chain that starts there, the
    adapter followed by what [Next] points to; [NULL] is the empty chain.
    [FirstUnicastAddress] is such a chain of addresses. *)
Record IP_ADAPTER_ADDRESSES : Type := mkAdapter {
  FriendlyName : list Z;
  CompartmentId : Z;
  FirstUnicastAddress : list ctSockaddr
}.

#[global] Instance ctSockaddr_eq_dec : EqDecision ctSockaddr.
Proof. solve_decision. Defined.

#[global] Instance IP_ADAPTER_ADDRESSES_eq_dec :
  EqDecision IP_ADAPTER_ADDRESSES.
Proof. solve_decision. Defined.

(** [class iterator].  [buffer] is the identity of the shared vector, if
    any; two pointers into one vector are equal when the chains are. *)
Record iterator : Type := mkIterator {
  buffer : option nat;
  current : list IP_ADAPTER_ADDRESSES
}.

(** [iterator()] *)
Definition end_iterator : iterator := {| buffer := None; current := [] |}.

(** [iterator(_ipAdapter)], for the vector with identity [id] that holds
    the chain [adapters] from its first byte. *)
Definition iterator_at (id : nat) (adapters : list IP_ADAPTER_ADDRESSES)
    : iterator :=
  {| buffer := Some id; current := adapters |}.

(** [operator*] and [operator->] *)
Definition dereference (it : iterator) : result IP_ADAPTER_ADDRESSES :=
  match current it with
  | [] =>
    Throw (out_of_range
             "out_of_range: ctNetAdapterAddresses::iterator::operator*")
  | adapter :: _ => Ok adapter
  end.

(** [operator==] and [operator!=] *)
Definition equal (this _iter : iterator) : bool :=
  match current this with
  | [] => bool_decide (current _iter = [])
  | _ :: _ =>
    bool_decide (buffer this = buffer _iter)
    && bool_decide (current this = current _iter)
  end.

Definition not_equal (this _iter : iterator) : bool :=
  negb (equal this _iter).

(** [operator++()] *)
Definition preincrement (this : iterator) : result iterator :=
  match current this with
  | [] =>
    Throw (out_of_range
             "out_of_range: ctNetAdapterAddresses::iterator::operator++")
  | _ :: Next => Ok {| buffer := buffer this; current := Next |}
  end.

(** [operator++(int)]: the copy returned and the iterator after it. *)
Definition postincrement (this : iterator) : result (iterator * iterator) :=
  let temp := this in
  this ← preincrement this;
  Ok (temp, this).

(** The loop of [operator+=]. *)
Fixpoint advance (_inc : nat) (current : list IP_ADAPTER_ADDRESSES)
    : list IP_ADAPTER_ADDRESSES :=
  match _inc, current with
  | Datatypes.S _inc, _ :: Next => advance _inc Next
  | _, _ => current
  end.

(** [operator+=(DWORD _inc)]: the iterator as the call leaves it, and the
    exception when it throws.  The loop has moved [current] before the
    test. *)
Definition increment_by (this : iterator) (_inc : nat)
    : iterator * option exn :=
  let this :=
    {| buffer := buffer this; current := advance _inc (current this) |} in
  match current this with
  | [] =>
    (this,
     Some (out_of_range
             "out_of_range: ctNetAdapterAddresses::iterator::operator+="))
  | _ :: _ => (this, None)
  end.

(** [class ctNetAdapterAddresses]: the identity of its vector and, after a
    call of [GetAdaptersAddresses] that returned [NO_ERROR], the chain the
    vector holds. *)
Record ctNetAdapterAddresses : Type := mkAddresses {
  addresses_buffer : nat;
  adapters : list IP_ADAPTER_ADDRESSES
}.

Definition NO_ERROR : Z := 0.
Definition ERROR_BUFFER_OVERFLOW : Z := 111.
Definition ERROR_NOT_FOUND : Z := 1168.

(** [refresh], with what [GetAdaptersAddresses] answers for a buffer of a
    size: the error, the size it asks for, and the chain it wrote. *)
Definition refresh
    (GetAdaptersAddresses : N -> Z * N * list IP_ADAPTER_ADDRESSES)
    (id : nat) (size : N) : result ctNetAdapterAddresses :=
  let '(err, byteSize, chain) := GetAdaptersAddresses size in
  let '(err, byteSize, chain) :=
    if err =? ERROR_BUFFER_OVERFLOW then GetAdaptersAddresses byteSize
    else (err, byteSize, chain) in
  if negb (err =? NO_ERROR)
  then Throw (ctException err "GetAdaptersAddresses")
  else Ok {| addresses_buffer := id; adapters := chain |}.

(** [ctNetAdapterAddresses(_family, _gaaFlags)]: [refresh] on a new vector
    of 16384 bytes.  The constructor is declared [throw()], so an exception
    of [refresh] does not leave it: the process ends, and there is no
    object. *)
Definition constructor
    (GetAdaptersAddresses : N -> Z * N * list IP_ADAPTER_ADDRESSES)
    (id : nat) : option ctNetAdapterAddresses :=
  match refresh GetAdaptersAddresses id 16384 with
  | Ok this => Some this
  | Throw _ => None
  end.

(** How a call ends that runs this constructor: it returns, it throws, or
    the process ends in the constructor. *)
Inductive outcome (A : Type) : Type :=
| Returned (a : A)
| Thrown (e : exn)
| Terminated.
Arguments Returned {A} a.
Arguments Thrown {A} e.
Arguments Terminated {A}.

Definition begin_ (this : ctNetAdapterAddresses) : iterator :=
  iterator_at (addresses_buffer this) (adapters this).

Definition end_ (this : ctNetAdapterAddresses) : iterator := end_iterator.

(** [std::find_if(first, last, pred)] over these iterators.  Each turn of
    its loop moves [first] along the chain, so it makes no more turns than
    the chain is long. *)
Fixpoint find_if_loop (turns : nat) (first last : iterator)
    (pred : IP_ADAPTER_ADDRESSES -> bool) : result iterator :=
  match turns with
  | O => Ok first
  | Datatypes.S turns =>
    if not_equal first last then
      adapter ← dereference first;
      if pred adapter then Ok first
      else
        first ← preincrement first;
        find_if_loop turns first last pred
    else Ok first
  end.

Definition find_if (first last : iterator)
    (pred : IP_ADAPTER_ADDRESSES -> bool) : result iterator :=
  find_if_loop (Datatypes.S (length (current first))) first last pred.

(** For comparison: the chain from the first adapter for which [pred]
    holds, empty when there is none. *)
Fixpoint from_first (pred : IP_ADAPTER_ADDRESSES -> bool)
    (chain : list IP_ADAPTER_ADDRESSES) : list IP_ADAPTER_ADDRESSES :=
  match chain with
  | [] => []
  | adapter :: Next =>
    if pred adapter then adapter :: Next else from_first pred Next
  end.

(** [ctNetAdapterMatchingAddrPredicate::operator()], with the comparison
    of [ctSockaddr] (ctSockaddr.hpp is not among the sources). *)
Definition ctNetAdapterMatchingAddrPredicate
    (sockaddr_equal : ctSockaddr -> ctSockaddr -> bool)
    (targetAddr : ctSockaddr)
    (_ipAddress : IP_ADAPTER_ADDRESSES) : bool :=
  existsb (fun unicastAddress => sockaddr_equal unicastAddress targetAddr)
    (FirstUnicastAddress _ipAddress).

Section Compartment.

Context `{Externals}.

(** Lines 1544-1561: from the search of the adapters to the end. *)
Definition compartment_of (args : list (list Z)) (i : nat) (value : list Z)
    (netAdapterAddresses : ctNetAdapterAddresses)
    : result (list (list Z) * option (ctNetAdapterAddresses * Z)) :=
  found_interface ←
    find_if (begin_ netAdapterAddresses) (end_ netAdapterAddresses)
      (fun _adapter_address =>
         iordinal_equals value (FriendlyName _adapter_address));
  if equal found_interface (end_ netAdapterAddresses) then
    Throw (ctException ERROR_NOT_FOUND
             "GetAdaptersAddresses could not find the interface alias")
  else
    adapter ← dereference found_interface;
    Ok (delete i args, Some (netAdapterAddresses, CompartmentId adapter)).

(** ctsConfig.cpp, lines 1534-1565: [set_compartment], with what the
    constructor of [ctNetAdapterAddresses] gives if it is run.  The result
    is the arguments left, with the object and [compartment_id] when the
    argument was found. *)
Definition set_compartment (args : list (list Z))
    (netAdapterAddresses : option ctNetAdapterAddresses)
    : outcome (list (list Z) * option (ctNetAdapterAddresses * Z)) :=
  match find_value (L "-Compartment") args with
  | Throw e => Thrown e
  | Ok (args, Some (i, value)) =>
    match netAdapterAddresses with
    | None => Terminated
    | Some netAdapterAddresses =>
      match compartment_of args i value netAdapterAddresses with
      | Ok found => Returned found
      | Throw e => Thrown e
      end
    end
  | Ok (args, None) => Returned (args, None)
  end.

End Compartment.

(** Two adapters, and the argument that names the second. *)
Definition two_adapters : ctNetAdapterAddresses :=
  {| addresses_buffer := O;
     adapters :=
       [ {| FriendlyName := L "Ethernet"; CompartmentId := 1;
            FirstUnicastAddress := [mkSockaddr 1 0] |};
         {| FriendlyName := L "Wi-Fi"; CompartmentId := 2;
            FirstUnicastAddress := [mkSockaddr 2 0; mkSockaddr 3 0] |} ] |}.

Definition wifi_compartment : list (list Z) :=
  command_line ["-compartment:wi-fi"]%string.

End NetAdapterAddresses.

(** ** ctsConfig.cpp: [set_address] *)

Module Addresses.

Definition AF_INET : Z := 2.
Definition AF_INET6 : Z := 23.

(** The three vectors of addresses of [Settings], and whether
    [OptionType::KEEPALIVE] was added to [Settings->Options]. *)
Record ctsConfigAddresses : Type := mkAddresses {
  Listen : list ctSockaddr;
  Target : list ctSockaddr;
  Bind : list ctSockaddr;
  keepalive : bool
}.

(** What [set_address] ends with: it returns, or throws one of [exn], or
    throws a plain [exception] (line 997). *)
Inductive outcome (A : Type) : Type :=
| Returned (a : A)
| Thrown (e : exn)
| ThrownException (what : string).
Arguments Returned {A} a.
Arguments Thrown {A} e.
Arguments ThrownException {A} what.

Section Addresses.

Context `{Externals}.

(** ctSockaddr.hpp is not among the sources: the family of an address,
    the address [setAddressAny] gives for a family, and
    [ctSockaddr::ResolveName]. *)
Variable family : ctSockaddr -> Z.
Variable AddressAny : Z -> ctSockaddr.
Variable ResolveName : list Z -> result (list ctSockaddr).

(** Lines 820-853: the loop over the [-listen] arguments.  Every turn that
    goes on erases an argument. *)
Fixpoint listen_loop (turns : nat) (s : ctsConfigSettings)
    (args : list (list Z)) (a : ctsConfigAddresses)
    : result (list (list Z) * ctsConfigAddresses) :=
  match turns, args with
  | O, _ | _, [] => Ok (args, a)
  | Datatypes.S turns, _ :: _ =>
    '(args, found_listen) ← find_value (L "-listen") args;
    match found_listen with
    | None => Ok (args, a)
    | Some (i, value) =>
      let keepalive :=
        if bool_decide (Protocol s = TCP) then true else keepalive a in
      listen ←
        (if iordinal_equals (L "*") value
         then Ok (Listen a ++ [AddressAny AF_INET; AddressAny AF_INET6])
         else
           temp_addresses ← ResolveName value;
           if bool_decide (temp_addresses = []) then
             Throw (invalid_argument
                      "-listen value did not resolve to an IP address")
           else Ok (Listen a ++ temp_addresses));
      listen_loop turns s (delete i args)
        {| Listen := listen; Target := Target a; Bind := Bind a;
           keepalive := keepalive |}
    end
  end.

(** Lines 855-879: the loop over the [-target] arguments. *)
Fixpoint target_loop (turns : nat) (args : list (list Z))
    (a : ctsConfigAddresses) : result (list (list Z) * ctsConfigAddresses) :=
  match turns, args with
  | O, _ | _, [] => Ok (args, a)
  | Datatypes.S turns, _ :: _ =>
    '(args, found_target) ← find_value (L "-target") args;
    match found_target with
    | None => Ok (args, a)
    | Some (i, value) =>
      if negb (bool_decide (Listen a = [])) then
        Throw (invalid_argument "cannot specify both -Listen and -Target")
      else
        temp_addresses ← ResolveName value;
        if bool_decide (temp_addresses = []) then
          Throw (invalid_argument
                   "-target value did not resolve to an IP address")
        else
          target_loop turns (delete i args)
            {| Listen := Listen a; Target := Target a ++ temp_addresses;
               Bind := Bind a; keepalive := keepalive a |}
    end
  end.

(** Lines 880-911: the loop over the [-bind] arguments. *)
Fixpoint bind_loop (turns : nat) (args : list (list Z))
    (a : ctsConfigAddresses) : result (list (list Z) * ctsConfigAddresses) :=
  match turns, args with
  | O, _ | _, [] => Ok (args, a)
  | Datatypes.S turns, _ :: _ =>
    '(args, found_bind) ← find_value (L "-bind") args;
    match found_bind with
    | None => Ok (args, a)
    | Some (i, value) =>
      bind ←
        (if iordinal_equals (L "*") value
         then Ok (Bind a ++ [AddressAny AF_INET; AddressAny AF_INET6])
         else
           temp_addresses ← ResolveName value;
           if bool_decide (temp_addresses = []) then
             Throw (invalid_argument
                      "-bind value did not resolve to an IP address")
           else Ok (Bind a ++ temp_addresses));
      bind_loop turns (delete i args)
        {| Listen := Listen a; Target := Target a; Bind := bind;
           keepalive := keepalive a |}
    end
  end.

(** Lines 912-930: the three tests and the default bind addresses. *)
Definition check_addresses (a : ctsConfigAddresses)
    : result ctsConfigAddresses :=
  if (0 <? length (Listen a))%nat && (0 <? length (Target a))%nat then
    Throw (invalid_argument "cannot specify both -target and -listen")
  else if (0 <? length (Listen a))%nat && (0 <? length (Bind a))%nat then
    Throw (invalid_argument "cannot specify both -bind and -listen")
  else if (length (Listen a) =? 0)%nat && (length (Target a) =? 0)%nat then
    Throw (invalid_argument "must specify either -target or -listen")
  else if (length (Listen a) =? 0)%nat && (length (Bind a) =? 0)%nat then
    Ok {| Listen := Listen a; Target := Target a;
          Bind := Bind a ++ [AddressAny AF_INET; AddressAny AF_INET6];
          keepalive := keepalive a |}
  else Ok a.

(** An address of family [f] is in the vector. *)
Definition has_family (f : Z) (addresses : list ctSockaddr) : Prop :=
  exists addr, addr ∈ addresses /\ family addr = f.

(** Every address is an IPv4 or an IPv6 address. *)
Definition ip_addresses (addresses : list ctSockaddr) : Prop :=
  Forall (fun addr => family addr = AF_INET \/ family addr = AF_INET6)
    addresses.

(** The counters of lines 937-954, each a [ctsUnsignedLong]. *)
Definition count_v4 (addresses : list ctSockaddr) : Z :=
  wrap32 (Z.of_nat (length (filter (fun addr => family addr = AF_INET)
                              addresses))).

Definition count_v6 (addresses : list ctSockaddr) : Z :=
  wrap32 (Z.of_nat (length (filter (fun addr => family addr <> AF_INET)
                              addresses))).

(** [erase(remove_if(...))] of the addresses of a family. *)
Definition remove_family (f : Z) (addresses : list ctSockaddr)
    : list ctSockaddr :=
  filter (fun addr => family addr <> f) addresses.

(** Lines 937-992, for [TargetAddresses] that is not empty: the counts are
    taken first, then the addresses of a family that the other vector does
    not have are erased. *)
Definition remove_unmatched (bind target : list ctSockaddr)
    : list ctSockaddr * list ctSockaddr :=
  let bind_v4 := count_v4 bind in
  let bind_v6 := count_v6 bind in
  let target_v4 := count_v4 target in
  let target_v6 := count_v6 target in
  let '(bind, target) :=
    if 0 =? bind_v4 then (bind, remove_family AF_INET target)
    else if 0 =? target_v4 then (remove_family AF_INET bind, target)
    else (bind, target) in
  if 0 =? bind_v6 then (bind, remove_family AF_INET6 target)
  else if 0 =? target_v6 then (remove_family AF_INET6 bind, target)
  else (bind, target).

(** Lines 932-998: the bind and the target addresses that are left, or
    [None] when line 997 throws. *)
Definition match_families (bind target : list ctSockaddr)
    : option (list ctSockaddr * list ctSockaddr) :=
  let '(bind, target) := remove_unmatched bind target in
  if bool_decide (bind = []) || bool_decide (target = []) then None
  else Some (bind, target).

(** Lines 818-1000 *)
Definition set_address (args : list (list Z)) (s : ctsConfigSettings)
    (a : ctsConfigAddresses)
    : outcome (list (list Z) * ctsConfigAddresses) :=
  let parsed :=
    '(args, a) ← listen_loop (Datatypes.S (length args)) s args a;
    '(args, a) ← target_loop (Datatypes.S (length args)) args a;
    '(args, a) ← bind_loop (Datatypes.S (length args)) args a;
    a ← check_addresses a;
    Ok (args, a) in
  match parsed with
  | Throw e => Thrown e
  | Ok (args, a) =>
    if (0 <? length (Target a))%nat then
      match match_families (Bind a) (Target a) with
      | None =>
        ThrownException
          "Invalid input: bind addresses and target addresses must match families"
      | Some (bind, target) =>
        Returned (args,
                  {| Listen := Listen a; Target := target; Bind := bind;
                     keepalive := keepalive a |})
      end
    else Returned (args, a)
  end.

End Addresses.

(** [Settings] before [set_address]: no address. *)
Definition no_addresses : ctsConfigAddresses :=
  {| Listen := []; Target := []; Bind := []; keepalive := false |}.

(** For the examples: the family of an address is its host number, and a
    name resolves to one address of each family. *)
Definition sample_family (a : ctSockaddr) : Z := sockaddr_host a.

Definition sample_AddressAny (f : Z) : ctSockaddr := mkSockaddr f 0.

Definition sample_ResolveName (name : list Z) : result (list ctSockaddr) :=
  Ok [mkSockaddr AF_INET 0; mkSockaddr AF_INET6 0].

(** A server name with an address of each family, a local IPv4 address,
    and a server that has an IPv6 address only. *)
Definition both_families : list ctSockaddr :=
  [mkSockaddr AF_INET 0; mkSockaddr AF_INET6 0].

Definition local_v4 : list ctSockaddr := [mkSockaddr AF_INET 0].

Definition server_v6 : list ctSockaddr := [mkSockaddr AF_INET6 0].

(** A client that names a target, and binds to every address. *)
Definition target_and_bind : list (list Z) :=
  command_line ["-target:server"; "-bind:*"]%string.

(** What its [-target] loop leaves of the arguments. *)
Definition bind_any : list (list Z) := command_line ["-bind:*"]%string.

End Addresses.

(** ** ctsConfig.cpp: [set_ioPattern] and [GetMediaStream] *)

Module Patterns.

Definition DefaultPushBytes : Z := 1048576.
Definition DefaultPullBytes : Z := 1048576.

Inductive StreamCodecValues : Set := NoResends | ResendOnce.

(** The members of [MediaStreamSettings] that ctsConfig.cpp assigns. *)
Record MediaStreamSettings : Type := mkMediaStream {
  BitsPerSecond : Z;              (* long long *)
  FramesPerSecond : Z;            (* unsigned long *)
  BufferDepthSeconds : Z;         (* unsigned long *)
  StreamLengthSeconds : Z;        (* unsigned long *)
  StreamCodec : StreamCodecValues
}.

Definition with_BitsPerSecond (v : Z) (m : MediaStreamSettings)
    : MediaStreamSettings :=
  {| BitsPerSecond := v; FramesPerSecond := FramesPerSecond m;
     BufferDepthSeconds := BufferDepthSeconds m;
     StreamLengthSeconds := StreamLengthSeconds m;
     StreamCodec := StreamCodec m |}.

Definition with_FramesPerSecond (v : Z) (m : MediaStreamSettings)
    : MediaStreamSettings :=
  {| BitsPerSecond := BitsPerSecond m; FramesPerSecond := v;
     BufferDepthSeconds := BufferDepthSeconds m;
     StreamLengthSeconds := StreamLengthSeconds m;
     StreamCodec := StreamCodec m |}.

Definition with_BufferDepthSeconds (v : Z) (m : MediaStreamSettings)
    : MediaStreamSettings :=
  {| BitsPerSecond := BitsPerSecond m; FramesPerSecond := FramesPerSecond m;
     BufferDepthSeconds := v;
     StreamLengthSeconds := StreamLengthSeconds m;
     StreamCodec := StreamCodec m |}.

Definition with_StreamLengthSeconds (v : Z) (m : MediaStreamSettings)
    : MediaStreamSettings :=
  {| BitsPerSecond := BitsPerSecond m; FramesPerSecond := FramesPerSecond m;
     BufferDepthSeconds := BufferDepthSeconds m;
     StreamLengthSeconds := v;
     StreamCodec := StreamCodec m |}.

Definition with_StreamCodec (v : StreamCodecValues) (m : MediaStreamSettings)
    : MediaStreamSettings :=
  {| BitsPerSecond := BitsPerSecond m; FramesPerSecond := FramesPerSecond m;
     BufferDepthSeconds := BufferDepthSeconds m;
     StreamLengthSeconds := StreamLengthSeconds m;
     StreamCodec := v |}.

(** [Settings->PushBytes], [Settings->PullBytes] and the static
    [media_stream_settings]. *)
Record ctsConfigPattern : Type := mkPattern {
  PushBytes : Z;
  PullBytes : Z;
  media_stream_settings : MediaStreamSettings
}.

Definition with_media_stream_settings (m : MediaStreamSettings)
    (p : ctsConfigPattern) : ctsConfigPattern :=
  {| PushBytes := PushBytes p; PullBytes := PullBytes p;
     media_stream_settings := m |}.

Section Pattern.

Context `{Externals}.

(** [std::stoll], and [MediaStreamSettings::CalculateTransferSize] of
    ctsConfig.h, which is not among the sources: the settings as it leaves
    them and the size it returns. *)
Variable stoll : list Z -> Z -> result (Z * nat).
Variable CalculateTransferSize
  : MediaStreamSettings -> MediaStreamSettings * Z.

(** Lines 627-659 *)
Definition pattern_argument (args : list (list Z)) (s : ctsConfigSettings)
    : result (list (list Z) * ctsConfigSettings) :=
  '(args, found_arg) ← find_value (L "-pattern") args;
  match found_arg with
  | Some (i, value) =>
    if negb (bool_decide (Protocol s = TCP)) then
      Throw (invalid_argument "-pattern (only applicable to TCP)")
    else
      s ← (if iordinal_equals (L "push") value then
             Ok (with_IoPattern Push s)
           else if iordinal_equals (L "pull") value then
             Ok (with_IoPattern Pull s)
           else if iordinal_equals (L "pushpull") value then
             Ok (with_IoPattern PushPull s)
           else if iordinal_equals (L "flood") value
                   || iordinal_equals (L "duplex") value then
             Ok (with_IoPattern Duplex s)
           else Throw (invalid_argument "-pattern"));
      Ok (delete i args, s)
  | None =>
    if bool_decide (Protocol s = UDP)
    then Ok (args, with_IoPattern MediaStream s)
    else Ok (args, with_IoPattern Push s)
  end.

(** Lines 661-695 *)
Definition pushpull_arguments (args : list (list Z)) (s : ctsConfigSettings)
    (p : ctsConfigPattern) : result (list (list Z) * ctsConfigPattern) :=
  '(args, found_pushbytes) ← find_value (L "-pushbytes") args;
  '(args, p) ←
    match found_pushbytes with
    | Some (i, value) =>
      if negb (bool_decide (IoPattern s = PushPull)) then
        Throw (invalid_argument
                 "-PushBytes can only be set with -Pattern:PushPull")
      else
        v ← as_integral_unsigned_long value;
        Ok (delete i args,
            {| PushBytes := v; PullBytes := PullBytes p;
               media_stream_settings := media_stream_settings p |})
    | None =>
      Ok (args,
          {| PushBytes := DefaultPushBytes; PullBytes := PullBytes p;
             media_stream_settings := media_stream_settings p |})
    end;
  '(args, found_pullbytes) ← find_value (L "-pullbytes") args;
  match found_pullbytes with
  | Some (i, value) =>
    if negb (bool_decide (IoPattern s = PushPull)) then
      Throw (invalid_argument
               "-PullBytes can only be set with -Pattern:PushPull")
    else
      v ← as_integral_unsigned_long value;
      Ok (delete i args,
          {| PushBytes := PushBytes p; PullBytes := v;
             media_stream_settings := media_stream_settings p |})
  | None =>
    Ok (args,
        {| PushBytes := PushBytes p; PullBytes := DefaultPullBytes;
           media_stream_settings := media_stream_settings p |})
  end.

(** Lines 701-716.  [%] of two [long long] truncates towards zero. *)
Definition BitsPerSecond_argument (args : list (list Z))
    (s : ctsConfigSettings) (m : MediaStreamSettings)
    : result (list (list Z) * MediaStreamSettings) :=
  '(args, found_arg) ← find_value (L "-BitsPerSecond") args;
  match found_arg with
  | Some (i, value) =>
    if negb (bool_decide (Protocol s = UDP)) then
      Throw (invalid_argument "-BitsPerSecond requires -Protocol:UDP")
    else
      v ← Ranges.as_integral_long_long stoll value;
      let m := with_BitsPerSecond v m in
      (* bitspersecond must align on a byte-boundary *)
      let m :=
        if negb (Z.rem (BitsPerSecond m) 8 =? 0)
        then with_BitsPerSecond
               (BitsPerSecond m - Z.rem (BitsPerSecond m) 8) m
        else m in
      Ok (delete i args, m)
  | None => Ok (args, m)
  end.

(** Lines 718-756 *)
Definition stream_arguments (args : list (list Z)) (s : ctsConfigSettings)
    (m : MediaStreamSettings)
    : result (list (list Z) * MediaStreamSettings) :=
  '(args, found_arg) ← find_value (L "-FrameRate") args;
  '(args, m) ←
    match found_arg with
    | Some (i, value) =>
      if negb (bool_decide (Protocol s = UDP)) then
        Throw (invalid_argument "-FrameRate requires -Protocol:UDP")
      else
        v ← as_integral_unsigned_long value;
        Ok (delete i args, with_FramesPerSecond v m)
    | None => Ok (args, m)
    end;
  '(args, found_arg) ← find_value (L "-BufferDepth") args;
  '(args, m) ←
    match found_arg with
    | Some (i, value) =>
      if negb (bool_decide (Protocol s = UDP)) then
        Throw (invalid_argument "-BufferDepth requires -Protocol:UDP")
      else
        v ← as_integral_unsigned_long value;
        Ok (delete i args, with_BufferDepthSeconds v m)
    | None => Ok (args, m)
    end;
  '(args, found_arg) ← find_value (L "-StreamLength") args;
  match found_arg with
  | Some (i, value) =>
    if negb (bool_decide (Protocol s = UDP)) then
      Throw (invalid_argument "-StreamLength requires -Protocol:UDP")
    else
      v ← as_integral_unsigned_long value;
      Ok (delete i args, with_StreamLengthSeconds v m)
  | None => Ok (args, m)
  end.

(** Lines 758-778 *)
Definition StreamCodec_argument (args : list (list Z))
    (s : ctsConfigSettings) (m : MediaStreamSettings)
    : result (list (list Z) * MediaStreamSettings) :=
  '(args, found_arg) ← find_value (L "-StreamCodec") args;
  match found_arg with
  | Some (i, codec) =>
    if negb (bool_decide (Protocol s = UDP)) then
      Throw (invalid_argument "-StreamCodec requires -Protocol:UDP")
    else
      m ← (if iordinal_equals (L "NoResends") codec then
             Ok (with_StreamCodec NoResends m)
           else if iordinal_equals (L "ResendOnce") codec then
             Ok (with_StreamCodec ResendOnce m)
           else Throw (invalid_argument "-StreamCodec"));
      Ok (delete i args, m)
  | None => Ok (args, m)
  end.

(** Lines 780-798: the settings and the ranges as the validation leaves
    them. *)
Definition resolve_media_stream (s : ctsConfigSettings)
    (m : MediaStreamSettings) (r : Ranges.ctsConfigRanges)
    : result (MediaStreamSettings * Ranges.ctsConfigRanges) :=
  if bool_decide (Protocol s = UDP) then
    if 0 =? BitsPerSecond m then
      Throw (invalid_argument "-BitsPerSecond is required")
    else if 0 =? FramesPerSecond m then
      Throw (invalid_argument "-FrameRate is required")
    else if negb (IsListening s) && (0 =? BufferDepthSeconds m) then
      Throw (invalid_argument "-BufferDepth is required")
    else if 0 =? StreamLengthSeconds m then
      Throw (invalid_argument "-StreamLength is required")
    else
      let '(m, size) := CalculateTransferSize m in
      Ok (m, Ranges.write Ranges.transfer_low_ref size r)
  else Ok (m, r).

(** Lines 625-799 *)
Definition set_ioPattern (args : list (list Z)) (s : ctsConfigSettings)
    (p : ctsConfigPattern) (r : Ranges.ctsConfigRanges)
    : result (list (list Z) * ctsConfigSettings * ctsConfigPattern
              * Ranges.ctsConfigRanges) :=
  '(args, s) ← pattern_argument args s;
  '(args, p) ← pushpull_arguments args s p;
  '(args, m) ← BitsPerSecond_argument args s (media_stream_settings p);
  '(args, m) ← stream_arguments args s m;
  '(args, m) ← StreamCodec_argument args s m;
  '(m, r) ← resolve_media_stream s m r;
  Ok (args, s, with_media_stream_settings m p, r).

End Pattern.

(** Lines 3023-3032 *)
Definition GetMediaStream (m : MediaStreamSettings)
    : fatal MediaStreamSettings :=
  if 0 =? BitsPerSecond m then FailFast else Returns m.

(** [media_stream_settings] with no member set. *)
Definition no_media_stream : MediaStreamSettings :=
  {| BitsPerSecond := 0; FramesPerSecond := 0; BufferDepthSeconds := 0;
     StreamLengthSeconds := 0; StreamCodec := NoResends |}.

(** [Settings] and the statics before [set_ioPattern]. *)
Definition no_pattern : ctsConfigPattern :=
  {| PushBytes := 0; PullBytes := 0;
     media_stream_settings := no_media_stream |}.

(** For the examples: a transfer size that is the bytes of the stream. *)
Definition stream_bytes (m : MediaStreamSettings)
    : MediaStreamSettings * Z :=
  (m, BitsPerSecond m / 8 * StreamLengthSeconds m).

(** The arguments of a client that pulls, of a stream of a million and
    one bits per second, and of a stream of five bits per second. *)
Definition pull_pattern : list (list Z) :=
  command_line ["-pattern:pull"]%string.

Definition media_stream : list (list Z) :=
  command_line ["-BitsPerSecond:1000001"; "-FrameRate:30"; "-BufferDepth:1";
                "-StreamLength:60"]%string.

Definition five_bits : list (list Z) :=
  command_line ["-BitsPerSecond:5"; "-FrameRate:30"; "-BufferDepth:1";
                "-StreamLength:60"]%string.

End Patterns.

(** The settings of a UDP client when [set_ioPattern] is called. *)
Definition udp_settings : ctsConfigSettings :=
  with_Protocol UDP throttled_client.

(** ** ctsConfig.cpp: [PrintStatusUpdate] *)

Module StatusUpdate.

(** [++] of a [ctsSignedLongLong]. *)
Definition wrapLONGLONG (x : Z) : Z := (x + 2 ^ 63) mod 2 ^ 64 - 2 ^ 63.

(** The calls [PrintStatusUpdate] makes on [print_status] and on
    [statuslogger], with the time slice and [clear_status] they are given. *)
Inductive call : Type :=
| print_header
| print_status_call (l_current_timeslice : Z) (clear_status : bool)
| LogStatus (l_current_timeslice : Z) (clear_status : bool).

(** The statics the function reads. *)
Record ctsConfigStatus : Type := mkStatus {
  shutdown_called : bool;
  print_status : bool;            (* the pointer is not null *)
  statuslogger : bool;            (* the pointer is not null *)
  verbosity : Z
}.

(** The statics it updates. *)
Record ctsConfigPrinting : Type := mkPrinting {
  printing_previous_timeslice : Z;
  printing_timeslice_count : Z
}.

(** Lines 2494-2505 *)
Definition write_to_console (verbosity : Z) : bool :=
  (verbosity =? 1) || (verbosity =? 5) || (verbosity =? 6).

(** Lines 2487-2564.  [entered] is what [TryEnterCriticalSection] returns,
    [l_current_timeslice] the time since the start, in milliseconds. *)
Definition PrintStatusUpdate (c : ctsConfigStatus) (entered : bool)
    (l_current_timeslice : Z) (st : ctsConfigPrinting)
    : ctsConfigPrinting * list call :=
  if negb (shutdown_called c) then
    if print_status c then
      let write_to_console := write_to_console (verbosity c) in
      if entered then
        let l_previoutimeslice := printing_previous_timeslice st in
        if l_current_timeslice >? l_previoutimeslice then
          let header :=
            if write_to_console then
              if negb (printing_timeslice_count st =? 0)
                 && (0 =? Z.rem (printing_timeslice_count st) 40)
              then [print_header] else []
            else [] in
          let status_count := 0 in
          let status_count :=
            if write_to_console then status_count + 1 else status_count in
          let status_count :=
            if statuslogger c then status_count + 1 else status_count in
          let '(status_count, printed) :=
            if write_to_console then
              let status_count := status_count - 1 in
              let clear_status := 0 =? status_count in
              (status_count,
               [print_status_call l_current_timeslice clear_status])
            else (status_count, []) in
          let '(status_count, logged) :=
            if statuslogger c then
              let status_count := status_count - 1 in
              let clear_status := 0 =? status_count in
              (status_count, [LogStatus l_current_timeslice clear_status])
            else (status_count, []) in
          ({| printing_previous_timeslice := l_current_timeslice;
              printing_timeslice_count :=
                wrapLONGLONG (printing_timeslice_count st + 1) |},
           header ++ printed ++ logged)
        else (st, [])
      else (st, [])
    else (st, [])
  else (st, []).

(** The function called once for each entry of [updates], which gives
    the lock's answer and the time of the call. *)
Fixpoint updates_from (c : ctsConfigStatus) (updates : list (bool * Z))
    (st : ctsConfigPrinting) : ctsConfigPrinting * list call :=
  match updates with
  | [] => (st, [])
  | (entered, l_current_timeslice) :: updates =>
    let '(st, calls) := PrintStatusUpdate c entered l_current_timeslice st in
    let '(st, later) := updates_from c updates st in
    (st, calls ++ later)
  end.

(** The time slices that the calls report, and those that reset the
    status information. *)
Definition reported (calls : list call) : list Z :=
  omap (fun k => match k with
                 | print_header => None
                 | print_status_call t _ | LogStatus t _ => Some t
                 end) calls.

Definition resets (calls : list call) : list Z :=
  omap (fun k => match k with
                 | print_status_call t true | LogStatus t true => Some t
                 | _ => None
                 end) calls.

(** The time slices go up from one to the next, the first from [low]. *)
Fixpoint increasing_from (low : Z) (timeslices : list Z) : Prop :=
  match timeslices with
  | [] => True
  | t :: timeslices => low < t /\ increasing_from t timeslices
  end.

(** Verbosity 5 with a status logger, and three updates of which the
    second comes with the clock of the first. *)
Definition console_and_log : ctsConfigStatus :=
  {| shutdown_called := false; print_status := true; statuslogger := true;
     verbosity := 5 |}.

Definition three_updates : list (bool * Z) :=
  [(true, 5000); (true, 5000); (true, 10000)].

End StatusUpdate.

(** ** ctsConfig.cpp: [set_logging] *)

Module Logging.

Inductive StatusFormatting : Set := ClearText | Csv.

#[global] Instance StatusFormatting_eq_dec : EqDecision StatusFormatting.
Proof. solve_decision. Defined.

(** A [ctsTextLogger] as [make_shared] builds it. *)
Record ctsTextLogger : Type := mkLogger {
  file_name : list Z;
  format : StatusFormatting
}.

(** The statics that [set_logging] writes.  The loggers made so far are
    kept in the order they were made, and a [shared_ptr] is [None] when it
    is empty and [Some n] when it owns the [n]-th of them: two pointers
    with one number share one logger. *)
Record ctsConfigLogging : Type := mkLogging {
  verbosity : Z;
  StatusUpdateFrequencyMilliseconds : Z;
  made : list ctsTextLogger;
  connectionlogger : option nat;
  errorlogger : option nat;
  statuslogger : option nat;
  jitterlogger : option nat
}.

(** How [set_logging] ends: it returns, it throws, or it calls a member of
    an empty [shared_ptr]. *)
Inductive outcome (A : Type) : Type :=
| Returned (a : A)
| Thrown (e : exn)
| NullDereference.
Arguments Returned {A} a.
Arguments Thrown {A} e.
Arguments NullDereference {A}.

Definition and_then {A B : Type} (o : outcome A) (k : A -> outcome B)
    : outcome B :=
  match o with
  | Returned a => k a
  | Thrown e => Thrown e
  | NullDereference => NullDereference
  end.

(** [make_shared<ctsTextLogger>(name, format)]: the statics with the new
    logger, and the pointer to it. *)
Definition make_shared (name : list Z) (f : StatusFormatting)
    (st : ctsConfigLogging) : ctsConfigLogging * option nat :=
  ({| verbosity := verbosity st;
      StatusUpdateFrequencyMilliseconds :=
        StatusUpdateFrequencyMilliseconds st;
      made := made st ++ [mkLogger name f];
      connectionlogger := connectionlogger st;
      errorlogger := errorlogger st;
      statuslogger := statuslogger st;
      jitterlogger := jitterlogger st |},
   Some (length (made st))).

(** The logger a pointer owns. *)
Definition logger_of (st : ctsConfigLogging) (p : option nat)
    : option ctsTextLogger :=
  n ← p; made st !! n.

(** [p->IsCsvFormat()] *)
Definition IsCsvFormat (st : ctsConfigLogging) (p : option nat)
    : outcome bool :=
  match logger_of st p with
  | Some logger => Returned (bool_decide (format logger = Csv))
  | None => NullDereference
  end.

Definition with_connectionlogger (p : option nat) (st : ctsConfigLogging)
    : ctsConfigLogging :=
  {| verbosity := verbosity st;
     StatusUpdateFrequencyMilliseconds :=
       StatusUpdateFrequencyMilliseconds st;
     made := made st;
     connectionlogger := p;
     errorlogger := errorlogger st;
     statuslogger := statuslogger st;
     jitterlogger := jitterlogger st |}.

Definition with_errorlogger (p : option nat) (st : ctsConfigLogging)
    : ctsConfigLogging :=
  {| verbosity := verbosity st;
     StatusUpdateFrequencyMilliseconds :=
       StatusUpdateFrequencyMilliseconds st;
     made := made st;
     connectionlogger := connectionlogger st;
     errorlogger := p;
     statuslogger := statuslogger st;
     jitterlogger := jitterlogger st |}.

Definition with_statuslogger (p : option nat) (st : ctsConfigLogging)
    : ctsConfigLogging :=
  {| verbosity := verbosity st;
     StatusUpdateFrequencyMilliseconds :=
       StatusUpdateFrequencyMilliseconds st;
     made := made st;
     connectionlogger := connectionlogger st;
     errorlogger := errorlogger st;
     statuslogger := p;
     jitterlogger := jitterlogger st |}.

Definition with_jitterlogger (p : option nat) (st : ctsConfigLogging)
    : ctsConfigLogging :=
  {| verbosity := verbosity st;
     StatusUpdateFrequencyMilliseconds :=
       StatusUpdateFrequencyMilliseconds st;
     made := made st;
     connectionlogger := connectionlogger st;
     errorlogger := errorlogger st;
     statuslogger := statuslogger st;
     jitterlogger := p |}.

Definition with_verbosity (v : Z) (st : ctsConfigLogging)
    : ctsConfigLogging :=
  {| verbosity := v;
     StatusUpdateFrequencyMilliseconds :=
       StatusUpdateFrequencyMilliseconds st;
     made := made st;
     connectionlogger := connectionlogger st;
     errorlogger := errorlogger st;
     statuslogger := statuslogger st;
     jitterlogger := jitterlogger st |}.

Definition with_StatusUpdateFrequencyMilliseconds (v : Z)
    (st : ctsConfigLogging) : ctsConfigLogging :=
  {| verbosity := verbosity st;
     StatusUpdateFrequencyMilliseconds := v;
     made := made st;
     connectionlogger := connectionlogger st;
     errorlogger := errorlogger st;
     statuslogger := statuslogger st;
     jitterlogger := jitterlogger st |}.

(** The loggers that the pointers of [st] own are still theirs in [st']. *)
Definition keeps_loggers (st st' : ctsConfigLogging) : Prop :=
  forall p logger,
    logger_of st p = Some logger -> logger_of st' p = Some logger.

(** The pointer is empty or owns a logger of the format. *)
Definition empty_or (f : StatusFormatting) (st : ctsConfigLogging)
    (p : option nat) : Prop :=
  p = None \/ exists logger, logger_of st p = Some logger /\ format logger = f.

(** A file name that was given has its logger. *)
Definition named (name : list Z) (st : ctsConfigLogging) (p : option nat)
    : Prop :=
  name <> [] -> exists logger, logger_of st p = Some logger.

(** The four file names of lines 1363-1366. *)
Record filenames : Type := mkFilenames {
  connectionFilename : list Z;
  errorFilename : list Z;
  statusFilename : list Z;
  jitterFilename : list Z
}.

Section Logging.

Context `{Externals}.

(** [ctString::iends_with] *)
Variable iends_with : list Z -> list Z -> bool.

(** Lines 1335-1361 *)
Definition verbosity_arguments (args : list (list Z))
    (st : ctsConfigLogging) : result (list (list Z) * ctsConfigLogging) :=
  '(args, found_verbosity) ← find_value (L "-ConsoleVerbosity") args;
  '(args, st) ←
    match found_verbosity with
    | Some (i, value) =>
      v ← as_integral_unsigned_long value;
      let st := with_verbosity v st in
      if verbosity st >? 6 then
        Throw (invalid_argument "-ConsoleVerbosity")
      else Ok (delete i args, st)
    | None => Ok (args, st)
    end;
  '(args, found_status_update) ← find_value (L "-StatusUpdate") args;
  match found_status_update with
  | Some (i, value) =>
    v ← as_integral_unsigned_long value;
    let st := with_StatusUpdateFrequencyMilliseconds v st in
    if 0 =? StatusUpdateFrequencyMilliseconds st then
      Throw (invalid_argument "-StatusUpdate")
    else Ok (delete i args, st)
  | None => Ok (args, st)
  end.

(** Lines 1363-1406 *)
Definition filename_arguments (args : list (list Z))
    : result (list (list Z) * filenames) :=
  '(args, found_connection_filename) ←
    find_value (L "-ConnectionFilename") args;
  let '(args, connectionFilename) :=
    match found_connection_filename with
    | Some (i, value) => (delete i args, value)
    | None => (args, [])
    end in
  '(args, found_error_filename) ← find_value (L "-ErrorFilename") args;
  let '(args, errorFilename) :=
    match found_error_filename with
    | Some (i, value) => (delete i args, value)
    | None => (args, [])
    end in
  '(args, found_status_filename) ← find_value (L "-StatusFilename") args;
  let '(args, statusFilename) :=
    match found_status_filename with
    | Some (i, value) => (delete i args, value)
    | None => (args, [])
    end in
  '(args, found_jitter_filename) ← find_value (L "-JitterFilename") args;
  let '(args, jitterFilename) :=
    match found_jitter_filename with
    | Some (i, value) => (delete i args, value)
    | None => (args, [])
    end in
  Ok (args,
      {| connectionFilename := connectionFilename;
         errorFilename := errorFilename;
         statusFilename := statusFilename;
         jitterFilename := jitterFilename |}).

(** Lines 1408-1414 *)
Definition make_connectionlogger (f : filenames) (st : ctsConfigLogging)
    : outcome ctsConfigLogging :=
  if negb (bool_decide (connectionFilename f = [])) then
    let '(st, p) :=
      if iends_with (connectionFilename f) (L ".csv")
      then make_shared (connectionFilename f) Csv st
      else make_shared (connectionFilename f) ClearText st in
    Returned (with_connectionlogger p st)
  else Returned st.

(** Lines 1416-1429 *)
Definition make_errorlogger (f : filenames) (st : ctsConfigLogging)
    : outcome ctsConfigLogging :=
  if negb (bool_decide (errorFilename f = [])) then
    if iordinal_equals (connectionFilename f) (errorFilename f) then
      and_then (IsCsvFormat st (connectionlogger st)) (fun csv =>
        if csv : bool then
          Thrown (invalid_argument
                    "The error logfile cannot be of csv format")
        else Returned (with_errorlogger (connectionlogger st) st))
    else if iends_with (errorFilename f) (L ".csv") then
      Thrown (invalid_argument "The error logfile cannot be of csv format")
    else
      let '(st, p) := make_shared (errorFilename f) ClearText st in
      Returned (with_errorlogger p st)
  else Returned st.

(** Lines 1431-1443 *)
Definition make_statuslogger (f : filenames) (st : ctsConfigLogging)
    : outcome ctsConfigLogging :=
  if negb (bool_decide (statusFilename f = [])) then
    if iordinal_equals (connectionFilename f) (statusFilename f) then
      Returned (with_statuslogger (connectionlogger st) st)
    else if iordinal_equals (errorFilename f) (statusFilename f) then
      Returned (with_statuslogger (errorlogger st) st)
    else
      let '(st, p) :=
        if iends_with (statusFilename f) (L ".csv")
        then make_shared (statusFilename f) Csv st
        else make_shared (statusFilename f) ClearText st in
      Returned (with_statuslogger p st)
  else Returned st.

(** Lines 1445-1468 *)
Definition make_jitterlogger (f : filenames) (st : ctsConfigLogging)
    : outcome ctsConfigLogging :=
  if negb (bool_decide (jitterFilename f = [])) then
    if iordinal_equals (connectionFilename f) (jitterFilename f) then
      and_then (IsCsvFormat st (connectionlogger st)) (fun csv =>
        if negb csv then
          Thrown (invalid_argument
                    "Jitter can only be logged using a csv format")
        else Returned (with_jitterlogger (connectionlogger st) st))
    else if iordinal_equals (errorFilename f) (jitterFilename f) then
      and_then (IsCsvFormat st (errorlogger st)) (fun csv =>
        if negb csv then
          Thrown (invalid_argument
                    "Jitter can only be logged using a csv format")
        else Returned (with_jitterlogger (errorlogger st) st))
    else if iordinal_equals (statusFilename f) (jitterFilename f) then
      and_then (IsCsvFormat st (statuslogger st)) (fun csv =>
        if negb csv then
          Thrown (invalid_argument
                    "Jitter can only be logged using a csv format")
        else Returned (with_jitterlogger (statuslogger st) st))
    else if iends_with (jitterFilename f) (L ".csv") then
      let '(st, p) := make_shared (jitterFilename f) Csv st in
      Returned (with_jitterlogger p st)
    else
      Thrown (invalid_argument "Jitter can only be logged using a csv format")
  else Returned st.

(** Lines 1408-1468 *)
Definition make_loggers (f : filenames) (st : ctsConfigLogging)
    : outcome ctsConfigLogging :=
  and_then (make_connectionlogger f st) (fun st =>
  and_then (make_errorlogger f st) (fun st =>
  and_then (make_statuslogger f st) (fun st =>
  make_jitterlogger f st))).

(** Lines 1333-1469 *)
Definition set_logging (args : list (list Z)) (st : ctsConfigLogging)
    : outcome (list (list Z) * ctsConfigLogging) :=
  match ('(args, st) ← verbosity_arguments args st;
         '(args, f) ← filename_arguments args;
         Ok (args, st, f)) with
  | Throw e => Thrown e
  | Ok (args, st, f) =>
    and_then (make_loggers f st) (fun st => Returned (args, st))
  end.

End Logging.

(** The statics before [set_logging]: verbosity 4 (line 90) and every
    pointer empty. *)
Definition no_loggers (StatusUpdateFrequency : Z) : ctsConfigLogging :=
  {| verbosity := 4;
     StatusUpdateFrequencyMilliseconds := StatusUpdateFrequency;
     made := [];
     connectionlogger := None; errorlogger := None;
     statuslogger := None; jitterlogger := None |}.

(** [ctString::iends_with] for the examples. *)
Definition reference_iends_with (a b : list Z) : bool :=
  reference_iordinal_equals (drop (length a - length b) a) b.

(** Status and jitter go to one csv file, errors to a text file. *)
Definition shared_csv : list (list Z) :=
  command_line ["-StatusFilename:run.csv"; "-ErrorFilename:errors.log";
                "-JitterFilename:RUN.CSV"]%string.

(** The names of [shared_csv]. *)
Definition shared_csv_names : filenames :=
  {| connectionFilename := [];
     errorFilename := L "errors.log";
     statusFilename := L "run.csv";
     jitterFilename := L "RUN.CSV" |}.

End Logging.

(** ** ctsConfig.cpp: [set_error], [set_options] and the setters of the
    socket functions *)

Module Functions.

(** The bits of [OptionType] that ctsConfig.cpp sets (ctsConfig.h is not
    among the sources: a bit is known by its name). *)
Inductive OptionType : Set :=
| KEEPALIVE | LOOPBACK_FAST_PATH | HANDLE_INLINE_IOCP | MAX_RECV_BUF.

#[global] Instance OptionType_eq_dec : EqDecision OptionType.
Proof. solve_decision. Defined.

Inductive ConnectFunctionType : Set :=
| ctsConnectEx | ctsSimpleConnect | ctsMediaStreamClientConnect.

Inductive IoFunctionType : Set :=
| ctsSendRecvIocp | ctsReadWriteIocp | ctsRioIocp
| ctsMediaStreamServerIo | ctsMediaStreamClient.

Inductive CreateFunctionType : Set := ctsWSASocket.

Definition WSA_FLAG_OVERLAPPED : Z := 1.
Definition WSA_FLAG_NO_HANDLE_INHERIT : Z := 128.
Definition WSA_FLAG_REGISTERED_IO : Z := 256.

(** The static [break_on_error] and the members of [Settings] that these
    setters write.  [Options] holds the bits that are set. *)
Record ctsConfigFunctions : Type := mkFunctions {
  break_on_error : bool;
  Options : list OptionType;
  SocketFlags : Z;
  CreateFunction : option CreateFunctionType;
  ConnectFunction : option ConnectFunctionType;
  IoFunction : option IoFunctionType
}.

Definition with_break_on_error (v : bool) (f : ctsConfigFunctions)
    : ctsConfigFunctions :=
  {| break_on_error := v; Options := Options f;
     SocketFlags := SocketFlags f; CreateFunction := CreateFunction f;
     ConnectFunction := ConnectFunction f; IoFunction := IoFunction f |}.

(** [Settings->Options |= bit] *)
Definition with_option (bit : OptionType) (f : ctsConfigFunctions)
    : ctsConfigFunctions :=
  {| break_on_error := break_on_error f;
     Options :=
       if bool_decide (bit ∈ Options f) then Options f
       else Options f ++ [bit];
     SocketFlags := SocketFlags f; CreateFunction := CreateFunction f;
     ConnectFunction := ConnectFunction f; IoFunction := IoFunction f |}.

Definition with_SocketFlags (v : Z) (f : ctsConfigFunctions)
    : ctsConfigFunctions :=
  {| break_on_error := break_on_error f; Options := Options f;
     SocketFlags := v; CreateFunction := CreateFunction f;
     ConnectFunction := ConnectFunction f; IoFunction := IoFunction f |}.

Definition with_CreateFunction (v : CreateFunctionType)
    (f : ctsConfigFunctions) : ctsConfigFunctions :=
  {| break_on_error := break_on_error f; Options := Options f;
     SocketFlags := SocketFlags f; CreateFunction := Some v;
     ConnectFunction := ConnectFunction f; IoFunction := IoFunction f |}.

Definition with_ConnectFunction (v : ConnectFunctionType)
    (f : ctsConfigFunctions) : ctsConfigFunctions :=
  {| break_on_error := break_on_error f; Options := Options f;
     SocketFlags := SocketFlags f; CreateFunction := CreateFunction f;
     ConnectFunction := Some v; IoFunction := IoFunction f |}.

Definition with_IoFunction (v : IoFunctionType) (f : ctsConfigFunctions)
    : ctsConfigFunctions :=
  {| break_on_error := break_on_error f; Options := Options f;
     SocketFlags := SocketFlags f; CreateFunction := CreateFunction f;
     ConnectFunction := ConnectFunction f; IoFunction := Some v |}.

(** Line 127 and [InitOncectsConfigImpl]: the members before any setter
    runs. *)
Definition no_functions : ctsConfigFunctions :=
  {| break_on_error := false;
     Options := [];
     SocketFlags := Z.lor WSA_FLAG_OVERLAPPED WSA_FLAG_NO_HANDLE_INHERIT;
     CreateFunction := None;
     ConnectFunction := None;
     IoFunction := None |}.

Section Functions.

Context `{Externals}.

(** Lines 1479-1500 *)
Definition set_error (args : list (list Z)) (f : ctsConfigFunctions)
    : result (list (list Z) * ctsConfigFunctions) :=
  '(args, found_arg) ← find_value (L "-OnError") args;
  match found_arg with
  | Some (i, value) =>
    f ← (if iordinal_equals (L "log") value
         then Ok (with_break_on_error false f)
         else if iordinal_equals (L "break") value
         then Ok (with_break_on_error true f)
         else Throw (invalid_argument "-OnError"));
    Ok (delete i args, f)
  | None => Ok (args, f)
  end.

(** Lines 575-613: the loop over the [-Options] arguments.  Every turn that
    goes on erases an argument. *)
Fixpoint options_loop (turns : nat) (s : ctsConfigSettings)
    (args : list (list Z)) (f : ctsConfigFunctions)
    : result (list (list Z) * ctsConfigFunctions) :=
  match turns, args with
  | O, _ | _, [] => Ok (args, f)
  | Datatypes.S turns, _ :: _ =>
    '(args, found_arg) ← find_value (L "-Options") args;
    match found_arg with
    | None => Ok (args, f)
    | Some (i, value) =>
      f ← (if iordinal_equals (L "keepalive") value then
             if bool_decide (Protocol s = TCP)
             then Ok (with_option KEEPALIVE f)
             else Throw (invalid_argument
                           "-Options (keepalive only allowed with TCP sockets)")
           else if iordinal_equals (L "tcpfastpath") value then
             if bool_decide (Protocol s = TCP)
             then Ok (with_option LOOPBACK_FAST_PATH f)
             else Throw (invalid_argument
                           "-Options (tcpfastpath only allowed with TCP sockets)")
           else Throw (invalid_argument "-Options"));
      options_loop turns s (delete i args) f
    end
  end.

Definition set_options (args : list (list Z)) (s : ctsConfigSettings)
    (f : ctsConfigFunctions) : result (list (list Z) * ctsConfigFunctions) :=
  options_loop (Datatypes.S (length args)) s args f.

(** Lines 479-530 *)
Definition set_ioFunction (args : list (list Z)) (s : ctsConfigSettings)
    (f : ctsConfigFunctions) : result (list (list Z) * ctsConfigFunctions) :=
  '(args, found_arg) ← find_value (L "-io") args;
  match found_arg with
  | Some (i, value) =>
    if negb (bool_decide (Protocol s = TCP)) then
      Throw (invalid_argument "-io (only applicable to TCP)")
    else
      f ← (if iordinal_equals (L "iocp") value then
             Ok (with_option HANDLE_INLINE_IOCP
                   (with_IoFunction ctsSendRecvIocp f))
           else if iordinal_equals (L "readwritefile") value then
             Ok (with_IoFunction ctsReadWriteIocp f)
           else if iordinal_equals (L "rioiocp") value then
             Ok (with_SocketFlags
                   (Z.lor (SocketFlags f) WSA_FLAG_REGISTERED_IO)
                   (with_IoFunction ctsRioIocp f))
           else Throw (invalid_argument "-io"));
      Ok (delete i args, f)
  | None =>
    if bool_decide (Protocol s = TCP) then
      Ok (args,
          with_option HANDLE_INLINE_IOCP (with_IoFunction ctsSendRecvIocp f))
    else if IsListening s then
      Ok (args, with_IoFunction ctsMediaStreamServerIo f)
    else
      Ok (args,
          with_option HANDLE_INLINE_IOCP
            (with_option MAX_RECV_BUF
               (with_IoFunction ctsMediaStreamClient f)))
  end.

(** Lines 356-363 *)
Definition set_create (args : list (list Z)) (f : ctsConfigFunctions)
    : result (list (list Z) * ctsConfigFunctions) :=
  match CreateFunction f with
  | None => Ok (args, with_CreateFunction ctsWSASocket f)
  | Some _ => Ok (args, f)
  end.

(** Lines 376-415 *)
Definition set_connect (args : list (list Z)) (s : ctsConfigSettings)
    (f : ctsConfigFunctions) : result (list (list Z) * ctsConfigFunctions) :=
  '(args, found_arg) ← find_value (L "--conn") args;
  '(args, f, connect_specifed) ←
    match found_arg with
    | Some (i, value) =>
      if negb (bool_decide (Protocol s = TCP)) then
        Throw (invalid_argument "--conn (only applicable to TCP)")
      else
        f ← (if iordinal_equals (L "ConnectEx") value
             then Ok (with_ConnectFunction ctsConnectEx f)
             else if iordinal_equals (L "connect") value
             then Ok (with_ConnectFunction ctsSimpleConnect f)
             else Throw (invalid_argument "--conn"));
        Ok (delete i args, f, true)
    | None =>
      if negb (bool_decide (IoPattern s = MediaStream))
      then Ok (args, with_ConnectFunction ctsConnectEx f, false)
      else Ok (args, with_ConnectFunction ctsMediaStreamClientConnect f, false)
    end;
  if bool_decide (IoPattern s = MediaStream) && connect_specifed then
    Throw (invalid_argument
             "-conn (MediaStream has its own internal connection handler)")
  else Ok (args, f).

End Functions.

End Functions.

(** ** The externals of the examples

    Every setter is its embedding above, over the library functions and
    started from the statics as the file initialises them.  What is not
    among the sources is chosen: a name resolves to an address of each
    family, the machine has the two adapters above, a frame of the media
    stream is the bytes of a second over the frames of a second, and every
    system call succeeds. *)

(** [MediaStreamSettings::FrameSizeBytes] after [CalculateTransferSize],
    and zero before. *)
Definition sample_FrameSizeBytes (m : Patterns.MediaStreamSettings) : Z :=
  if 0 =? Patterns.FramesPerSecond m then 0
  else Patterns.BitsPerSecond m / 8 / Patterns.FramesPerSecond m.

(** The calls of the constructor of [ctsSimpleAccept] for the address
    number [i], when all succeed. *)
Definition sample_listen_calls (i : nat) : SimpleAccept.listen_calls :=
  {| SimpleAccept.WSASocket := Some i;
     SimpleAccept.WSASocket_error := 0;
     SimpleAccept.SetPreBindOptions := 0;
     SimpleAccept.bind_error := None;
     SimpleAccept.listen_error := None;
     SimpleAccept.push_back_throws := false |}.

Section ReferenceSetters.

#[local] Existing Instance reference_library.

Definition reference_set_error (args : list (list Z))
    : result (list (list Z)) :=
  '(args, _) ← Functions.set_error args Functions.no_functions;
  Ok args.

(** A call through an empty pointer ends the process; [Startup] has no
    such end, and it is given as an exception. *)
Definition reference_set_logging (args : list (list Z))
    : result (list (list Z) * bool) :=
  match Logging.set_logging Logging.reference_iends_with args
          (Logging.no_loggers 5000) with
  | Logging.Returned (args, st) =>
    Ok (args, bool_decide (is_Some (Logging.jitterlogger st)))
  | Logging.Thrown e => Throw e
  | Logging.NullDereference => Throw (exception "access violation")
  end.

Definition reference_set_address (s : ctsConfigSettings)
    (args : list (list Z))
    : result (list (list Z) * (list ctSockaddr * list ctSockaddr)) :=
  match Addresses.set_address Addresses.sample_family
          Addresses.sample_AddressAny Addresses.sample_ResolveName
          args s Addresses.no_addresses with
  | Addresses.Returned (args, a) =>
    Ok (args, (Addresses.Listen a, Addresses.Target a))
  | Addresses.Thrown e => Throw e
  | Addresses.ThrownException what => Throw (exception what)
  end.

Definition reference_set_localport (s : ctsConfigSettings)
    (args : list (list Z)) : result (list (list Z) * (Z * Z)) :=
  '(args, s) ← Ranges.set_localport args s;
  Ok (args, (LocalPortLow s, LocalPortHigh s)).

Definition reference_set_ioPattern (s : ctsConfigSettings)
    (args : list (list Z))
    : result (list (list Z) * (IoPatternType * Z)) :=
  '(args, s, p, _) ←
    Patterns.set_ioPattern reference_stoll Patterns.stream_bytes args s
      Patterns.no_pattern (Ranges.initial_ranges 0);
  Ok (args,
      (IoPattern s, sample_FrameSizeBytes (Patterns.media_stream_settings p))).

Definition reference_set_options (s : ctsConfigSettings)
    (args : list (list Z)) : result (list (list Z)) :=
  '(args, _) ← Functions.set_options args s Functions.no_functions;
  Ok args.

(** The constructor of [ctNetAdapterAddresses] returns in the examples. *)
Definition reference_set_compartment (s : ctsConfigSettings)
    (args : list (list Z)) : result (list (list Z)) :=
  match NetAdapterAddresses.set_compartment args
          (Some NetAdapterAddresses.two_adapters) with
  | NetAdapterAddresses.Returned (args, _) => Ok args
  | NetAdapterAddresses.Thrown e => Throw e
  | NetAdapterAddresses.Terminated => Throw (exception "terminate")
  end.

Definition reference_set_buffer (s : ctsConfigSettings)
    (args : list (list Z)) : result (list (list Z)) :=
  '(args, _) ← Ranges.set_buffer args s (Ranges.initial_ranges 0);
  Ok args.

Definition reference_set_transfer (s : ctsConfigSettings)
    (args : list (list Z)) : result (list (list Z)) :=
  '(args, _) ← Ranges.set_transfer args s (Ranges.initial_ranges 0);
  Ok args.

Definition reference_set_ratelimit (s : ctsConfigSettings)
    (args : list (list Z)) : result (list (list Z)) :=
  '(args, _) ←
    Ranges.set_ratelimit reference_stoll args s (Ranges.initial_ranges 0);
  Ok args.

Definition reference_set_ioFunction (s : ctsConfigSettings)
    (args : list (list Z)) : result (list (list Z)) :=
  '(args, _) ← Functions.set_ioFunction args s Functions.no_functions;
  Ok args.

Definition reference_set_create (s : ctsConfigSettings)
    (args : list (list Z)) : result (list (list Z)) :=
  '(args, _) ← Functions.set_create args Functions.no_functions;
  Ok args.

Definition reference_set_connect (s : ctsConfigSettings)
    (args : list (list Z)) : result (list (list Z)) :=
  '(args, _) ← Functions.set_connect args s Functions.no_functions;
  Ok args.

End ReferenceSetters.

(** [ctsSimpleAccept()] for the listening addresses of the settings. *)
Definition reference_ctsSimpleAccept (s : ctsConfigSettings) : result unit :=
  match SimpleAccept.ctsSimpleAccept
          (imap (fun i _ => sample_listen_calls i) (ListenAddresses s))
          false [] with
  | (_, inr _) => Ok tt
  | (_, inl (SimpleAccept.ctException_thrown why what)) =>
    Throw (ctException why what)
  | (_, inl (SimpleAccept.std_exception what)) => Throw (exception what)
  | (_, inl SimpleAccept.bad_alloc) => Throw (exception "bad allocation")
  end.

#[global, refine] Instance reference_externals : Externals :=
  {| iordinal_equals := reference_iordinal_equals;
     istarts_with := reference_istarts_with;
     stoul := reference_stou MAXULONG;
     stoull := reference_stou MAXULONGLONG;
     default_settings := reference_default_settings;
     CreateEvent_error := None;
     timeBeginPeriod_error := None;
     set_error := reference_set_error;
     set_logging := reference_set_logging;
     set_address := reference_set_address;
     set_localport := reference_set_localport;
     set_ioPattern := reference_set_ioPattern;
     set_threadpool := Ok tt;
     ctsSimpleAccept_constructor := reference_ctsSimpleAccept;
     ctsAcceptEx_constructor := fun _ => Ok tt;
     set_options := reference_set_options;
     set_compartment := reference_set_compartment;
     set_buffer := reference_set_buffer;
     set_transfer := reference_set_transfer;
     set_ratelimit := reference_set_ratelimit;
     set_ioFunction := reference_set_ioFunction;
     set_create := reference_set_create;
     set_connect := reference_set_connect |}.
Proof.
  - exact (@stoul_range reference_library).
  - exact (@stoull_range reference_library).
Defined.

(** * Properties *)

(** Closed bounds, by evaluation. *)
Ltac compute_ranges :=
  repeat apply conj; vm_compute; first [reflexivity | discriminate].

(** ** Arithmetic of the counters *)

Lemma wrap32_small z : 0 <= z <= MAXULONG -> wrap32 z = z.
Proof. unfold wrap32, MAXULONG. intros. apply Z.mod_small. lia. Qed.

Lemma wrap64_small z : 0 <= z <= MAXULONGLONG -> wrap64 z = z.
Proof. unfold wrap64, MAXULONGLONG. intros. apply Z.mod_small. lia. Qed.

Lemma wrap32_range z : 0 <= wrap32 z <= MAXULONG.
Proof.
  unfold wrap32, MAXULONG.
  pose proof (Z.mod_pos_bound z 4294967296). lia.
Qed.

Lemma wrap64_range z : 0 <= wrap64 z <= MAXULONGLONG.
Proof.
  unfold wrap64, MAXULONGLONG.
  pose proof (Z.mod_pos_bound z 18446744073709551616). lia.
Qed.

Lemma client_no_AcceptFunction cfg :
  has_AcceptFunction cfg = false <-> AcceptFunction cfg = None.
Proof. unfold has_AcceptFunction. destruct (AcceptFunction cfg); split; congruence. Qed.

(** ** The constructor's limits *)

Lemma ctor_init_in_range cfg :
  settings_in_range cfg -> broker_in_range (ctor_init cfg).
Proof.
  intros (Hi & Hs & Hc & Ha & Ht).
  unfold broker_in_range, ctor_init; simpl.
  assert (Htot : 0 <=
    (if has_AcceptFunction cfg then ServerExitLimit cfg
     else if Iterations cfg =? MAXULONGLONG then MAXULONGLONG
          else wrap64 (Iterations cfg * ConnectionLimit cfg)) <= MAXULONGLONG).
  { destruct (has_AcceptFunction cfg); [lia|].
    destruct (Iterations cfg =? MAXULONGLONG); [unfold MAXULONGLONG; lia|].
    apply wrap64_range. }
  split; [exact Htot|].
  split; [|unfold MAXULONG; lia].
  destruct (_ >? _); [apply wrap32_range|].
  destruct (has_AcceptFunction cfg); lia.
Qed.

Lemma ctor_init_pending_limit cfg :
  settings_in_range cfg ->
  pending_limit (ctor_init cfg)
    = Z.min (if has_AcceptFunction cfg then AcceptLimit cfg
             else ConnectionLimit cfg)
            (total_connections_remaining (ctor_init cfg)).
Proof.
  intros Hr.
  pose proof (ctor_init_in_range cfg Hr) as (Htot & _).
  destruct Hr as (Hi & Hs & Hc & Ha & Ht).
  unfold ctor_init in *. simpl in *.
  set (total := if has_AcceptFunction cfg then _ else _) in *.
  set (limit := if has_AcceptFunction cfg then AcceptLimit cfg else _).
  assert (0 <= limit <= MAXULONG)
    by (subst limit; destruct (has_AcceptFunction cfg); lia).
  destruct (Z.gtb_spec limit total).
  - rewrite wrap32_small by lia. lia.
  - lia.
Qed.

(** What the constructor computes.  It sets [total_connections_remaining]
    to [ServerExitLimit] for a server; for a client to the unbounded sentinel
    when [Iterations] is the sentinel, and otherwise to the 64-bit product
    of [Iterations] and [ConnectionLimit], which is their product whenever
    that does not exceed [MAXULONGLONG].  [pending_limit] is the role's
    limit clamped to that total, so it never exceeds it. *)
Lemma ctor_init_limits cfg :
  settings_in_range cfg ->
  let b := ctor_init cfg in
  (has_AcceptFunction cfg = true ->
     total_connections_remaining b = ServerExitLimit cfg) /\
  (has_AcceptFunction cfg = false ->
     Iterations cfg = MAXULONGLONG ->
     total_connections_remaining b = MAXULONGLONG) /\
  (has_AcceptFunction cfg = false ->
     Iterations cfg <> MAXULONGLONG ->
     total_connections_remaining b
       = wrap64 (Iterations cfg * ConnectionLimit cfg) /\
     (Iterations cfg * ConnectionLimit cfg <= MAXULONGLONG ->
      total_connections_remaining b
        = Iterations cfg * ConnectionLimit cfg /\
      total_connections_remaining b
        = saturating_product (Iterations cfg) (ConnectionLimit cfg))) /\
  pending_limit b
    = Z.min (if has_AcceptFunction cfg then AcceptLimit cfg
             else ConnectionLimit cfg)
            (total_connections_remaining b) /\
  pending_limit b <= total_connections_remaining b.
Proof.
  intros Hr b.
  pose proof (ctor_init_pending_limit cfg Hr) as Hlim.
  destruct Hr as (Hi & Hs & Hc & Ha & Ht).
  subst b.
  split_and!.
  - intros Hrole. unfold ctor_init. simpl. rewrite Hrole. reflexivity.
  - intros Hrole Hsentinel. unfold ctor_init. simpl.
    rewrite Hrole, Hsentinel. reflexivity.
  - intros Hrole Hne. apply Z.eqb_neq in Hne.
    unfold ctor_init. simpl. rewrite Hrole, Hne.
    split; [reflexivity|]. intros Hfit.
    unfold saturating_product. rewrite Z.min_l by lia.
    split; apply wrap64_small; nia.
  - exact Hlim.
  - rewrite Hlim. lia.
Qed.

(** C3 fails on the code.  The usage text says of [-Iterations] that the
    total number of connections made before exit is Iterations *
    Connections, and the constructor keeps the unbounded sentinel apart, but
    it multiplies the two in 64 bits with no test for overflow.  [Startup]
    accepts [-iterations:9223372036854775808 -connections:2]; the product
    [2^64] becomes 0, where a saturating product is [MAXULONGLONG]: the
    constructor creates no record, and the first callback finds the three
    counters at zero and signals [done_event]. *)
Theorem C3_iterations_product_overflows :
  exists s w,
    Startup overflowing_iterations = Ok (Some s) /\
    has_AcceptFunction s = false /\
    Iterations s = 2 ^ 63 /\
    Iterations s <> MAXULONGLONG /\
    ConnectionLimit s = 2 /\
    Iterations s * ConnectionLimit s = 2 ^ 64 /\
    saturating_product (Iterations s) (ConnectionLimit s) = MAXULONGLONG /\
    total_connections_remaining (ctor_init s) = 0 /\
    pending_limit (ctor_init s) = 0 /\
    ctor s None = Some w /\
    heap w = [] /\
    done_event (broker w) = false /\
    heap (TimerCallback s None w).1 = [] /\
    done_event (broker (TimerCallback s None w).1) = true.
Proof.
  destruct (Startup overflowing_iterations) as [[s|]|e] eqn:Hrun;
    try (vm_compute in Hrun; discriminate Hrun).
  vm_compute in Hrun. injection Hrun as <-.
  eexists _, (armed _). split; [reflexivity|].
  split_and!; try reflexivity.
  vm_compute. discriminate.
Qed.

(** ** The notifications of the connection records *)

Lemma initiating_io_Returns b :
  broker_in_range b ->
  0 < pending_sockets b ->
  exists b', initiating_io b = Returns b' /\
    pending_sockets b' = pending_sockets b - 1 /\
    active_sockets b' = wrap32 (active_sockets b + 1) /\
    (active_sockets b < MAXULONG ->
     active_sockets b' = active_sockets b + 1 /\
     pending_sockets b' + active_sockets b'
       = pending_sockets b + active_sockets b) /\
    total_connections_remaining b' = total_connections_remaining b /\
    pending_limit b' = pending_limit b /\
    socket_pool b' = socket_pool b /\
    done_event b' = done_event b.
Proof.
  intros (Ht & Hl & Hp & Ha) Hpos. unfold initiating_io.
  destruct (Z.eqb_spec (pending_sockets b) 0); [lia|].
  eexists; split; [reflexivity|]. simpl.
  rewrite (wrap32_small (pending_sockets b - 1)) by lia.
  repeat apply conj; try reflexivity.
  intros Hlt. rewrite wrap32_small by lia. lia.
Qed.

Lemma closing_active_Returns b :
  broker_in_range b ->
  0 < active_sockets b ->
  exists b', closing true b = Returns b' /\
    active_sockets b' = active_sockets b - 1 /\
    pending_sockets b' = pending_sockets b /\
    total_connections_remaining b' = total_connections_remaining b /\
    pending_limit b' = pending_limit b /\
    socket_pool b' = socket_pool b /\
    done_event b' = done_event b.
Proof.
  intros (Ht & Hl & Hp & Ha) Hpos. unfold closing.
  destruct (Z.eqb_spec (active_sockets b) 0); [lia|].
  eexists; split; [reflexivity|]. simpl.
  rewrite wrap32_small by lia. repeat apply conj; reflexivity.
Qed.

Lemma closing_pending_Returns b :
  broker_in_range b ->
  0 < pending_sockets b ->
  exists b', closing false b = Returns b' /\
    pending_sockets b' = pending_sockets b - 1 /\
    active_sockets b' = active_sockets b /\
    total_connections_remaining b' = total_connections_remaining b /\
    pending_limit b' = pending_limit b /\
    socket_pool b' = socket_pool b /\
    done_event b' = done_event b.
Proof.
  intros (Ht & Hl & Hp & Ha) Hpos. unfold closing.
  destruct (Z.eqb_spec (pending_sockets b) 0); [lia|].
  eexists; split; [reflexivity|]. simpl.
  rewrite wrap32_small by lia. repeat apply conj; reflexivity.
Qed.

Lemma no_pending_FailFast b :
  pending_sockets b = 0 ->
  initiating_io b = FailFast /\ closing false b = FailFast.
Proof.
  intros Hz. unfold initiating_io, closing. rewrite Hz. split; reflexivity.
Qed.

Lemma no_active_FailFast b :
  active_sockets b = 0 -> closing true b = FailFast.
Proof. intros Hz. unfold closing. rewrite Hz. reflexivity. Qed.

(** C6 (as amended).  With [pending_sockets > 0], [initiating_io] takes one
    from [pending_sockets] and adds one to [active_sockets] in 32-bit
    arithmetic: exactly one, with the sum unchanged, unless [active_sockets]
    is [MAXULONG].  [closing] takes one from [active_sockets] when
    [was_active] and [active_sockets > 0], one from [pending_sockets] when
    not [was_active] and [pending_sockets > 0].  No other member changes.
    When the counter to decrement is zero the call ends the process. *)
Theorem C6_counter_updates b :
  broker_in_range b ->
  (0 < pending_sockets b ->
   exists b', initiating_io b = Returns b' /\
     pending_sockets b' = pending_sockets b - 1 /\
     active_sockets b' = wrap32 (active_sockets b + 1) /\
     (active_sockets b < MAXULONG ->
      active_sockets b' = active_sockets b + 1 /\
      pending_sockets b' + active_sockets b'
        = pending_sockets b + active_sockets b) /\
     total_connections_remaining b' = total_connections_remaining b /\
     pending_limit b' = pending_limit b /\
     socket_pool b' = socket_pool b /\
     done_event b' = done_event b) /\
  (0 < active_sockets b ->
   exists b', closing true b = Returns b' /\
     active_sockets b' = active_sockets b - 1 /\
     pending_sockets b' = pending_sockets b /\
     total_connections_remaining b' = total_connections_remaining b /\
     pending_limit b' = pending_limit b /\
     socket_pool b' = socket_pool b /\
     done_event b' = done_event b) /\
  (0 < pending_sockets b ->
   exists b', closing false b = Returns b' /\
     pending_sockets b' = pending_sockets b - 1 /\
     active_sockets b' = active_sockets b /\
     total_connections_remaining b' = total_connections_remaining b /\
     pending_limit b' = pending_limit b /\
     socket_pool b' = socket_pool b /\
     done_event b' = done_event b) /\
  (pending_sockets b = 0 ->
   initiating_io b = FailFast /\ closing false b = FailFast) /\
  (active_sockets b = 0 -> closing true b = FailFast).
Proof.
  intros Hr.
  split; [exact (initiating_io_Returns b Hr)|].
  split; [exact (closing_active_Returns b Hr)|].
  split; [exact (closing_pending_Returns b Hr)|].
  split; [exact (no_pending_FailFast b)|exact (no_active_FailFast b)].
Qed.

Lemma C6_counter_updates_witness :
  broker_in_range (broker two_pending) /\
  exists b', initiating_io (broker two_pending) = Returns b' /\
    pending_sockets b' = 1 /\ active_sockets b' = 1.
Proof.
  assert (Hr : broker_in_range (broker two_pending))
    by compute_ranges.
  split; [exact Hr|].
  destruct (C6_counter_updates (broker two_pending) Hr) as (Hinit & _).
  destruct Hinit as (b' & Hb' & Hp & Ha & _); [reflexivity|].
  exists b'. split; [exact Hb'|]. split; [exact Hp|exact Ha].
Defined.

(** C6 as the specification states it fails: not in every state does [closing]
    decrement a counter.  In the broker of a server that has no record yet,
    [closing(true)] finds [active_sockets] zero and ends the process; no
    state with one active socket less is returned. *)
Lemma C6_closing_at_zero_is_fatal :
  active_sockets (ctor_init small_server) = 0 /\
  closing true (ctor_init small_server) = FailFast /\
  ~ (exists b', closing true (ctor_init small_server) = Returns b' /\
       active_sockets b'
       = active_sockets (ctor_init small_server) - 1).
Proof.
  split; [reflexivity|]. split; [reflexivity|].
  intros (b' & Hb' & _). discriminate Hb'.
Qed.

(** ** The two loops that construct connection records *)

Lemma add_socket_guarded w :
  broker_in_range (broker w) ->
  0 < total_connections_remaining (broker w) ->
  pending_sockets (broker w) < pending_limit (broker w) ->
  total_connections_remaining (broker (add_socket w))
    = total_connections_remaining (broker w) - 1 /\
  pending_sockets (broker (add_socket w)) = pending_sockets (broker w) + 1 /\
  broker_in_range (broker (add_socket w)).
Proof.
  intros (Ht & Hl & Hp & Ha) Htot Hpend.
  unfold broker_in_range, add_socket; simpl.
  rewrite wrap64_small by lia.
  rewrite wrap32_small by lia.
  lia.
Qed.

Lemma timer_loop_invariant (P : World -> Prop) cfg :
  (forall w,
     P w ->
     pending_sockets (broker w) < pending_limit (broker w) ->
     0 < total_connections_remaining (broker w) ->
     (has_AcceptFunction cfg = false ->
      wrap32 (pending_sockets (broker w) + active_sockets (broker w))
        < ConnectionLimit cfg /\
      pending_sockets (broker w) < ConnectionThrottleLimit cfg) ->
     P (add_socket w)) ->
  forall fuel allocs w, P w -> P (timer_loop fuel cfg allocs w).
Proof.
  intros Hstep fuel.
  induction fuel as [|fuel IH]; intros allocs w Hw; simpl; [exact Hw|].
  destruct (Z.ltb_spec (pending_sockets (broker w)) (pending_limit (broker w)));
    simpl; [|exact Hw].
  destruct (Z.ltb_spec 0 (total_connections_remaining (broker w)));
    simpl; [|exact Hw].
  destruct (has_AcceptFunction cfg) eqn:Hrole; simpl.
  - destruct (alloc_throws allocs); [exact Hw|].
    apply IH, Hstep; auto. discriminate.
  - destruct (Z.geb_spec
      (wrap32 (pending_sockets (broker w) + active_sockets (broker w)))
      (ConnectionLimit cfg)); [exact Hw|].
    destruct (Z.geb_spec (pending_sockets (broker w))
      (ConnectionThrottleLimit cfg)); [exact Hw|].
    destruct (alloc_throws allocs); [exact Hw|].
    apply IH, Hstep; auto.
Qed.

Lemma ctor_loop_invariant (P : World -> Prop) cfg :
  (forall w,
     P w ->
     0 < total_connections_remaining (broker w) ->
     pending_sockets (broker w) < pending_limit (broker w) ->
     P (add_socket w)) ->
  forall fuel allocs w w',
    P w -> ctor_loop fuel cfg allocs w = Some w' -> P w'.
Proof.
  intros Hstep fuel.
  induction fuel as [|fuel IH]; intros allocs w w' Hw; simpl.
  { intros [= <-]. exact Hw. }
  destruct (Z.ltb_spec 0 (total_connections_remaining (broker w)));
    simpl; [|intros [= <-]; exact Hw].
  destruct (Z.ltb_spec (pending_sockets (broker w)) (pending_limit (broker w)));
    simpl; [|intros [= <-]; exact Hw].
  destruct (alloc_throws allocs); [discriminate|].
  destruct (negb (has_AcceptFunction cfg) && _).
  - intros [= <-]. apply Hstep; auto.
  - apply IH, Hstep; auto.
Qed.

Lemma ctor_fill_invariant (P : World -> Prop) cfg allocs w w' :
  (forall w,
     P w ->
     0 < total_connections_remaining (broker w) ->
     pending_sockets (broker w) < pending_limit (broker w) ->
     P (add_socket w)) ->
  P w -> ctor_fill cfg allocs w = Some w' -> P w'.
Proof. intros Hstep Hw. unfold ctor_fill. eapply ctor_loop_invariant; eauto. Qed.

Lemma reap_broker_counters w :
  total_connections_remaining (broker (reap w))
    = total_connections_remaining (broker w) /\
  pending_limit (broker (reap w)) = pending_limit (broker w) /\
  pending_sockets (broker (reap w)) = pending_sockets (broker w) /\
  active_sockets (broker (reap w)) = active_sockets (broker w) /\
  done_event (broker (reap w)) = done_event (broker w) /\
  heap (reap w) = heap w.
Proof. repeat apply conj; reflexivity. Qed.

(** What a callback leaves is what its loop leaves, when it does not
    signal. *)
Lemma TimerCallback_invariant (P : World -> Prop) cfg allocs w :
  P (reap w) ->
  (P (reap w) -> P (signal_done (reap w))) ->
  (forall w,
     P w ->
     pending_sockets (broker w) < pending_limit (broker w) ->
     0 < total_connections_remaining (broker w) ->
     (has_AcceptFunction cfg = false ->
      wrap32 (pending_sockets (broker w) + active_sockets (broker w))
        < ConnectionLimit cfg /\
      pending_sockets (broker w) < ConnectionThrottleLimit cfg) ->
     P (add_socket w)) ->
  P (TimerCallback cfg allocs w).1.
Proof.
  intros Hreap Hsig Hstep. unfold TimerCallback.
  destruct (_ && _ && _); simpl; [auto|].
  destruct (done_event _); simpl; [auto|].
  apply timer_loop_invariant; auto.
Qed.

(** Without a failed allocation the constructor's loop always ends, and it
    ends by its own condition or by its [break], never for want of fuel. *)
Lemma ctor_loop_complete cfg : forall fuel w,
  broker_in_range (broker w) ->
  pending_limit (broker w) - pending_sockets (broker w) <= Z.of_nat fuel ->
  exists w', ctor_loop fuel cfg None w = Some w' /\
    ((0 <? total_connections_remaining (broker w'))
       && (pending_sockets (broker w') <? pending_limit (broker w')) = false
     \/ (has_AcceptFunction cfg = false /\
         ConnectionThrottleLimit cfg = pending_sockets (broker w'))).
Proof.
  induction fuel as [|fuel IH]; intros w Hr Hfuel; simpl.
  - exists w. split; [reflexivity|]. left.
    apply andb_false_iff. right. apply Z.ltb_ge. lia.
  - destruct ((0 <? _) && (_ <? _)) eqn:Hcond.
    + apply andb_true_iff in Hcond as [Ht%Z.ltb_lt Hp%Z.ltb_lt].
      destruct (add_socket_guarded w Hr Ht Hp) as (_ & Hp' & Hr').
      destruct (negb (has_AcceptFunction cfg) && _) eqn:Hbreak.
      * exists (add_socket w). split; [reflexivity|]. right.
        apply andb_true_iff in Hbreak as [Hrole%negb_true_iff Heq%Z.eqb_eq].
        auto.
      * apply IH; [exact Hr'|].
        rewrite Hp'. replace (pending_limit (broker (add_socket w)))
          with (pending_limit (broker w)) by reflexivity. lia.
    + exists w. split; [reflexivity|]. left. exact Hcond.
Qed.

Lemma ctor_total cfg :
  settings_in_range cfg -> exists w, ctor cfg None = Some w.
Proof.
  intros Hr. unfold ctor, ctor_fill.
  destruct (ctor_loop_complete cfg
    (Z.to_nat (pending_limit (broker (armed cfg))
               - pending_sockets (broker (armed cfg))))
    (armed cfg)) as (w & Hw & _).
  - apply ctor_init_in_range, Hr.
  - pose proof (ctor_init_in_range cfg Hr) as (_ & Hl & _). simpl in *. lia.
  - eauto.
Qed.

(** ** C4: the count of connections remaining *)

Lemma constructions_snoc w0 w :
  constructions w0 w ->
  0 < total_connections_remaining (broker w) ->
  constructions w0 (add_socket w).
Proof.
  induction 1 as [w|w w' Hpos _ IH]; intros Hlast.
  - apply constructions_more; [exact Hlast|apply constructions_none].
  - apply constructions_more; [exact Hpos|apply IH, Hlast].
Qed.

(** Along a chain every construction costs exactly one connection, and the
    count stays in its range: it never passes below zero. *)
Lemma constructions_total w w' :
  constructions w w' ->
  0 <= total_connections_remaining (broker w) <= MAXULONGLONG ->
  total_connections_remaining (broker w')
    = total_connections_remaining (broker w)
      - (Z.of_nat (length (heap w')) - Z.of_nat (length (heap w))) /\
  0 <= total_connections_remaining (broker w') <= MAXULONGLONG /\
  (length (heap w) <= length (heap w'))%nat.
Proof.
  induction 1 as [w|w w' Hpos _ IH]; intros Hr.
  - split; [lia|]. split; [exact Hr|]. lia.
  - assert (Hone : total_connections_remaining (broker (add_socket w))
                   = total_connections_remaining (broker w) - 1).
    { simpl. apply wrap64_small. lia. }
    destruct IH as (Heq & Hrange & Hlen); [lia|].
    assert (Hheap : length (heap (add_socket w)) = S (length (heap w))).
    { simpl. rewrite length_app. simpl. lia. }
    rewrite Hheap in *. lia.
Qed.

Lemma ctor_fill_constructions cfg allocs w w' :
  ctor_fill cfg allocs w = Some w' -> constructions w w'.
Proof.
  apply (ctor_fill_invariant (constructions w)).
  - intros w1 H1 Hpos _. apply constructions_snoc; assumption.
  - apply constructions_none.
Qed.

Lemma TimerCallback_constructions cfg allocs w :
  (TimerCallback cfg allocs w).1 = signal_done (reap w)
  \/ constructions (reap w) (TimerCallback cfg allocs w).1.
Proof.
  unfold TimerCallback.
  destruct (_ && _ && _); simpl; [left; reflexivity|].
  right. destruct (done_event _); simpl; [apply constructions_none|].
  apply (timer_loop_invariant (constructions (reap w))).
  - intros w1 H1 _ Hpos _. apply constructions_snoc; assumption.
  - apply constructions_none.
Qed.

(** C4.  Both loops build records by chains of [add_socket] in which every
    link starts with [total_connections_remaining > 0]; over the whole
    constructor loop and over a whole timer callback the count decreases
    by exactly the number of records constructed, and it is never
    negative. *)
Theorem C4_total_connections_remaining cfg allocs w :
  0 <= total_connections_remaining (broker w) <= MAXULONGLONG ->
  (forall w',
     ctor_fill cfg allocs w = Some w' ->
     constructions w w' /\
     total_connections_remaining (broker w')
       = total_connections_remaining (broker w)
         - (Z.of_nat (length (heap w')) - Z.of_nat (length (heap w))) /\
     0 <= total_connections_remaining (broker w')) /\
  (let w' := (TimerCallback cfg allocs w).1 in
   (w' = signal_done (reap w) \/ constructions (reap w) w') /\
   total_connections_remaining (broker w')
     = total_connections_remaining (broker w)
       - (Z.of_nat (length (heap w')) - Z.of_nat (length (heap w))) /\
   0 <= total_connections_remaining (broker w')) /\
  (forall w1,
     0 < total_connections_remaining (broker w1) <= MAXULONGLONG ->
     total_connections_remaining (broker (add_socket w1))
       = total_connections_remaining (broker w1) - 1 /\
     length (heap (add_socket w1)) = S (length (heap w1))).
Proof.
  intros Hr. repeat apply conj.
  - intros w' Hfill.
    pose proof (ctor_fill_constructions _ _ _ _ Hfill) as Hc.
    destruct (constructions_total _ _ Hc Hr) as (Heq & Hrange & _).
    split; [exact Hc|]. split; [exact Heq|lia].
  - apply TimerCallback_constructions.
  - destruct (TimerCallback_constructions cfg allocs w) as [-> | Hc].
    + simpl. lia.
    + destruct (constructions_total _ _ Hc) as (Heq & _); [exact Hr|].
      exact Heq.
  - destruct (TimerCallback_constructions cfg allocs w) as [-> | Hc].
    + simpl. lia.
    + destruct (constructions_total _ _ Hc) as (_ & Hrange & _); [exact Hr|].
      lia.
  - intros w1 H1. split.
    + simpl. apply wrap64_small. lia.
    + simpl. rewrite length_app. simpl. lia.
Qed.

Lemma C4_total_connections_remaining_witness :
  exists w',
    ctor throttled_client None = Some w' /\
    length (heap w') = 2%nat /\
    total_connections_remaining (broker w') = MAXULONGLONG - 2.
Proof.
  assert (Hr : 0 <= total_connections_remaining
                      (broker (armed throttled_client)) <= MAXULONGLONG)
    by compute_ranges.
  destruct (C4_total_connections_remaining throttled_client None
              (armed throttled_client) Hr) as (Hctor & _).
  eexists. split; [reflexivity|]. split; [reflexivity|].
  destruct (Hctor _ eq_refl) as (_ & Heq & _).
  rewrite Heq. reflexivity.
Defined.

(** ** C2: the timer callback *)

Lemma spec_refill_condition_true cfg w :
  spec_refill_condition cfg w = true <->
  pending_sockets (broker w) < pending_limit (broker w) /\
  0 < total_connections_remaining (broker w) /\
  (has_AcceptFunction cfg = false ->
   pending_sockets (broker w) + active_sockets (broker w)
     < ConnectionLimit cfg /\
   pending_sockets (broker w) < ConnectionThrottleLimit cfg).
Proof.
  unfold spec_refill_condition.
  rewrite !andb_true_iff, orb_true_iff, andb_true_iff, !Z.ltb_lt.
  destruct (has_AcceptFunction cfg); intuition congruence.
Qed.

Lemma refill_test_true cfg b :
  refill_test cfg b = true <->
  pending_sockets b < pending_limit b /\
  0 < total_connections_remaining b /\
  (has_AcceptFunction cfg = false ->
   wrap32 (pending_sockets b + active_sockets b) < ConnectionLimit cfg /\
   pending_sockets b < ConnectionThrottleLimit cfg).
Proof.
  unfold refill_test.
  rewrite !andb_true_iff, !negb_true_iff, !andb_false_iff, !negb_false_iff,
    !Z.ltb_lt.
  destruct (has_AcceptFunction cfg); simpl.
  - intuition congruence.
  - destruct (Z.geb_spec (wrap32 (pending_sockets b + active_sockets b))
                (ConnectionLimit cfg));
      destruct (Z.geb_spec (pending_sockets b) (ConnectionThrottleLimit cfg));
      intuition (try congruence; try lia).
Qed.

Lemma timer_loop_S fuel cfg allocs w :
  timer_loop (S fuel) cfg allocs w =
  if refill_test cfg (broker w) then
    if alloc_throws allocs then w
    else timer_loop fuel cfg (alloc_next allocs) (add_socket w)
  else w.
Proof.
  unfold refill_test. simpl.
  destruct (pending_sockets (broker w) <? pending_limit (broker w));
    [|reflexivity].
  destruct (0 <? total_connections_remaining (broker w)); [|reflexivity].
  simpl.
  destruct (negb (has_AcceptFunction cfg)
            && (wrap32 (pending_sockets (broker w) + active_sockets (broker w))
                  >=? ConnectionLimit cfg)); [reflexivity|].
  destruct (negb (has_AcceptFunction cfg)
            && (pending_sockets (broker w) >=? ConnectionThrottleLimit cfg));
    reflexivity.
Qed.

(** The loop of the callback adds records as long as its test holds.  It
    stops at the first state where the test fails, or before, when the
    construction of a record throws; it never stops for want of fuel. *)
Lemma timer_loop_iter cfg :
  forall fuel allocs w,
    broker_in_range (broker w) ->
    pending_limit (broker w) - pending_sockets (broker w) <= Z.of_nat fuel ->
    exists n,
      timer_loop fuel cfg allocs w = Nat.iter n add_socket w /\
      (forall k, (k < n)%nat ->
         refill_test cfg (broker (Nat.iter k add_socket w)) = true) /\
      match allocs with
      | None => refill_test cfg (broker (Nat.iter n add_socket w)) = false
      | Some a =>
        (n <= a)%nat /\
        ((n < a)%nat ->
         refill_test cfg (broker (Nat.iter n add_socket w)) = false)
      end.
Proof.
  induction fuel as [|fuel IH]; intros allocs w Hr Hfuel.
  - assert (Hstop : refill_test cfg (broker w) = false).
    { apply not_true_is_false. rewrite refill_test_true. lia. }
    exists O. simpl. split; [reflexivity|]. split; [lia|].
    destruct allocs; [split; [lia | intros _; exact Hstop] | exact Hstop].
  - rewrite timer_loop_S.
    destruct (refill_test cfg (broker w)) eqn:Htest.
    + destruct allocs as [[|a]|]; simpl alloc_throws; cbv iota.
      * exists O. simpl. split; [reflexivity|]. split; lia.
      * pose proof Htest as Ht.
        apply refill_test_true in Ht as (Hp & Htot & _).
        destruct (add_socket_guarded w Hr Htot Hp) as (_ & Hp' & Hr').
        destruct (IH (Some a) (add_socket w) Hr') as (n & Hloop & Hbefore & Hend).
        { rewrite Hp'.
          change (pending_limit (broker (add_socket w)))
            with (pending_limit (broker w)). lia. }
        exists (S n). rewrite Nat.iter_succ_r. split; [exact Hloop|]. split.
        -- intros [|k] Hk; [exact Htest|].
           rewrite Nat.iter_succ_r. apply Hbefore. lia.
        -- destruct Hend as [Hle Hstop]. split; [lia|].
           intros Hlt. apply Hstop. lia.
      * pose proof Htest as Ht.
        apply refill_test_true in Ht as (Hp & Htot & _).
        destruct (add_socket_guarded w Hr Htot Hp) as (_ & Hp' & Hr').
        destruct (IH None (add_socket w) Hr') as (n & Hloop & Hbefore & Hend).
        { rewrite Hp'.
          change (pending_limit (broker (add_socket w)))
            with (pending_limit (broker w)). lia. }
        exists (S n). rewrite Nat.iter_succ_r. split; [exact Hloop|]. split.
        -- intros [|k] Hk; [exact Htest|].
           rewrite Nat.iter_succ_r. apply Hbefore. lia.
        -- exact Hend.
    + exists O. simpl. split; [reflexivity|]. split; [lia|].
      destruct allocs; [split; [lia | intros _; exact Htest] | exact Htest].
Qed.

(** What [n] records added under the test leave of the heap, the pool and
    the counters. *)
Lemma iter_add_socket cfg w :
  broker_in_range (broker w) ->
  forall n,
    (forall k, (k < n)%nat ->
       refill_test cfg (broker (Nat.iter k add_socket w)) = true) ->
    let w' := Nat.iter n add_socket w in
    heap w' = heap w ++ replicate n Pending /\
    socket_pool (broker w')
      = socket_pool (broker w) ++ seq (length (heap w)) n /\
    pending_sockets (broker w') = pending_sockets (broker w) + Z.of_nat n /\
    total_connections_remaining (broker w')
      = total_connections_remaining (broker w) - Z.of_nat n /\
    active_sockets (broker w') = active_sockets (broker w) /\
    pending_limit (broker w') = pending_limit (broker w) /\
    done_event (broker w') = done_event (broker w) /\
    broker_in_range (broker w').
Proof.
  intros Hr n. induction n as [|n IH]; intros Htest.
  - simpl. rewrite !app_nil_r. split_and!; try reflexivity; try lia.
    exact Hr.
  - destruct IH as (Hh & Hpool & Hp & Ht & Ha & Hl & Hd & Hr').
    { intros k Hk. apply Htest. lia. }
    pose proof (Htest n (Nat.lt_succ_diag_r n)) as Hn.
    apply refill_test_true in Hn as (Hpn & Htn & _).
    destruct (add_socket_guarded _ Hr' Htn Hpn) as (Ht1 & Hp1 & Hr1).
    cbv zeta. rewrite Nat.iter_succ.
    change (heap (add_socket (Nat.iter n add_socket w)))
      with (heap (Nat.iter n add_socket w) ++ [Pending]).
    change (socket_pool (broker (add_socket (Nat.iter n add_socket w))))
      with (socket_pool (broker (Nat.iter n add_socket w))
            ++ [length (heap (Nat.iter n add_socket w))]).
    change (active_sockets (broker (add_socket (Nat.iter n add_socket w))))
      with (active_sockets (broker (Nat.iter n add_socket w))).
    change (pending_limit (broker (add_socket (Nat.iter n add_socket w))))
      with (pending_limit (broker (Nat.iter n add_socket w))).
    change (done_event (broker (add_socket (Nat.iter n add_socket w))))
      with (done_event (broker (Nat.iter n add_socket w))).
    rewrite Hp1, Ht1, Hh, Hpool, Hp, Ht, Ha, Hl, Hd.
    split_and!; try reflexivity; try lia; try exact Hr1.
    + rewrite <- app_assoc. f_equal.
      change (S n) with (1 + n)%nat.
      rewrite Nat.add_comm, replicate_add. reflexivity.
    + rewrite <- app_assoc. f_equal. rewrite length_app, length_replicate.
      rewrite seq_S. reflexivity.
Qed.

Lemma TimerCallback_unfold cfg allocs w :
  TimerCallback cfg allocs w =
  if (0 =? total_connections_remaining (broker w))
     && (0 =? pending_sockets (broker w))
     && (0 =? active_sockets (broker w))
  then (signal_done (reap w), true)
  else if done_event (broker w) then (reap w, false)
  else (timer_loop
          (Z.to_nat (pending_limit (broker w) - pending_sockets (broker w)))
          cfg allocs (reap w), false).
Proof. reflexivity. Qed.




(** ** C1: the limits of the client role *)

Lemma ctor_loop_S fuel cfg allocs w :
  ctor_loop (S fuel) cfg allocs w =
  if (0 <? total_connections_remaining (broker w))
     && (pending_sockets (broker w) <? pending_limit (broker w))
  then
    if alloc_throws allocs then None
    else if negb (has_AcceptFunction cfg)
            && (ConnectionThrottleLimit cfg
                  =? pending_sockets (broker (add_socket w)))
    then Some (add_socket w)
    else ctor_loop fuel cfg (alloc_next allocs) (add_socket w)
  else Some w.
Proof. reflexivity. Qed.

Lemma ctor_loop_client cfg :
  has_AcceptFunction cfg = false ->
  forall fuel allocs w w',
    broker_in_range (broker w) ->
    active_sockets (broker w) = 0 ->
    pending_sockets (broker w) < ConnectionThrottleLimit cfg ->
    pending_sockets (broker w) <= pending_limit (broker w) ->
    ctor_loop fuel cfg allocs w = Some w' ->
    broker_in_range (broker w') /\
    active_sockets (broker w') = 0 /\
    pending_sockets (broker w') <= ConnectionThrottleLimit cfg /\
    pending_sockets (broker w') <= pending_limit (broker w') /\
    pending_limit (broker w') = pending_limit (broker w).
Proof.
  intros Hrole fuel.
  induction fuel as [|fuel IH]; intros allocs w w' Hr Ha Hthr Hlim.
  { intros [= <-]. split_and!; auto; lia. }
  rewrite ctor_loop_S.
  destruct (Z.ltb_spec 0 (total_connections_remaining (broker w)));
    cbn [andb]; [|intros [= <-]; split_and!; auto; lia].
  destruct (Z.ltb_spec (pending_sockets (broker w)) (pending_limit (broker w)));
    [|intros [= <-]; split_and!; auto; lia].
  destruct (alloc_throws allocs); [discriminate|].
  destruct (add_socket_guarded w Hr) as (_ & Hp' & Hr'); [lia..|].
  assert (Hl' : pending_limit (broker (add_socket w))
                = pending_limit (broker w)) by reflexivity.
  assert (Ha' : active_sockets (broker (add_socket w))
                = active_sockets (broker w)) by reflexivity.
  rewrite Hrole. cbn [negb andb].
  destruct (Z.eqb_spec (ConnectionThrottleLimit cfg)
              (pending_sockets (broker (add_socket w)))) as [Heq|Hne].
  - cbv iota. intros [= <-]. split_and!; auto; lia.
  - cbv iota. intros Hloop. rewrite <- Hl'. apply IH in Hloop; auto; lia.
Qed.

Lemma ctor_init_client cfg :
  settings_in_range cfg ->
  has_AcceptFunction cfg = false ->
  pending_limit (ctor_init cfg) <= ConnectionLimit cfg.
Proof.
  intros Hcfg Hrole.
  rewrite (ctor_init_pending_limit cfg Hcfg), Hrole. lia.
Qed.

(** When no call comes before the end of the constructor, a client's broker
    stays within both limits. *)
Lemma limits_when_constructed_first cfg w :
  settings_in_range cfg ->
  ConnectionThrottleLimit cfg <> 0 ->
  has_AcceptFunction cfg = false ->
  reach_constructed call_step cfg w ->
  broker_in_range (broker w) /\ within_limits cfg (broker w).
Proof.
  intros Hcfg Hthr Hrole Hreach.
  assert (Hc : 0 <= ConnectionLimit cfg <= MAXULONG)
    by (destruct Hcfg as (_ & _ & Hc & _); exact Hc).
  assert (Ht : 0 <= ConnectionThrottleLimit cfg <= MAXULONG)
    by (destruct Hcfg as (_ & _ & _ & _ & Ht); exact Ht).
  induction Hreach as [w allocs Hctor | w w' _ IH Hstep].
  - unfold ctor, ctor_fill in Hctor.
    pose proof (ctor_init_in_range cfg Hcfg) as Hr0.
    pose proof (ctor_init_client cfg Hcfg Hrole) as Hl0.
    assert (Hl1 : 0 <= pending_limit (ctor_init cfg))
      by (destruct Hr0 as (_ & Hl & _); lia).
    apply (ctor_loop_client cfg Hrole) in Hctor
      as (Hr & Ha & Hp & Hpl & Hlim).
    + split; [exact Hr|]. unfold within_limits.
      change (broker (armed cfg)) with (ctor_init cfg) in Hlim. lia.
    + exact Hr0.
    + reflexivity.
    + change (pending_sockets (broker (armed cfg))) with 0. lia.
    + change (pending_sockets (broker (armed cfg))) with 0.
      change (broker (armed cfg)) with (ctor_init cfg). lia.
  - destruct IH as (Hr & Hsum & Hpend).
    destruct Hstep as [w allocs | w b' Hio | w was_active b' Hcl | w i p].
    + apply TimerCallback_invariant.
      * split; [exact Hr|]. split; assumption.
      * auto.
      * intros w1 (Hr1 & Hsum1 & Hpend1) Hp1 Ht1 Hclient.
        destruct (Hclient Hrole) as [Hlim1 Hthr1].
        destruct (add_socket_guarded w1 Hr1 Ht1 Hp1) as (_ & Hp' & Hr').
        split; [exact Hr'|]. unfold within_limits. rewrite Hp'.
        change (active_sockets (broker (add_socket w1)))
          with (active_sockets (broker w1)).
        destruct Hr1 as (_ & _ & Hpr & Har).
        rewrite wrap32_small in Hlim1 by lia. lia.
    + pose proof (initiating_io_Returns (broker w) Hr) as Hinit.
      pose proof (no_pending_FailFast (broker w)) as Hfatal.
      destruct Hr as (Htr & Hlr & Hpr & Har).
      destruct (Z.eq_dec (pending_sockets (broker w)) 0) as [Hz|Hnz].
      { destruct (Hfatal Hz) as [Hf _]. congruence. }
      destruct Hinit as (b1 & Hb1 & Hp1 & _ & Hexact & Ht1 & Hl1 & _); [lia|].
      assert (b1 = b') by congruence. subst b1.
      destruct Hexact as [Ha1 Hs1]; [lia|].
      simpl. unfold broker_in_range, within_limits. lia.
    + pose proof (closing_active_Returns (broker w) Hr) as Hact.
      pose proof (closing_pending_Returns (broker w) Hr) as Hpen.
      pose proof (no_pending_FailFast (broker w)) as Hfp.
      pose proof (no_active_FailFast (broker w)) as Hfa.
      destruct Hr as (Htr & Hlr & Hpr & Har).
      destruct was_active.
      * destruct (Z.eq_dec (active_sockets (broker w)) 0) as [Hz|Hnz].
        { rewrite (Hfa Hz) in Hcl. discriminate. }
        destruct Hact as (b1 & Hb1 & Ha1 & Hp1 & Ht1 & Hl1 & _); [lia|].
        assert (b1 = b') by congruence. subst b1.
        simpl. unfold broker_in_range, within_limits. lia.
      * destruct (Z.eq_dec (pending_sockets (broker w)) 0) as [Hz|Hnz].
        { destruct (Hfp Hz) as [_ Hf]. congruence. }
        destruct Hpen as (b1 & Hb1 & Hp1 & Ha1 & Ht1 & Hl1 & _); [lia|].
        assert (b1 = b') by congruence. subst b1.
        simpl. unfold broker_in_range, within_limits. lia.
    + simpl. split; [exact Hr|]. split; assumption.
Qed.

(** C1 fails on the code.  The constructor arms the timer before it takes
    the lock for its loop, and the loop tests the throttle by equality after
    the increment.  With [-connections:8 -throttleconnections:2], a callback
    that runs first brings [pending_sockets] to the throttle limit 2; the
    constructor's loop then never meets the equality and goes on to
    [pending_limit = 8]. *)
Theorem C1_timer_before_constructor_loop :
  exists w,
    reach call_step throttled_client true w /\
    has_AcceptFunction throttled_client = false /\
    ConnectionThrottleLimit throttled_client = 2 /\
    pending_sockets (broker w) = 8 /\
    ~ within_limits throttled_client (broker w).
Proof.
  pose (w1 := (TimerCallback throttled_client None (armed throttled_client)).1).
  assert (H1 : reach call_step throttled_client false w1).
  { eapply reach_step; [apply reach_armed|apply call_timer]. }
  assert (Hp1 : pending_sockets (broker w1) = 2) by reflexivity.
  destruct (ctor_fill throttled_client None w1) as [w2|] eqn:Hfill;
    [|discriminate Hfill].
  exists w2. split; [eapply reach_fill; eassumption|].
  assert (Hp2 : pending_sockets (broker w2) = 8).
  { vm_compute in Hfill. injection Hfill as <-. reflexivity. }
  repeat apply conj; try reflexivity; try exact Hp2.
  unfold within_limits. rewrite Hp2. simpl. lia.
Qed.

(** ** C5: the fatal conditions under the records' protocol *)

Lemma count_phase_nil p : count_phase p [] = 0.
Proof. reflexivity. Qed.

Lemma count_phase_cons p q h :
  count_phase p (q :: h)
  = (if decide (q = p) then 1 else 0) + count_phase p h.
Proof.
  unfold count_phase. rewrite filter_cons.
  destruct (decide (q = p)); simpl length; lia.
Qed.

Lemma count_phase_snoc p q h :
  count_phase p (h ++ [q])
  = count_phase p h + (if decide (q = p) then 1 else 0).
Proof.
  induction h as [|x h IH]; simpl app.
  - rewrite count_phase_cons, count_phase_nil. lia.
  - rewrite !count_phase_cons, IH. lia.
Qed.

Lemma count_phase_nonneg p h : 0 <= count_phase p h.
Proof. unfold count_phase. lia. Qed.

Lemma count_phase_lookup p h i :
  h !! i = Some p -> 0 < count_phase p h.
Proof.
  revert i. induction h as [|x h IH]; intros [|i] Hi; try discriminate.
  - injection Hi as ->. rewrite count_phase_cons.
    rewrite decide_True by reflexivity.
    pose proof (count_phase_nonneg p h). lia.
  - rewrite count_phase_cons. apply IH in Hi. destruct (decide (x = p)); lia.
Qed.

Lemma count_phase_insert p h i q q' :
  h !! i = Some q ->
  count_phase p (<[i := q']> h)
  = count_phase p h
    - (if decide (q = p) then 1 else 0)
    + (if decide (q' = p) then 1 else 0).
Proof.
  revert i. induction h as [|x h IH]; intros [|i] Hi; try discriminate.
  - injection Hi as ->. simpl. rewrite !count_phase_cons. lia.
  - simpl. rewrite !count_phase_cons, (IH i Hi). lia.
Qed.

Lemma count_phase_move p h i q q' :
  h !! i = Some q -> q <> q' ->
  count_phase p (<[i := q']> h)
  = if decide (p = q) then count_phase p h - 1
    else if decide (p = q') then count_phase p h + 1
    else count_phase p h.
Proof.
  intros Hi Hne. rewrite (count_phase_insert p h i q q' Hi).
  repeat destruct (decide _); try congruence; lia.
Qed.

Lemma wrap32_succ z : wrap32 (wrap32 z + 1) = wrap32 (z + 1).
Proof. unfold wrap32. apply Zplus_mod_idemp_l. Qed.

Lemma wrap32_pred z : wrap32 (wrap32 z - 1) = wrap32 (z - 1).
Proof. unfold wrap32. apply Zminus_mod_idemp_l. Qed.

(** Under the protocol the two counters count the records in each phase:
    [pending_sockets] exactly, [active_sockets] modulo [2^32]. *)
Lemma protocol_counts cfg d w :
  settings_in_range cfg ->
  reach protocol_step cfg d w ->
  broker_in_range (broker w) /\
  pending_sockets (broker w) = count_phase Pending (heap w) /\
  active_sockets (broker w) = wrap32 (count_phase Active (heap w)).
Proof.
  intros Hcfg Hreach.
  assert (Hadd : forall w1,
    broker_in_range (broker w1) /\
    pending_sockets (broker w1) = count_phase Pending (heap w1) /\
    active_sockets (broker w1) = wrap32 (count_phase Active (heap w1)) ->
    pending_sockets (broker w1) < pending_limit (broker w1) ->
    0 < total_connections_remaining (broker w1) ->
    broker_in_range (broker (add_socket w1)) /\
    pending_sockets (broker (add_socket w1))
      = count_phase Pending (heap (add_socket w1)) /\
    active_sockets (broker (add_socket w1))
      = wrap32 (count_phase Active (heap (add_socket w1)))).
  { intros w1 (Hr1 & Hp1 & Ha1) Hlt Hpos.
    destruct (add_socket_guarded w1 Hr1 Hpos Hlt) as (_ & Hp' & Hr').
    split; [exact Hr'|]. rewrite Hp'.
    change (heap (add_socket w1)) with (heap w1 ++ [Pending]).
    change (active_sockets (broker (add_socket w1)))
      with (active_sockets (broker w1)).
    rewrite !count_phase_snoc.
    rewrite decide_True by reflexivity.
    rewrite decide_False by discriminate. rewrite Z.add_0_r. lia. }
  induction Hreach as [|w w' allocs _ IH Hfill|d w w' _ IH Hstep].
  - split; [apply ctor_init_in_range, Hcfg|]. split; reflexivity.
  - apply (ctor_fill_invariant
             (fun w1 =>
                broker_in_range (broker w1) /\
                pending_sockets (broker w1) = count_phase Pending (heap w1) /\
                active_sockets (broker w1)
                  = wrap32 (count_phase Active (heap w1)))
             cfg allocs w w'); [|exact IH|exact Hfill].
    intros w1 H1 Hpos Hlt. apply Hadd; assumption.
  - destruct IH as (Hr & Hp & Ha).
    destruct Hstep as [w allocs|w i b' Hi Hcall|w i b' Hi Hcall|w i b' Hi Hcall].
    + apply (TimerCallback_invariant
               (fun w1 =>
                  broker_in_range (broker w1) /\
                  pending_sockets (broker w1) = count_phase Pending (heap w1) /\
                  active_sockets (broker w1)
                    = wrap32 (count_phase Active (heap w1)))).
      * split; [exact Hr|]. split; assumption.
      * auto.
      * intros w1 H1 Hlt Hpos _. apply Hadd; assumption.
    + pose proof (initiating_io_Returns (broker w) Hr) as Hinit.
      pose proof (no_pending_FailFast (broker w)) as Hfatal.
      pose proof (count_phase_lookup _ _ _ Hi) as Hsome.
      destruct Hinit as (b1 & Hb1 & Hp1 & Ha1 & _ & Ht1 & Hl1 & _); [lia|].
      assert (b1 = b') by congruence. subst b1.
      cbn [with_phase heap broker].
      rewrite !(count_phase_move _ _ _ _ _ Hi) by discriminate.
      repeat (destruct (decide _) as [?|?]; try congruence).
      split.
      { destruct Hr as (Htr & Hlr & Hpr & Har).
        unfold broker_in_range. rewrite Ht1, Hl1, Hp1, Ha1.
        pose proof (wrap32_range (active_sockets (broker w) + 1)). lia. }
      split; [lia|].
      rewrite Ha1, Ha, wrap32_succ. f_equal; lia.
    + pose proof (closing_pending_Returns (broker w) Hr) as Hpen.
      pose proof (count_phase_lookup _ _ _ Hi) as Hsome.
      destruct Hpen as (b1 & Hb1 & Hp1 & Ha1 & Ht1 & Hl1 & _); [lia|].
      assert (b1 = b') by congruence. subst b1.
      cbn [with_phase heap broker].
      rewrite !(count_phase_move _ _ _ _ _ Hi) by discriminate.
      repeat (destruct (decide _) as [?|?]; try congruence).
      split.
      { destruct Hr as (Htr & Hlr & Hpr & Har).
        unfold broker_in_range. rewrite Ht1, Hl1, Hp1, Ha1. lia. }
      split; [lia|]. rewrite Ha1, Ha. f_equal; lia.
    + unfold closing in Hcall.
      destruct (Z.eqb_spec (active_sockets (broker w)) 0) as [Hz|Hnz];
        [discriminate|].
      injection Hcall as <-.
      cbn [with_phase heap broker pending_sockets active_sockets].
      rewrite !(count_phase_move _ _ _ _ _ Hi) by discriminate.
      repeat (destruct (decide _) as [?|?]; try congruence).
      split.
      { destruct Hr as (Htr & Hlr & Hpr & Har).
        unfold broker_in_range.
        cbn [total_connections_remaining pending_limit pending_sockets
             active_sockets].
        pose proof (wrap32_range (active_sockets (broker w) - 1)). lia. }
      split; [lia|]. rewrite Ha, wrap32_pred. f_equal; lia.
Qed.

(** C5 (as amended).  In every state of a run that follows the protocol, a record that
    may call [initiating_io] or [closing(false)], being [Pending], finds
    [pending_sockets] nonzero, and a record that may call [closing(true)],
    being [Active], finds [active_sockets] nonzero as long as the number of
    active records fits the 32-bit counter: none of the three calls ends
    the process. *)
Theorem C5_fatal_conditions_unreachable cfg d w :
  settings_in_range cfg ->
  reach protocol_step cfg d w ->
  (forall i, heap w !! i = Some Pending ->
     pending_sockets (broker w) <> 0 /\
     (exists b', initiating_io (broker w) = Returns b') /\
     (exists b', closing false (broker w) = Returns b')) /\
  (forall i, heap w !! i = Some Active ->
     count_phase Active (heap w) <= MAXULONG ->
     active_sockets (broker w) <> 0 /\
     (exists b', closing true (broker w) = Returns b')).
Proof.
  intros Hcfg Hreach.
  destruct (protocol_counts cfg d w Hcfg Hreach) as (Hr & Hp & Ha).
  pose proof (initiating_io_Returns (broker w) Hr) as Hinit.
  pose proof (closing_active_Returns (broker w) Hr) as Hact.
  pose proof (closing_pending_Returns (broker w) Hr) as Hpen.
  split.
  - intros i Hi. pose proof (count_phase_lookup _ _ _ Hi) as Hpos.
    split; [lia|]. split.
    + destruct Hinit as (b' & Hb' & _); [lia|]. eauto.
    + destruct Hpen as (b' & Hb' & _); [lia|]. eauto.
  - intros i Hi Hfit. pose proof (count_phase_lookup _ _ _ Hi) as Hpos.
    rewrite wrap32_small in Ha by lia.
    split; [lia|].
    destruct Hact as (b' & Hb' & _); [lia|]. eauto.
Qed.

Lemma C5_fatal_conditions_unreachable_witness :
  settings_in_range throttled_client /\
  reach protocol_step throttled_client true one_active /\
  heap one_active = [Active; Pending] /\
  (pending_sockets (broker one_active) <> 0 /\
   (exists b', initiating_io (broker one_active) = Returns b') /\
   (exists b', closing false (broker one_active) = Returns b')) /\
  (active_sockets (broker one_active) <> 0 /\
   (exists b', closing true (broker one_active) = Returns b')).
Proof.
  assert (Hcfg : settings_in_range throttled_client)
    by compute_ranges.
  assert (Hfill : reach protocol_step throttled_client true two_pending).
  { apply (reach_fill protocol_step throttled_client
             (armed throttled_client) two_pending None).
    - apply reach_armed.
    - reflexivity. }
  assert (Hio : exists b', initiating_io (broker two_pending) = Returns b' /\
                           one_active = with_phase two_pending 0 Active b').
  { unfold one_active.
    destruct (initiating_io (broker two_pending)) as [b'|] eqn:Hb'.
    - exists b'. split; reflexivity.
    - vm_compute in Hb'. discriminate Hb'. }
  assert (Hreach : reach protocol_step throttled_client true one_active).
  { destruct Hio as (b' & Hb' & ->).
    apply (reach_step protocol_step throttled_client true two_pending);
      [exact Hfill|].
    apply protocol_initiating_io; [reflexivity|exact Hb']. }
  destruct (C5_fatal_conditions_unreachable throttled_client true one_active
              Hcfg Hreach) as (Hpending & Hactive).
  assert (Hfit : count_phase Active (heap one_active) <= MAXULONG)
    by (vm_compute; discriminate).
  split; [exact Hcfg|]. split; [exact Hreach|]. split; [reflexivity|].
  split; [exact (Hpending 1%nat eq_refl)|].
  exact (Hactive O eq_refl Hfit).
Defined.

(** * The parser *)

Section ParserProperties.

Context {E : Externals}.

(** ** Exceptions *)

Lemma bind_Ok_inv {A B : Type} (r : result A) (k : A -> result B) b :
  r ≫= k = Ok b -> exists a, r = Ok a /\ k a = Ok b.
Proof. destruct r as [a|e]; [eauto|discriminate]. Qed.

Lemma bind_Throw_inv {A B : Type} (r : result A) (k : A -> result B) e :
  r ≫= k = Throw e -> r = Throw e \/ exists a, r = Ok a /\ k a = Throw e.
Proof. destruct r as [a|e']; [eauto|]. intros [= ->]. auto. Qed.

(** ** C9: ParseArgument *)

Lemma wcslen_le buf : (wcslen buf <= length buf)%nat.
Proof.
  induction buf as [|c buf IH]; simpl; [lia|].
  destruct (c =? 0); simpl; lia.
Qed.

Lemma wcslen_c_str s : (wcslen (c_str s) < length (c_str s))%nat.
Proof.
  unfold c_str. induction s as [|c s IH]; simpl; [lia|].
  destruct (c =? 0); simpl; lia.
Qed.

Lemma wcslen_insert_zero buf d :
  (d < wcslen buf)%nat -> wcslen (<[d := 0]> buf) = d.
Proof.
  revert d. induction buf as [|c buf IH]; intros d; simpl; [lia|].
  destruct (Z.eqb_spec c 0) as [Hc|Hc]; [lia|].
  destruct d as [|d]; simpl; [reflexivity|].
  intros Hd. apply Z.eqb_neq in Hc. rewrite Hc. f_equal. apply IH. lia.
Qed.

Lemma std_find_le l v : (std_find l v <= length l)%nat.
Proof.
  induction l as [|c l IH]; simpl; [lia|].
  destruct (c =? v); simpl; lia.
Qed.

Lemma std_find_lookup l v :
  (std_find l v < length l)%nat -> l !! std_find l v = Some v.
Proof.
  induction l as [|c l IH]; simpl; [lia|].
  destruct (Z.eqb_spec c v) as [->|Hc]; [reflexivity|].
  intros Hlt. apply IH. lia.
Qed.

Lemma std_find_first l v j :
  (j < std_find l v)%nat -> l !! j <> Some v.
Proof.
  revert j. induction l as [|c l IH]; intros j; simpl; [lia|].
  destruct (Z.eqb_spec c v) as [->|Hc]; [lia|].
  destruct j as [|j]; simpl.
  - intros _ [= ->]. congruence.
  - intros Hlt. apply IH. lia.
Qed.

Lemma std_find_least l v i :
  l !! i = Some v -> (std_find l v <= i)%nat.
Proof.
  intros Hi. destruct (Nat.le_gt_cases (std_find l v) i) as [|Hlt]; [assumption|].
  destruct (std_find_first l v i Hlt Hi).
Qed.

Lemma string_at_0 buf : string_at buf 0 = take (wcslen buf) buf.
Proof. reflexivity. Qed.

Lemma length_string_at_0 buf : length (string_at buf 0) = wcslen buf.
Proof. rewrite string_at_0, length_take. pose proof (wcslen_le buf). lia. Qed.

(** What [ParseArgument] does, in terms of the string its argument holds:
    [d] is the offset of the first [':'] of that string, or its length. *)
Lemma ParseArgument_unfold buf expected :
  let argument := string_at buf 0 in
  let d := std_find argument 58 in
  ParseArgument buf expected =
  if (d + 1 <? length argument)%nat
  then Ok (buf,
           if iordinal_equals expected (take d argument)
           then Some (S d) else None)
  else Throw (invalid_argument "Invalid argument").
Proof.
  intros argument d.
  assert (Harg : take (wcslen buf) buf = argument) by reflexivity.
  assert (Hlen : length argument = wcslen buf) by apply length_string_at_0.
  unfold ParseArgument. cbv zeta. rewrite Harg. fold d. rewrite Hlen.
  destruct (Nat.ltb_spec (d + 1) (wcslen buf)) as [Hlt|Hge];
    simpl negb; cbv iota; [|reflexivity].
  assert (Hd : (d < wcslen buf)%nat) by lia.
  assert (Hbuf : buf !! d = Some 58).
  { rewrite <- (lookup_take_lt buf (wcslen buf) d Hd), Harg.
    apply std_find_lookup. fold d. lia. }
  rewrite list_insert_insert_eq, (list_insert_id buf d 58 Hbuf).
  rewrite string_at_0, wcslen_insert_zero by exact Hd.
  rewrite take_insert_ge by lia.
  replace (take d argument) with (take d buf).
  - replace (d + 1)%nat with (S d) by lia. reflexivity.
  - rewrite <- Harg, take_take. f_equal. lia.
Qed.

(** Whatever it returns, [ParseArgument] leaves the buffer as it was. *)
Lemma ParseArgument_frame buf expected buf' value :
  ParseArgument buf expected = Ok (buf', value) -> buf' = buf.
Proof.
  rewrite ParseArgument_unfold. destruct (_ <? _)%nat; [|discriminate].
  intros [= <- _]. reflexivity.
Qed.

(** C9.  For the argument held by a buffer, with [delimiter] the offset of
    its first [':']: when some [':'] is followed by at least one character,
    [ParseArgument] returns, the buffer is as before, and the pointer
    returned is the offset after the first [':'] when the text before it
    matches the expected name and null otherwise; when no [':'] is followed
    by a character it throws [invalid_argument]. *)
Theorem C9_ParseArgument (s expected : list Z) :
  let buf := c_str s in
  let argument := string_at buf 0 in
  let delimiter := std_find argument 58 in
  let has_value :=
    exists i, argument !! i = Some 58 /\ (S i < length argument)%nat in
  (has_value ->
   buf !! delimiter = Some 58 /\
   (forall j, (j < delimiter)%nat -> buf !! j <> Some 58) /\
   (S delimiter < wcslen buf)%nat /\
   ParseArgument buf expected
   = Ok (buf,
         if iordinal_equals expected (take delimiter argument)
         then Some (S delimiter) else None)) /\
  (~ has_value ->
   ParseArgument buf expected = Throw (invalid_argument "Invalid argument")).
Proof.
  intros buf argument delimiter has_value.
  pose proof (ParseArgument_unfold buf expected) as Hparse.
  cbv zeta in Hparse. fold argument in Hparse. fold delimiter in Hparse.
  pose proof (length_string_at_0 buf) as Hlen. fold argument in Hlen.
  split.
  - intros (i & Hi & Hnext).
    pose proof (std_find_least argument 58 i Hi) as Hle.
    fold delimiter in Hle.
    assert (Hd : (delimiter < wcslen buf)%nat) by lia.
    split_and!.
    + rewrite <- (lookup_take_lt buf (wcslen buf) delimiter Hd).
      apply (std_find_lookup argument 58).
      change (delimiter < length argument)%nat. lia.
    + intros j Hj.
      rewrite <- (lookup_take_lt buf (wcslen buf) j) by lia.
      apply (std_find_first argument 58). exact Hj.
    + lia.
    + rewrite Hparse.
      destruct (Nat.ltb_spec (delimiter + 1) (length argument)); [reflexivity|lia].
  - intros Hno. rewrite Hparse.
    destruct (Nat.ltb_spec (delimiter + 1) (length argument)) as [Hlt|Hge];
      [|reflexivity].
    exfalso. apply Hno. exists delimiter. split; [|lia].
    apply (std_find_lookup argument 58).
    change (delimiter < length argument)%nat. lia.
Qed.

(** ** The search for an argument *)

Lemma find_if_frame (pred : list Z -> result (list Z * bool)) :
  (forall a a' b, pred a = Ok (a', b) -> a' = a) ->
  forall args args' found,
    find_if pred args = Ok (args', found) ->
    args' = args /\ (forall i, found = Some i -> (i < length args)%nat).
Proof.
  intros Hpred args.
  induction args as [|a args IH]; intros args' found; simpl.
  { intros [= <- <-]. split; [reflexivity|discriminate]. }
  intros Hfind. apply bind_Ok_inv in Hfind as ([a' b] & Ha & Hfind).
  apply Hpred in Ha as ->. destruct b.
  - injection Hfind as <- <-. split; [reflexivity|].
    intros i [= <-]. simpl. lia.
  - apply bind_Ok_inv in Hfind as ([rest r] & Hrest & Hfind).
    injection Hfind as <- <-.
    destruct (IH _ _ Hrest) as [-> Hlt]. split; [reflexivity|].
    intros i Hi. destruct r as [j|]; [|discriminate].
    injection Hi as <-. specialize (Hlt j eq_refl). simpl. lia.
Qed.

(** The search leaves the argument vector as it was. *)
Lemma find_value_frame name args args' found :
  find_value name args = Ok (args', found) -> args' = args.
Proof.
  unfold find_value. intros Hfind.
  apply bind_Ok_inv in Hfind as ([args0 r] & Hsearch & Hfind).
  apply find_if_frame in Hsearch as [-> _].
  - destruct r as [i|]; [|injection Hfind as <- _; reflexivity].
    apply bind_Ok_inv in Hfind as ([parameter value] & Hparse & Hfind).
    apply ParseArgument_frame in Hparse as ->.
    injection Hfind as <- _.
    apply list_insert_id'. intros Hi.
    destruct (lookup_lt_is_Some_2 args i Hi) as [x Hx].
    rewrite Hx. reflexivity.
  - intros a a' b Ha.
    apply bind_Ok_inv in Ha as ([a0 value] & Hparse & Ha).
    apply ParseArgument_frame in Hparse as ->.
    injection Ha as <- _. reflexivity.
Qed.

(** ** The numbers read *)

Lemma as_integral_unsigned_long_range value v :
  as_integral_unsigned_long value = Ok v -> 0 <= v <= MAXULONG.
Proof.
  unfold as_integral_unsigned_long. intros Hv.
  apply bind_Ok_inv in Hv as ([n idx] & Hsto & Hv).
  destruct (negb _); [discriminate|]. injection Hv as <-.
  destruct (has_x value); eapply stoul_range; eassumption.
Qed.

Lemma as_integral_unsigned_long_long_range value v :
  as_integral_unsigned_long_long value = Ok v -> 0 <= v <= MAXULONGLONG.
Proof.
  unfold as_integral_unsigned_long_long. intros Hv.
  apply bind_Ok_inv in Hv as ([n idx] & Hsto & Hv).
  destruct (negb _); [discriminate|]. injection Hv as <-.
  destruct (has_x value); eapply stoull_range; eassumption.
Qed.

Lemma as_integral_unsigned_short_range value v :
  as_integral_unsigned_short value = Ok v -> 0 <= v <= MAXWORD.
Proof.
  unfold as_integral_unsigned_short. intros Hv.
  apply bind_Ok_inv in Hv as (n & Hn & Hv).
  apply as_integral_unsigned_long_range in Hn.
  destruct (Z.gtb_spec n MAXWORD); [discriminate|].
  injection Hv as <-. lia.
Qed.

(** ** What each setter assigns *)

(** Opens a setter that returned: the search, then its two branches. *)
Tactic Notation "open_setter" hyp(H) ident(i) ident(value) :=
  let args0 := fresh "args0" in
  let found := fresh "found" in
  let Hfind := fresh "Hfind" in
  apply bind_Ok_inv in H as ([args0 found] & Hfind & H);
  apply find_value_frame in Hfind as ->;
  destruct found as [[i value]|].

Lemma set_protocol_Ok args s args' s' :
  set_protocol args s = Ok (args', s') ->
  s' = with_Protocol TCP s \/ s' = with_Protocol UDP s.
Proof.
  unfold set_protocol. intros H. open_setter H i value.
  - apply bind_Ok_inv in H as (s1 & Hs1 & H). injection H as _ <-.
    destruct (iordinal_equals (L "tcp") value); [injection Hs1 as <-; auto|].
    destruct (iordinal_equals (L "udp") value); [injection Hs1 as <-; auto|].
    discriminate.
  - injection H as _ <-. auto.
Qed.

Lemma set_port_Ok args s args' s' :
  set_port args s = Ok (args', s') ->
  s' = s \/ exists port, s' = with_Port port s /\ 0 < port <= MAXWORD.
Proof.
  unfold set_port. intros H. open_setter H i value.
  - apply bind_Ok_inv in H as (port & Hport & H).
    apply as_integral_unsigned_short_range in Hport.
    cbn [Port with_Port] in H.
    destruct (Z.eqb_spec 0 port); [discriminate|].
    injection H as _ <-. right. exists port. split; [reflexivity|lia].
  - injection H as _ <-. auto.
Qed.

Lemma set_connections_Ok args s args' s' :
  set_connections args s = Ok (args', s') ->
  s' = s \/ exists v, s' = with_ConnectionLimit v s /\ 0 < v <= MAXULONG.
Proof.
  unfold set_connections. intros H. open_setter H i value.
  - destruct (IsListening s); [discriminate|].
    apply bind_Ok_inv in H as (v & Hv & H).
    apply as_integral_unsigned_long_range in Hv.
    cbn [ConnectionLimit with_ConnectionLimit] in H.
    destruct (Z.eqb_spec 0 v); [discriminate|].
    injection H as _ <-. right. exists v. split; [reflexivity|lia].
  - injection H as _ <-. auto.
Qed.

Lemma set_throttleConnections_Ok args s args' s' :
  set_throttleConnections args s = Ok (args', s') ->
  s' = s \/
  exists v, s' = with_ConnectionThrottleLimit v s /\ 0 < v <= MAXULONG.
Proof.
  unfold set_throttleConnections. intros H. open_setter H i value.
  - destruct (IsListening s); [discriminate|].
    apply bind_Ok_inv in H as (v & Hv & H).
    apply as_integral_unsigned_long_range in Hv.
    change (ConnectionThrottleLimit (with_ConnectionThrottleLimit v s)) with v in H.
    destruct (Z.eqb_spec 0 v); injection H as _ <-; right.
    + exists MAXUINT32. split; [reflexivity|]. unfold MAXUINT32, MAXULONG. lia.
    + exists v. split; [reflexivity|lia].
  - injection H as _ <-. auto.
Qed.

Lemma set_iterations_Ok args s args' s' :
  set_iterations args s = Ok (args', s') ->
  s' = s \/ exists v, s' = with_Iterations v s /\ 0 < v <= MAXULONGLONG.
Proof.
  unfold set_iterations. intros H. open_setter H i value.
  - destruct (IsListening s); [discriminate|].
    apply bind_Ok_inv in H as (v & Hv & H).
    apply as_integral_unsigned_long_long_range in Hv.
    change (Iterations (with_Iterations v s)) with v in H.
    destruct (Z.eqb_spec 0 v); injection H as _ <-; right.
    + exists MAXULONGLONG. split; [reflexivity|]. unfold MAXULONGLONG. lia.
    + exists v. split; [reflexivity|lia].
  - injection H as _ <-. auto.
Qed.

Lemma set_serverExitLimit_Ok args s args' s' :
  set_serverExitLimit args s = Ok (args', s') ->
  s' = s \/ exists v, s' = with_ServerExitLimit v s /\ 0 < v <= MAXULONGLONG.
Proof.
  unfold set_serverExitLimit. intros H. open_setter H i value.
  - destruct (negb (IsListening s)); [discriminate|].
    apply bind_Ok_inv in H as (v & Hv & H).
    apply as_integral_unsigned_long_long_range in Hv.
    change (ServerExitLimit (with_ServerExitLimit v s)) with v in H.
    destruct (Z.eqb_spec 0 v); injection H as _ <-; right.
    + exists MAXULONGLONG. split; [reflexivity|]. unfold MAXULONGLONG. lia.
    + exists v. split; [reflexivity|lia].
  - injection H as _ <-. auto.
Qed.

Lemma set_timelimit_Ok args s args' s' :
  set_timelimit args s = Ok (args', s') ->
  s' = s \/ exists v, s' = with_TimeLimit v s /\ 0 <= v <= MAXULONG.
Proof.
  unfold set_timelimit. intros H. open_setter H i value.
  - apply bind_Ok_inv in H as (v & Hv & H).
    apply as_integral_unsigned_long_range in Hv.
    destruct (0 =? _); [discriminate|].
    injection H as _ <-. right. exists v. split; [reflexivity|lia].
  - injection H as _ <-. auto.
Qed.

Lemma set_prepostrecvs_Ok args s args' s' :
  set_prepostrecvs args s = Ok (args', s') ->
  exists v, s' = with_PrePostRecvs v s /\ 0 < v <= MAXULONG.
Proof.
  unfold set_prepostrecvs. intros H. open_setter H i value.
  - apply bind_Ok_inv in H as (v & Hv & H).
    apply as_integral_unsigned_long_range in Hv.
    cbn [PrePostRecvs with_PrePostRecvs] in H.
    destruct (Z.eqb_spec 0 v); [discriminate|].
    injection H as _ <-. exists v. split; [reflexivity|lia].
  - injection H as _ <-. exists 1. split; [reflexivity|].
    unfold MAXULONG. lia.
Qed.

Lemma set_shouldVerifyBuffers_Ok args s args' s' :
  set_shouldVerifyBuffers args s = Ok (args', s') ->
  s' = s \/
  s' = with_UseSharedBuffer false (with_ShouldVerifyBuffers true s) \/
  s' = with_UseSharedBuffer true (with_ShouldVerifyBuffers false s).
Proof.
  unfold set_shouldVerifyBuffers. intros H. open_setter H i value.
  - apply bind_Ok_inv in H as (s1 & Hs1 & H). injection H as _ <-.
    destruct (_ || _); [injection Hs1 as <-; auto|].
    destruct (_ || _); [injection Hs1 as <-; auto|].
    discriminate.
  - injection H as _ <-. auto.
Qed.

Lemma set_accept_Ok args s args' s' :
  set_accept args s = Ok (args', s') ->
  exists f,
    s' = with_AcceptFunction f (with_AcceptLimit DefaultAcceptExLimit s).
Proof.
  unfold set_accept. intros H. open_setter H i value.
  - destruct (negb _); [discriminate|].
    apply bind_Ok_inv in H as (s1 & Hs1 & H). injection H as _ <-.
    destruct (iordinal_equals (L "accept") value).
    { apply bind_Ok_inv in Hs1 as (u & _ & Hs1). injection Hs1 as <-. eauto. }
    destruct (iordinal_equals (L "AcceptEx") value).
    { apply bind_Ok_inv in Hs1 as (u & _ & Hs1). injection Hs1 as <-. eauto. }
    discriminate.
  - destruct (_ <? _)%nat.
    + destruct (negb _).
      * apply bind_Ok_inv in H as (u & _ & H). injection H as _ <-. eauto.
      * injection H as _ <-. eauto.
    + injection H as _ <-. exists (AcceptFunction s). reflexivity.
Qed.

(** ** Startup, stage by stage *)

Lemma throw_if_Ok condition e u :
  throw_if condition e = Ok u -> condition = false.
Proof. destruct condition; [discriminate|reflexivity]. Qed.

(** After lines 2183-2198 the three settings are consistent. *)
Lemma Startup_verify_Ok args s args' s' :
  Startup_verify args s = Ok (args', s') ->
  exists verify shared recvs,
    s' = with_PrePostRecvs recvs
           (with_UseSharedBuffer shared (with_ShouldVerifyBuffers verify s)) /\
    0 < recvs <= MAXULONG /\
    (verify = true -> shared = false) /\
    (Protocol s = UDP -> IsListening s = false -> shared = false) /\
    (shared = false ->
     verify = true \/ (Protocol s = UDP /\ IsListening s = false)) /\
    ~ (Protocol s = TCP /\ verify = true /\ 1 < recvs).
Proof.
  unfold Startup_verify. intros H.
  apply bind_Ok_inv in H as ([args1 s1] & Hverify & H).
  apply bind_Ok_inv in H as ([args2 s2] & Hrecvs & H).
  apply bind_Ok_inv in H as (u & Hcheck & H).
  injection H as _ <-.
  apply throw_if_Ok in Hcheck.
  apply set_prepostrecvs_Ok in Hrecvs as (recvs & -> & Hrange).
  assert (Hform : exists verify,
    s1 = with_UseSharedBuffer (negb verify) (with_ShouldVerifyBuffers verify s)).
  { apply set_shouldVerifyBuffers_Ok in Hverify as [->|[->| ->]];
      [exists true|exists true|exists false]; reflexivity. }
  destruct Hform as (verify & ->).
  change (Protocol (with_UseSharedBuffer (negb verify)
                      (with_ShouldVerifyBuffers verify s)))
    with (Protocol s) in *.
  change (IsListening (with_UseSharedBuffer (negb verify)
                         (with_ShouldVerifyBuffers verify s)))
    with (IsListening s) in *.
  assert (Hnot : ~ (Protocol s = TCP /\ verify = true /\ 1 < recvs)).
  { intros (Htcp & -> & Hmany). rewrite Htcp in Hcheck.
    rewrite (bool_decide_eq_false_2 (TCP = UDP)) in Hcheck by discriminate.
    cbn [Protocol ShouldVerifyBuffers PrePostRecvs with_PrePostRecvs
         with_UseSharedBuffer with_ShouldVerifyBuffers] in Hcheck.
    rewrite Htcp in Hcheck.
    rewrite bool_decide_eq_true_2 in Hcheck by reflexivity.
    cbn [andb] in Hcheck. rewrite Z.gtb_ltb in Hcheck.
    apply Z.ltb_ge in Hcheck. lia. }
  clear Hcheck Hverify.
  destruct (bool_decide (Protocol s = UDP)) eqn:Hudp;
    [apply bool_decide_eq_true_1 in Hudp
    |apply bool_decide_eq_false_1 in Hudp];
    destruct (IsListening s) eqn:Hlisten; cbn [negb].
  - exists verify, (negb verify), recvs.
    split; [reflexivity|]. split; [exact Hrange|].
    split; [intros ->; reflexivity|].
    split; [discriminate|].
    split; [|exact Hnot].
    destruct verify; [auto|discriminate].
  - exists verify, false, recvs.
    split; [reflexivity|]. split; [exact Hrange|].
    split; [reflexivity|]. split; [reflexivity|].
    split; [auto|exact Hnot].
  - exists verify, (negb verify), recvs.
    split; [reflexivity|]. split; [exact Hrange|].
    split; [intros ->; reflexivity|].
    split; [intros Hx; contradiction|].
    split; [|exact Hnot].
    destruct verify; [auto|discriminate].
  - exists verify, (negb verify), recvs.
    split; [reflexivity|]. split; [exact Hrange|].
    split; [intros ->; reflexivity|].
    split; [intros Hx; contradiction|].
    split; [|exact Hnot].
    destruct verify; [auto|discriminate].
Qed.

(** One statement of a stage that did not throw. *)
Tactic Notation "step" hyp(H) "as" simple_intropattern(pat) :=
  cbv beta iota in H; apply bind_Ok_inv in H as pat.

(** The settings a setter was called with get a name. *)
Tactic Notation "input_of" hyp(H) "as" ident(s) :=
  lazymatch type of H with
  | _ _ ?e = Ok _ => set (s := e) in *
  end.

Lemma limits_valid_frame s s' :
  limits_valid s ->
  Port s' = Port s ->
  ConnectionLimit s' = ConnectionLimit s ->
  ConnectionThrottleLimit s' = ConnectionThrottleLimit s ->
  Iterations s' = Iterations s ->
  ServerExitLimit s' = ServerExitLimit s ->
  limits_valid s'.
Proof. unfold limits_valid. intros H -> -> -> -> ->. exact H. Qed.

Ltac frame_from H :=
  apply (limits_valid_frame _ _ H);
  unfold assign_ports; cbn; reflexivity.

Lemma limits_valid_init : limits_valid InitOncectsConfigImpl.
Proof.
  unfold limits_valid, InitOncectsConfigImpl; cbn.
  unfold DefaultPort, DefaultConnectionThrottleLimit, MAXWORD, MAXULONG,
    MAXULONGLONG. lia.
Qed.

Lemma set_port_valid args s args' s' :
  set_port args s = Ok (args', s') -> limits_valid s -> limits_valid s'.
Proof.
  intros H Hs. apply set_port_Ok in H as [->|(v & -> & Hv)]; [exact Hs|].
  unfold limits_valid in *. cbn. lia.
Qed.

Lemma set_protocol_valid args s args' s' :
  set_protocol args s = Ok (args', s') -> limits_valid s -> limits_valid s'.
Proof.
  intros H Hs. apply set_protocol_Ok in H as [->| ->]; frame_from Hs.
Qed.

Lemma set_connections_valid args s args' s' :
  set_connections args s = Ok (args', s') -> limits_valid s -> limits_valid s'.
Proof.
  intros H Hs.
  apply set_connections_Ok in H as [->|(v & -> & Hv)]; [exact Hs|].
  unfold limits_valid in *. cbn. lia.
Qed.

Lemma set_throttleConnections_valid args s args' s' :
  set_throttleConnections args s = Ok (args', s') ->
  limits_valid s -> limits_valid s'.
Proof.
  intros H Hs.
  apply set_throttleConnections_Ok in H as [->|(v & -> & Hv)]; [exact Hs|].
  unfold limits_valid in *. cbn. lia.
Qed.

Lemma set_iterations_valid args s args' s' :
  set_iterations args s = Ok (args', s') -> limits_valid s -> limits_valid s'.
Proof.
  intros H Hs.
  apply set_iterations_Ok in H as [->|(v & -> & Hv)]; [exact Hs|].
  unfold limits_valid in *. cbn. lia.
Qed.

Lemma set_serverExitLimit_valid args s args' s' :
  set_serverExitLimit args s = Ok (args', s') ->
  limits_valid s -> limits_valid s'.
Proof.
  intros H Hs.
  apply set_serverExitLimit_Ok in H as [->|(v & -> & Hv)]; [exact Hs|].
  unfold limits_valid in *. cbn. lia.
Qed.

(** What lines 2029-2158 guarantee when [Startup] goes on. *)
Lemma Startup_settings_Parsing argv args s FrameSizeBytes :
  Startup_settings argv = Ok (Parsing args s FrameSizeBytes) ->
  limits_valid s /\ (Protocol s = TCP \/ Protocol s = UDP).
Proof.
  unfold Startup_settings. intros H.
  destruct (length argv <? 2)%nat; [discriminate|].
  step H as ([args0 found_help] & _ & H).
  destruct found_help; [discriminate|].
  step H as (u0 & _ & H).
  step H as (args1 & _ & H).
  step H as ([args2 jitterlogger] & _ & H).
  step H as ([args3 [listen target]] & _ & H).
  step H as ([args4 s2] & Hport & H).
  apply set_port_valid in Hport; [|frame_from limits_valid_init].
  step H as ([args5 [low high]] & _ & H).
  step H as ([args6 s6] & Hprotocol & H).
  input_of Hprotocol as s5.
  assert (Hs5 : limits_valid s5) by frame_from Hport.
  clearbody s5.
  pose proof (set_protocol_valid _ _ _ _ Hprotocol Hs5) as Hs6.
  assert (Hp6 : Protocol s6 = TCP \/ Protocol s6 = UDP)
    by (apply set_protocol_Ok in Hprotocol as [->| ->]; auto).
  clear Hprotocol Hs5 s5.
  step H as (u1 & _ & H).
  step H as ([args7 [pattern frame]] & _ & H).
  step H as (u2 & _ & H).
  step H as (u3 & _ & H).
  step H as (u4 & _ & H).
  step H as (args8 & _ & H).
  step H as (args9 & _ & H).
  step H as ([args10 s9] & Hconnections & H).
  input_of Hconnections as s8.
  assert (Hs8 : limits_valid s8).
  { subst s8. destruct Hs6 as (Hport6 & _ & Hrest).
    unfold default_ConnectionLimit.
    destruct (bool_decide _); unfold limits_valid; cbn;
      unfold DefaultUdpConnectionLimit, DefaultTcpConnectionLimit, MAXULONG;
      (split; [exact Hport6|]); (split; [lia|exact Hrest]). }
  assert (Hp8 : Protocol s8 = TCP \/ Protocol s8 = UDP)
    by (subst s8; unfold default_ConnectionLimit;
        destruct (bool_decide _); exact Hp6).
  clearbody s8.
  pose proof (set_connections_valid _ _ _ _ Hconnections Hs8) as Hs9.
  assert (Hp9 : Protocol s9 = Protocol s8)
    by (apply set_connections_Ok in Hconnections as [->|(v & -> & _)];
        reflexivity).
  step H as ([args11 s10] & Hthrottle & H).
  pose proof (set_throttleConnections_valid _ _ _ _ Hthrottle Hs9) as Hs10.
  assert (Hp10 : Protocol s10 = Protocol s9)
    by (apply set_throttleConnections_Ok in Hthrottle as [->|(v & -> & _)];
        reflexivity).
  step H as (args12 & _ & H).
  step H as (args13 & _ & H).
  step H as (args14 & _ & H).
  step H as ([args15 s11] & Hiterations & H).
  pose proof (set_iterations_valid _ _ _ _ Hiterations Hs10) as Hs11.
  assert (Hp11 : Protocol s11 = Protocol s10)
    by (apply set_iterations_Ok in Hiterations as [->|(v & -> & _)];
        reflexivity).
  step H as ([args16 s12] & Hexit & H).
  pose proof (set_serverExitLimit_valid _ _ _ _ Hexit Hs11) as Hs12.
  assert (Hp12 : Protocol s12 = Protocol s11)
    by (apply set_serverExitLimit_Ok in Hexit as [->|(v & -> & _)];
        reflexivity).
  cbv beta iota in H. injection H as _ <- _.
  split; [exact Hs12|]. rewrite Hp12, Hp11, Hp10, Hp9. exact Hp8.
Qed.

(** What lines 2159-2232 leave of the settings they are given. *)
Lemma Startup_functions_Ok args s FrameSizeBytes s' :
  Startup_functions args s FrameSizeBytes = Ok s' ->
  (Protocol s' = Protocol s /\
   ListenAddresses s' = ListenAddresses s /\
   Port s' = Port s /\
   ConnectionLimit s' = ConnectionLimit s /\
   ConnectionThrottleLimit s' = ConnectionThrottleLimit s /\
   Iterations s' = Iterations s /\
   ServerExitLimit s' = ServerExitLimit s /\
   AcceptLimit s' = DefaultAcceptExLimit) /\
  0 < PrePostRecvs s' <= MAXULONG /\
  (ShouldVerifyBuffers s' = true -> UseSharedBuffer s' = false) /\
  (Protocol s' = UDP -> IsListening s' = false -> UseSharedBuffer s' = false) /\
  (UseSharedBuffer s' = false ->
   ShouldVerifyBuffers s' = true \/
   (Protocol s' = UDP /\ IsListening s' = false)) /\
  ~ (Protocol s' = TCP /\ ShouldVerifyBuffers s' = true /\ 1 < PrePostRecvs s').
Proof.
  unfold Startup_functions. intros H.
  step H as ([args1 s1] & Htime & H).
  step H as (u1 & _ & H).
  step H as (u2 & _ & H).
  step H as (u3 & _ & H).
  step H as ([args2 s2] & Hverify & H).
  step H as (args3 & _ & H).
  step H as (args4 & _ & H).
  step H as (args5 & _ & H).
  step H as ([args6 s3] & Haccept & H).
  step H as (u4 & _ & H).
  step H as (u5 & _ & H).
  cbv beta iota in H. injection H as <-.
  apply set_accept_Ok in Haccept as (f & ->).
  apply Startup_verify_Ok in Hverify
    as (verify & shared & recvs & -> & Hrecvs & Hvs & Hudp & Hshared & Hnot).
  assert (Hs1 : Protocol s1 = Protocol s /\
                ListenAddresses s1 = ListenAddresses s /\
                Port s1 = Port s /\
                ConnectionLimit s1 = ConnectionLimit s /\
                ConnectionThrottleLimit s1 = ConnectionThrottleLimit s /\
                Iterations s1 = Iterations s /\
                ServerExitLimit s1 = ServerExitLimit s).
  { apply set_timelimit_Ok in Htime as [->|(v & -> & _)];
      split_and!; reflexivity. }
  clear Htime.
  destruct Hs1 as (Hp & Hl & Hport & Hc & Ht & Hi & He).
  assert (Hlisten : IsListening s1 = IsListening s)
    by (unfold IsListening; rewrite Hl; reflexivity).
  unfold IsListening at 1 2.
  cbn [Protocol ListenAddresses Port ConnectionLimit ConnectionThrottleLimit
       Iterations ServerExitLimit AcceptLimit PrePostRecvs
       ShouldVerifyBuffers UseSharedBuffer
       with_AcceptFunction with_AcceptLimit with_PrePostRecvs
       with_UseSharedBuffer with_ShouldVerifyBuffers].
  fold (IsListening s1).
  split_and!; auto; lia.
Qed.

(** The settings [Startup] returns: the limits the broker reads are in
    range and not zero. *)
Lemma Startup_limits argv s :
  Startup argv = Ok (Some s) ->
  limits_valid s /\ settings_in_range s /\ ConnectionThrottleLimit s <> 0.
Proof.
  unfold Startup. intros H.
  step H as (progress & Hsettings & H).
  destruct progress as [|args s0 frame]; [discriminate|].
  step H as (s1 & Hfunctions & H).
  cbv beta iota in H. injection H as <-.
  apply Startup_settings_Parsing in Hsettings as [Hvalid _].
  apply Startup_functions_Ok in Hfunctions
    as ((_ & _ & Hport & Hc & Ht & Hi & He & Ha) & _).
  assert (Hs1 : limits_valid s1)
    by (apply (limits_valid_frame _ _ Hvalid); assumption).
  split; [exact Hs1|].
  destruct Hs1 as (_ & Hc1 & Ht1 & Hi1 & He1).
  unfold settings_in_range. rewrite Ha.
  unfold DefaultAcceptExLimit, MAXULONG in *. lia.
Qed.

Lemma bind_Ok {A B : Type} (a : A) (k : A -> result B) : Ok a ≫= k = k a.
Proof. reflexivity. Qed.

Lemma bind_Throw {A B : Type} (e : exn) (k : A -> result B) :
  Throw e ≫= k = Throw e.
Proof. reflexivity. Qed.

(** ** C10: the guard of set_timelimit *)

(** C10.  With a nonzero port, [set_timelimit] stores whatever value the
    conversion of the argument gives, zero included: [TimeLimit] is that
    value afterwards, the other members are as before and the argument is
    removed.  Without the argument it changes nothing.  It throws only what
    the search or the conversion throws: the guard after the assignment
    tests the port and never fires.  The port is nonzero where [Startup]
    calls [set_timelimit]: it is 4444 at first and [set_port] assigns a
    nonzero port or throws. *)
Theorem C10_timelimit_guard_is_dead :
  (forall args s,
     Port s <> 0 ->
     forall args' i value,
       find_value (L "-timelimit") args = Ok (args', Some (i, value)) ->
       match as_integral_unsigned_long value with
       | Ok v =>
         exists s',
           set_timelimit args s = Ok (delete i args, s') /\
           TimeLimit s' = v /\
           same_but_TimeLimit s s'
       | Throw e => set_timelimit args s = Throw e
       end) /\
  (forall args s args',
     find_value (L "-timelimit") args = Ok (args', None) ->
     set_timelimit args s = Ok (args, s)) /\
  (forall args s e,
     Port s <> 0 ->
     set_timelimit args s = Throw e ->
     find_value (L "-timelimit") args = Throw e \/
     exists args' i value,
       find_value (L "-timelimit") args = Ok (args', Some (i, value)) /\
       as_integral_unsigned_long value = Throw e) /\
  (forall argv args s FrameSizeBytes,
     Startup_settings argv = Ok (Parsing args s FrameSizeBytes) ->
     Port s <> 0) /\
  Port InitOncectsConfigImpl = 4444 /\
  (forall args s args' s',
     set_port args s = Ok (args', s') -> s' = s \/ Port s' <> 0).
Proof.
  split_and!.
  - intros args s Hport args' i value Hfind.
    pose proof (find_value_frame _ _ _ _ Hfind) as ->.
    unfold set_timelimit. rewrite Hfind, bind_Ok.
    destruct (as_integral_unsigned_long value) as [v|e];
      [rewrite bind_Ok|rewrite bind_Throw; reflexivity].
    change (Port (with_TimeLimit v s)) with (Port s).
    destruct (Z.eqb_spec 0 (Port s)); [congruence|].
    exists (with_TimeLimit v s). split; [reflexivity|].
    split; [reflexivity|]. unfold same_but_TimeLimit.
    split_and!; reflexivity.
  - intros args s args' Hfind.
    pose proof (find_value_frame _ _ _ _ Hfind) as ->.
    unfold set_timelimit. rewrite Hfind, bind_Ok. reflexivity.
  - intros args s e Hport. unfold set_timelimit. intros H.
    apply bind_Throw_inv in H as [H|([args' found] & Hfind & H)]; [auto|].
    right. destruct found as [[i value]|]; [|discriminate].
    apply bind_Throw_inv in H as [H|(v & Hv & H)]; [eauto 6|].
    change (Port (with_TimeLimit v s)) with (Port s) in H.
    destruct (Z.eqb_spec 0 (Port s)); [congruence|discriminate].
  - intros argv args s F H.
    apply Startup_settings_Parsing in H as [(Hport & _) _]. lia.
  - reflexivity.
  - intros args s args' s' H.
    apply set_port_Ok in H as [->|(port & -> & Hport)]; [auto|].
    right. cbn. lia.
Qed.

(** ** C7: receives posted in advance *)

(** C7.  [Startup] never returns settings that combine TCP, verification
    of the data and [PrePostRecvs > 1]: under TCP, [PrePostRecvs > 1] comes
    with verification of the connection only.  Lines 2183-2198 throw
    [invalid_argument] when, with TCP and data verification in force, the
    argument gives a count above 1.  [set_prepostrecvs] assigns 1 when the
    argument is absent, throws [invalid_argument] for the value 0 and
    assigns any other value. *)
Theorem C7_prepostrecvs_needs_connection_verification :
  (forall argv s,
     Startup argv = Ok (Some s) ->
     ~ (Protocol s = TCP /\ ShouldVerifyBuffers s = true
        /\ 1 < PrePostRecvs s)) /\
  (forall argv s,
     Startup argv = Ok (Some s) ->
     Protocol s = TCP -> 1 < PrePostRecvs s ->
     ShouldVerifyBuffers s = false /\ UseSharedBuffer s = true) /\
  (forall args s args1 s1 args2 i value v,
     set_shouldVerifyBuffers args
       (with_UseSharedBuffer false (with_ShouldVerifyBuffers true s))
     = Ok (args1, s1) ->
     Protocol s = TCP ->
     ShouldVerifyBuffers s1 = true ->
     find_value (L "-PrePostRecvs") args1 = Ok (args2, Some (i, value)) ->
     as_integral_unsigned_long value = Ok v ->
     1 < v ->
     Startup_verify args s
     = Throw (invalid_argument
                "-PrePostRecvs > 1 requires -Verify:connection when using TCP")) /\
  (forall args s args',
     find_value (L "-PrePostRecvs") args = Ok (args', None) ->
     set_prepostrecvs args s = Ok (args, with_PrePostRecvs 1 s)) /\
  (forall args s args' i value v,
     find_value (L "-PrePostRecvs") args = Ok (args', Some (i, value)) ->
     as_integral_unsigned_long value = Ok v ->
     set_prepostrecvs args s
     = if 0 =? v then Throw (invalid_argument "-PrePostRecvs")
       else Ok (delete i args, with_PrePostRecvs v s)).
Proof.
  assert (Hstartup : forall argv s,
    Startup argv = Ok (Some s) ->
    exists args s0 frame s1,
      Startup_functions args s0 frame = Ok s1 /\ s = s1).
  { intros argv s H. unfold Startup in H.
    step H as (progress & Hsettings & H).
    destruct progress as [|args s0 frame]; [discriminate|].
    step H as (s1 & Hfunctions & H).
    cbv beta iota in H. injection H as <-. eauto 6. }
  split_and!.
  - intros argv s H.
    apply Hstartup in H as (args & s0 & frame & s1 & H & ->).
    apply Startup_functions_Ok in H as (_ & _ & _ & _ & _ & Hnot).
    exact Hnot.
  - intros argv s H Htcp Hmany.
    apply Hstartup in H as (args & s0 & frame & s1 & H & ->).
    apply Startup_functions_Ok in H as (_ & _ & _ & Hudp & Hshared & Hnot).
    destruct (ShouldVerifyBuffers s1) eqn:Hverify; [destruct Hnot; auto|].
    split; [reflexivity|].
    destruct (UseSharedBuffer s1); [reflexivity|].
    destruct (Hshared eq_refl) as [H|[H _]]; congruence.
  - intros args s args1 s1 args2 i value v Hverify Htcp Hdata Hfind Hv Hmany.
    pose proof (find_value_frame _ _ _ _ Hfind) as ->.
    unfold Startup_verify. rewrite Hverify, bind_Ok. cbv beta iota zeta.
    assert (Hp1 : Protocol s1 = TCP).
    { apply set_shouldVerifyBuffers_Ok in Hverify as [->|[->| ->]];
        exact Htcp. }
    rewrite Hp1.
    rewrite (bool_decide_eq_false_2 (TCP = UDP)) by discriminate.
    unfold set_prepostrecvs. rewrite Hfind, bind_Ok. cbv beta iota.
    rewrite Hv, bind_Ok.
    change (PrePostRecvs (with_PrePostRecvs v s1)) with v.
    destruct (Z.eqb_spec 0 v); [lia|]. rewrite bind_Ok. cbv beta iota.
    change (Protocol (with_PrePostRecvs v s1)) with (Protocol s1).
    change (ShouldVerifyBuffers (with_PrePostRecvs v s1))
      with (ShouldVerifyBuffers s1).
    change (PrePostRecvs (with_PrePostRecvs v s1)) with v.
    rewrite Hp1, Hdata.
    rewrite bool_decide_eq_true_2 by reflexivity.
    cbn [andb]. rewrite Z.gtb_ltb.
    destruct (Z.ltb_spec 1 v); [reflexivity|lia].
  - intros args s args' Hfind.
    pose proof (find_value_frame _ _ _ _ Hfind) as ->.
    unfold set_prepostrecvs. rewrite Hfind, bind_Ok. reflexivity.
  - intros args s args' i value v Hfind Hv.
    pose proof (find_value_frame _ _ _ _ Hfind) as ->.
    unfold set_prepostrecvs. rewrite Hfind, bind_Ok. cbv beta iota.
    rewrite Hv, bind_Ok.
    change (PrePostRecvs (with_PrePostRecvs v s)) with v.
    reflexivity.
Qed.

(** ** C8: what is verified and which buffer is used *)

(** C8.  For the value of the [-verify] argument, [set_shouldVerifyBuffers]
    sets [ShouldVerifyBuffers] and clears [UseSharedBuffer] for [always] and
    [data], clears [ShouldVerifyBuffers] and sets [UseSharedBuffer] for
    [never] and [connection], and throws [invalid_argument] for any other
    value.  Without the argument lines 2183-2198 leave [ShouldVerifyBuffers]
    set and [UseSharedBuffer] clear.  In the settings [Startup] returns,
    [UseSharedBuffer] is the opposite of [ShouldVerifyBuffers], except for a
    UDP client, where it is always clear. *)
Theorem C8_verify_and_shared_buffer :
  (forall args s args' i value,
     find_value (L "-verify") args = Ok (args', Some (i, value)) ->
     (iordinal_equals (L "always") value
      || iordinal_equals (L "data") value = true ->
      exists s',
        set_shouldVerifyBuffers args s = Ok (delete i args, s') /\
        ShouldVerifyBuffers s' = true /\ UseSharedBuffer s' = false) /\
     (iordinal_equals (L "always") value
      || iordinal_equals (L "data") value = false ->
      iordinal_equals (L "never") value
      || iordinal_equals (L "connection") value = true ->
      exists s',
        set_shouldVerifyBuffers args s = Ok (delete i args, s') /\
        ShouldVerifyBuffers s' = false /\ UseSharedBuffer s' = true) /\
     (iordinal_equals (L "always") value
      || iordinal_equals (L "data") value = false ->
      iordinal_equals (L "never") value
      || iordinal_equals (L "connection") value = false ->
      set_shouldVerifyBuffers args s = Throw (invalid_argument "-verify"))) /\
  (forall args s args0 args' s',
     find_value (L "-verify") args = Ok (args0, None) ->
     Startup_verify args s = Ok (args', s') ->
     ShouldVerifyBuffers s' = true /\ UseSharedBuffer s' = false) /\
  (forall args s args' s',
     Startup_verify args s = Ok (args', s') ->
     Protocol s' = UDP -> IsListening s' = false ->
     UseSharedBuffer s' = false) /\
  (forall argv s,
     Startup argv = Ok (Some s) ->
     (Protocol s = UDP -> IsListening s = false ->
      UseSharedBuffer s = false) /\
     (ShouldVerifyBuffers s = true -> UseSharedBuffer s = false) /\
     (ShouldVerifyBuffers s = false ->
      UseSharedBuffer s = true \/
      (Protocol s = UDP /\ IsListening s = false))).
Proof.
  split_and!.
  - intros args s args' i value Hfind.
    pose proof (find_value_frame _ _ _ _ Hfind) as ->.
    unfold set_shouldVerifyBuffers. rewrite Hfind, bind_Ok. cbv beta iota.
    split_and!.
    + intros ->. rewrite bind_Ok. eexists. split_and!; reflexivity.
    + intros -> ->. rewrite bind_Ok. eexists. split_and!; reflexivity.
    + intros -> ->. reflexivity.
  - intros args s args0 args' s' Hfind H.
    pose proof (find_value_frame _ _ _ _ Hfind) as ->.
    unfold Startup_verify, set_shouldVerifyBuffers in H.
    rewrite Hfind, !bind_Ok in H. cbv beta iota zeta in H.
    step H as ([args2 s2] & Hrecvs & H).
    step H as (u & _ & H).
    cbv beta iota in H. injection H as _ <-.
    apply set_prepostrecvs_Ok in Hrecvs as (recvs & -> & _).
    destruct (bool_decide _); [destruct (negb _)|]; split; reflexivity.
  - intros args s args' s' H Hudp Hclient.
    apply Startup_verify_Ok in H
      as (verify & shared & recvs & -> & _ & _ & Hforce & _).
    apply Hforce; assumption.
  - intros argv s H. unfold Startup in H.
    step H as (progress & Hsettings & H).
    destruct progress as [|args s0 frame]; [discriminate|].
    step H as (s1 & Hfunctions & H).
    cbv beta iota in H. injection H as <-.
    apply Startup_functions_Ok in Hfunctions
      as (_ & _ & Hvs & Hudp & Hshared & _).
    split_and!; auto.
    intros Hverify. destruct (UseSharedBuffer s1); [auto|].
    destruct (Hshared eq_refl) as [H|H]; [congruence|auto].
Qed.

End ParserProperties.

(** ** The parser on examples *)

Lemma C9_ParseArgument_witness :
  ParseArgument (c_str (L "-Port:80")) (L "-port")
  = Ok (c_str (L "-Port:80"), Some 6%nat) /\
  ParseArgument (c_str (L "-Port:")) (L "-port")
  = Throw (invalid_argument "Invalid argument").
Proof.
  split.
  - destruct (C9_ParseArgument (L "-Port:80") (L "-port")) as (Hvalue & _).
    destruct Hvalue as (_ & _ & _ & Hparse).
    + exists 5%nat. split; [reflexivity|]. vm_compute. lia.
    + exact Hparse.
  - destruct (C9_ParseArgument (L "-Port:") (L "-port")) as (_ & Hthrow).
    apply Hthrow. intros (i & Hi & Hnext).
    vm_compute in Hnext.
    do 6 (destruct i as [|i]; [first [discriminate Hi | lia]|]).
    discriminate Hi.
Defined.

Lemma C10_timelimit_guard_is_dead_witness :
  Port timed_client <> 0 /\
  TimeLimit timed_client = 60000 /\
  exists s',
    set_timelimit (command_line ["-timelimit:0"%string]) timed_client
    = Ok ([], s') /\
    TimeLimit s' = 0 /\
    same_but_TimeLimit timed_client s'.
Proof.
  destruct C10_timelimit_guard_is_dead as (Hset & _).
  assert (Hport : Port timed_client <> 0) by (vm_compute; discriminate).
  split; [exact Hport|]. split; [reflexivity|].
  exact (Hset (command_line ["-timelimit:0"%string]) timed_client
              Hport _ O (L "0") eq_refl).
Defined.

Lemma C7_prepostrecvs_needs_connection_verification_witness :
  exists s,
    Startup two_receives = Ok (Some s) /\
    Protocol s = TCP /\ PrePostRecvs s = 2 /\
    ShouldVerifyBuffers s = false /\ UseSharedBuffer s = true.
Proof.
  destruct C7_prepostrecvs_needs_connection_verification
    as (_ & Hconnection & _).
  eexists. split; [vm_compute; reflexivity|].
  split; [reflexivity|]. split; [reflexivity|].
  apply (Hconnection two_receives).
  - vm_compute. reflexivity.
  - reflexivity.
  - vm_compute. reflexivity.
Defined.

Lemma C8_verify_and_shared_buffer_witness :
  (exists s,
     Startup udp_client = Ok (Some s) /\
     Protocol s = UDP /\ IoPattern s = MediaStream /\
     IsListening s = false /\
     ShouldVerifyBuffers s = false /\ UseSharedBuffer s = false) /\
  (exists s,
     Startup two_receives = Ok (Some s) /\
     Protocol s = TCP /\
     ShouldVerifyBuffers s = false /\ UseSharedBuffer s = true).
Proof.
  destruct C8_verify_and_shared_buffer as (_ & _ & _ & Hstartup).
  split.
  - destruct (Startup udp_client) as [[s|]|e] eqn:Hrun;
      [|vm_compute in Hrun; discriminate Hrun
       |vm_compute in Hrun; discriminate Hrun].
    exists s. split; [reflexivity|].
    destruct (Hstartup udp_client s Hrun) as (Hudp & _).
    vm_compute in Hrun. injection Hrun as <-.
    split; [reflexivity|]. split; [reflexivity|]. split; [reflexivity|].
    split; [reflexivity|].
    apply Hudp; reflexivity.
  - destruct (Startup two_receives) as [[s|]|e] eqn:Hrun;
      [|vm_compute in Hrun; discriminate Hrun
       |vm_compute in Hrun; discriminate Hrun].
    exists s. split; [reflexivity|].
    destruct (Hstartup two_receives s Hrun) as (_ & _ & Hshared).
    vm_compute in Hrun. injection Hrun as <-.
    split; [reflexivity|]. split; [reflexivity|].
    destruct Hshared as [Htrue|[Hudp _]];
      [reflexivity|exact Htrue|discriminate Hudp].
Defined.

(** * The broker under the settings Startup returns *)

Lemma reach_constructed_reach step cfg w :
  reach_constructed step cfg w -> reach step cfg true w.
Proof.
  induction 1 as [w allocs Hctor|w w' _ IH Hstep].
  - eapply reach_fill; [apply reach_armed|exact Hctor].
  - eapply reach_step; eassumption.
Qed.

Lemma protocol_calls cfg w :
  reach_constructed protocol_step cfg w -> reach_constructed call_step cfg w.
Proof.
  induction 1 as [w allocs Hctor|w w' _ IH Hstep].
  - eapply constructed_ctor. exact Hctor.
  - destruct Hstep as [w allocs|w i b' Hi Hcall|w i b' Hi Hcall|w i b' Hi Hcall].
    + eapply constructed_step; [exact IH|apply call_timer].
    + apply (constructed_step call_step cfg (with_broker w b')).
      * eapply constructed_step; [exact IH|apply call_initiating_io, Hcall].
      * apply (call_phase cfg (with_broker w b') i Active).
    + apply (constructed_step call_step cfg (with_broker w b')).
      * eapply constructed_step; [exact IH|eapply call_closing, Hcall].
      * apply (call_phase cfg (with_broker w b') i Closed).
    + apply (constructed_step call_step cfg (with_broker w b')).
      * eapply constructed_step; [exact IH|eapply call_closing, Hcall].
      * apply (call_phase cfg (with_broker w b') i Closed).
Qed.

(** For a client whose constructor ran before any call, the number of
    active records is bounded by the connection limit: it fits the counter,
    as the last part of C5 asks. *)
Lemma client_active_count_fits cfg w :
  settings_in_range cfg ->
  ConnectionThrottleLimit cfg <> 0 ->
  has_AcceptFunction cfg = false ->
  reach_constructed protocol_step cfg w ->
  count_phase Pending (heap w) + count_phase Active (heap w)
    <= ConnectionLimit cfg /\
  count_phase Active (heap w) <= MAXULONG.
Proof.
  intros Hcfg Hthr Hrole Hreach.
  assert (Hc : 0 <= ConnectionLimit cfg <= MAXULONG)
    by (destruct Hcfg as (_ & _ & Hc & _); exact Hc).
  assert (Hfit : count_phase Active (heap w) <= MAXULONG).
  { induction Hreach as [w allocs Hctor|w w' Hprev IH Hstep].
    - unfold ctor in Hctor.
      assert (Hnone : count_phase Active (heap w) = 0).
      { revert Hctor.
        apply (ctor_fill_invariant
                 (fun w1 => count_phase Active (heap w1) = 0)).
        - intros w1 H1 _ _.
          change (heap (add_socket w1)) with (heap w1 ++ [Pending]).
          rewrite count_phase_snoc, H1.
          destruct (decide (Pending = Active)); [discriminate|reflexivity].
        - reflexivity. }
      unfold MAXULONG. lia.
    - pose proof (protocol_counts cfg true w Hcfg
                    (reach_constructed_reach _ _ _ Hprev)) as (Hr & Hp & Ha).
      pose proof (limits_when_constructed_first cfg w Hcfg Hthr Hrole
                    (protocol_calls _ _ Hprev)) as (_ & Hsum & _).
      rewrite wrap32_small in Ha
        by (pose proof (count_phase_nonneg Active (heap w)); lia).
      destruct Hstep as [w allocs|w i b' Hi _|w i b' Hi _|w i b' Hi _].
      + apply (TimerCallback_invariant
                 (fun w1 => count_phase Active (heap w1) <= MAXULONG)).
        * exact IH.
        * auto.
        * intros w1 H1 _ _ _.
          change (heap (add_socket w1)) with (heap w1 ++ [Pending]).
          rewrite count_phase_snoc.
          destruct (decide (Pending = Active)); [discriminate|lia].
      + pose proof (count_phase_lookup _ _ _ Hi) as Hpos.
        cbn [with_phase heap].
        rewrite (count_phase_move _ _ _ _ _ Hi) by discriminate.
        repeat (destruct (decide _) as [?|?]; try congruence). lia.
      + cbn [with_phase heap].
        rewrite (count_phase_move _ _ _ _ _ Hi) by discriminate.
        repeat (destruct (decide _) as [?|?]; try congruence).
      + cbn [with_phase heap].
        rewrite (count_phase_move _ _ _ _ _ Hi) by discriminate.
        repeat (destruct (decide _) as [?|?]; try congruence). lia. }
  split; [|exact Hfit].
  pose proof (protocol_counts cfg true w Hcfg
                (reach_constructed_reach _ _ _ Hreach)) as (Hr & Hp & Ha).
  pose proof (limits_when_constructed_first cfg w Hcfg Hthr Hrole
                (protocol_calls _ _ Hreach)) as (_ & Hsum & _).
  rewrite wrap32_small in Ha
    by (pose proof (count_phase_nonneg Active (heap w)); lia).
  lia.
Qed.

(** With the settings of a successful [Startup], a client's broker whose
    constructor ran before any call stays within both limits. *)
Lemma Startup_client_within_limits `{Externals} argv cfg w :
  Startup argv = Ok (Some cfg) ->
  has_AcceptFunction cfg = false ->
  reach_constructed call_step cfg w ->
  within_limits cfg (broker w).
Proof.
  intros Hstart Hrole Hreach.
  apply Startup_limits in Hstart as (_ & Hrange & Hthr).
  apply (limits_when_constructed_first cfg w Hrange Hthr Hrole Hreach).
Qed.

(** * The broker over whole runs *)

Ltac split_run :=
  unfold run_invariant; refine (conj _ (conj _ (conj _ (conj _ _)))).

Lemma add_socket_run cfg w :
  run_invariant cfg w ->
  0 < total_connections_remaining (broker w) ->
  pending_sockets (broker w) < pending_limit (broker w) ->
  run_invariant cfg (add_socket w).
Proof.
  intros (Hr & Hsum & Hlim & Hpend & Hdone) Htot Hlt.
  destruct (add_socket_guarded w Hr Htot Hlt) as (Ht' & Hp' & Hr').
  unfold run_invariant. rewrite Ht', Hp'.
  change (pending_limit (broker (add_socket w))) with (pending_limit (broker w)).
  change (done_event (broker (add_socket w))) with (done_event (broker w)).
  change (heap (add_socket w)) with (heap w ++ [Pending]).
  rewrite length_app. simpl length.
  refine (conj _ (conj _ (conj _ (conj _ _)))); [exact Hr'|lia|exact Hlim|lia|].
  intros Hd. destruct (Hdone Hd) as (Hz & _). lia.
Qed.

Lemma reap_run cfg w : run_invariant cfg w -> run_invariant cfg (reap w).
Proof. intros H. exact H. Qed.

Lemma TimerCallback_run cfg allocs w :
  run_invariant cfg w -> run_invariant cfg (TimerCallback cfg allocs w).1.
Proof.
  intros Hw. rewrite TimerCallback_unfold.
  destruct ((0 =? total_connections_remaining (broker w))
            && (0 =? pending_sockets (broker w))
            && (0 =? active_sockets (broker w))) eqn:Hc.
  - apply andb_true_iff in Hc as [Hc Ha]. apply andb_true_iff in Hc as [Ht Hp].
    apply Z.eqb_eq in Ht, Hp, Ha.
    destruct Hw as (Hr & Hsum & Hlim & Hpend & Hdone).
    split_run; auto.
  - destruct (done_event (broker w)) eqn:Hd; simpl fst.
    + apply reap_run, Hw.
    + apply (timer_loop_invariant (run_invariant cfg)).
      * intros w0 H0 Hlt Htot _. apply add_socket_run; assumption.
      * apply reap_run, Hw.
Qed.

Lemma call_step_run cfg w w' :
  run_invariant cfg w -> call_step cfg w w' -> run_invariant cfg w'.
Proof.
  intros Hw Hstep.
  destruct Hstep as [w allocs | w b' Hio | w was_active b' Hcl | w i p].
  - apply TimerCallback_run, Hw.
  - destruct Hw as (Hr & Hsum & Hlim & Hpend & Hdone).
    destruct (Z.eq_dec (pending_sockets (broker w)) 0) as [Hz|Hnz].
    { destruct (no_pending_FailFast (broker w) Hz) as [Hf _]. congruence. }
    destruct Hr as (Htr & Hlr & Hpr & Har).
    destruct (initiating_io_Returns (broker w)) as
      (b1 & Hb1 & Hp1 & Ha1 & _ & Ht1 & Hl1 & _ & Hd1);
      [unfold broker_in_range; lia|lia|].
    assert (b1 = b') by congruence. subst b1.
    pose proof (wrap32_range (active_sockets (broker w) + 1)).
    split_run; unfold broker_in_range; cbn [with_broker heap broker];
      rewrite ?Ht1, ?Hl1, ?Hp1, ?Ha1, ?Hd1; try lia.
    intros Hd. destruct (Hdone Hd) as (_ & Hz & _). lia.
  - destruct Hw as (Hr & Hsum & Hlim & Hpend & Hdone).
    destruct was_active.
    + destruct (Z.eq_dec (active_sockets (broker w)) 0) as [Hz|Hnz].
      { rewrite (no_active_FailFast (broker w) Hz) in Hcl. discriminate. }
      destruct Hr as (Htr & Hlr & Hpr & Har).
      destruct (closing_active_Returns (broker w)) as
        (b1 & Hb1 & Ha1 & Hp1 & Ht1 & Hl1 & _ & Hd1);
        [unfold broker_in_range; lia|lia|].
      assert (b1 = b') by congruence. subst b1.
      split_run; unfold broker_in_range; cbn [with_broker heap broker];
        rewrite ?Ht1, ?Hl1, ?Hp1, ?Ha1, ?Hd1; try lia.
      intros Hd. destruct (Hdone Hd) as (_ & _ & Hz). lia.
    + destruct (Z.eq_dec (pending_sockets (broker w)) 0) as [Hz|Hnz].
      { destruct (no_pending_FailFast (broker w) Hz) as [_ Hf]. congruence. }
      destruct Hr as (Htr & Hlr & Hpr & Har).
      destruct (closing_pending_Returns (broker w)) as
        (b1 & Hb1 & Hp1 & Ha1 & Ht1 & Hl1 & _ & Hd1);
        [unfold broker_in_range; lia|lia|].
      assert (b1 = b') by congruence. subst b1.
      split_run; unfold broker_in_range; cbn [with_broker heap broker];
        rewrite ?Ht1, ?Hl1, ?Hp1, ?Ha1, ?Hd1; try lia.
      intros Hd. destruct (Hdone Hd) as (_ & Hz & _). lia.
  - destruct Hw as (Hr & Hsum & Hlim & Hpend & Hdone).
    split_run; cbn [with_phase heap broker]; rewrite ?length_insert;
      assumption.
Qed.

Lemma armed_run cfg : settings_in_range cfg -> run_invariant cfg (armed cfg).
Proof.
  intros Hcfg. pose proof (ctor_init_in_range cfg Hcfg) as Hr.
  unfold run_invariant. change (broker (armed cfg)) with (ctor_init cfg).
  change (heap (armed cfg)) with (@nil SocketPhase).
  refine (conj _ (conj _ (conj _ (conj _ _)))); auto.
  - destruct Hr as (_ & Hl & _).
    change (pending_sockets (ctor_init cfg)) with 0. lia.
  - discriminate.
Qed.

Lemma reach_run cfg d w :
  settings_in_range cfg -> reach call_step cfg d w -> run_invariant cfg w.
Proof.
  intros Hcfg Hreach.
  induction Hreach as [|w w' allocs _ IH Hfill|d w w' _ IH Hstep].
  - apply armed_run, Hcfg.
  - apply (ctor_fill_invariant (run_invariant cfg) cfg allocs w w');
      [|exact IH|exact Hfill].
    intros w0 H0 Htot Hlt. apply add_socket_run; assumption.
  - eapply call_step_run; eassumption.
Qed.

Lemma protocol_step_calls cfg d w :
  reach protocol_step cfg d w -> reach call_step cfg d w.
Proof.
  induction 1 as [|w w' allocs _ IH Hfill|d w w' _ IH Hstep].
  - apply reach_armed.
  - eapply reach_fill; eassumption.
  - destruct Hstep as [w allocs|w i b' Hi Hcall|w i b' Hi Hcall|w i b' Hi Hcall].
    + eapply reach_step; [exact IH|apply call_timer].
    + apply (reach_step call_step cfg d (with_broker w b')).
      * eapply reach_step; [exact IH|apply call_initiating_io, Hcall].
      * apply (call_phase cfg (with_broker w b') i Active).
    + apply (reach_step call_step cfg d (with_broker w b')).
      * eapply reach_step; [exact IH|eapply call_closing, Hcall].
      * apply (call_phase cfg (with_broker w b') i Closed).
    + apply (reach_step call_step cfg d (with_broker w b')).
      * eapply reach_step; [exact IH|eapply call_closing, Hcall].
      * apply (call_phase cfg (with_broker w b') i Closed).
Qed.

(** ** A server with [2^32] connections in use *)

Lemma count_phase_app p h1 h2 :
  count_phase p (h1 ++ h2) = count_phase p h1 + count_phase p h2.
Proof. unfold count_phase. rewrite filter_app, length_app. lia. Qed.

Lemma count_phase_replicate p q n :
  count_phase p (replicate n q) = if decide (q = p) then Z.of_nat n else 0.
Proof.
  induction n as [|n IH]; simpl replicate.
  - rewrite count_phase_nil. destruct (decide (q = p)); reflexivity.
  - rewrite count_phase_cons, IH. destruct (decide (q = p)); lia.
Qed.

(** What the counters of the server are while its heap holds active
    records followed by pending ones. *)
Lemma busy_server_counts w a p :
  reach protocol_step busy_server true w ->
  heap w = replicate a Active ++ replicate p Pending ->
  broker_in_range (broker w) /\
  pending_sockets (broker w) = Z.of_nat p /\
  active_sockets (broker w) = wrap32 (Z.of_nat a) /\
  total_connections_remaining (broker w)
    = MAXULONGLONG - Z.of_nat (a + p) /\
  pending_limit (broker w) = 100 /\
  (done_event (broker w) = true -> total_connections_remaining (broker w) = 0).
Proof.
  intros Hreach Hheap.
  assert (Hcfg : settings_in_range busy_server) by compute_ranges.
  destruct (protocol_counts busy_server true w Hcfg Hreach) as (Hr & Hp & Ha).
  destruct (reach_run busy_server true w Hcfg
              (protocol_step_calls busy_server true w Hreach))
    as (_ & Htot & Hlim & _ & Hdone).
  rewrite Hheap in Hp, Ha, Htot.
  rewrite !count_phase_app, !count_phase_replicate in Hp, Ha.
  rewrite length_app, !length_replicate in Htot.
  change (total_connections_remaining (ctor_init busy_server))
    with MAXULONGLONG in Htot.
  change (pending_limit (ctor_init busy_server)) with 100 in Hlim.
  destruct (decide (Active = Pending)) as [Hne|_]; [discriminate Hne|].
  destruct (decide (Pending = Pending)) as [_|Hne]; [|contradiction].
  destruct (decide (Active = Active)) as [_|Hne]; [|contradiction].
  destruct (decide (Pending = Active)) as [Hne|_]; [discriminate Hne|].
  split; [exact Hr|]. split; [lia|]. split; [rewrite Ha; f_equal; lia|].
  split; [lia|]. split; [exact Hlim|]. intros Hd. apply Hdone, Hd.
Qed.

(** The first pending record of such a heap calls [initiating_io]. *)
Lemma busy_server_initiates w a p :
  reach protocol_step busy_server true w ->
  heap w = replicate a Active ++ replicate (S p) Pending ->
  exists w',
    reach protocol_step busy_server true w' /\
    heap w' = replicate (S a) Active ++ replicate p Pending.
Proof.
  intros Hreach Hheap.
  destruct (busy_server_counts w a (S p) Hreach Hheap) as (Hr & Hp & _).
  destruct (initiating_io_Returns (broker w) Hr) as (b' & Hb' & _); [lia|].
  assert (Hi : heap w !! a = Some Pending).
  { rewrite Hheap, lookup_app_r by (rewrite length_replicate; lia).
    rewrite length_replicate, Nat.sub_diag. reflexivity. }
  exists (with_phase w a Active b'). split.
  - eapply reach_step; [exact Hreach|].
    apply protocol_initiating_io; assumption.
  - change (heap (with_phase w a Active b')) with (<[a := Active]> (heap w)).
    rewrite Hheap, insert_app_r_alt by (rewrite length_replicate; lia).
    rewrite length_replicate, Nat.sub_diag, (replicate_S_end a), <- app_assoc.
    reflexivity.
Qed.

(** When no record is pending the next callback creates some. *)
Lemma busy_server_refills w a :
  reach protocol_step busy_server true w ->
  heap w = replicate a Active ->
  Z.of_nat a <= 2 ^ 32 ->
  exists w' n,
    reach protocol_step busy_server true w' /\
    heap w' = replicate a Active ++ replicate (S n) Pending.
Proof.
  intros Hreach Hheap Ha.
  assert (Hheap0 : heap w = replicate a Active ++ replicate 0 Pending).
  { rewrite Hheap. simpl. rewrite app_nil_r. reflexivity. }
  destruct (busy_server_counts w a 0 Hreach Hheap0)
    as (Hr & Hp & _ & Htot & Hlim & Hdone).
  rewrite Nat.add_0_r in Htot.
  assert (Hpos : 0 < total_connections_remaining (broker w)).
  { rewrite Htot. unfold MAXULONGLONG. lia. }
  assert (Hnot : done_event (broker w) = false).
  { destruct (done_event (broker w)); [|reflexivity].
    specialize (Hdone eq_refl). lia. }
  assert (Hcall : (TimerCallback busy_server None w).1
                  = timer_loop
                      (Z.to_nat (pending_limit (broker w)
                                 - pending_sockets (broker w)))
                      busy_server None (reap w)).
  { rewrite TimerCallback_unfold, Hnot.
    destruct (Z.eqb_spec 0 (total_connections_remaining (broker w)));
      [lia|reflexivity]. }
  assert (Hr' : broker_in_range (broker (reap w))) by exact Hr.
  destruct (timer_loop_iter busy_server
              (Z.to_nat (pending_limit (broker w) - pending_sockets (broker w)))
              None (reap w) Hr')
    as (n & Hloop & Hbefore & Hend).
  { change (pending_limit (broker (reap w))) with (pending_limit (broker w)).
    change (pending_sockets (broker (reap w)))
      with (pending_sockets (broker w)). lia. }
  destruct (iter_add_socket busy_server (reap w) Hr' n Hbefore)
    as (Hh & _).
  destruct n as [|n].
  - exfalso. change (Nat.iter 0 add_socket (reap w)) with (reap w) in Hend.
    assert (Htest : refill_test busy_server (broker (reap w)) = true).
    { apply refill_test_true.
      change (pending_limit (broker (reap w))) with (pending_limit (broker w)).
      change (pending_sockets (broker (reap w)))
        with (pending_sockets (broker w)).
      change (total_connections_remaining (broker (reap w)))
        with (total_connections_remaining (broker w)).
      split; [lia|]. split; [exact Hpos|]. discriminate. }
    congruence.
  - exists (TimerCallback busy_server None w).1, n. split.
    + eapply reach_step; [exact Hreach|apply protocol_timer].
    + rewrite Hcall, Hloop, Hh.
      change (heap (reap w)) with (heap w). rewrite Hheap. reflexivity.
Qed.

(** Any number of records up to [2^32] can be active at once. *)
Lemma busy_server_active a :
  Z.of_nat a <= 2 ^ 32 ->
  exists w p,
    reach protocol_step busy_server true w /\
    heap w = replicate a Active ++ replicate p Pending.
Proof.
  induction a as [|a IH]; intros Ha.
  - destruct (ctor_fill busy_server None (armed busy_server)) as [w0|] eqn:Hfill;
      [|discriminate Hfill].
    exists w0, 100%nat. split.
    + eapply reach_fill; [apply reach_armed|exact Hfill].
    + vm_compute in Hfill. injection Hfill as <-. reflexivity.
  - destruct IH as (w & p & Hreach & Hheap); [lia|].
    destruct p as [|p].
    + simpl in Hheap. rewrite app_nil_r in Hheap.
      destruct (busy_server_refills w a Hreach Hheap) as (w1 & n & Hreach1 & Hheap1);
        [lia|].
      destruct (busy_server_initiates w1 a n Hreach1 Hheap1) as (w2 & H2 & Hh2).
      exists w2, n. split; assumption.
    + destruct (busy_server_initiates w a p Hreach Hheap) as (w2 & H2 & Hh2).
      exists w2, p. split; assumption.
Qed.

(** C5 as the specification states it fails: the server that [Startup]
    returns for [-listen:*] follows the protocol to a state with [2^32]
    active records.  [active_sockets], counted in 32 bits, is zero there,
    and the next [closing(true)], made by a record that is [Active], meets
    the fatal condition. *)
Lemma C5_active_count_wraps :
  Startup listen_forever = Ok (Some busy_server) /\
  settings_in_range busy_server /\
  exists w i,
    reach protocol_step busy_server true w /\
    heap w !! i = Some Active /\
    count_phase Active (heap w) = 2 ^ 32 /\
    active_sockets (broker w) = 0 /\
    closing true (broker w) = FailFast.
Proof.
  split; [vm_compute; reflexivity|].
  split; [compute_ranges|].
  remember (Z.to_nat (2 ^ 32)) as a eqn:Hdef.
  assert (Ha : Z.of_nat a = 2 ^ 32).
  { rewrite Hdef. apply Z2Nat.id. lia. }
  clear Hdef.
  destruct (busy_server_active a) as (w & p & Hreach & Hheap); [lia|].
  destruct (busy_server_counts w a p Hreach Hheap) as (_ & _ & Hact & _).
  assert (Hzero : active_sockets (broker w) = 0).
  { rewrite Hact, Ha. reflexivity. }
  exists w, O. split; [exact Hreach|]. split.
  - rewrite Hheap, lookup_app_l by (rewrite length_replicate; lia).
    apply lookup_replicate_2. lia.
  - split.
    + rewrite Hheap, count_phase_app, !count_phase_replicate.
      destruct (decide (Active = Active)) as [_|Hne]; [|contradiction].
      destruct (decide (Pending = Active)) as [Hne|_]; [discriminate Hne|].
      lia.
    + split; [exact Hzero|]. apply no_active_FailFast, Hzero.
Qed.

(** X1.  However calls interleave, the records created so far and the
    connections remaining add up to the total the constructor computed: a
    broker never creates more records than that total, and a server never
    more than [ServerExitLimit]. *)
Theorem X1_records_conserved cfg d w :
  settings_in_range cfg ->
  reach call_step cfg d w ->
  Z.of_nat (length (heap w)) + total_connections_remaining (broker w)
    = total_connections_remaining (ctor_init cfg) /\
  Z.of_nat (length (heap w)) <= total_connections_remaining (ctor_init cfg) /\
  (has_AcceptFunction cfg = true ->
   Z.of_nat (length (heap w)) <= ServerExitLimit cfg).
Proof.
  intros Hcfg Hreach.
  destruct (reach_run cfg d w Hcfg Hreach) as (Hr & Hsum & _).
  destruct Hr as (Ht & _).
  split; [exact Hsum|]. split; [lia|].
  intros Hrole.
  assert (Hs : total_connections_remaining (ctor_init cfg) = ServerExitLimit cfg)
    by (unfold ctor_init; simpl; rewrite Hrole; reflexivity).
  lia.
Qed.

Lemma X1_records_conserved_witness :
  settings_in_range small_server /\
  exists w, reach call_step small_server true w /\
    length (heap w) = 2%nat /\
    total_connections_remaining (broker w) = 1.
Proof.
  assert (Hcfg : settings_in_range small_server) by compute_ranges.
  split; [exact Hcfg|].
  destruct (ctor small_server None) as [w|] eqn:Hctor; [|discriminate Hctor].
  assert (Hreach : reach call_step small_server true w).
  { eapply reach_fill; [apply reach_armed|exact Hctor]. }
  exists w. split; [exact Hreach|].
  destruct (X1_records_conserved small_server true w Hcfg Hreach) as (Hsum & _).
  assert (Hlen : length (heap w) = 2%nat).
  { vm_compute in Hctor. injection Hctor as <-. reflexivity. }
  split; [exact Hlen|].
  rewrite Hlen in Hsum. change (total_connections_remaining (ctor_init small_server)) with 3 in Hsum.
  lia.
Defined.

(** X2.  However calls interleave, [pending_limit] stays what the
    constructor set and [pending_sockets] never exceeds it: a server never
    has more than [AcceptLimit] records pending, a client never more than
    [ConnectionLimit]. *)
Theorem X2_pending_within_pending_limit cfg d w :
  settings_in_range cfg ->
  reach call_step cfg d w ->
  pending_limit (broker w) = pending_limit (ctor_init cfg) /\
  0 <= pending_sockets (broker w) <= pending_limit (broker w) /\
  pending_sockets (broker w)
    <= (if has_AcceptFunction cfg then AcceptLimit cfg
        else ConnectionLimit cfg).
Proof.
  intros Hcfg Hreach.
  destruct (reach_run cfg d w Hcfg Hreach) as (Hr & _ & Hlim & Hpend & _).
  destruct Hr as (_ & _ & Hp & _).
  split; [exact Hlim|]. split; [lia|].
  rewrite Hlim, (ctor_init_pending_limit cfg Hcfg) in Hpend. lia.
Qed.

Lemma X2_pending_within_pending_limit_witness :
  settings_in_range throttled_client /\
  exists w,
    reach call_step throttled_client true w /\
    length (heap w) = 8%nat /\
    pending_sockets (broker w) = 7 /\
    active_sockets (broker w) = 1 /\
    pending_limit (broker w) = 8 /\
    0 <= pending_sockets (broker w) <= pending_limit (broker w).
Proof.
  assert (Hcfg : settings_in_range throttled_client) by compute_ranges.
  split; [exact Hcfg|].
  (* a callback before the constructor's loop, the loop, and a record that
     tells the broker [initiating_io] *)
  pose (w1 := (TimerCallback throttled_client None (armed throttled_client)).1).
  assert (H1 : reach call_step throttled_client false w1).
  { eapply reach_step; [apply reach_armed|apply call_timer]. }
  destruct (ctor_fill throttled_client None w1) as [w2|] eqn:Hfill;
    [|discriminate Hfill].
  assert (H2 : reach call_step throttled_client true w2).
  { eapply reach_fill; eassumption. }
  destruct (initiating_io (broker w2)) as [b3|] eqn:Hio;
    [|vm_compute in Hfill; injection Hfill as <-; discriminate Hio].
  assert (H3 : reach call_step throttled_client true (with_broker w2 b3)).
  { eapply reach_step; [exact H2|apply call_initiating_io; exact Hio]. }
  exists (with_broker w2 b3). split; [exact H3|].
  destruct (X2_pending_within_pending_limit throttled_client true _ Hcfg H3)
    as (Hlim & Hpend & _).
  vm_compute in Hfill. injection Hfill as <-.
  vm_compute in Hio. injection Hio as <-.
  split; [reflexivity|]. split; [reflexivity|]. split; [reflexivity|].
  split; [rewrite Hlim; reflexivity | exact Hpend].
Defined.






Lemma ctor_fill_exhausted cfg allocs w :
  total_connections_remaining (broker w) = 0 ->
  ctor_fill cfg allocs w = Some w.
Proof.
  intros Hz. unfold ctor_fill.
  destruct (Z.to_nat _) as [|fuel]; [reflexivity|].
  rewrite ctor_loop_S, Hz. reflexivity.
Qed.

(** X4.  However calls interleave, a signaled [done_event] is final.  All
    three counters are zero then and as many records were created as the
    constructor's total; from there on every call that returns leaves the
    event signaled and creates no record, and a constructor loop that runs
    only now creates none either. *)
Theorem X4_done_is_final cfg d w :
  settings_in_range cfg ->
  reach call_step cfg d w ->
  done_event (broker w) = true ->
  (total_connections_remaining (broker w) = 0 /\
   pending_sockets (broker w) = 0 /\
   active_sockets (broker w) = 0) /\
  Z.of_nat (length (heap w)) = total_connections_remaining (ctor_init cfg) /\
  (forall w', call_step cfg w w' ->
     done_event (broker w') = true /\
     length (heap w') = length (heap w)) /\
  (forall allocs, ctor_fill cfg allocs w = Some w).
Proof.
  intros Hcfg Hreach Hd.
  destruct (reach_run cfg d w Hcfg Hreach) as (Hr & Hsum & _ & _ & Hdone).
  destruct (Hdone Hd) as (Ht & Hp & Ha).
  split; [auto|]. split; [lia|]. split.
  - intros w' Hstep.
    assert (Hlen : length (heap w') = length (heap w)).
    { destruct Hstep as [w allocs | w b' Hio | w was_active b' Hcl | w i p].
      - rewrite TimerCallback_unfold, Ht, Hp, Ha. reflexivity.
      - reflexivity.
      - reflexivity.
      - cbn [with_phase heap]. apply length_insert. }
    split; [|exact Hlen].
    destruct Hstep as [w allocs | w b' Hio | w was_active b' Hcl | w i p].
    + rewrite TimerCallback_unfold, Ht, Hp, Ha. reflexivity.
    + destruct (no_pending_FailFast (broker w) Hp) as [Hf _]. congruence.
    + destruct was_active.
      * rewrite (no_active_FailFast (broker w) Ha) in Hcl. discriminate.
      * destruct (no_pending_FailFast (broker w) Hp) as [_ Hf]. congruence.
    + exact Hd.
  - intros allocs. apply ctor_fill_exhausted, Ht.
Qed.

Lemma count_phase_none p h :
  count_phase p h = 0 -> forall i, h !! i <> Some p.
Proof.
  intros Hz i Hi. apply count_phase_lookup in Hi. lia.
Qed.

(** X5.  In a run that follows the records' protocol, when [done_event] is
    signaled every record the broker created is closed, as long as the
    number of active records fits the 32-bit counter. *)
Theorem X5_done_means_all_closed cfg d w :
  settings_in_range cfg ->
  reach protocol_step cfg d w ->
  count_phase Active (heap w) <= MAXULONG ->
  done_event (broker w) = true ->
  forall i ph, heap w !! i = Some ph -> ph = Closed.
Proof.
  intros Hcfg Hreach Hfit Hd i ph Hi.
  destruct (protocol_counts cfg d w Hcfg Hreach) as (_ & Hp & Ha).
  destruct (reach_run cfg d w Hcfg (protocol_step_calls cfg d w Hreach))
    as (_ & _ & _ & _ & Hdone).
  destruct (Hdone Hd) as (_ & Hpz & Haz).
  rewrite wrap32_small in Ha
    by (pose proof (count_phase_nonneg Active (heap w)); lia).
  destruct ph; [| |reflexivity].
  - exfalso. apply (count_phase_none Pending (heap w)) with (i := i); [lia|exact Hi].
  - exfalso. apply (count_phase_none Active (heap w)) with (i := i); [lia|exact Hi].
Qed.

Lemma close_pending_step cfg d w i :
  reach protocol_step cfg d w ->
  heap w !! i = Some Pending ->
  pending_sockets (broker w) <> 0 ->
  reach protocol_step cfg d (close_record false i w).
Proof.
  intros Hreach Hi Hnz. unfold close_record.
  destruct (closing false (broker w)) as [b'|] eqn:Hcl.
  - eapply reach_step; [exact Hreach|].
    apply protocol_closing_pending; assumption.
  - unfold closing in Hcl.
    destruct (Z.eqb_spec (pending_sockets (broker w)) 0); congruence.
Qed.

Lemma served_all_reach : reach protocol_step small_server true served_all.
Proof.
  unfold served_all.
  eapply reach_step; [|apply protocol_timer].
  apply close_pending_step; [|reflexivity|vm_compute; discriminate].
  eapply reach_step; [|apply protocol_timer].
  apply close_pending_step; [|reflexivity|vm_compute; discriminate].
  apply close_pending_step; [|reflexivity|vm_compute; discriminate].
  apply (reach_fill protocol_step small_server (armed small_server) _ None).
  - apply reach_armed.
  - reflexivity.
Qed.

Lemma X4_done_is_final_witness :
  settings_in_range small_server /\
  reach call_step small_server true served_all /\
  done_event (broker served_all) = true /\
  length (heap served_all) = 3%nat /\
  total_connections_remaining (broker served_all) = 0 /\
  done_event (broker (TimerCallback small_server None served_all).1) = true /\
  length (heap (TimerCallback small_server None served_all).1) = 3%nat.
Proof.
  assert (Hcfg : settings_in_range small_server) by compute_ranges.
  assert (Hreach : reach call_step small_server true served_all)
    by exact (protocol_step_calls small_server true served_all
                served_all_reach).
  assert (Hd : done_event (broker served_all) = true) by reflexivity.
  destruct (X4_done_is_final small_server true served_all Hcfg Hreach Hd)
    as ((Ht & _) & Hlen & Hnext & _).
  destruct (Hnext (TimerCallback small_server None served_all).1
              (call_timer small_server served_all None)) as [Hd' Hlen'].
  split; [exact Hcfg|]. split; [exact Hreach|]. split; [exact Hd|].
  split; [reflexivity|]. split; [exact Ht|]. split; [exact Hd'|].
  rewrite Hlen'. reflexivity.
Defined.


Lemma X5_done_means_all_closed_witness :
  settings_in_range small_server /\
  done_event (broker served_all) = true /\
  length (heap served_all) = 3%nat /\
  forall i ph, heap served_all !! i = Some ph -> ph = Closed.
Proof.
  assert (Hcfg : settings_in_range small_server) by compute_ranges.
  split; [exact Hcfg|]. split; [reflexivity|]. split; [reflexivity|].
  apply (X5_done_means_all_closed small_server true served_all Hcfg
           served_all_reach).
  - vm_compute. discriminate.
  - reflexivity.
Defined.

(** * [Startup] as a whole *)

Section StartupProperties.

Context {E : Externals}.

Tactic Notation "step" hyp(H) "as" simple_intropattern(pat) :=
  cbv beta iota in H; apply bind_Ok_inv in H as pat.

Tactic Notation "input_of" hyp(H) "as" ident(s) :=
  lazymatch type of H with
  | _ _ ?e = Ok _ => set (s := e) in *
  end.

Tactic Notation "open_setter" hyp(H) ident(i) ident(value) :=
  let args0 := fresh "args0" in
  let found := fresh "found" in
  let Hfind := fresh "Hfind" in
  apply bind_Ok_inv in H as ([args0 found] & Hfind & H);
  apply find_value_frame in Hfind as ->;
  destruct found as [[i value]|].

(** ** The usage *)

Lemma find_if_pure (f : list Z -> bool) args :
  exists found,
    find_if (fun a => Ok (a, f a)) args = Ok (args, found) /\
    match found with
    | None => forall a, a ∈ args -> f a = false
    | Some i => exists a, args !! i = Some a /\ f a = true
    end.
Proof.
  induction args as [|a args (found & IH & Hfound)].
  - exists None. split; [reflexivity|].
    intros a Ha. apply elem_of_nil in Ha. destruct Ha.
  - cbn [find_if]. rewrite bind_Ok. cbv beta iota.
    destruct (f a) eqn:Hf.
    + exists (Some O). split; [reflexivity|]. exists a. auto.
    + rewrite IH, bind_Ok. cbv beta iota.
      exists (option_map S found). split; [reflexivity|].
      destruct found as [i|]; simpl.
      * exact Hfound.
      * intros a' Ha'. apply elem_of_cons in Ha' as [->|Ha']; auto.
Qed.

Lemma Startup_settings_Usage argv :
  Startup_settings argv = Ok Usage <->
  (length argv < 2)%nat \/
  exists arg, arg ∈ drop 1 argv /\ asks_for_help arg = true.
Proof.
  unfold Startup_settings.
  destruct (Nat.ltb_spec (length argv) 2) as [Hshort|Hlong].
  { split; [auto|reflexivity]. }
  destruct (find_if_pure asks_for_help (drop 1 argv)) as (found & Hfind & Hfound).
  unfold asks_for_help in Hfind. rewrite Hfind, bind_Ok. cbv beta iota.
  destruct found as [i|].
  - split; [|reflexivity]. intros _. right.
    destruct Hfound as (a & Ha & Hhelp). exists a.
    split; [eapply list_elem_of_lookup_2, Ha|exact Hhelp].
  - split.
    + intros H.
      step H as (u0 & _ & H).
      step H as (args1 & _ & H).
      step H as ([args2 jitterlogger] & _ & H).
      step H as ([args3 [listen target]] & _ & H).
      step H as ([args4 s2] & _ & H).
      step H as ([args5 [low high]] & _ & H).
      step H as ([args6 s6] & _ & H).
      step H as (u1 & _ & H).
      step H as ([args7 [pattern frame]] & _ & H).
      step H as (u2 & _ & H).
      step H as (u3 & _ & H).
      step H as (u4 & _ & H).
      step H as (args8 & _ & H).
      step H as (args9 & _ & H).
      step H as ([args10 s9] & _ & H).
      step H as ([args11 s10] & _ & H).
      step H as (args12 & _ & H).
      step H as (args13 & _ & H).
      step H as (args14 & _ & H).
      step H as ([args15 s11] & _ & H).
      step H as ([args16 s12] & _ & H).
      cbv beta iota in H. discriminate H.
    + intros [Hshort|(arg & Harg & Hhelp)]; [lia|].
      rewrite (Hfound arg Harg) in Hhelp. discriminate.
Qed.

(** X6.  [Startup] returns false, for the usage, exactly when there is no
    argument after the name of the program or some argument starts with
    [-Help] or is [-?]; the other arguments are not looked at then, so a
    request for help never throws. *)
Theorem X6_help_is_usage argv :
  Startup argv = Ok None <->
  (length argv < 2)%nat \/
  exists arg, arg ∈ drop 1 argv /\ asks_for_help arg = true.
Proof.
  rewrite <- Startup_settings_Usage. unfold Startup. split.
  - intros H. step H as (progress & Hsettings & H).
    destruct progress as [|args s frame]; [exact Hsettings|].
    step H as (s1 & _ & H). discriminate H.
  - intros ->. reflexivity.
Qed.

(** ** The options of each role *)

Lemma role_defaults_frame s s' :
  role_defaults s ->
  ListenAddresses s' = ListenAddresses s ->
  Protocol s' = Protocol s ->
  Iterations s' = Iterations s ->
  ConnectionThrottleLimit s' = ConnectionThrottleLimit s ->
  ConnectionLimit s' = ConnectionLimit s ->
  ServerExitLimit s' = ServerExitLimit s ->
  role_defaults s'.
Proof.
  unfold role_defaults, IsListening, protocol_ConnectionLimit.
  intros H -> -> -> -> -> ->. exact H.
Qed.

Lemma set_connections_role args s args' s' :
  set_connections args s = Ok (args', s') ->
  role_defaults s -> role_defaults s'.
Proof.
  unfold set_connections. intros H Hs. open_setter H i value.
  - destruct (IsListening s) eqn:Hl; [discriminate|].
    apply bind_Ok_inv in H as (v & Hv & H).
    destruct (0 =? _); [discriminate|]. injection H as _ <-.
    destruct Hs as [_ Hclient]. split.
    + change (IsListening (with_ConnectionLimit v s)) with (IsListening s).
      congruence.
    + intros _. exact (Hclient Hl).
  - injection H as _ <-. exact Hs.
Qed.

Lemma set_throttleConnections_role args s args' s' :
  set_throttleConnections args s = Ok (args', s') ->
  role_defaults s -> role_defaults s'.
Proof.
  unfold set_throttleConnections. intros H Hs. open_setter H i value.
  - destruct (IsListening s) eqn:Hl; [discriminate|].
    apply bind_Ok_inv in H as (v & Hv & H).
    destruct Hs as [_ Hclient].
    destruct (0 =? _); injection H as _ <-; (split; [|intros _; exact (Hclient Hl)]).
    + change (IsListening (with_ConnectionThrottleLimit MAXUINT32
                (with_ConnectionThrottleLimit v s))) with (IsListening s).
      congruence.
    + change (IsListening (with_ConnectionThrottleLimit v s))
        with (IsListening s).
      congruence.
  - injection H as _ <-. exact Hs.
Qed.

Lemma set_iterations_role args s args' s' :
  set_iterations args s = Ok (args', s') ->
  role_defaults s -> role_defaults s'.
Proof.
  unfold set_iterations. intros H Hs. open_setter H i value.
  - destruct (IsListening s) eqn:Hl; [discriminate|].
    apply bind_Ok_inv in H as (v & Hv & H).
    destruct Hs as [_ Hclient].
    destruct (0 =? _); injection H as _ <-; (split; [|intros _; exact (Hclient Hl)]).
    + change (IsListening (with_Iterations MAXULONGLONG (with_Iterations v s)))
        with (IsListening s).
      congruence.
    + change (IsListening (with_Iterations v s)) with (IsListening s).
      congruence.
  - injection H as _ <-. exact Hs.
Qed.

Lemma set_serverExitLimit_role args s args' s' :
  set_serverExitLimit args s = Ok (args', s') ->
  role_defaults s -> role_defaults s'.
Proof.
  unfold set_serverExitLimit. intros H Hs. open_setter H i value.
  - destruct (IsListening s) eqn:Hl; [|discriminate]. cbn [negb] in H.
    apply bind_Ok_inv in H as (v & Hv & H).
    destruct Hs as [Hserver _].
    destruct (0 =? _); injection H as _ <-; (split; [intros _; exact (Hserver Hl)|]).
    + change (IsListening (with_ServerExitLimit MAXULONGLONG
                (with_ServerExitLimit v s))) with (IsListening s).
      congruence.
    + change (IsListening (with_ServerExitLimit v s)) with (IsListening s).
      congruence.
  - injection H as _ <-. exact Hs.
Qed.

Lemma client_defaults_frame s s' :
  client_defaults s ->
  Iterations s' = Iterations s ->
  ConnectionThrottleLimit s' = ConnectionThrottleLimit s ->
  ServerExitLimit s' = ServerExitLimit s ->
  client_defaults s'.
Proof. unfold client_defaults. intros H -> -> ->. exact H. Qed.

Lemma client_defaults_init listen target :
  client_defaults
    (with_TargetAddresses target
       (with_ListenAddresses listen InitOncectsConfigImpl)).
Proof. unfold client_defaults. vm_compute. auto. Qed.

Lemma set_port_defaults args s args' s' :
  set_port args s = Ok (args', s') -> client_defaults s -> client_defaults s'.
Proof.
  intros H Hs.
  apply set_port_Ok in H as [->|(port & -> & _)]; exact Hs.
Qed.

Lemma set_protocol_defaults args s args' s' :
  set_protocol args s = Ok (args', s') ->
  client_defaults s -> client_defaults s'.
Proof.
  intros H Hs.
  apply set_protocol_Ok in H as [->| ->]; exact Hs.
Qed.

Lemma assign_ports_defaults low high s :
  client_defaults s ->
  client_defaults
    (assign_ports (with_LocalPortHigh high (with_LocalPortLow low s))).
Proof.
  intros Hs. apply (client_defaults_frame _ _ Hs); reflexivity.
Qed.

Lemma default_ConnectionLimit_role pattern s :
  client_defaults s ->
  role_defaults (default_ConnectionLimit (with_IoPattern pattern s)).
Proof.
  intros (Hi & Ht & He).
  unfold role_defaults, protocol_ConnectionLimit, default_ConnectionLimit.
  change (Protocol (with_IoPattern pattern s)) with (Protocol s).
  destruct (bool_decide (Protocol s = UDP)) eqn:Hp;
    cbn [Protocol Iterations ConnectionThrottleLimit ConnectionLimit
         ServerExitLimit with_ConnectionLimit with_IoPattern];
    rewrite Hp; auto.
Qed.

Lemma Startup_settings_role argv args s FrameSizeBytes :
  Startup_settings argv = Ok (Parsing args s FrameSizeBytes) ->
  role_defaults s.
Proof.
  unfold Startup_settings. intros H.
  destruct (length argv <? 2)%nat; [discriminate|].
  step H as ([args0 found_help] & _ & H).
  destruct found_help; [discriminate|].
  step H as (u0 & _ & H).
  step H as (args1 & _ & H).
  step H as ([args2 jitterlogger] & _ & H).
  step H as ([args3 [listen target]] & _ & H).
  step H as ([args4 s2] & Hport & H).
  pose proof (set_port_defaults _ _ _ _ Hport
                (client_defaults_init listen target)) as Hs2.
  clear Hport.
  step H as ([args5 [low high]] & _ & H).
  step H as ([args6 s6] & Hprotocol & H).
  pose proof (set_protocol_defaults _ _ _ _ Hprotocol
                (assign_ports_defaults low high s2 Hs2)) as Hs6.
  clear Hprotocol Hs2.
  step H as (u1 & _ & H).
  step H as ([args7 [pattern frame]] & _ & H).
  step H as (u2 & _ & H).
  step H as (u3 & _ & H).
  step H as (u4 & _ & H).
  step H as (args8 & _ & H).
  step H as (args9 & _ & H).
  step H as ([args10 s9] & Hconnections & H).
  pose proof (set_connections_role _ _ _ _ Hconnections
                (default_ConnectionLimit_role pattern s6 Hs6)) as Hs9.
  step H as ([args11 s10] & Hthrottle & H).
  pose proof (set_throttleConnections_role _ _ _ _ Hthrottle Hs9) as Hs10.
  step H as (args12 & _ & H).
  step H as (args13 & _ & H).
  step H as (args14 & _ & H).
  step H as ([args15 s11] & Hiterations & H).
  pose proof (set_iterations_role _ _ _ _ Hiterations Hs10) as Hs11.
  step H as ([args16 s12] & Hexit & H).
  pose proof (set_serverExitLimit_role _ _ _ _ Hexit Hs11) as Hs12.
  cbv beta iota in H. injection H as _ <- _. exact Hs12.
Qed.

(** X7.  The settings of every command line [Startup] accepts keep the
    roles apart: a listening server has the default [Iterations],
    [ConnectionThrottleLimit] and [ConnectionLimit], because
    [-iterations], [-throttleconnections] and [-connections] throw for
    it, and a client has the default [ServerExitLimit], because
    [-ServerExitLimit] throws for it. *)
Theorem X7_options_of_the_other_role argv s :
  Startup argv = Ok (Some s) ->
  (IsListening s = true ->
   Iterations s = MAXULONGLONG /\
   ConnectionThrottleLimit s = 1000 /\
   ConnectionLimit s = if bool_decide (Protocol s = UDP) then 1 else 8) /\
  (IsListening s = false -> ServerExitLimit s = MAXULONGLONG).
Proof.
  unfold Startup. intros H.
  step H as (progress & Hsettings & H).
  destruct progress as [|args s0 frame]; [discriminate|].
  step H as (s1 & Hfunctions & H).
  cbv beta iota in H. injection H as <-.
  apply Startup_settings_role in Hsettings.
  apply Startup_functions_Ok in Hfunctions
    as ((Hp & Hl & _ & Hc & Ht & Hi & He & _) & _).
  exact (role_defaults_frame _ _ Hsettings Hl Hp Hi Ht Hc He).
Qed.

(** ** The role the broker takes *)

Lemma set_accept_listening args s args' s' :
  set_accept args s = Ok (args', s') ->
  IsListening s' = true -> has_AcceptFunction s' = true.
Proof.
  unfold set_accept. intros H. open_setter H i value.
  - destruct (negb _); [discriminate|].
    apply bind_Ok_inv in H as (s1 & Hs1 & H). injection H as _ <-.
    destruct (iordinal_equals (L "accept") value).
    { apply bind_Ok_inv in Hs1 as (u & _ & Hs1). injection Hs1 as <-.
      reflexivity. }
    destruct (iordinal_equals (L "AcceptEx") value).
    { apply bind_Ok_inv in Hs1 as (u & _ & Hs1). injection Hs1 as <-.
      reflexivity. }
    discriminate.
  - cbn [ListenAddresses with_AcceptLimit] in H.
    destruct (Nat.ltb_spec 0 (length (ListenAddresses s))) as [Hlt|Hge].
    + destruct (negb _).
      * apply bind_Ok_inv in H as (u & _ & H). injection H as _ <-.
        reflexivity.
      * injection H as _ <-. reflexivity.
    + injection H as _ <-. unfold IsListening.
      cbn [ListenAddresses with_AcceptLimit].
      destruct (ListenAddresses s); [|simpl in Hge; lia].
      rewrite bool_decide_eq_true_2 by reflexivity. discriminate.
Qed.

Lemma Startup_functions_listening args s FrameSizeBytes s' :
  Startup_functions args s FrameSizeBytes = Ok s' ->
  IsListening s' = true -> has_AcceptFunction s' = true.
Proof.
  unfold Startup_functions. intros H.
  step H as ([args1 s1] & _ & H).
  step H as (u1 & _ & H).
  step H as (u2 & _ & H).
  step H as (u3 & _ & H).
  step H as ([args2 s2] & _ & H).
  step H as (args3 & _ & H).
  step H as (args4 & _ & H).
  step H as (args5 & _ & H).
  step H as ([args6 s3] & Haccept & H).
  step H as (u4 & _ & H).
  step H as (u5 & _ & H).
  cbv beta iota in H. injection H as <-.
  exact (set_accept_listening _ _ _ _ Haccept).
Qed.

(** X8.  For every command line [Startup] accepts for a listening server,
    an accept function is set, so the broker takes the server's branch: it
    starts with [ServerExitLimit] connections remaining and with
    [pending_limit] the smaller of 100 and [ServerExitLimit], which is at
    least one. *)
Theorem X8_listening_server_broker argv s :
  Startup argv = Ok (Some s) ->
  IsListening s = true ->
  has_AcceptFunction s = true /\
  total_connections_remaining (ctor_init s) = ServerExitLimit s /\
  pending_limit (ctor_init s) = Z.min 100 (ServerExitLimit s) /\
  0 < pending_limit (ctor_init s).
Proof.
  intros Hstart Hlisten.
  destruct (Startup_limits argv s Hstart) as (Hvalid & Hrange & _).
  assert (Hrole : has_AcceptFunction s = true /\ AcceptLimit s = 100).
  { unfold Startup in Hstart.
    step Hstart as (progress & Hsettings & Hstart).
    destruct progress as [|args s0 frame]; [discriminate|].
    step Hstart as (s1 & Hfunctions & Hstart).
    cbv beta iota in Hstart. injection Hstart as <-.
    split; [eapply Startup_functions_listening; eassumption|].
    apply Startup_functions_Ok in Hfunctions as ((_ & _ & _ & _ & _ & _ & _ & Ha) & _).
    exact Ha. }
  destruct Hrole as [Hrole Hlimit].
  assert (Htotal : total_connections_remaining (ctor_init s) = ServerExitLimit s)
    by (unfold ctor_init; simpl; rewrite Hrole; reflexivity).
  pose proof (ctor_init_pending_limit s Hrange) as Hpl.
  rewrite Hrole, Hlimit, Htotal in Hpl.
  destruct Hvalid as (_ & _ & _ & _ & Hexit).
  split; [exact Hrole|]. split; [exact Htotal|]. split; [exact Hpl|]. lia.
Qed.

End StartupProperties.

Lemma X7_options_of_the_other_role_witness :
  exists s,
    Startup listening_server = Ok (Some s) /\
    IsListening s = true /\ ServerExitLimit s = 3 /\
    Iterations s = MAXULONGLONG /\ ConnectionLimit s = 8.
Proof.
  destruct (Startup listening_server) as [[s|]|e] eqn:Hrun;
    try (vm_compute in Hrun; discriminate Hrun).
  exists s. split; [reflexivity|].
  destruct (X7_options_of_the_other_role listening_server s Hrun)
    as (Hserver & _).
  vm_compute in Hrun. injection Hrun as <-.
  split; [reflexivity|]. split; [reflexivity|].
  destruct Hserver as (Hi & _ & Hc); [reflexivity|].
  split; [exact Hi|exact Hc].
Defined.

Lemma X8_listening_server_broker_witness :
  exists s,
    Startup listening_server = Ok (Some s) /\
    IsListening s = true /\
    total_connections_remaining (ctor_init s) = 3 /\
    pending_limit (ctor_init s) = 3.
Proof.
  destruct (Startup listening_server) as [[s|]|e] eqn:Hrun;
    try (vm_compute in Hrun; discriminate Hrun).
  exists s. split; [reflexivity|].
  assert (Hlisten : IsListening s = true)
    by (vm_compute in Hrun; injection Hrun as <-; reflexivity).
  destruct (X8_listening_server_broker listening_server s Hrun Hlisten)
    as (_ & Htotal & Hlimit & _).
  vm_compute in Hrun. injection Hrun as <-.
  split; [reflexivity|]. split; [rewrite Htotal; reflexivity|].
  rewrite Hlimit. reflexivity.
Defined.

(** * The ranges *)

Lemma wcslen_app_nonzero s rest :
  Forall (fun c => c <> 0) s ->
  wcslen (s ++ rest) = (length s + wcslen rest)%nat.
Proof.
  induction 1 as [|c s Hc _ IH]; [reflexivity|].
  simpl. apply Z.eqb_neq in Hc. rewrite Hc, IH. reflexivity.
Qed.

Lemma std_find_app_absent a v rest :
  v ∉ a -> std_find (a ++ rest) v = (length a + std_find rest v)%nat.
Proof.
  induction a as [|c a IH]; intros Hv; [reflexivity|].
  simpl. destruct (Z.eqb_spec c v) as [->|Hc].
  - destruct Hv. apply list_elem_of_here.
  - rewrite IH; [reflexivity|].
    intros Hin. apply Hv, list_elem_of_further, Hin.
Qed.

Lemma string_at_app pre s rest :
  Forall (fun c => c <> 0) s ->
  string_at (pre ++ s ++ 0 :: rest) (length pre) = s.
Proof.
  intros Hs. unfold string_at. rewrite drop_app_length.
  rewrite wcslen_app_nonzero by exact Hs. simpl wcslen.
  rewrite Nat.add_0_r. apply take_app_length.
Qed.

Lemma wcslen_c_str_nonzero s :
  Forall (fun c => c <> 0) s -> wcslen (c_str s) = length s.
Proof.
  intros Hs. unfold c_str. rewrite wcslen_app_nonzero by exact Hs.
  simpl. lia.
Qed.

Lemma std_find_split l v :
  (std_find l v < length l)%nat ->
  l = take (std_find l v) l ++ v :: drop (S (std_find l v)) l /\
  v ∉ take (std_find l v) l.
Proof.
  induction l as [|c l IH]; simpl; [lia|].
  destruct (Z.eqb_spec c v) as [->|Hc]; simpl.
  - intros _. rewrite drop_0. split; [reflexivity|apply not_elem_of_nil].
  - intros Hlt. destruct IH as [Heq Hnot]; [lia|]. split.
    + f_equal. exact Heq.
    + intros Hin. apply elem_of_cons in Hin as [Hin|Hin]; [congruence|auto].
Qed.

Lemma last_split (l : list Z) v :
  l <> [] -> l !! (length l - 1)%nat = Some v ->
  exists b, l = b ++ [v].
Proof.
  intros Hne Hlast.
  destruct (exists_last Hne) as (b & x & ->).
  rewrite length_app in Hlast. simpl in Hlast.
  rewrite lookup_app_r in Hlast by lia.
  replace (length b + 1 - 1 - length b)%nat with O in Hlast by lia.
  injection Hlast as ->. exists b. reflexivity.
Qed.

Section RangeProperties.

Context {Vars : Type}.
Variable as_integral : list Z -> result Z.
Variables _out_low _out_high : Ranges.reference Vars.

Lemma get_range_brackets a b vars :
  Forall (fun c => c <> 0) a ->
  Forall (fun c => c <> 0) b ->
  44 ∉ a ->
  Ranges.get_range as_integral (c_str (91 :: a ++ 44 :: b ++ [93]))
    _out_low _out_high vars
  = if (length a + length b <? 2)%nat
    then Throw (invalid_argument "range value [###,###]")
    else
      low ← as_integral a;
      high ← as_integral b;
      let vars := Ranges.write _out_high high
                    (Ranges.write _out_low low vars) in
      if Ranges.read _out_high vars <? Ranges.read _out_low vars
      then Throw (invalid_argument "range value [###,###]")
      else Ok vars.
Proof.
  intros Ha Hb Hcomma.
  set (value := c_str (91 :: a ++ 44 :: b ++ [93])).
  assert (Hvalue : value = [91] ++ a ++ 44 :: b ++ 93 :: [0]).
  { subst value. unfold c_str. simpl. rewrite <- app_assoc. simpl.
    rewrite <- app_assoc. reflexivity. }
  assert (Hlen : wcslen value = (length a + length b + 3)%nat).
  { rewrite Hvalue.
    rewrite (wcslen_app_nonzero [91]) by (repeat constructor; discriminate).
    rewrite (wcslen_app_nonzero a) by exact Ha.
    change (44 :: b ++ [93; 0]) with ([44] ++ b ++ [93; 0]).
    rewrite (wcslen_app_nonzero [44]) by (repeat constructor; discriminate).
    rewrite (wcslen_app_nonzero b) by exact Hb.
    simpl. lia. }
  unfold Ranges.get_range. cbv zeta. rewrite Hlen.
  assert (Hfirst : Ranges.char_at value 0 = 91) by reflexivity.
  assert (Hlast : Ranges.char_at value (length a + length b + 3 - 1) = 93).
  { unfold Ranges.char_at. rewrite Hvalue.
    rewrite lookup_app_r by (simpl; lia).
    rewrite lookup_app_r by (simpl; lia).
    simpl length.
    replace (length a + length b + 3 - 1 - 1 - length a)%nat
      with (S (length b)) by lia.
    simpl. rewrite lookup_app_r by lia.
    rewrite Nat.sub_diag. reflexivity. }
  rewrite Hfirst, Hlast.
  change (negb (91 =? 91)) with false. change (negb (93 =? 93)) with false.
  rewrite !orb_false_r.
  destruct (Nat.ltb_spec (length a + length b + 3) 5) as [Hshort|Hlong].
  { destruct (Nat.ltb_spec (length a + length b) 2); [reflexivity|lia]. }
  destruct (Nat.ltb_spec (length a + length b) 2); [lia|].
  assert (Hfind : std_find (take (length a + length b + 3) value) 44
                  = S (length a)).
  { rewrite Hvalue.
    replace ([91] ++ a ++ 44 :: b ++ [93; 0])
      with (([91] ++ a ++ 44 :: b ++ [93]) ++ [0])
      by (rewrite <- !app_assoc; simpl; rewrite <- !app_assoc; reflexivity).
    rewrite take_app_length'
      by (simpl; rewrite !length_app; simpl; rewrite length_app; simpl; lia).
    simpl. rewrite std_find_app_absent by exact Hcomma.
    simpl. lia. }
  rewrite Hfind.
  destruct (Nat.ltb_spec (S (length a) + 1) (length a + length b + 3));
    [|lia].
  simpl negb. cbv iota.
  assert (Hlow : string_at (<[S (length a) := 0]> value) 1 = a).
  { rewrite Hvalue.
    change ([91] ++ a ++ 44 :: b ++ [93; 0])
      with (91 :: (a ++ 44 :: b ++ [93; 0])).
    simpl. rewrite insert_app_r_alt by lia. rewrite Nat.sub_diag. simpl.
    apply (string_at_app [91] a (b ++ [93; 0]) Ha). }
  rewrite Hlow.
  destruct (as_integral a) as [low|e]; [|reflexivity].
  rewrite bind_Ok.
  assert (Hhigh : string_at
                    (<[(length a + length b + 3 - 1)%nat := 0]>
                       (<[S (length a) := 0]> value))
                    (S (length a) + 1) = b).
  { set (p := (S (length a) + 1)%nat).
    assert (Hp : p = length (91 :: a ++ [0]))
      by (subst p; simpl; rewrite length_app; simpl; lia).
    clearbody p.
    rewrite Hvalue.
    change ([91] ++ a ++ 44 :: b ++ [93; 0])
      with (91 :: (a ++ 44 :: b ++ [93; 0])).
    simpl. rewrite insert_app_r_alt by lia. rewrite Nat.sub_diag. simpl.
    replace (length a + length b + 3 - 1)%nat
      with (S (length a + S (length b))) by lia.
    simpl. rewrite insert_app_r_alt by lia.
    replace (length a + S (length b) - length a)%nat with (S (length b)) by lia.
    simpl. rewrite insert_app_r_alt by lia. rewrite Nat.sub_diag. simpl.
    replace (91 :: a ++ 0 :: b ++ [0; 0])
      with ((91 :: a ++ [0]) ++ b ++ 0 :: [0])
      by (simpl; rewrite <- app_assoc; reflexivity).
    rewrite Hp. apply string_at_app, Hb. }
  rewrite Hhigh. reflexivity.
Qed.

Lemma get_range_Ok value vars vars' :
  Forall (fun c => c <> 0) value ->
  Ranges.get_range as_integral (c_str value) _out_low _out_high vars
    = Ok vars' ->
  exists a b, value = 91 :: a ++ 44 :: b ++ [93] /\ 44 ∉ a.
Proof.
  intros Hvalue. unfold Ranges.get_range. cbv zeta.
  rewrite (wcslen_c_str_nonzero value Hvalue).
  destruct (Nat.ltb_spec (length value) 5) as [|Hlong]; [discriminate|].
  destruct (Z.eqb_spec (Ranges.char_at (c_str value) 0) 91) as [Hfirst|];
    [|discriminate].
  destruct (Z.eqb_spec
              (Ranges.char_at (c_str value) (length value - 1)) 93)
    as [Hlast|]; [|discriminate].
  simpl orb. cbv iota.
  assert (Htake : take (length value) (c_str value) = value)
    by (unfold c_str; apply take_app_length).
  rewrite Htake.
  destruct (Nat.ltb_spec (std_find value 44 + 1) (length value))
    as [Hcomma|]; [|discriminate].
  intros _.
  destruct value as [|c tl]; [simpl in Hlong; lia|].
  unfold Ranges.char_at, c_str in Hfirst, Hlast.
  simpl in Hfirst. subst c.
  simpl in Hcomma.
  destruct (std_find_split tl 44) as [Hsplit Hnot]; [lia|].
  set (k := std_find tl 44) in *.
  assert (Hrest : drop (S k) tl <> []).
  { intros Hnil. apply (f_equal length) in Hnil.
    rewrite length_drop in Hnil. simpl in Hnil. lia. }
  destruct (last_split (drop (S k) tl) 93 Hrest) as (b & Hb).
  { rewrite length_drop, lookup_drop.
    rewrite lookup_app_l in Hlast by (simpl; lia).
    simpl length in Hlast.
    replace (S (length tl) - 1)%nat with (length tl) in Hlast by lia.
    destruct (length tl) as [|n] eqn:Hn; [lia|].
    simpl in Hlast.
    replace (S k + (S n - S k - 1))%nat with n by lia.
    destruct (tl !! n) as [x|] eqn:Hx; simpl in Hlast; congruence. }
  exists (take k tl), b. split; [|exact Hnot].
  rewrite <- Hb. f_equal. exact Hsplit.
Qed.

Lemma get_range_writes value vars vars' :
  Ranges.get_range as_integral value _out_low _out_high vars = Ok vars' ->
  exists text_low text_high low high,
    as_integral text_low = Ok low /\
    as_integral text_high = Ok high /\
    vars' = Ranges.write _out_high high (Ranges.write _out_low low vars) /\
    Ranges.read _out_low vars' <= Ranges.read _out_high vars'.
Proof.
  unfold Ranges.get_range. cbv zeta.
  destruct (_ || _ || _); [discriminate|].
  destruct (negb _); [discriminate|].
  intros H.
  apply bind_Ok_inv in H as (low & Hlow & H).
  apply bind_Ok_inv in H as (high & Hhigh & H).
  destruct (Z.ltb_spec
              (Ranges.read _out_high
                 (Ranges.write _out_high high
                    (Ranges.write _out_low low vars)))
              (Ranges.read _out_low
                 (Ranges.write _out_high high
                    (Ranges.write _out_low low vars))))
    as [|Hle]; [discriminate|].
  injection H as <-. eauto 10.
Qed.

(** X9.  [get_range] accepts exactly the values of the form [[a,b]] with
    [a] the text before the first comma.  For such a value of fewer than
    five characters it throws; otherwise it converts [a], assigns it to
    [_out_low], converts [b], assigns it to [_out_high], and throws when
    the second variable then reads less than the first. *)
Theorem X9_get_range :
  (forall a b vars,
     Forall (fun c => c <> 0) a ->
     Forall (fun c => c <> 0) b ->
     44 ∉ a ->
     Ranges.get_range as_integral (c_str (91 :: a ++ 44 :: b ++ [93]))
       _out_low _out_high vars
     = if (length a + length b <? 2)%nat
       then Throw (invalid_argument "range value [###,###]")
       else
         low ← as_integral a;
         high ← as_integral b;
         let vars := Ranges.write _out_high high
                       (Ranges.write _out_low low vars) in
         if Ranges.read _out_high vars <? Ranges.read _out_low vars
         then Throw (invalid_argument "range value [###,###]")
         else Ok vars) /\
  (forall value vars vars',
     Forall (fun c => c <> 0) value ->
     Ranges.get_range as_integral (c_str value) _out_low _out_high vars
       = Ok vars' ->
     exists a b, value = 91 :: a ++ 44 :: b ++ [93] /\ 44 ∉ a).
Proof.
  split.
  - exact get_range_brackets.
  - exact get_range_Ok.
Qed.

End RangeProperties.

Lemma X9_get_range_witness :
  Ranges.get_range as_integral_unsigned_long (c_str (L "[16,4096]"))
    Ranges.first_ref Ranges.second_ref (0, 0) = Ok (16, 4096).
Proof.
  destruct (X9_get_range as_integral_unsigned_long
              Ranges.first_ref Ranges.second_ref) as [Hvalue _].
  change (L "[16,4096]") with (91 :: L "16" ++ 44 :: L "4096" ++ [93]).
  rewrite (Hvalue (L "16") (L "4096") (0, 0)).
  - reflexivity.
  - repeat constructor; discriminate.
  - repeat constructor; discriminate.
  - intros Hin. vm_compute in Hin.
    repeat (apply elem_of_cons in Hin as [Hin|Hin]; [discriminate|]).
    apply elem_of_nil in Hin. exact Hin.
Defined.

(** * The buffer size *)

Section BufferProperties.

Context {E : Externals}.
Variable uniform_int : Z -> Z -> Z.
Hypothesis uniform_int_range :
  forall low high, low <= high -> low <= uniform_int low high <= high.

Lemma set_buffer_Ok args s r args' r' :
  Ranges.set_buffer args s r = Ok (args', r') ->
  Ranges.buffersize_high r = 0 ->
  0 < Ranges.buffersize_low r' <= MAXULONG /\
  (Ranges.buffersize_high r' = 0 \/
   Ranges.buffersize_low r' <= Ranges.buffersize_high r' <= MAXULONG).
Proof.
  unfold Ranges.set_buffer. intros H Hhigh.
  apply bind_Ok_inv in H as ([args0 found] & Hfind & H).
  destruct found as [[i value]|].
  - destruct (negb _); [discriminate|].
    apply bind_Ok_inv in H as (r1 & Hr1 & H).
    destruct (Z.eqb_spec 0 (Ranges.buffersize_low r1)) as [|Hnz];
      [discriminate|].
    injection H as _ <-.
    destruct (Ranges.char_at value 0 =? 91).
    + apply get_range_writes in Hr1
        as (tl & th & low & high & Hlow & Hhi & -> & Hle).
      apply as_integral_unsigned_long_range in Hlow, Hhi.
      simpl in *. split; [lia|right; lia].
    + apply bind_Ok_inv in Hr1 as (v & Hv & Hr1). injection Hr1 as <-.
      apply as_integral_unsigned_long_range in Hv.
      simpl in *. split; [lia|left; exact Hhigh].
  - injection H as _ <-. simpl.
    unfold Ranges.DefaultBufferSize, MAXULONG. split; [lia|left; reflexivity].
Qed.

(** X10.  After [set_buffer], called with [buffersize_high] at its initial
    zero, every size [GetBufferSize] returns is at least one and at most
    what [GetMaxBufferSize] returns, which fits an [unsigned long]: a
    single value or the default is returned as it is, a range gives a draw
    between its bounds. *)
Theorem X10_buffer_sizes args s r args' r' :
  Ranges.buffersize_high r = 0 ->
  Ranges.set_buffer args s r = Ok (args', r') ->
  1 <= Ranges.GetBufferSize uniform_int r' <= Ranges.GetMaxBufferSize r' /\
  Ranges.GetMaxBufferSize r' <= MAXULONG /\
  (Ranges.buffersize_high r' = 0 ->
   Ranges.GetBufferSize uniform_int r' = Ranges.buffersize_low r').
Proof.
  intros Hhigh Hset.
  destruct (set_buffer_Ok _ _ _ _ _ Hset Hhigh) as (Hlow & Hrange).
  unfold Ranges.GetBufferSize, Ranges.GetMaxBufferSize.
  rewrite (Z.eqb_sym 0).
  destruct (Z.eqb_spec (Ranges.buffersize_high r') 0) as [Hz|Hnz].
  - split; [lia|]. split; [lia|reflexivity].
  - destruct Hrange as [|Hrange]; [contradiction|].
    pose proof (uniform_int_range _ _ (proj1 Hrange)).
    split; [lia|]. split; [lia|]. intros Hz. contradiction.
Qed.

End BufferProperties.

Lemma X10_buffer_sizes_witness :
  exists r',
    Ranges.set_buffer buffer_range throttled_client (Ranges.initial_ranges 0)
      = Ok ([], r') /\
    Ranges.GetMaxBufferSize r' = 4096 /\
    1 <= Ranges.GetBufferSize (fun low _ => low) r' <= 4096.
Proof.
  destruct (Ranges.set_buffer buffer_range throttled_client
              (Ranges.initial_ranges 0)) as [[args' r']|e] eqn:Hset;
    [|vm_compute in Hset; discriminate Hset].
  assert (Hargs : args' = []) by (vm_compute in Hset; congruence).
  subst args'. exists r'. split; [reflexivity|].
  destruct (X10_buffer_sizes (fun low _ => low)
              (fun low high Hle => conj (Z.le_refl low) Hle)
              buffer_range throttled_client (Ranges.initial_ranges 0) [] r'
              eq_refl Hset) as (Hsize & _).
  assert (Hmax : Ranges.GetMaxBufferSize r' = 4096)
    by (vm_compute in Hset; injection Hset as <-; reflexivity).
  rewrite Hmax in Hsize. split; [exact Hmax|exact Hsize].
Defined.

(** * The rate limit *)

Section RateLimitProperties.

Context {E : Externals}.
Variable stoll : list Z -> Z -> result (Z * nat).
Variable uniform_int : Z -> Z -> Z.

Lemma ratelimit_value_Ok value r r' :
  (if Ranges.char_at value 0 =? 91
   then Ranges.get_range (Ranges.as_integral_long_long stoll) (c_str value)
          Ranges.ratelimit_low_ref Ranges.ratelimit_low_ref r
   else
     v ← Ranges.as_integral_long_long stoll value;
     Ok (Ranges.write Ranges.ratelimit_low_ref v r)) = Ok r' ->
  exists v, r' = Ranges.write Ranges.ratelimit_low_ref v r.
Proof.
  destruct (_ =? _).
  - intros H. apply get_range_writes in H
      as (tl & th & low & high & _ & _ & -> & _).
    exists high. reflexivity.
  - intros H. apply bind_Ok_inv in H as (v & _ & H). injection H as <-.
    exists v. reflexivity.
Qed.

Lemma set_ratelimit_Ok args s r args' r' :
  Ranges.set_ratelimit stoll args s r = Ok (args', r') ->
  Ranges.ratelimit_high r' = Ranges.ratelimit_high r.
Proof.
  unfold Ranges.set_ratelimit. intros H.
  apply bind_Ok_inv in H as ([args0 found] & _ & H).
  apply bind_Ok_inv in H as ([args1 r1] & Hrate & H).
  assert (Hr1 : Ranges.ratelimit_high r1 = Ranges.ratelimit_high r).
  { destruct found as [[i value]|]; [|injection Hrate as _ <-; reflexivity].
    destruct (negb _); [discriminate|].
    apply bind_Ok_inv in Hrate as (r2 & Hr2 & Hrate).
    destruct (0 =? _); [discriminate|]. injection Hrate as _ <-.
    apply ratelimit_value_Ok in Hr2 as (v & ->). reflexivity. }
  apply bind_Ok_inv in H as ([args2 found_period] & _ & H).
  destruct found_period as [[i value]|]; [|injection H as _ <-; exact Hr1].
  destruct (negb _); [discriminate|].
  destruct (0 =? _); [discriminate|].
  apply bind_Ok_inv in H as (v & _ & H). injection H as _ <-. exact Hr1.
Qed.

(** X11.  [set_ratelimit] binds both reference parameters of [get_range]
    to [ratelimit_low]: for a range [[a,b]] it stores the upper bound [b]
    in [ratelimit_low], whatever [a] converts to, and never throws for
    [b] smaller than [a].  It never writes [ratelimit_high], so with
    [ratelimit_high] at its initial zero [GetTcpBytesPerSecond] returns
    [ratelimit_low] and makes no draw. *)
Theorem X11_ratelimit_range_is_its_upper_bound :
  (forall a b r,
     Forall (fun c => c <> 0) a ->
     Forall (fun c => c <> 0) b ->
     44 ∉ a ->
     (2 <= length a + length b)%nat ->
     Ranges.get_range (Ranges.as_integral_long_long stoll)
       (c_str (91 :: a ++ 44 :: b ++ [93]))
       Ranges.ratelimit_low_ref Ranges.ratelimit_low_ref r
     = (low ← Ranges.as_integral_long_long stoll a;
        high ← Ranges.as_integral_long_long stoll b;
        Ok (Ranges.write Ranges.ratelimit_low_ref high r))) /\
  (forall args s r args' r',
     Ranges.set_ratelimit stoll args s r = Ok (args', r') ->
     Ranges.ratelimit_high r' = Ranges.ratelimit_high r /\
     (Ranges.ratelimit_high r = 0 ->
      Ranges.GetTcpBytesPerSecond uniform_int r' = Ranges.ratelimit_low r')).
Proof.
  split.
  - intros a b r Ha Hb Hcomma Hlong.
    rewrite get_range_brackets by assumption.
    destruct (Nat.ltb_spec (length a + length b) 2); [lia|].
    destruct (Ranges.as_integral_long_long stoll a) as [low|e];
      [|reflexivity].
    destruct (Ranges.as_integral_long_long stoll b) as [high|e];
      [|reflexivity].
    rewrite !bind_Ok. cbv zeta.
    change (Ranges.read Ranges.ratelimit_low_ref
              (Ranges.write Ranges.ratelimit_low_ref high
                 (Ranges.write Ranges.ratelimit_low_ref low r))) with high.
    rewrite Z.ltb_irrefl. reflexivity.
  - intros args s r args' r' Hset.
    pose proof (set_ratelimit_Ok _ _ _ _ _ Hset) as Hhigh.
    split; [exact Hhigh|]. intros Hz.
    unfold Ranges.GetTcpBytesPerSecond. rewrite Hhigh, Hz. reflexivity.
Qed.

End RateLimitProperties.

Lemma X11_ratelimit_range_is_its_upper_bound_witness :
  exists r',
    Ranges.set_ratelimit reference_stoll inverted_ratelimit throttled_client
      (Ranges.initial_ranges 0) = Ok ([], r') /\
    Ranges.ratelimit_low r' = 1 /\
    Ranges.ratelimit_high r' = 0 /\
    Ranges.GetTcpBytesPerSecond (fun low _ => low) r' = 1.
Proof.
  destruct (Ranges.set_ratelimit reference_stoll inverted_ratelimit
              throttled_client (Ranges.initial_ranges 0))
    as [[args' r']|e] eqn:Hset; [|vm_compute in Hset; discriminate Hset].
  assert (Hargs : args' = []) by (vm_compute in Hset; congruence).
  subst args'. exists r'. split; [reflexivity|].
  destruct (X11_ratelimit_range_is_its_upper_bound reference_stoll
              (fun low _ => low)) as [_ Hrate].
  destruct (Hrate _ _ _ _ _ Hset) as [Hhigh Hget].
  assert (Hlow : Ranges.ratelimit_low r' = 1)
    by (vm_compute in Hset; injection Hset as <-; reflexivity).
  split; [exact Hlow|]. split; [rewrite Hhigh; reflexivity|].
  rewrite Hget by reflexivity. exact Hlow.
Defined.

(** * The local ports *)

Section LocalPortProperties.

Context {E : Externals}.

Tactic Notation "step" hyp(H) "as" simple_intropattern(pat) :=
  cbv beta iota in H; apply bind_Ok_inv in H as pat.

Lemma set_localport_Ok args s args' s' :
  Ranges.set_localport args s = Ok (args', s') ->
  LocalPortHigh s = 0 ->
  s' = s \/
  exists low,
    0 < low <= MAXWORD /\
    (s' = with_LocalPortLow low s \/
     exists high,
       low <= high <= MAXWORD /\
       s' = with_LocalPortHigh high (with_LocalPortLow low s)).
Proof.
  unfold Ranges.set_localport. intros H Hhigh.
  apply bind_Ok_inv in H as ([args0 found] & _ & H).
  destruct found as [[i value]|]; [|injection H as _ <-; auto].
  apply bind_Ok_inv in H as (s1 & Hs1 & H).
  destruct (Z.eqb_spec 0 (LocalPortLow s1)) as [|Hnz]; [discriminate|].
  injection H as _ <-. right.
  destruct (Ranges.char_at value 0 =? 91).
  - apply get_range_writes in Hs1
      as (tl & th & low & high & Hlow & Hhi & -> & Hle).
    apply as_integral_unsigned_short_range in Hlow, Hhi.
    exists low. simpl in Hnz, Hle. split; [lia|].
    right. exists high. split; [lia|reflexivity].
  - apply bind_Ok_inv in Hs1 as (v & Hv & Hs1). injection Hs1 as <-.
    apply as_integral_unsigned_short_range in Hv.
    exists v. simpl in Hnz. split; [lia|]. left. reflexivity.
Qed.

Lemma Startup_functions_ports args s FrameSizeBytes s' :
  Startup_functions args s FrameSizeBytes = Ok s' ->
  LocalPortLow s <> 0 ->
  IsListening s' = false /\
  ConnectionLimit s'
    <= (if LocalPortHigh s =? 0 then 1
        else (LocalPortHigh s - LocalPortLow s + 1) mod 65536).
Proof.
  intros H Hlow.
  pose proof (Startup_functions_Ok _ _ _ _ H)
    as ((_ & Hlisten & _ & Hlimit & _) & _).
  unfold Startup_functions in H.
  step H as ([args1 s1] & Htime & H).
  assert (Hs1 : ListenAddresses s1 = ListenAddresses s /\
                LocalPortLow s1 = LocalPortLow s /\
                LocalPortHigh s1 = LocalPortHigh s /\
                ConnectionLimit s1 = ConnectionLimit s)
    by (apply set_timelimit_Ok in Htime as [->|(v & -> & _)];
        split_and!; reflexivity).
  destruct Hs1 as (Hl1 & Hlow1 & Hhigh1 & Hc1).
  step H as (u1 & _ & H).
  step H as (u2 & Hboth & H).
  step H as (u3 & Hports & H).
  clear H. rewrite Hl1, Hlow1 in Hboth. rewrite Hlow1, Hhigh1, Hc1 in Hports.
  apply throw_if_Ok in Hboth.
  destruct (Z.eqb_spec (LocalPortLow s) 0) as [|_]; [contradiction|].
  simpl negb in Hboth, Hports. cbv iota in Hports.
  rewrite andb_true_r in Hboth. apply Nat.ltb_ge in Hboth.
  apply throw_if_Ok in Hports. apply Z.ltb_ge in Hports.
  split.
  - unfold IsListening. rewrite Hlisten.
    destruct (ListenAddresses s); [|simpl in Hboth; lia].
    rewrite bool_decide_eq_true_2 by reflexivity. reflexivity.
  - rewrite Hlimit. exact Hports.
Qed.

(** X12.  [set_localport], called with [LocalPortHigh] at zero, leaves the
    settings as they are or assigns a port between 1 and 65535, alone or
    as the lower bound of a range that ends at or above it.  When it
    assigned one, the number of ports [Startup] computes in an
    [unsigned short] is the size of the range, and [Startup] goes on only
    for a client with no more connections than that. *)
Theorem X12_local_ports args s args' s' :
  LocalPortHigh s = 0 ->
  Ranges.set_localport args s = Ok (args', s') ->
  s' = s \/
  (0 < LocalPortLow s' <= MAXWORD /\
   (LocalPortHigh s' = 0 \/
    LocalPortLow s' <= LocalPortHigh s' <= MAXWORD) /\
   forall rest FrameSizeBytes s'',
     Startup_functions rest s' FrameSizeBytes = Ok s'' ->
     IsListening s'' = false /\
     ConnectionLimit s''
       <= (if LocalPortHigh s' =? 0 then 1
           else LocalPortHigh s' - LocalPortLow s' + 1)).
Proof.
  intros Hhigh Hset.
  destruct (set_localport_Ok _ _ _ _ Hset Hhigh)
    as [->|(low & Hlow & Hcase)]; [auto|].
  right.
  assert (Hs' : LocalPortLow s' = low /\
                (LocalPortHigh s' = 0 \/
                 low <= LocalPortHigh s' <= MAXWORD)).
  { destruct Hcase as [->|(high & Hrange & ->)].
    - split; [reflexivity|]. left. exact Hhigh.
    - split; [reflexivity|]. right. exact Hrange. }
  destruct Hs' as [Hl Hh]. rewrite Hl.
  split; [exact Hlow|]. split; [exact Hh|].
  intros rest F s'' Hrun.
  destruct (Startup_functions_ports _ _ _ _ Hrun) as [Hclient Hports];
    [rewrite Hl; lia|].
  split; [exact Hclient|].
  rewrite Hl in Hports.
  destruct (Z.eqb_spec (LocalPortHigh s') 0) as [|Hnz]; [exact Hports|].
  destruct Hh as [|Hh]; [contradiction|].
  rewrite Z.mod_small in Hports by (unfold MAXWORD in *; lia).
  exact Hports.
Qed.

End LocalPortProperties.

Lemma X12_local_ports_witness :
  exists s',
    Ranges.set_localport local_port_range throttled_client = Ok ([], s') /\
    LocalPortLow s' = 50000 /\ LocalPortHigh s' = 50007.
Proof.
  destruct (Ranges.set_localport local_port_range throttled_client)
    as [[args' s']|e] eqn:Hset; [|vm_compute in Hset; discriminate Hset].
  assert (Hargs : args' = []) by (vm_compute in Hset; congruence).
  subst args'. exists s'. split; [reflexivity|].
  destruct (X12_local_ports local_port_range throttled_client [] s'
              eq_refl Hset) as [Hsame|(Hlow & Hhigh & _)].
  - vm_compute in Hset. injection Hset as <-. discriminate Hsame.
  - vm_compute in Hset. injection Hset as <-. split; reflexivity.
Defined.

(** * ctsSimpleAccept *)

(** ** The choice of a listening socket *)

Lemma least_used_spec (l : list Z) :
  forall rest pre lowest position,
    l = pre ++ rest ->
    l !! position = Some lowest ->
    (forall j x, (j < length pre)%nat -> l !! j = Some x -> lowest <= x) ->
    (forall j x, (j < position)%nat -> l !! j = Some x -> lowest < x) ->
    let p := SimpleAccept.least_used rest lowest (length pre) position in
    exists c,
      l !! p = Some c /\
      (forall j x, l !! j = Some x -> c <= x) /\
      (forall j x, (j < p)%nat -> l !! j = Some x -> c < x).
Proof.
  induction rest as [|r rest IH]; intros pre lowest position Hl Hpos Hle Hlt.
  - simpl. exists lowest. split; [exact Hpos|]. split; [|exact Hlt].
    intros j x Hj. apply (Hle j x); [|exact Hj].
    apply lookup_lt_Some in Hj. rewrite Hl, length_app in Hj.
    simpl in Hj. lia.
  - assert (Hl' : l = (pre ++ [r]) ++ rest)
      by (rewrite <- app_assoc; exact Hl).
    assert (Hr : l !! length pre = Some r)
      by (rewrite Hl, lookup_app_r, Nat.sub_diag by lia; reflexivity).
    assert (Hlen : length (pre ++ [r]) = S (length pre))
      by (rewrite length_app; simpl; lia).
    simpl. destruct (Z.ltb_spec r lowest) as [Hless|Hmore].
    + rewrite <- Hlen. apply IH; [exact Hl'|exact Hr| |].
      * intros j x Hj Hx. rewrite Hlen in Hj.
        destruct (decide (j = length pre)) as [->|Hne].
        -- rewrite Hr in Hx. injection Hx as <-. lia.
        -- assert (lowest <= x) by (apply (Hle j x); [lia|exact Hx]). lia.
      * intros j x Hj Hx.
        assert (lowest <= x) by (apply (Hle j x); [lia|exact Hx]). lia.
    + rewrite <- Hlen. apply IH; [exact Hl'|exact Hpos| |exact Hlt].
      intros j x Hj Hx. rewrite Hlen in Hj.
      destruct (decide (j = length pre)) as [->|Hne].
      * rewrite Hr in Hx. injection Hx as <-. lia.
      * apply (Hle j x); [lia|exact Hx].
Qed.

Lemma choose_listener_spec (refcounts : list Z) :
  refcounts <> [] ->
  let p := SimpleAccept.choose_listener refcounts in
  (p < length refcounts)%nat /\
  exists c,
    refcounts !! p = Some c /\
    (forall j x, refcounts !! j = Some x -> c <= x) /\
    (forall j x, (j < p)%nat -> refcounts !! j = Some x -> c < x).
Proof.
  intros Hne p.
  destruct (refcounts !! O) as [r0|] eqn:H0;
    [|destruct refcounts; [congruence|discriminate]].
  destruct (least_used_spec refcounts refcounts [] r0 O) as (c & Hc & Hmin);
    [reflexivity|exact H0|simpl; intros; lia|intros; lia|].
  assert (Hp : SimpleAccept.least_used refcounts r0 (length (@nil Z)) 0 = p).
  { subst p. unfold SimpleAccept.choose_listener. rewrite H0. reflexivity. }
  rewrite Hp in Hc, Hmin.
  split; [eapply lookup_lt_Some; exact Hc|].
  exists c. split; [exact Hc|exact Hmin].
Qed.

(** X13.  Among the counts of a vector that is not empty,
    [ThreadPoolWorker] chooses a valid position that holds the lowest
    count, and the first such position. *)
Theorem X13_least_used_listener (refcounts : list Z) :
  refcounts <> [] ->
  let p := SimpleAccept.choose_listener refcounts in
  (p < length refcounts)%nat /\
  exists c,
    refcounts !! p = Some c /\
    (forall j x, refcounts !! j = Some x -> c <= x) /\
    (forall j x, (j < p)%nat -> refcounts !! j = Some x -> c < x).
Proof. exact (choose_listener_spec refcounts). Qed.

Lemma X13_least_used_listener_witness :
  SimpleAccept.busy_listeners <> [] /\
  (SimpleAccept.choose_listener SimpleAccept.busy_listeners
   < length SimpleAccept.busy_listeners)%nat /\
  SimpleAccept.choose_listener SimpleAccept.busy_listeners = 1%nat.
Proof.
  assert (Hne : SimpleAccept.busy_listeners <> []) by discriminate.
  destruct (X13_least_used_listener SimpleAccept.busy_listeners Hne)
    as (Hp & _).
  split; [exact Hne|]. split; [exact Hp|reflexivity].
Defined.

(** ** The constructor *)

Lemma closesocket_Permutation h open :
  h ∈ open -> open ≡ₚ h :: SimpleAccept.closesocket h open.
Proof.
  induction open as [|h' open IH]; intros Hin.
  - apply elem_of_nil in Hin. destruct Hin.
  - simpl. destruct (decide (h' = h)) as [->|Hne]; [reflexivity|].
    apply elem_of_cons in Hin as [Hin|Hin]; [congruence|].
    rewrite (IH Hin) at 1. apply Permutation_swap.
Qed.

Lemma closesocket_last h open :
  SimpleAccept.closesocket h (open ++ [h]) ≡ₚ open.
Proof.
  apply (Permutation_cons_inv (a := h)).
  rewrite <- closesocket_Permutation
    by (apply elem_of_app; right; apply list_elem_of_here).
  rewrite Permutation_app_comm. reflexivity.
Qed.

Lemma destroy_Permutation listening : forall now open,
  now ≡ₚ listening ++ open ->
  SimpleAccept.destroy listening now ≡ₚ open.
Proof.
  induction listening as [|h listening IH]; intros now open Hnow.
  - exact Hnow.
  - unfold SimpleAccept.destroy. simpl foldl. apply IH.
    apply (Permutation_cons_inv (a := h)).
    rewrite <- closesocket_Permutation; [exact Hnow|].
    rewrite Hnow. apply list_elem_of_here.
Qed.

Lemma listen_to_spec calls open listening :
  match SimpleAccept.listen_to calls open listening with
  | (open', listening', None) =>
    exists h, SimpleAccept.WSASocket calls = Some h /\
      open' = open ++ [h] /\ listening' = listening ++ [h]
  | (open', listening', Some e) => open' ≡ₚ open /\ listening' = listening
  end.
Proof.
  unfold SimpleAccept.listen_to.
  destruct (SimpleAccept.WSASocket calls) as [h|]; [|split; reflexivity].
  destruct (negb _); [split; [apply closesocket_last|reflexivity]|].
  destruct (negb _); [split; [apply closesocket_last|reflexivity]|].
  destruct (SimpleAccept.bind_error calls);
    [split; [apply closesocket_last|reflexivity]|].
  destruct (SimpleAccept.listen_error calls);
    [split; [apply closesocket_last|reflexivity]|].
  destruct (SimpleAccept.push_back_throws calls);
    [split; [apply closesocket_last|reflexivity]|].
  exists h. auto.
Qed.

Lemma listen_loop_spec addresses : forall open0 open listening,
  open ≡ₚ listening ++ open0 ->
  match SimpleAccept.listen_loop addresses open listening with
  | (open', listening', None) =>
    exists handles,
      Forall2 (fun calls h => SimpleAccept.WSASocket calls = Some h)
        addresses handles /\
      listening' = listening ++ handles /\ open' = open ++ handles
  | (open', listening', Some e) => open' ≡ₚ listening' ++ open0
  end.
Proof.
  induction addresses as [|calls rest IH]; intros open0 open listening Hopen.
  - simpl. exists []. rewrite !app_nil_r. auto.
  - simpl. pose proof (listen_to_spec calls open listening) as Hone.
    destruct (SimpleAccept.listen_to calls open listening)
      as [[open1 listening1] [e|]].
    + destruct Hone as [Hperm ->]. rewrite Hperm. exact Hopen.
    + destruct Hone as (h & Hh & -> & ->).
      assert (Hopen1 : open ++ [h] ≡ₚ (listening ++ [h]) ++ open0).
      { rewrite Hopen, <- !app_assoc.
        apply Permutation_app_head, Permutation_app_comm. }
      specialize (IH open0 _ _ Hopen1).
      destruct (SimpleAccept.listen_loop rest (open ++ [h]) (listening ++ [h]))
        as [[open2 listening2] [e|]]; [exact IH|].
      destruct IH as (handles & Hall & -> & ->).
      exists (h :: handles). rewrite <- !app_assoc.
      split; [constructor; assumption|]. split; reflexivity.
Qed.

(** X14.  The constructor either returns with one listening socket for
    each of the addresses, all of them open, a count of zero for each and
    no socket waiting, or it throws with every socket it opened closed
    again; with no address it throws. *)
Theorem X14_constructor_keeps_or_closes addresses resize_throws open :
  match SimpleAccept.ctsSimpleAccept addresses resize_throws open with
  | (open', inr impl) =>
    addresses <> [] /\
    Forall2 (fun calls h => SimpleAccept.WSASocket calls = Some h)
      addresses (SimpleAccept.listening_sockets impl) /\
    open' = open ++ SimpleAccept.listening_sockets impl /\
    SimpleAccept.listening_sockets_refcount impl
      = replicate (length addresses) 0 /\
    SimpleAccept.accepting_sockets impl = []
  | (open', inl e) => open' ≡ₚ open
  end.
Proof.
  unfold SimpleAccept.ctsSimpleAccept.
  pose proof (listen_loop_spec addresses open open [] (reflexivity _)) as Hloop.
  destruct (SimpleAccept.listen_loop addresses open [])
    as [[open1 listening1] [e|]].
  - apply destroy_Permutation, Hloop.
  - destruct Hloop as (handles & Hall & -> & ->). simpl app.
    destruct (bool_decide_reflect (handles = [])) as [->|Hne].
    + unfold SimpleAccept.destroy. simpl. rewrite app_nil_r. reflexivity.
    + destruct resize_throws.
      * apply destroy_Permutation, Permutation_app_comm.
      * simpl. split_and!; auto.
        -- intros ->. inversion Hall. congruence.
        -- rewrite (Forall2_length _ _ _ Hall). reflexivity.
Qed.

(** ** The worker threads *)

Lemma wrapLONG_succ z :
  SimpleAccept.wrapLONG (SimpleAccept.wrapLONG z + 1)
  = SimpleAccept.wrapLONG (z + 1).
Proof.
  unfold SimpleAccept.wrapLONG. f_equal.
  replace ((z + 2147483648) mod 4294967296 - 2147483648 + 1 + 2147483648)
    with ((z + 2147483648) mod 4294967296 + 1) by lia.
  replace (z + 1 + 2147483648) with (z + 2147483648 + 1) by lia.
  apply Zplus_mod_idemp_l.
Qed.

Lemma wrapLONG_pred z :
  SimpleAccept.wrapLONG (SimpleAccept.wrapLONG z - 1)
  = SimpleAccept.wrapLONG (z - 1).
Proof.
  unfold SimpleAccept.wrapLONG. f_equal.
  replace ((z + 2147483648) mod 4294967296 - 2147483648 - 1 + 2147483648)
    with ((z + 2147483648) mod 4294967296 - 1) by lia.
  replace (z - 1 + 2147483648) with (z + 2147483648 - 1) by lia.
  apply Zminus_mod_idemp_l.
Qed.

Lemma accepting_on_app i ws1 ws2 :
  SimpleAccept.accepting_on i (ws1 ++ ws2)
  = SimpleAccept.accepting_on i ws1 + SimpleAccept.accepting_on i ws2.
Proof.
  induction ws1 as [|[s|s p] ws1 IH]; simpl; lia.
Qed.

Lemma accepting_on_nonneg i ws : 0 <= SimpleAccept.accepting_on i ws.
Proof.
  induction ws as [|[s|s p] ws IH]; simpl; [lia|lia|].
  destruct (decide (p = i)); lia.
Qed.

(** X15.  In every state of a functor, as much work is submitted and not
    started as there are sockets in [accepting_sockets]: a worker that
    starts finds a socket to take. *)
Theorem X15_a_worker_finds_a_socket impl a :
  SimpleAccept.accepting_sockets impl = [] ->
  SimpleAccept.reachable impl a ->
  SimpleAccept.submitted a
    = length (SimpleAccept.accepting_sockets (SimpleAccept.pimpl a)) /\
  (SimpleAccept.submitted a <> O ->
   exists rest socket,
     SimpleAccept.accepting_sockets (SimpleAccept.pimpl a) = rest ++ [socket]).
Proof.
  intros Hempty Hreach.
  assert (Hq : SimpleAccept.submitted a
               = length (SimpleAccept.accepting_sockets (SimpleAccept.pimpl a))).
  { induction Hreach as [|a a' _ IH Hstep].
    - simpl. rewrite Hempty. reflexivity.
    - destruct Hstep; simpl; try exact IH.
      + rewrite length_app. simpl. lia.
      + rewrite H0, length_app in IH. simpl in IH. lia. }
  split; [exact Hq|]. intros Hnz.
  destruct (SimpleAccept.accepting_sockets (SimpleAccept.pimpl a))
    as [|x l] eqn:Hl; [simpl in Hq; lia|].
  destruct (exists_last (l := x :: l)) as (rest & socket & Heq);
    [discriminate|].
  exists rest, socket. exact Heq.
Qed.

Lemma X15_a_worker_finds_a_socket_witness :
  exists a,
    SimpleAccept.reachable SimpleAccept.two_listeners a /\
    SimpleAccept.submitted a = 1%nat /\
    SimpleAccept.accepting_sockets (SimpleAccept.pimpl a) = [5%nat].
Proof.
  pose (a0 := {| SimpleAccept.pimpl := SimpleAccept.two_listeners;
                 SimpleAccept.submitted := 0;
                 SimpleAccept.workers := [] |}).
  assert (Hreach : SimpleAccept.reachable SimpleAccept.two_listeners
            (SimpleAccept.with_accepting a0
               (SimpleAccept.accepting_sockets (SimpleAccept.pimpl a0)
                  ++ [5%nat])
               (S (SimpleAccept.submitted a0)) (SimpleAccept.workers a0))).
  { eapply SimpleAccept.reachable_step;
      [apply SimpleAccept.reachable_constructed
      |apply SimpleAccept.step_call]. }
  destruct (X15_a_worker_finds_a_socket SimpleAccept.two_listeners _
              eq_refl Hreach) as [Hq _].
  eexists. split; [exact Hreach|]. split; [exact Hq|reflexivity].
Defined.

Lemma refcount_at_insert a p v ws i :
  (p < length (SimpleAccept.listening_sockets_refcount
                 (SimpleAccept.pimpl a)))%nat ->
  SimpleAccept.refcount_at
    (SimpleAccept.with_refcount a
       (<[p := v]> (SimpleAccept.listening_sockets_refcount
                      (SimpleAccept.pimpl a))) ws) i
  = if decide (i = p) then v else SimpleAccept.refcount_at a i.
Proof.
  intros Hp. unfold SimpleAccept.refcount_at. simpl.
  destruct (decide (i = p)) as [->|Hne].
  - rewrite list_lookup_insert_eq by exact Hp. reflexivity.
  - rewrite list_lookup_insert_ne by congruence. reflexivity.
Qed.

Lemma accepting_invariant n impl a :
  SimpleAccept.listening_sockets_refcount impl = replicate n 0 ->
  n <> O ->
  SimpleAccept.reachable impl a ->
  length (SimpleAccept.listening_sockets_refcount (SimpleAccept.pimpl a)) = n /\
  (forall socket p,
     SimpleAccept.InAccept socket p ∈ SimpleAccept.workers a -> (p < n)%nat) /\
  (forall i, (i < n)%nat ->
     SimpleAccept.refcount_at a i
     = SimpleAccept.wrapLONG
         (SimpleAccept.accepting_on i (SimpleAccept.workers a))).
Proof.
  intros Himpl Hn Hreach.
  induction Hreach as [|a a' _ (Hlen & Hvalid & Hcount) Hstep].
  - simpl. rewrite Himpl, length_replicate. split; [reflexivity|].
    split; [intros socket p Hin; apply elem_of_nil in Hin; destruct Hin|].
    intros i Hi. unfold SimpleAccept.refcount_at. simpl.
    rewrite Himpl, lookup_replicate_2 by exact Hi. reflexivity.
  - destruct Hstep as [a socket|a|a m rest socket Hs Hacc
                       |a ws1 socket ws2 Hws
                       |a ws1 socket ws2 observed Hws Hobs p
                       |a ws1 socket p ws2 Hws].
    + split; [exact Hlen|]. split; [exact Hvalid|exact Hcount].
    + split; [exact Hlen|]. split; [exact Hvalid|exact Hcount].
    + split; [exact Hlen|]. split.
      * intros s p Hin. simpl in Hin.
        apply elem_of_app in Hin as [Hin|Hin]; [eapply Hvalid, Hin|].
        apply list_elem_of_singleton in Hin. discriminate.
      * intros i Hi. simpl SimpleAccept.workers.
        rewrite accepting_on_app. simpl. rewrite Z.add_0_r.
        exact (Hcount i Hi).
    + split; [exact Hlen|]. rewrite Hws in Hvalid, Hcount. split.
      * intros s p Hin. simpl in Hin. apply (Hvalid s p).
        apply elem_of_app in Hin as [Hin|Hin]; apply elem_of_app;
          [left; exact Hin|right; apply list_elem_of_further, Hin].
      * intros i Hi. simpl SimpleAccept.workers.
        specialize (Hcount i Hi).
        rewrite accepting_on_app in Hcount. simpl in Hcount.
        rewrite accepting_on_app. exact Hcount.
    + assert (Hp : (p < n)%nat).
      { subst p. rewrite <- Hlen, <- Hobs.
        apply choose_listener_spec. intros ->. simpl in Hobs. lia. }
      split; [simpl; rewrite length_insert; exact Hlen|].
      rewrite Hws in Hvalid, Hcount. split.
      * intros s q Hin. simpl in Hin.
        apply elem_of_app in Hin as [Hin|Hin].
        -- apply (Hvalid s q), elem_of_app. left. exact Hin.
        -- apply elem_of_cons in Hin as [Hin|Hin].
           ++ injection Hin as _ ->. exact Hp.
           ++ apply (Hvalid s q), elem_of_app. right.
              apply list_elem_of_further, Hin.
      * intros i Hi. rewrite refcount_at_insert by lia.
        simpl SimpleAccept.workers.
        specialize (Hcount i Hi).
        rewrite accepting_on_app in Hcount. simpl in Hcount.
        rewrite accepting_on_app. simpl.
        destruct (decide (i = p)) as [->|Hne].
        -- rewrite decide_True by reflexivity.
           rewrite (Hcount), wrapLONG_succ. f_equal. lia.
        -- rewrite decide_False by congruence. rewrite Hcount. f_equal.
    + assert (Hp : (p < n)%nat).
      { apply (Hvalid socket p). rewrite Hws. apply elem_of_app. right.
        apply list_elem_of_here. }
      split; [simpl; rewrite length_insert; exact Hlen|].
      rewrite Hws in Hvalid, Hcount. split.
      * intros s q Hin. simpl in Hin. apply (Hvalid s q).
        apply elem_of_app in Hin as [Hin|Hin]; apply elem_of_app;
          [left; exact Hin|right; apply list_elem_of_further, Hin].
      * intros i Hi. rewrite refcount_at_insert by lia.
        simpl SimpleAccept.workers.
        specialize (Hcount i Hi).
        rewrite accepting_on_app in Hcount. simpl in Hcount.
        rewrite accepting_on_app.
        destruct (decide (i = p)) as [->|Hne].
        -- rewrite decide_True in Hcount by reflexivity.
           rewrite Hcount, wrapLONG_pred. f_equal. lia.
        -- rewrite decide_False in Hcount by congruence. exact Hcount.
Qed.

(** X16.  In every state of a functor constructed with [n] listening
    sockets, each count is the number of workers inside [accept] on that
    listening socket (as a [LONG]), every worker inside [accept] is at a
    valid position, and the vector of counts keeps its length: with no
    worker inside [accept] all counts are zero. *)
Theorem X16_counts_are_the_accepting_workers n impl a :
  SimpleAccept.listening_sockets_refcount impl = replicate n 0 ->
  n <> O ->
  SimpleAccept.reachable impl a ->
  length (SimpleAccept.listening_sockets_refcount (SimpleAccept.pimpl a)) = n /\
  (forall socket p,
     SimpleAccept.InAccept socket p ∈ SimpleAccept.workers a -> (p < n)%nat) /\
  (forall i, (i < n)%nat ->
     SimpleAccept.refcount_at a i
     = SimpleAccept.wrapLONG
         (SimpleAccept.accepting_on i (SimpleAccept.workers a))) /\
  ((forall socket p,
      SimpleAccept.InAccept socket p ∉ SimpleAccept.workers a) ->
   forall i, (i < n)%nat -> SimpleAccept.refcount_at a i = 0).
Proof.
  intros Himpl Hn Hreach.
  destruct (accepting_invariant n impl a Himpl Hn Hreach)
    as (Hlen & Hvalid & Hcount).
  split; [exact Hlen|]. split; [exact Hvalid|]. split; [exact Hcount|].
  intros Hnone i Hi. rewrite (Hcount i Hi).
  assert (Hz : SimpleAccept.accepting_on i (SimpleAccept.workers a) = 0).
  { clear -Hnone. induction (SimpleAccept.workers a) as [|[s|s p] ws IH].
    - reflexivity.
    - simpl. apply IH. intros s' p' Hin.
      apply (Hnone s' p'), list_elem_of_further, Hin.
    - destruct (Hnone s p). apply list_elem_of_here. }
  rewrite Hz. reflexivity.
Qed.

Lemma both_accepting_reachable :
  SimpleAccept.reachable SimpleAccept.two_listeners
    SimpleAccept.both_accepting.
Proof.
  pose (state := fun refcounts sockets n ws =>
          {| SimpleAccept.pimpl :=
               {| SimpleAccept.listening_sockets := [7%nat; 8%nat];
                  SimpleAccept.listening_sockets_refcount := refcounts;
                  SimpleAccept.accepting_sockets := sockets |};
             SimpleAccept.submitted := n;
             SimpleAccept.workers := ws |}).
  pose (a0 := state [0; 0] [] O []).
  pose (a1 := state [0; 0] [0%nat] 1%nat []).
  pose (a2 := state [0; 0] [0%nat; 1%nat] 2%nat []).
  pose (a3 := state [0; 0] [0%nat] 1%nat [SimpleAccept.Popped 1]).
  pose (a4 := state [0; 0] [] O
                [SimpleAccept.Popped 1; SimpleAccept.Popped 0]).
  pose (a5 := state [1; 0] [] O
                [SimpleAccept.InAccept 1 0; SimpleAccept.Popped 0]).
  apply (SimpleAccept.reachable_step _ a5);
    [|exact (SimpleAccept.step_accept a5 [SimpleAccept.InAccept 1 0]
               0%nat [] [1; 0] eq_refl eq_refl)].
  apply (SimpleAccept.reachable_step _ a4);
    [|exact (SimpleAccept.step_accept a4 [] 1%nat
               [SimpleAccept.Popped 0] [0; 0] eq_refl eq_refl)].
  apply (SimpleAccept.reachable_step _ a3);
    [|exact (SimpleAccept.step_pop a3 0%nat [] 0%nat eq_refl eq_refl)].
  apply (SimpleAccept.reachable_step _ a2);
    [|exact (SimpleAccept.step_pop a2 1%nat [0%nat] 1%nat eq_refl eq_refl)].
  apply (SimpleAccept.reachable_step _ a1);
    [|exact (SimpleAccept.step_call a1 1%nat)].
  apply (SimpleAccept.reachable_step _ a0);
    [|exact (SimpleAccept.step_call a0 0%nat)].
  exact (SimpleAccept.reachable_constructed SimpleAccept.two_listeners).
Qed.

Lemma X16_counts_are_the_accepting_workers_witness :
  SimpleAccept.reachable SimpleAccept.two_listeners
    SimpleAccept.both_accepting /\
  SimpleAccept.refcount_at SimpleAccept.both_accepting 0 = 1 /\
  SimpleAccept.refcount_at SimpleAccept.both_accepting 1 = 1.
Proof.
  destruct (X16_counts_are_the_accepting_workers 2
              SimpleAccept.two_listeners SimpleAccept.both_accepting
              eq_refl (Nat.neq_succ_0 1) both_accepting_reachable)
    as (_ & _ & Hcount & _).
  split; [exact both_accepting_reachable|].
  split; [rewrite (Hcount 0%nat) by lia|rewrite (Hcount 1%nat) by lia];
    reflexivity.
Defined.

(** * ctNetAdapterAddresses *)

(** The first adapter of a chain for which [pred] holds, with the chain
    from there on. *)
Lemma find_if_loop_spec pred id : forall chain turns,
  (length chain < turns)%nat ->
  NetAdapterAddresses.find_if_loop turns
    (NetAdapterAddresses.iterator_at id chain)
    NetAdapterAddresses.end_iterator pred
  = Ok (NetAdapterAddresses.iterator_at id
          (NetAdapterAddresses.from_first pred chain)).
Proof.
  induction chain as [|a chain IH]; intros turns Hturns.
  - destruct turns as [|turns]; [simpl in Hturns; lia|]. reflexivity.
  - destruct turns as [|turns]; [simpl in Hturns; lia|].
    simpl in Hturns.
    cbn [NetAdapterAddresses.find_if_loop].
    change (NetAdapterAddresses.not_equal
              (NetAdapterAddresses.iterator_at id (a :: chain))
              NetAdapterAddresses.end_iterator) with true.
    cbv iota.
    change (NetAdapterAddresses.dereference
              (NetAdapterAddresses.iterator_at id (a :: chain)))
      with (@Ok NetAdapterAddresses.IP_ADAPTER_ADDRESSES a).
    rewrite bind_Ok. cbn [NetAdapterAddresses.from_first].
    destruct (pred a); cbv iota.
    + reflexivity.
    + change (NetAdapterAddresses.preincrement
                (NetAdapterAddresses.iterator_at id (a :: chain)))
        with (Ok (NetAdapterAddresses.iterator_at id chain)).
      rewrite bind_Ok. apply IH. lia.
Qed.

Lemma from_first_spec pred chain :
  match NetAdapterAddresses.from_first pred chain with
  | [] => forall a, a ∈ chain -> pred a = false
  | a :: rest =>
    pred a = true /\
    exists before,
      chain = before ++ a :: rest /\
      forall b, b ∈ before -> pred b = false
  end.
Proof.
  induction chain as [|a chain IH]; simpl.
  - intros a Ha. apply elem_of_nil in Ha. destruct Ha.
  - destruct (pred a) eqn:Hp.
    + split; [exact Hp|]. exists []. split; [reflexivity|].
      intros b Hb. apply elem_of_nil in Hb. destruct Hb.
    + destruct (NetAdapterAddresses.from_first pred chain) as [|x rest].
      * intros b Hb. apply elem_of_cons in Hb as [->|Hb]; auto.
      * destruct IH as (Hx & before & -> & Hbefore).
        split; [exact Hx|]. exists (a :: before). split; [reflexivity|].
        intros b Hb. apply elem_of_cons in Hb as [->|Hb]; auto.
Qed.

Section CompartmentProperties.

Context {E : Externals}.

(** X17.  [std::find_if] from [begin()] to [end()] never throws and stops
    at the first adapter for which the predicate holds, or at the end of
    the chain.  So [set_compartment], given [-Compartment:<alias>] and the
    adapters of the system, takes [compartment_id] from the first adapter
    whose friendly name is the alias, and throws [ctException] with
    [ERROR_NOT_FOUND] when no adapter has that name; it ends the process
    when the constructor of [ctNetAdapterAddresses] fails. *)
Theorem X17_compartment_of_first_adapter args i value addresses :
  find_value (L "-Compartment") args = Ok (args, Some (i, value)) ->
  let pred := fun a =>
    iordinal_equals value (NetAdapterAddresses.FriendlyName a) in
  NetAdapterAddresses.find_if
    (NetAdapterAddresses.begin_ addresses)
    (NetAdapterAddresses.end_ addresses) pred
  = Ok (NetAdapterAddresses.iterator_at
          (NetAdapterAddresses.addresses_buffer addresses)
          (NetAdapterAddresses.from_first pred
             (NetAdapterAddresses.adapters addresses))) /\
  match NetAdapterAddresses.from_first pred
          (NetAdapterAddresses.adapters addresses) with
  | [] =>
    (forall a, a ∈ NetAdapterAddresses.adapters addresses -> pred a = false) /\
    NetAdapterAddresses.set_compartment args (Some addresses)
    = NetAdapterAddresses.Thrown
        (ctException NetAdapterAddresses.ERROR_NOT_FOUND
           "GetAdaptersAddresses could not find the interface alias")
  | a :: rest =>
    pred a = true /\
    (exists before,
       NetAdapterAddresses.adapters addresses = before ++ a :: rest /\
       forall b, b ∈ before -> pred b = false) /\
    NetAdapterAddresses.set_compartment args (Some addresses)
    = NetAdapterAddresses.Returned
        (delete i args,
         Some (addresses, NetAdapterAddresses.CompartmentId a))
  end /\
  NetAdapterAddresses.set_compartment args None
  = NetAdapterAddresses.Terminated.
Proof.
  intros Hfind pred.
  assert (Hsearch :
    NetAdapterAddresses.find_if
      (NetAdapterAddresses.begin_ addresses)
      (NetAdapterAddresses.end_ addresses) pred
    = Ok (NetAdapterAddresses.iterator_at
            (NetAdapterAddresses.addresses_buffer addresses)
            (NetAdapterAddresses.from_first pred
               (NetAdapterAddresses.adapters addresses)))).
  { unfold NetAdapterAddresses.find_if. apply find_if_loop_spec.
    simpl. lia. }
  split; [exact Hsearch|].
  pose proof (from_first_spec pred (NetAdapterAddresses.adapters addresses))
    as Hfirst.
  unfold NetAdapterAddresses.set_compartment,
    NetAdapterAddresses.compartment_of.
  rewrite Hfind. cbv beta iota.
  fold pred. rewrite Hsearch, bind_Ok.
  split; [|reflexivity].
  destruct (NetAdapterAddresses.from_first pred
              (NetAdapterAddresses.adapters addresses)) as [|a rest].
  - split; [exact Hfirst|]. reflexivity.
  - destruct Hfirst as [Ha Hbefore]. split; [exact Ha|].
    split; [exact Hbefore|]. reflexivity.
Qed.

End CompartmentProperties.

Lemma X17_compartment_of_first_adapter_witness :
  find_value (L "-Compartment") NetAdapterAddresses.wifi_compartment
    = Ok (NetAdapterAddresses.wifi_compartment, Some (O, L "wi-fi")) /\
  NetAdapterAddresses.set_compartment NetAdapterAddresses.wifi_compartment
    (Some NetAdapterAddresses.two_adapters)
  = NetAdapterAddresses.Returned
      ([], Some (NetAdapterAddresses.two_adapters, 2)) /\
  NetAdapterAddresses.set_compartment NetAdapterAddresses.wifi_compartment
    None
  = NetAdapterAddresses.Terminated.
Proof.
  assert (Hfind :
    find_value (L "-Compartment") NetAdapterAddresses.wifi_compartment
    = Ok (NetAdapterAddresses.wifi_compartment, Some (O, L "wi-fi")))
    by (vm_compute; reflexivity).
  split; [exact Hfind|].
  destruct (X17_compartment_of_first_adapter
              NetAdapterAddresses.wifi_compartment O (L "wi-fi")
              NetAdapterAddresses.two_adapters Hfind) as (_ & Hset & Hend).
  split; [exact (proj2 (proj2 Hset))|exact Hend].
Defined.

(** ** The iterator *)

Lemma advance_drop n chain :
  NetAdapterAddresses.advance n chain = drop n chain.
Proof.
  revert chain. induction n as [|n IH]; intros [|a chain]; simpl; auto.
Qed.

(** X18.  [operator+=] moves an iterator by [_inc] adapters, or to the end
    of the chain when fewer are left.  It returns when more than [_inc]
    adapters are left from its position, and throws [out_of_range]
    otherwise, leaving the iterator at the end: it never returns the end
    iterator, which [operator++] gives from the last adapter, and on the
    end iterator it throws even for zero. *)
Theorem X18_increment_by_stops_before_the_end this _inc :
  NetAdapterAddresses.increment_by this _inc
  = ({| NetAdapterAddresses.buffer := NetAdapterAddresses.buffer this;
        NetAdapterAddresses.current :=
          drop _inc (NetAdapterAddresses.current this) |},
     if (_inc <? length (NetAdapterAddresses.current this))%nat
     then None
     else Some (out_of_range
       "out_of_range: ctNetAdapterAddresses::iterator::operator+=")) /\
  (forall it, NetAdapterAddresses.increment_by this _inc = (it, None) ->
     NetAdapterAddresses.equal it NetAdapterAddresses.end_iterator = false) /\
  (forall it e, NetAdapterAddresses.increment_by this _inc = (it, Some e) ->
     NetAdapterAddresses.equal it NetAdapterAddresses.end_iterator = true) /\
  (forall a,
     NetAdapterAddresses.current this = [a] ->
     NetAdapterAddresses.preincrement this
     = Ok {| NetAdapterAddresses.buffer := NetAdapterAddresses.buffer this;
             NetAdapterAddresses.current := [] |} /\
     NetAdapterAddresses.increment_by this 1
     = ({| NetAdapterAddresses.buffer := NetAdapterAddresses.buffer this;
           NetAdapterAddresses.current := [] |},
        Some (out_of_range
          "out_of_range: ctNetAdapterAddresses::iterator::operator+="))).
Proof.
  assert (Hinc :
    NetAdapterAddresses.increment_by this _inc
    = ({| NetAdapterAddresses.buffer := NetAdapterAddresses.buffer this;
          NetAdapterAddresses.current :=
            drop _inc (NetAdapterAddresses.current this) |},
       if (_inc <? length (NetAdapterAddresses.current this))%nat
       then None
       else Some (out_of_range
         "out_of_range: ctNetAdapterAddresses::iterator::operator+="))).
  { unfold NetAdapterAddresses.increment_by. cbv zeta.
    cbn [NetAdapterAddresses.current NetAdapterAddresses.buffer].
    rewrite advance_drop.
    destruct (Nat.ltb_spec _inc (length (NetAdapterAddresses.current this)))
      as [Hlt|Hge].
    - destruct (drop _inc (NetAdapterAddresses.current this)) eqn:Hdrop;
        [|reflexivity].
      apply (f_equal length) in Hdrop. rewrite length_drop in Hdrop.
      simpl in Hdrop. lia.
    - rewrite drop_ge by exact Hge. reflexivity. }
  split; [exact Hinc|]. split; [|split].
  - intros it. rewrite Hinc.
    destruct (Nat.ltb_spec _inc (length (NetAdapterAddresses.current this)))
      as [Hlt|Hge]; [|discriminate].
    intros [= <-]. unfold NetAdapterAddresses.equal. simpl.
    destruct (drop _inc (NetAdapterAddresses.current this)) eqn:Hdrop.
    + apply (f_equal length) in Hdrop. rewrite length_drop in Hdrop.
      simpl in Hdrop. lia.
    + rewrite (bool_decide_eq_false_2 (_ :: _ = [])) by discriminate.
      apply andb_false_r.
  - intros it e. rewrite Hinc.
    destruct (Nat.ltb_spec _inc (length (NetAdapterAddresses.current this)))
      as [Hlt|Hge]; [discriminate|].
    intros [= <- _]. unfold NetAdapterAddresses.equal. simpl.
    rewrite drop_ge by exact Hge. reflexivity.
  - intros a Ha. unfold NetAdapterAddresses.preincrement,
      NetAdapterAddresses.increment_by. cbv zeta.
    cbn [NetAdapterAddresses.current NetAdapterAddresses.buffer].
    rewrite Ha. split; reflexivity.
Qed.

(** X19.  [operator==] is an equivalence of iterators.  Iterators at the
    end of a chain are equal whatever their vectors, and equal to no
    iterator that points to an adapter; two iterators that point to
    adapters are equal when they share the vector and the position. *)
Theorem X19_iterator_equality :
  (forall a, NetAdapterAddresses.equal a a = true) /\
  (forall a b,
     NetAdapterAddresses.equal a b = NetAdapterAddresses.equal b a) /\
  (forall a b c,
     NetAdapterAddresses.equal a b = true ->
     NetAdapterAddresses.equal b c = true ->
     NetAdapterAddresses.equal a c = true) /\
  (forall a,
     NetAdapterAddresses.equal a NetAdapterAddresses.end_iterator = true
     <-> NetAdapterAddresses.current a = []) /\
  (forall a b,
     NetAdapterAddresses.current a <> [] ->
     (NetAdapterAddresses.equal a b = true <-> a = b)).
Proof.
  split_and!.
  - intros [ba [|x ca]]; unfold NetAdapterAddresses.equal; simpl;
      repeat case_bool_decide; simpl; congruence.
  - intros [ba [|x ca]] [bb [|y cb]]; unfold NetAdapterAddresses.equal;
      simpl; repeat case_bool_decide; simpl; congruence.
  - intros [ba [|x ca]] [bb [|y cb]] [bc [|z cc]];
      unfold NetAdapterAddresses.equal; simpl;
      repeat case_bool_decide; simpl; congruence.
  - intros [ba [|x ca]]; unfold NetAdapterAddresses.equal; simpl.
    + split; reflexivity.
    + rewrite andb_false_r. split; discriminate.
  - intros [ba [|x ca]] [bb cb] Hne; [simpl in Hne; congruence|].
    unfold NetAdapterAddresses.equal. simpl.
    rewrite andb_true_iff, !bool_decide_eq_true.
    split; [intros [-> ->]; reflexivity|intros [= -> ->]; auto].
Qed.

(** * The addresses *)

Section AddressProperties.

Import Addresses.

Context {E : Externals}.
Variable family : ctSockaddr -> Z.
Variable AddressAny : Z -> ctSockaddr.
Variable ResolveName : list Z -> result (list ctSockaddr).

Lemma has_family_stable (f : Z) (addresses : list ctSockaddr) :
  ~ ~ has_family family f addresses -> has_family family f addresses.
Proof.
  intros Hnn. apply Exists_exists.
  apply (dec_stable (P := Exists (fun addr => family addr = f) addresses)).
  intros Hn. apply Hnn. intros Hhas. apply Hn, Exists_exists. exact Hhas.
Qed.

Lemma filter_length_zero (P : ctSockaddr -> Prop)
    `{forall a, Decision (P a)} (l : list ctSockaddr) :
  length (filter P l) = O <-> forall a, a ∈ l -> ~ P a.
Proof.
  split.
  - intros Hlen a Ha HP.
    assert (Hin : a ∈ filter P l) by (apply list_elem_of_filter; auto).
    destruct (filter P l); [inversion Hin | discriminate].
  - intros Hnone. induction l as [|x l IH]; [reflexivity|].
    rewrite filter_cons. destruct (decide (P x)) as [HP|HP].
    + exfalso. apply (Hnone x); [left | exact HP].
    + apply IH. intros a Ha. apply Hnone. right. exact Ha.
Qed.

Lemma count_zero (P : ctSockaddr -> Prop) `{forall a, Decision (P a)}
    (l : list ctSockaddr) :
  Z.of_nat (length l) < 2 ^ 32 ->
  (0 =? wrap32 (Z.of_nat (length (filter P l)))) = true
  <-> forall a, a ∈ l -> ~ P a.
Proof.
  intros Hlen. etrans; [|apply filter_length_zero]. rewrite Z.eqb_eq.
  pose proof (length_filter P l) as Hle.
  unfold wrap32. change (2 ^ 32) with 4294967296 in Hlen.
  rewrite Z.mod_small by lia. split; lia.
Qed.

Lemma count_v4_zero (l : list ctSockaddr) :
  Z.of_nat (length l) < 2 ^ 32 ->
  (0 =? count_v4 family l) = true <-> ~ has_family family AF_INET l.
Proof.
  intros Hlen. unfold count_v4. rewrite count_zero by exact Hlen.
  unfold has_family. split.
  - intros Hnone (a & Ha & Hf). exact (Hnone a Ha Hf).
  - intros Hnone a Ha Hf. apply Hnone. exists a. split; assumption.
Qed.

Lemma count_v6_zero (l : list ctSockaddr) :
  ip_addresses family l ->
  Z.of_nat (length l) < 2 ^ 32 ->
  (0 =? count_v6 family l) = true <-> ~ has_family family AF_INET6 l.
Proof.
  intros Hip Hlen. unfold count_v6. rewrite count_zero by exact Hlen.
  unfold has_family, ip_addresses in *. rewrite Forall_forall in Hip.
  split.
  - intros Hnone (a & Ha & Hf). apply (Hnone a Ha).
    rewrite Hf. discriminate.
  - intros Hnone a Ha Hf. apply Hnone. exists a. split; [exact Ha|].
    destruct (Hip a Ha); congruence.
Qed.

Lemma elem_of_remove_family (f : Z) (l : list ctSockaddr) (a : ctSockaddr) :
  a ∈ remove_family family f l <-> family a <> f /\ a ∈ l.
Proof.
  unfold remove_family.
  exact (list_elem_of_filter (fun addr => family addr <> f) l a).
Qed.

(** What lines 937-992 leave: of each vector, the addresses whose family
    the other vector has. *)
Lemma remove_unmatched_spec (bind target bind' target' : list ctSockaddr) :
  ip_addresses family bind -> ip_addresses family target ->
  Z.of_nat (length bind) < 2 ^ 32 ->
  Z.of_nat (length target) < 2 ^ 32 ->
  remove_unmatched family bind target = (bind', target') ->
  (forall b, b ∈ bind' <-> b ∈ bind /\ has_family family (family b) target)
  /\ (forall t, t ∈ target' <-> t ∈ target /\ has_family family (family t) bind).
Proof.
  intros Hb Ht Hlb Hlt. unfold remove_unmatched.
  pose proof (count_v4_zero bind Hlb) as Hb4.
  pose proof (count_v4_zero target Hlt) as Ht4.
  pose proof (count_v6_zero bind Hb Hlb) as Hb6.
  pose proof (count_v6_zero target Ht Hlt) as Ht6.
  unfold ip_addresses in Hb, Ht. rewrite Forall_forall in Hb, Ht.
  assert (Hhas : forall l a, a ∈ l -> has_family family (family a) l)
    by (intros l a Ha; exists a; auto).
  destruct (0 =? count_v4 family bind);
    destruct (0 =? count_v4 family target);
    destruct (0 =? count_v6 family bind);
    destruct (0 =? count_v6 family target);
    intros [= <- <-];
    repeat match goal with
           | H : true = true <-> _ |- _ => apply proj1 in H; specialize (H eq_refl)
           | H : false = true <-> ~ ?P |- _ =>
             assert P by (apply has_family_stable; intros Hn;
                          apply H in Hn; discriminate);
             clear H
           end.
  all: split; intros a; rewrite ?elem_of_remove_family.
  all: split; [intros Ha | intros [Hin Hf]].
  all: try (assert (Hin : a ∈ bind) by tauto);
       try (assert (Hin : a ∈ target) by tauto).
  all: pose proof (Hhas _ _ Hin) as Hown.
  all: first [destruct (Hb a Hin) as [Hfa|Hfa]
             | destruct (Ht a Hin) as [Hfa|Hfa]];
       rewrite Hfa in *.
  all: try tauto.
  all: repeat split; try assumption; try discriminate.
Qed.

Lemma match_families_Some (bind target bind' target' : list ctSockaddr) :
  match_families family bind target = Some (bind', target') ->
  remove_unmatched family bind target = (bind', target')
  /\ bind' <> [] /\ target' <> [].
Proof.
  unfold match_families.
  destruct (remove_unmatched family bind target) as [b t].
  repeat case_bool_decide; simpl; intros [= <- <-]; auto.
Qed.

Lemma match_families_None (bind target : list ctSockaddr) :
  match_families family bind target = None <->
  fst (remove_unmatched family bind target) = []
  \/ snd (remove_unmatched family bind target) = [].
Proof.
  unfold match_families.
  destruct (remove_unmatched family bind target) as [b t].
  repeat case_bool_decide; simpl; split; try discriminate; try tauto; auto.
Qed.

(** X20. When [set_address] gets past its last test, neither vector is
    empty, the bind addresses left are the given ones whose family some
    target address has and the target addresses left are the given ones
    whose family some bind address has; so every address left has an
    address of its family in the other vector. *)
Theorem X20_bind_and_target_families
    (bind target bind' target' : list ctSockaddr) :
  ip_addresses family bind -> ip_addresses family target ->
  Z.of_nat (length bind) < 2 ^ 32 ->
  Z.of_nat (length target) < 2 ^ 32 ->
  match_families family bind target = Some (bind', target') ->
  bind' <> [] /\ target' <> []
  /\ (forall b, b ∈ bind' <-> b ∈ bind /\ has_family family (family b) target)
  /\ (forall t,
        t ∈ target' <-> t ∈ target /\ has_family family (family t) bind)
  /\ (forall b, b ∈ bind' -> has_family family (family b) target')
  /\ (forall t, t ∈ target' -> has_family family (family t) bind').
Proof.
  intros Hb Ht Hlb Hlt Hmatch.
  apply match_families_Some in Hmatch as (Hrem & Hne_b & Hne_t).
  destruct (remove_unmatched_spec _ _ _ _ Hb Ht Hlb Hlt Hrem)
    as [Hbind Htarget].
  split_and!; try assumption.
  - intros b Hin. apply Hbind in Hin as [Hin (t & Ht_in & Hfam)].
    exists t. split; [|exact Hfam].
    apply Htarget. split; [exact Ht_in|].
    exists b. split; [exact Hin | congruence].
  - intros t Hin. apply Htarget in Hin as [Hin (b & Hb_in & Hfam)].
    exists b. split; [|exact Hfam].
    apply Hbind. split; [exact Hb_in|].
    exists t. split; [exact Hin | congruence].
Qed.

(** X21. The last test of [set_address] throws exactly when no bind address
    and target address have the same family. *)
Theorem X21_no_common_family (bind target : list ctSockaddr) :
  ip_addresses family bind -> ip_addresses family target ->
  Z.of_nat (length bind) < 2 ^ 32 ->
  Z.of_nat (length target) < 2 ^ 32 ->
  match_families family bind target = None
  <-> ~ exists b t, b ∈ bind /\ t ∈ target /\ family b = family t.
Proof.
  intros Hb Ht Hlb Hlt. rewrite match_families_None.
  destruct (remove_unmatched family bind target) as [bind' target'] eqn:Hrem.
  destruct (remove_unmatched_spec _ _ _ _ Hb Ht Hlb Hlt Hrem)
    as [Hbind Htarget].
  simpl. split.
  - intros Hempty (b & t & Hb_in & Ht_in & Hfam).
    assert (Hb' : b ∈ bind').
    { apply Hbind. split; [exact Hb_in|]. exists t. auto. }
    assert (Ht' : t ∈ target').
    { apply Htarget. split; [exact Ht_in|]. exists b. auto. }
    destruct Hempty as [-> | ->]; [inversion Hb' | inversion Ht'].
  - intros Hnone. left. destruct bind' as [|b rest]; [reflexivity|].
    exfalso. apply Hnone.
    destruct (proj1 (Hbind b)) as [Hb_in (t & Ht_in & Hfam)]; [left|].
    exists b, t. auto.
Qed.

(** ** The three loops *)

Lemma find_value_index (name : list Z) (args args' : list (list Z))
    (i : nat) (value : list Z) :
  find_value name args = Ok (args', Some (i, value)) ->
  (i < length args)%nat.
Proof.
  unfold find_value. intros Hfind.
  apply bind_Ok_inv in Hfind as ([args0 r] & Hsearch & Hfind).
  apply find_if_frame in Hsearch as [-> Hlt].
  - destruct r as [j|]; [|discriminate].
    apply bind_Ok_inv in Hfind as ([parameter v] & _ & Hfind).
    injection Hfind as _ <- _. apply Hlt. reflexivity.
  - intros a a' b Ha.
    apply bind_Ok_inv in Ha as ([a0 v] & Hparse & Ha).
    apply ParseArgument_frame in Hparse as ->.
    injection Ha as <- _. reflexivity.
Qed.

Lemma length_erase (args : list (list Z)) (i : nat) (turns : nat) :
  (i < length args)%nat -> (length args < Datatypes.S turns)%nat ->
  (length (delete i args) < turns)%nat.
Proof.
  intros Hi Hlen. rewrite length_delete by (apply lookup_lt_is_Some_2, Hi).
  lia.
Qed.

(** With a turn more than there are arguments, each loop ends as the
    source's does: no argument is left, or none of its name. *)
Lemma listen_loop_ends (turns : nat) (s : ctsConfigSettings) :
  forall args a args' a',
    (length args < turns)%nat ->
    listen_loop AddressAny ResolveName turns s args a = Ok (args', a') ->
    args' = [] \/ find_value (L "-listen") args' = Ok (args', None).
Proof.
  induction turns as [|turns IH]; intros args a args' a' Hlen; [lia|].
  simpl. destruct args as [|arg args]; [intros [= <- <-]; left; reflexivity|].
  intros Hloop.
  apply bind_Ok_inv in Hloop as ([args0 found] & Hfind & Hloop).
  pose proof (find_value_frame _ _ _ _ Hfind) as ->.
  destruct found as [[i value]|];
    [|injection Hloop as <- <-; right; exact Hfind].
  apply bind_Ok_inv in Hloop as (listen & _ & Hloop).
  apply IH in Hloop; [exact Hloop|].
  apply length_erase; [exact (find_value_index _ _ _ _ _ Hfind) | exact Hlen].
Qed.

Lemma target_loop_ends (turns : nat) :
  forall args a args' a',
    (length args < turns)%nat ->
    target_loop ResolveName turns args a = Ok (args', a') ->
    args' = [] \/ find_value (L "-target") args' = Ok (args', None).
Proof.
  induction turns as [|turns IH]; intros args a args' a' Hlen; [lia|].
  simpl. destruct args as [|arg args]; [intros [= <- <-]; left; reflexivity|].
  intros Hloop.
  apply bind_Ok_inv in Hloop as ([args0 found] & Hfind & Hloop).
  pose proof (find_value_frame _ _ _ _ Hfind) as ->.
  destruct found as [[i value]|];
    [|injection Hloop as <- <-; right; exact Hfind].
  case_bool_decide; simpl in Hloop; [|discriminate].
  apply bind_Ok_inv in Hloop as (temp & _ & Hloop).
  case_bool_decide; [discriminate|].
  apply IH in Hloop; [exact Hloop|].
  apply length_erase; [exact (find_value_index _ _ _ _ _ Hfind) | exact Hlen].
Qed.

Lemma bind_loop_ends (turns : nat) :
  forall args a args' a',
    (length args < turns)%nat ->
    bind_loop AddressAny ResolveName turns args a = Ok (args', a') ->
    args' = [] \/ find_value (L "-bind") args' = Ok (args', None).
Proof.
  induction turns as [|turns IH]; intros args a args' a' Hlen; [lia|].
  simpl. destruct args as [|arg args]; [intros [= <- <-]; left; reflexivity|].
  intros Hloop.
  apply bind_Ok_inv in Hloop as ([args0 found] & Hfind & Hloop).
  pose proof (find_value_frame _ _ _ _ Hfind) as ->.
  destruct found as [[i value]|];
    [|injection Hloop as <- <-; right; exact Hfind].
  apply bind_Ok_inv in Hloop as (bind & _ & Hloop).
  apply IH in Hloop; [exact Hloop|].
  apply length_erase; [exact (find_value_index _ _ _ _ _ Hfind) | exact Hlen].
Qed.

Lemma listen_loop_frame (turns : nat) (s : ctsConfigSettings) :
  forall args a args' a',
    listen_loop AddressAny ResolveName turns s args a = Ok (args', a') ->
    Target a' = Target a /\ Bind a' = Bind a.
Proof.
  induction turns as [|turns IH]; intros args a args' a'; simpl.
  { destruct args; intros [= <- <-]; auto. }
  destruct args as [|arg args]; [intros [= <- <-]; auto|].
  intros Hloop.
  apply bind_Ok_inv in Hloop as ([args0 found] & Hfind & Hloop).
  destruct found as [[i value]|]; [|injection Hloop as <- <-; auto].
  apply bind_Ok_inv in Hloop as (listen & Hlisten & Hloop).
  apply IH in Hloop. exact Hloop.
Qed.

Lemma target_loop_frame (turns : nat) :
  forall args a args' a',
    target_loop ResolveName turns args a = Ok (args', a') ->
    Listen a' = Listen a /\ Bind a' = Bind a
    /\ (Listen a <> [] -> Target a' = Target a).
Proof.
  induction turns as [|turns IH]; intros args a args' a'; simpl.
  { destruct args; intros [= <- <-]; auto. }
  destruct args as [|arg args]; [intros [= <- <-]; auto|].
  intros Hloop.
  apply bind_Ok_inv in Hloop as ([args0 found] & Hfind & Hloop).
  destruct found as [[i value]|]; [|injection Hloop as <- <-; auto].
  case_bool_decide as Hlisten; simpl in Hloop; [|discriminate].
  apply bind_Ok_inv in Hloop as (temp & Htemp & Hloop).
  case_bool_decide; [discriminate|].
  apply IH in Hloop as (HL & HB & HT). simpl in *.
  split_and!; [exact HL | exact HB | intros Hne; contradiction].
Qed.

Lemma bind_loop_frame (turns : nat) :
  forall args a args' a',
    bind_loop AddressAny ResolveName turns args a = Ok (args', a') ->
    Listen a' = Listen a /\ Target a' = Target a.
Proof.
  induction turns as [|turns IH]; intros args a args' a'; simpl.
  { destruct args; intros [= <- <-]; auto. }
  destruct args as [|arg args]; [intros [= <- <-]; auto|].
  intros Hloop.
  apply bind_Ok_inv in Hloop as ([args0 found] & Hfind & Hloop).
  destruct found as [[i value]|]; [|injection Hloop as <- <-; auto].
  apply bind_Ok_inv in Hloop as (bind & Hbind & Hloop).
  apply IH in Hloop. exact Hloop.
Qed.

Lemma check_addresses_Ok (a a' : ctsConfigAddresses) :
  check_addresses AddressAny a = Ok a' ->
  Listen a' = Listen a /\ Target a' = Target a
  /\ ((Listen a <> [] /\ Target a = [] /\ Bind a = [] /\ Bind a' = [])
      \/ (Listen a = [] /\ Target a <> [] /\ Bind a' <> [])).
Proof.
  unfold check_addresses.
  destruct (Listen a) as [|l ls] eqn:HL; destruct (Target a) as [|t ts] eqn:HT;
    destruct (Bind a) as [|b bs] eqn:HB; simpl;
    try discriminate; intros [= <-]; simpl; rewrite ?HL, ?HT, ?HB;
    split_and!; try reflexivity; [right | right | left];
    split_and!; try reflexivity; discriminate.
Qed.

(** X22. When [set_address] returns, the settings are those of a server,
    with addresses to listen on and none to bind to or to connect to, or
    those of a client, with addresses to connect to, addresses to bind to
    and none to listen on. *)
Theorem X22_server_or_client (args args' : list (list Z))
    (s : ctsConfigSettings) (a a' : ctsConfigAddresses) :
  set_address family AddressAny ResolveName args s a = Returned (args', a') ->
  (Listen a' <> [] /\ Target a' = [] /\ Bind a' = [])
  \/ (Listen a' = [] /\ Target a' <> [] /\ Bind a' <> []).
Proof.
  unfold set_address.
  destruct (listen_loop _ _ _ _ _ _ ≫= _) as [[args0 a0]|e] eqn:Hparsed;
    [|discriminate].
  apply bind_Ok_inv in Hparsed as ([args1 a1] & _ & Hparsed).
  apply bind_Ok_inv in Hparsed as ([args2 a2] & _ & Hparsed).
  apply bind_Ok_inv in Hparsed as ([args3 a3] & _ & Hparsed).
  apply bind_Ok_inv in Hparsed as (a4 & Hcheck & Hparsed).
  injection Hparsed as <- <-.
  apply check_addresses_Ok in Hcheck as (HL & HT & Hshape).
  destruct (0 <? length (Target a4))%nat eqn:Hany.
  - destruct (match_families family (Bind a4) (Target a4))
      as [[bind target]|] eqn:Hmatch; [|discriminate].
    intros [= <- <-]. simpl.
    apply match_families_Some in Hmatch as (_ & Hb & Ht).
    destruct Hshape as [(Hl & Htar & _) | (Hl & _ & _)].
    + rewrite <- HT in Htar. rewrite Htar in Hany. discriminate.
    + right. rewrite HL. auto.
  - intros [= <- <-].
    destruct Hshape as [(Hl & Htar & _ & Hbind) | (Hl & Htar & _)].
    + left. rewrite HL, HT. auto.
    + rewrite <- HT in Htar. destruct (Target a4); [congruence|discriminate].
Qed.

(** X23. With no target address to begin with, the three loops never
    leave both an address to listen on and an address to connect to: a
    [-target] argument after a [-listen] argument throws in its loop, so
    the test of line 912 cannot be what rejects the two together. *)
Theorem X23_listen_and_target_meet_in_the_loop
    (n1 n2 n3 : nat) (s : ctsConfigSettings)
    (args args1 args2 args3 : list (list Z))
    (a a1 a2 a3 : ctsConfigAddresses) :
  Target a = [] ->
  listen_loop AddressAny ResolveName n1 s args a = Ok (args1, a1) ->
  target_loop ResolveName n2 args1 a1 = Ok (args2, a2) ->
  bind_loop AddressAny ResolveName n3 args2 a2 = Ok (args3, a3) ->
  Listen a3 = [] \/ Target a3 = [].
Proof.
  intros Hnone Hlisten Htarget Hbind.
  apply listen_loop_frame in Hlisten as [HT1 _].
  apply target_loop_frame in Htarget as (HL2 & _ & HT2).
  apply bind_loop_frame in Hbind as [HL3 HT3].
  rewrite HL3, HT3, HL2.
  destruct (decide (Listen a1 = [])) as [Hl|Hl]; [left; exact Hl|].
  right. rewrite (HT2 Hl), HT1. exact Hnone.
Qed.

End AddressProperties.

Lemma sample_ip_addresses (hosts : list Z) :
  Forall (fun h => h = Addresses.AF_INET \/ h = Addresses.AF_INET6) hosts ->
  Addresses.ip_addresses Addresses.sample_family
    (map (fun h => mkSockaddr h 0) hosts).
Proof.
  intros Hhosts. unfold Addresses.ip_addresses.
  rewrite Forall_map. exact Hhosts.
Qed.

Lemma X20_bind_and_target_families_witness :
  Addresses.match_families Addresses.sample_family
    Addresses.local_v4 Addresses.both_families
  = Some (Addresses.local_v4, Addresses.local_v4)
  /\ forall t, t ∈ Addresses.local_v4 <->
       t ∈ Addresses.both_families
       /\ Addresses.has_family Addresses.sample_family
            (Addresses.sample_family t) Addresses.local_v4.
Proof.
  split; [reflexivity|].
  refine (proj1 (proj2 (proj2 (proj2
    (X20_bind_and_target_families Addresses.sample_family
       Addresses.local_v4 Addresses.both_families
       Addresses.local_v4 Addresses.local_v4 _ _ _ _ eq_refl))))).
  - apply (sample_ip_addresses [Addresses.AF_INET]).
    constructor; [left; reflexivity | constructor].
  - apply (sample_ip_addresses [Addresses.AF_INET; Addresses.AF_INET6]).
    constructor; [left; reflexivity|].
    constructor; [right; reflexivity | constructor].
  - reflexivity.
  - reflexivity.
Defined.

Lemma X21_no_common_family_witness :
  Addresses.match_families Addresses.sample_family
    Addresses.local_v4 Addresses.server_v6 = None
  /\ ~ exists b t,
        b ∈ Addresses.local_v4 /\ t ∈ Addresses.server_v6
        /\ Addresses.sample_family b = Addresses.sample_family t.
Proof.
  split; [reflexivity|].
  refine (proj1 (X21_no_common_family Addresses.sample_family
                   Addresses.local_v4 Addresses.server_v6 _ _ _ _) eq_refl).
  - apply (sample_ip_addresses [Addresses.AF_INET]).
    constructor; [left; reflexivity | constructor].
  - apply (sample_ip_addresses [Addresses.AF_INET6]).
    constructor; [right; reflexivity | constructor].
  - reflexivity.
  - reflexivity.
Defined.

(** The client of [target_and_bind]: its settings after [set_address]. *)
Lemma set_address_target_and_bind :
  Addresses.set_address Addresses.sample_family Addresses.sample_AddressAny
    Addresses.sample_ResolveName Addresses.target_and_bind
    InitOncectsConfigImpl Addresses.no_addresses
  = Addresses.Returned
      ([], {| Addresses.Listen := [];
              Addresses.Target := Addresses.both_families;
              Addresses.Bind := Addresses.both_families;
              Addresses.keepalive := false |}).
Proof. vm_compute. reflexivity. Qed.

Lemma X22_server_or_client_witness :
  Addresses.both_families <> [].
Proof.
  destruct (X22_server_or_client Addresses.sample_family
              Addresses.sample_AddressAny Addresses.sample_ResolveName
              _ _ _ _ _ set_address_target_and_bind)
    as [(Hl & _) | (_ & Ht & _)].
  - exfalso. apply Hl. reflexivity.
  - exact Ht.
Defined.

Lemma X23_listen_and_target_meet_in_the_loop_witness :
  exists a3,
    Addresses.bind_loop Addresses.sample_AddressAny
      Addresses.sample_ResolveName 3 Addresses.bind_any
      {| Addresses.Listen := [];
         Addresses.Target := Addresses.both_families;
         Addresses.Bind := []; Addresses.keepalive := false |}
    = Ok ([], a3)
    /\ (Addresses.Listen a3 = [] \/ Addresses.Target a3 = []).
Proof.
  eexists. split; [vm_compute; reflexivity|].
  apply (X23_listen_and_target_meet_in_the_loop
           Addresses.sample_AddressAny Addresses.sample_ResolveName
           3 3 3 InitOncectsConfigImpl
           Addresses.target_and_bind Addresses.target_and_bind
           Addresses.bind_any []
           Addresses.no_addresses Addresses.no_addresses
           {| Addresses.Listen := [];
              Addresses.Target := Addresses.both_families;
              Addresses.Bind := []; Addresses.keepalive := false |}).
  - reflexivity.
  - vm_compute. reflexivity.
  - vm_compute. reflexivity.
  - vm_compute. reflexivity.
Defined.

(** * The IO pattern *)

Section PatternProperties.

Import Patterns.

Context {E : Externals}.
Variable stoll : list Z -> Z -> result (Z * nat).
Variable CalculateTransferSize
  : MediaStreamSettings -> MediaStreamSettings * Z.

Lemma pattern_argument_Ok (args args' : list (list Z))
    (s s' : ctsConfigSettings) :
  pattern_argument args s = Ok (args', s') ->
  Protocol s' = Protocol s
  /\ ListenAddresses s' = ListenAddresses s
  /\ (IoPattern s' = MediaStream <-> Protocol s = UDP).
Proof.
  unfold pattern_argument. intros Hset.
  apply bind_Ok_inv in Hset as ([args0 found] & _ & Hset).
  destruct found as [[i value]|].
  - case_bool_decide as Htcp; simpl in Hset; [|discriminate].
    apply bind_Ok_inv in Hset as (s0 & Hpattern & Hset).
    injection Hset as _ <-.
    assert (Hs0 : exists v, s0 = with_IoPattern v s /\ v <> MediaStream).
    { repeat match type of Hpattern with
             | (if ?c then _ else _) = _ => destruct c
             end; try discriminate;
        injection Hpattern as <-; eexists; (split; [reflexivity|discriminate]). }
    destruct Hs0 as (v & -> & Hv). simpl.
    split_and!; try reflexivity.
    split; [contradiction | congruence].
  - case_bool_decide as Hudp; injection Hset as _ <-; simpl;
      split_and!; try reflexivity; split; try discriminate; auto.
    contradiction.
Qed.

(** X24. When [set_ioPattern] returns, the pattern is [MediaStream] exactly
    when the protocol is UDP, and the protocol is the one it found: the two
    tests [Startup] makes next, of UDP without [MediaStream] and of TCP with
    it, cannot throw. *)
Theorem X24_pattern_follows_protocol (args args' : list (list Z))
    (s s' : ctsConfigSettings) (p p' : ctsConfigPattern)
    (r r' : Ranges.ctsConfigRanges) :
  set_ioPattern stoll CalculateTransferSize args s p r
    = Ok (args', s', p', r') ->
  Protocol s' = Protocol s
  /\ (IoPattern s' = MediaStream <-> Protocol s' = UDP)
  /\ bool_decide (Protocol s' = UDP)
     && negb (bool_decide (IoPattern s' = MediaStream)) = false
  /\ bool_decide (Protocol s' = TCP)
     && bool_decide (IoPattern s' = MediaStream) = false.
Proof.
  unfold set_ioPattern. intros Hset.
  apply bind_Ok_inv in Hset as ([args1 s1] & Hpattern & Hset).
  apply bind_Ok_inv in Hset as ([args2 p2] & _ & Hset).
  apply bind_Ok_inv in Hset as ([args3 m3] & _ & Hset).
  apply bind_Ok_inv in Hset as ([args4 m4] & _ & Hset).
  apply bind_Ok_inv in Hset as ([args5 m5] & _ & Hset).
  apply bind_Ok_inv in Hset as ([m6 r6] & _ & Hset).
  injection Hset as _ <- _ _.
  apply pattern_argument_Ok in Hpattern as (Hprotocol & _ & Hiff).
  rewrite <- Hprotocol in Hiff.
  split_and!; [exact Hprotocol | exact Hiff | |].
  - repeat case_bool_decide; simpl; try reflexivity. tauto.
  - repeat case_bool_decide; simpl; try reflexivity.
    assert (Protocol s1 = UDP) by tauto. congruence.
Qed.

(** What [%] and [-=] of lines 711-713 make of a value. *)
Lemma align_on_byte (v : Z) :
  let aligned := if negb (Z.rem v 8 =? 0) then v - Z.rem v 8 else v in
  aligned = 8 * (v ÷ 8)
  /\ Z.abs aligned <= Z.abs v
  /\ Z.abs (v - aligned) < 8
  /\ (aligned = 0 <-> -8 < v < 8).
Proof.
  pose proof (Z.quot_rem' v 8) as Hqr.
  assert (Hr : (0 <= v -> 0 <= Z.rem v 8 < 8)
               /\ (v <= 0 -> -8 < Z.rem v 8 <= 0)).
  { split; intros Hv.
    - apply Z.rem_bound_pos; lia.
    - apply (Z.rem_bound_pos_neg v 8); lia. }
  assert (Haligned :
    (if negb (Z.rem v 8 =? 0) then v - Z.rem v 8 else v) = 8 * (v ÷ 8)).
  { destruct (Z.eqb_spec (Z.rem v 8) 0); simpl; lia. }
  simpl. rewrite Haligned.
  generalize dependent (v ÷ 8). generalize dependent (Z.rem v 8).
  intros rem Hr q Hqr _. lia.
Qed.

Lemma BitsPerSecond_argument_found (args args0 args' : list (list Z))
    (s : ctsConfigSettings) (m m' : MediaStreamSettings)
    (i : nat) (value : list Z) :
  find_value (L "-BitsPerSecond") args = Ok (args0, Some (i, value)) ->
  BitsPerSecond_argument stoll args s m = Ok (args', m') ->
  Protocol s = UDP
  /\ exists v,
       Ranges.as_integral_long_long stoll value = Ok v
       /\ BitsPerSecond m'
          = if negb (Z.rem v 8 =? 0) then v - Z.rem v 8 else v.
Proof.
  unfold BitsPerSecond_argument. intros Hfind Hset. rewrite Hfind in Hset.
  simpl in Hset.
  case_bool_decide as Hudp; simpl in Hset; [|discriminate].
  split; [exact Hudp|].
  apply bind_Ok_inv in Hset as (v & Hv & Hset). exists v.
  split; [exact Hv|]. injection Hset as _ <-. simpl.
  destruct (negb (Z.rem v 8 =? 0)); reflexivity.
Qed.

(** X25. A [-BitsPerSecond] value is stored rounded towards zero to a
    multiple of 8, so it moves by less than 8 and not away from zero; a
    value between -8 and 8 is stored as 0, which the validation that
    follows reports as a missing [-BitsPerSecond]. *)
Theorem X25_bits_per_second_on_a_byte_boundary
    (args args0 args' : list (list Z)) (s : ctsConfigSettings)
    (m m' : MediaStreamSettings) (i : nat) (value : list Z) :
  find_value (L "-BitsPerSecond") args = Ok (args0, Some (i, value)) ->
  BitsPerSecond_argument stoll args s m = Ok (args', m') ->
  exists v,
    Ranges.as_integral_long_long stoll value = Ok v
    /\ BitsPerSecond m' = 8 * (v ÷ 8)
    /\ Z.abs (BitsPerSecond m') <= Z.abs v
    /\ Z.abs (v - BitsPerSecond m') < 8
    /\ (-8 < v < 8 ->
        forall r,
          resolve_media_stream CalculateTransferSize s m' r
          = Throw (invalid_argument "-BitsPerSecond is required")).
Proof.
  intros Hfind Hset.
  destruct (BitsPerSecond_argument_found _ _ _ _ _ _ _ _ Hfind Hset)
    as (Hudp & v & Hv & Hbits).
  exists v. split; [exact Hv|].
  destruct (align_on_byte v) as (H8 & Habs & Hnear & Hzero).
  rewrite <- Hbits in H8, Habs, Hnear, Hzero.
  split_and!; try assumption.
  intros Hsmall r. unfold resolve_media_stream.
  rewrite bool_decide_eq_true_2 by exact Hudp.
  rewrite (proj2 Hzero Hsmall). reflexivity.
Qed.

Lemma stream_arguments_BitsPerSecond (args args' : list (list Z))
    (s : ctsConfigSettings) (m m' : MediaStreamSettings) :
  stream_arguments args s m = Ok (args', m') ->
  BitsPerSecond m' = BitsPerSecond m.
Proof.
  unfold stream_arguments. intros Hset.
  apply bind_Ok_inv in Hset as ([args1 f1] & _ & Hset).
  apply bind_Ok_inv in Hset as ([args2 m2] & Hrate & Hset).
  apply bind_Ok_inv in Hset as ([args3 f3] & _ & Hset).
  apply bind_Ok_inv in Hset as ([args4 m4] & Hdepth & Hset).
  apply bind_Ok_inv in Hset as ([args5 f5] & _ & Hset).
  assert (H2 : BitsPerSecond m2 = BitsPerSecond m).
  { destruct f1 as [[i value]|]; [|injection Hrate as _ <-; reflexivity].
    case_bool_decide; simpl in Hrate; [|discriminate].
    apply bind_Ok_inv in Hrate as (v & _ & Hrate).
    injection Hrate as _ <-. reflexivity. }
  assert (H4 : BitsPerSecond m4 = BitsPerSecond m2).
  { destruct f3 as [[i value]|]; [|injection Hdepth as _ <-; reflexivity].
    case_bool_decide; simpl in Hdepth; [|discriminate].
    apply bind_Ok_inv in Hdepth as (v & _ & Hdepth).
    injection Hdepth as _ <-. reflexivity. }
  assert (H' : BitsPerSecond m' = BitsPerSecond m4).
  { destruct f5 as [[i value]|]; [|injection Hset as _ <-; reflexivity].
    case_bool_decide; simpl in Hset; [|discriminate].
    apply bind_Ok_inv in Hset as (v & _ & Hset).
    injection Hset as _ <-. reflexivity. }
  congruence.
Qed.

Lemma StreamCodec_argument_frame (args args' : list (list Z))
    (s : ctsConfigSettings) (m m' : MediaStreamSettings) :
  StreamCodec_argument args s m = Ok (args', m') ->
  BitsPerSecond m' = BitsPerSecond m
  /\ FramesPerSecond m' = FramesPerSecond m
  /\ BufferDepthSeconds m' = BufferDepthSeconds m
  /\ StreamLengthSeconds m' = StreamLengthSeconds m.
Proof.
  unfold StreamCodec_argument. intros Hset.
  apply bind_Ok_inv in Hset as ([args1 f1] & _ & Hset).
  destruct f1 as [[i codec]|]; [|injection Hset as _ <-; auto].
  case_bool_decide; simpl in Hset; [|discriminate].
  apply bind_Ok_inv in Hset as (m1 & Hcodec & Hset).
  injection Hset as _ <-.
  repeat match type of Hcodec with
         | (if ?c then _ else _) = _ => destruct c
         end; try discriminate; injection Hcodec as <-; auto.
Qed.

Lemma resolve_media_stream_UDP (s : ctsConfigSettings)
    (m m' : MediaStreamSettings) (r r' : Ranges.ctsConfigRanges) :
  Protocol s = UDP ->
  resolve_media_stream CalculateTransferSize s m r = Ok (m', r') ->
  BitsPerSecond m <> 0 /\ FramesPerSecond m <> 0
  /\ StreamLengthSeconds m <> 0
  /\ (IsListening s = false -> BufferDepthSeconds m <> 0)
  /\ m' = fst (CalculateTransferSize m)
  /\ Ranges.transfer_low r' = snd (CalculateTransferSize m).
Proof.
  intros Hudp. unfold resolve_media_stream.
  rewrite bool_decide_eq_true_2 by exact Hudp.
  destruct (Z.eqb_spec 0 (BitsPerSecond m)); [discriminate|].
  destruct (Z.eqb_spec 0 (FramesPerSecond m)); [discriminate|].
  assert (Hdepth :
    (negb (IsListening s) && (0 =? BufferDepthSeconds m)) = false
    <-> (IsListening s = false -> BufferDepthSeconds m <> 0)).
  { destruct (IsListening s), (Z.eqb_spec 0 (BufferDepthSeconds m)); simpl;
      split; try discriminate; try reflexivity; try congruence.
    intros Hno. exfalso. apply Hno; [reflexivity | congruence]. }
  destruct (negb (IsListening s) && (0 =? BufferDepthSeconds m));
    [discriminate|].
  destruct (Z.eqb_spec 0 (StreamLengthSeconds m)); [discriminate|].
  destruct (CalculateTransferSize m) as [m1 size].
  intros [= <- <-]. simpl.
  split_and!; try congruence. apply Hdepth. reflexivity.
Qed.

(** X26. When [set_ioPattern] returns for UDP, the settings it computed the
    transfer size from have a bit rate, a frame rate and a stream length
    that are not zero, and on a client a buffer depth that is not zero;
    [GetMediaStream] on them does not fail fast. *)
Theorem X26_media_stream_is_complete (args args' : list (list Z))
    (s s' : ctsConfigSettings) (p p' : ctsConfigPattern)
    (r r' : Ranges.ctsConfigRanges) :
  Protocol s = UDP ->
  set_ioPattern stoll CalculateTransferSize args s p r
    = Ok (args', s', p', r') ->
  exists m,
    media_stream_settings p' = fst (CalculateTransferSize m)
    /\ Ranges.transfer_low r' = snd (CalculateTransferSize m)
    /\ BitsPerSecond m <> 0 /\ FramesPerSecond m <> 0
    /\ StreamLengthSeconds m <> 0
    /\ (ListenAddresses s = [] -> BufferDepthSeconds m <> 0)
    /\ GetMediaStream m = Returns m.
Proof.
  unfold set_ioPattern. intros Hudp Hset.
  apply bind_Ok_inv in Hset as ([args1 s1] & Hpattern & Hset).
  apply bind_Ok_inv in Hset as ([args2 p2] & _ & Hset).
  apply bind_Ok_inv in Hset as ([args3 m3] & _ & Hset).
  apply bind_Ok_inv in Hset as ([args4 m4] & _ & Hset).
  apply bind_Ok_inv in Hset as ([args5 m5] & _ & Hset).
  apply bind_Ok_inv in Hset as ([m6 r6] & Hresolve & Hset).
  injection Hset as _ _ <- <-.
  apply pattern_argument_Ok in Hpattern as (Hprotocol & Hlisten & _).
  rewrite <- Hprotocol in Hudp.
  destruct (resolve_media_stream_UDP _ _ _ _ _ Hudp Hresolve)
    as (Hbits & Hrate & Hlength & Hdepth & -> & Hsize).
  exists m5. simpl. split_and!; try assumption; try reflexivity.
  - intros Hclient. apply Hdepth. unfold IsListening.
    rewrite Hlisten, bool_decide_eq_true_2 by exact Hclient. reflexivity.
  - unfold GetMediaStream.
    destruct (Z.eqb_spec 0 (BitsPerSecond m5)); congruence.
Qed.

End PatternProperties.

Lemma X24_pattern_follows_protocol_witness :
  exists args' s' p' r',
    Patterns.set_ioPattern reference_stoll Patterns.stream_bytes
      Patterns.pull_pattern throttled_client Patterns.no_pattern
      (Ranges.initial_ranges 0)
    = Ok (args', s', p', r')
    /\ IoPattern s' = Pull
    /\ (IoPattern s' = MediaStream <-> Protocol s' = UDP).
Proof.
  destruct (Patterns.set_ioPattern reference_stoll Patterns.stream_bytes
              Patterns.pull_pattern throttled_client Patterns.no_pattern
              (Ranges.initial_ranges 0))
    as [[[[args' s'] p'] r']|e] eqn:Hset;
    [|vm_compute in Hset; discriminate Hset].
  exists args', s', p', r'. split; [reflexivity|].
  split; [vm_compute in Hset; injection Hset as _ <- _ _; reflexivity|].
  exact (proj1 (proj2 (X24_pattern_follows_protocol _ _ _ _ _ _ _ _ _ _ Hset))).
Defined.

Lemma find_BitsPerSecond_five_bits :
  find_value (L "-BitsPerSecond") Patterns.five_bits
  = Ok (Patterns.five_bits, Some (O, L "5")).
Proof. vm_compute. reflexivity. Qed.

Lemma X25_bits_per_second_on_a_byte_boundary_witness :
  exists m',
    Patterns.BitsPerSecond_argument reference_stoll Patterns.five_bits
      udp_settings Patterns.no_media_stream
    = Ok (drop 1 Patterns.five_bits, m')
    /\ Patterns.BitsPerSecond m' = 0
    /\ Patterns.resolve_media_stream Patterns.stream_bytes udp_settings m'
         (Ranges.initial_ranges 0)
       = Throw (invalid_argument "-BitsPerSecond is required").
Proof.
  destruct (Patterns.BitsPerSecond_argument reference_stoll
              Patterns.five_bits udp_settings Patterns.no_media_stream)
    as [[args' m']|e] eqn:Hset; [|vm_compute in Hset; discriminate Hset].
  assert (Hargs : args' = drop 1 Patterns.five_bits)
    by (vm_compute in Hset; injection Hset as <- _; reflexivity).
  subst args'. exists m'. split; [reflexivity|].
  destruct (X25_bits_per_second_on_a_byte_boundary reference_stoll
              Patterns.stream_bytes _ _ _ _ _ _ _ _
              find_BitsPerSecond_five_bits Hset)
    as (v & Hv & Hbits & _ & _ & Hsmall).
  assert (Hfive : v = 5) by (vm_compute in Hv; congruence).
  subst v. split; [exact Hbits|].
  apply Hsmall. lia.
Defined.

Lemma X26_media_stream_is_complete_witness :
  exists args' s' p' r' m,
    Patterns.set_ioPattern reference_stoll Patterns.stream_bytes
      Patterns.media_stream udp_settings Patterns.no_pattern
      (Ranges.initial_ranges 0)
    = Ok (args', s', p', r')
    /\ Patterns.media_stream_settings p' = fst (Patterns.stream_bytes m)
    /\ Patterns.BitsPerSecond m <> 0.
Proof.
  destruct (Patterns.set_ioPattern reference_stoll Patterns.stream_bytes
              Patterns.media_stream udp_settings Patterns.no_pattern
              (Ranges.initial_ranges 0))
    as [[[[args' s'] p'] r']|e] eqn:Hset;
    [|vm_compute in Hset; discriminate Hset].
  destruct (X26_media_stream_is_complete reference_stoll
              Patterns.stream_bytes _ _ udp_settings _ _ _ _ _
              eq_refl Hset)
    as (m & Hm & _ & Hbits & _).
  exists args', s', p', r', m. split; [reflexivity|]. split; assumption.
Defined.

(** * The status updates *)

Section StatusProperties.

Import StatusUpdate.

Ltac solve_calls :=
  split_and!;
  first [ left; reflexivity
        | right; lia
        | lia
        | reflexivity
        | repeat constructor; fail
        | intros; simpl in *; discriminate
        | intros; simpl in *; congruence ].

Lemma PrintStatusUpdate_calls (c : ctsConfigStatus) (entered : bool)
    (now : Z) (st : ctsConfigPrinting) :
  let '(st', calls) := PrintStatusUpdate c entered now st in
  (calls = [] \/ printing_previous_timeslice st < now)
  /\ printing_previous_timeslice st <= printing_previous_timeslice st'
  /\ (reported calls <> [] -> printing_previous_timeslice st' = now)
  /\ Forall (fun t => t = now) (reported calls)
  /\ resets calls = (if reported calls is [] then [] else [now])
  /\ (forall t, last calls = Some (print_status_call t false) -> False)
  /\ (forall t, last calls = Some (LogStatus t false) -> False).
Proof.
  unfold PrintStatusUpdate.
  destruct (shutdown_called c), (print_status c), entered; simpl;
    try solve_calls.
  destruct (Z.gtb_spec now (printing_previous_timeslice st)) as [Hgt|Hle];
    [|solve_calls].
  destruct (write_to_console (verbosity c)), (statuslogger c);
    repeat match goal with
           | |- context [if ?b then [print_header] else []] => destruct b
           end;
    simpl; solve_calls.
Qed.

(** X27. An update that reports the status, on the console or to the
    status logger or both, resets the status information exactly once, in
    the last call it makes; every call is given the time of the update,
    which is later than that of the update before. *)
Theorem X27_status_is_reset_once (c : ctsConfigStatus) (entered : bool)
    (now : Z) (st st' : ctsConfigPrinting) (calls : list call) :
  PrintStatusUpdate c entered now st = (st', calls) ->
  reported calls <> [] ->
  resets calls = [now]
  /\ (last calls = Some (print_status_call now true)
      \/ last calls = Some (LogStatus now true))
  /\ Forall (fun t => t = now) (reported calls)
  /\ printing_previous_timeslice st < now
  /\ printing_previous_timeslice st' = now.
Proof.
  intros Hupdate Hreported.
  pose proof (PrintStatusUpdate_calls c entered now st) as Hcalls.
  rewrite Hupdate in Hcalls.
  destruct Hcalls as (Hlater & _ & Hnow & Hall & Hresets & Hprint & Hlog).
  split_and!.
  - rewrite Hresets. destruct (reported calls); [contradiction|reflexivity].
  - destruct (last calls) as [[|t clear|t clear]|] eqn:Hlast.
    + exfalso. revert Hupdate Hlast. clear. unfold PrintStatusUpdate.
      destruct (shutdown_called c), (print_status c), entered,
        (now >? printing_previous_timeslice st),
        (write_to_console (verbosity c)), (statuslogger c);
        repeat match goal with
               | |- context [if ?b then [print_header] else []] => destruct b
               end; simpl; intros [= _ <-]; discriminate.
    + assert (Ht : t = now).
      { rewrite Forall_forall in Hall. apply Hall.
        apply last_Some in Hlast as [l' ->]. unfold reported.
        rewrite omap_app. simpl. apply elem_of_app. right. left. }
      subst t. destruct clear; [left; reflexivity|].
      exfalso. exact (Hprint now eq_refl).
    + assert (Ht : t = now).
      { rewrite Forall_forall in Hall. apply Hall.
        apply last_Some in Hlast as [l' ->]. unfold reported.
        rewrite omap_app. simpl. apply elem_of_app. right. left. }
      subst t. destruct clear; [right; reflexivity|].
      exfalso. exact (Hlog now eq_refl).
    + destruct calls; [contradiction|].
      apply last_None in Hlast. discriminate.
  - exact Hall.
  - destruct Hlater as [-> | Hlt]; [contradiction | exact Hlt].
  - exact (Hnow Hreported).
Qed.

Lemma increasing_from_le (low low' : Z) (timeslices : list Z) :
  low' <= low -> increasing_from low timeslices ->
  increasing_from low' timeslices.
Proof.
  destruct timeslices as [|t timeslices]; simpl; [auto|].
  intros Hle [Hlt Hrest]. split; [lia | exact Hrest].
Qed.

(** X28. Over any number of updates the status information is reset at
    times that go up from one reset to the next, all later than the time
    the statics began with, and every time slice that is reported is also
    one that is reset. *)
Theorem X28_resets_go_up (c : ctsConfigStatus) (updates : list (bool * Z))
    (st st' : ctsConfigPrinting) (calls : list call) :
  updates_from c updates st = (st', calls) ->
  increasing_from (printing_previous_timeslice st) (resets calls)
  /\ printing_previous_timeslice st <= printing_previous_timeslice st'
  /\ (forall t, t ∈ reported calls -> t ∈ resets calls).
Proof.
  revert st st' calls.
  induction updates as [|[entered now] updates IH]; intros st st' calls; simpl.
  { intros [= <- <-]. simpl. split_and!; [exact I | lia | auto]. }
  pose proof (PrintStatusUpdate_calls c entered now st) as Hcalls.
  destruct (PrintStatusUpdate c entered now st) as [st1 calls1].
  destruct (updates_from c updates st1) as [st2 later] eqn:Hlater.
  intros [= <- <-].
  destruct (IH _ _ _ Hlater) as (Hup & Hle & Hsub).
  destruct Hcalls as (Hnow & Hle1 & Hprev & Hall & Hresets & _).
  unfold resets, reported in *. rewrite !omap_app.
  fold (resets calls1) (resets later) (reported calls1) (reported later) in *.
  rewrite Hresets.
  destruct (reported calls1) as [|t ts] eqn:Hreported.
  - simpl. split_and!.
    + exact (increasing_from_le _ _ _ Hle1 Hup).
    + lia.
    + intros t Ht. apply Hsub. exact Ht.
  - assert (Hst1 : printing_previous_timeslice st1 = now)
      by (apply Hprev; discriminate).
    rewrite Hst1 in Hup, Hle.
    destruct Hnow as [-> | Hlt]; [discriminate Hreported|].
    simpl. split_and!; [exact Hlt | exact Hup | lia |].
    intros t' Ht'.
    change (t' ∈ (t :: ts) ++ reported later) in Ht'.
    apply elem_of_app in Ht' as [Ht'|Ht'].
    + rewrite Forall_forall in Hall. rewrite (Hall _ Ht'). left.
    + right. apply Hsub. exact Ht'.
Qed.


End StatusProperties.

Lemma X27_status_is_reset_once_witness :
  StatusUpdate.resets
    (snd (StatusUpdate.PrintStatusUpdate StatusUpdate.console_and_log true
            5000 (StatusUpdate.mkPrinting 0 0)))
  = [5000].
Proof.
  refine (proj1 (X27_status_is_reset_once StatusUpdate.console_and_log true
                   5000 (StatusUpdate.mkPrinting 0 0) _ _ eq_refl _)).
  discriminate.
Defined.

Lemma X28_resets_go_up_witness :
  StatusUpdate.resets
    (snd (StatusUpdate.updates_from StatusUpdate.console_and_log
            StatusUpdate.three_updates (StatusUpdate.mkPrinting 0 0)))
  = [5000; 10000]
  /\ StatusUpdate.increasing_from 0 [5000; 10000].
Proof.
  split; [reflexivity|].
  exact (proj1 (X28_resets_go_up StatusUpdate.console_and_log
                  StatusUpdate.three_updates (StatusUpdate.mkPrinting 0 0)
                  _ _ eq_refl)).
Defined.

(** * The loggers *)

Section LoggingProperties.

Import Logging.

Context {E : Externals}.
Variable iends_with : list Z -> list Z -> bool.

Lemma logger_of_make_shared (name : list Z) (f : StatusFormatting)
    (st : ctsConfigLogging) (p : option nat) (logger : ctsTextLogger) :
  logger_of st p = Some logger ->
  logger_of (make_shared name f st).1 p = Some logger.
Proof.
  unfold logger_of. destruct p as [n|]; simpl; [|discriminate].
  intros Hn. apply lookup_app_l_Some. exact Hn.
Qed.

Lemma logger_of_new (name : list Z) (f : StatusFormatting)
    (st : ctsConfigLogging) :
  logger_of (make_shared name f st).1 (make_shared name f st).2
  = Some (mkLogger name f).
Proof.
  unfold logger_of. simpl.
  rewrite lookup_app_r by lia. rewrite Nat.sub_diag. reflexivity.
Qed.

Lemma keeps_loggers_app (st st' : ctsConfigLogging)
    (later : list ctsTextLogger) :
  made st' = made st ++ later -> keeps_loggers st st'.
Proof.
  intros Hmade p logger. unfold logger_of.
  destruct p as [n|]; simpl; [|discriminate].
  rewrite Hmade. apply lookup_app_l_Some.
Qed.

Ltac solve_keeps :=
  first [ apply keeps_loggers_app with (later := []);
          simpl; rewrite app_nil_r; reflexivity
        | eapply keeps_loggers_app; simpl; reflexivity ].

Lemma empty_or_keeps (f : StatusFormatting) (st st' : ctsConfigLogging)
    (p : option nat) :
  keeps_loggers st st' -> empty_or f st p -> empty_or f st' p.
Proof.
  intros Hkeeps [->|(logger & Hp & Hf)]; [left; reflexivity|].
  right. exists logger. split; [apply Hkeeps; exact Hp | exact Hf].
Qed.

Lemma named_keeps (name : list Z) (st st' : ctsConfigLogging)
    (p : option nat) :
  keeps_loggers st st' -> named name st p -> named name st' p.
Proof.
  intros Hkeeps Hnamed Hname. destruct (Hnamed Hname) as [logger Hp].
  exists logger. apply Hkeeps. exact Hp.
Qed.

Lemma make_connectionlogger_spec (f : filenames) (st : ctsConfigLogging) :
  exists st',
    make_connectionlogger iends_with f st = Returned st'
    /\ keeps_loggers st st'
    /\ errorlogger st' = errorlogger st
    /\ statuslogger st' = statuslogger st
    /\ jitterlogger st' = jitterlogger st
    /\ named (connectionFilename f) st' (connectionlogger st').
Proof.
  unfold make_connectionlogger.
  case_bool_decide as Hname; simpl.
  - exists st. split_and!; try reflexivity; [solve_keeps|].
    intros Hne. contradiction.
  - destruct (iends_with (connectionFilename f) (L ".csv"));
      eexists; (split; [reflexivity|]);
      (split_and!; try reflexivity;
       [solve_keeps
       |intros _; eexists; exact (logger_of_new _ _ _)]).
Qed.

Lemma IsCsvFormat_named (name : list Z) (st : ctsConfigLogging)
    (p : option nat) :
  named name st p -> name <> [] ->
  exists logger,
    logger_of st p = Some logger
    /\ IsCsvFormat st p = Returned (bool_decide (format logger = Csv)).
Proof.
  intros Hnamed Hname. destruct (Hnamed Hname) as [logger Hp].
  exists logger. split; [exact Hp|]. unfold IsCsvFormat. rewrite Hp.
  reflexivity.
Qed.

Lemma not_Csv (logger : ctsTextLogger) :
  bool_decide (format logger = Csv) = false -> format logger = ClearText.
Proof.
  intros Hcsv. apply bool_decide_eq_false_1 in Hcsv.
  destruct (format logger); [reflexivity | contradiction].
Qed.

(** Names that compare equal are both empty or both given. *)
Hypothesis iordinal_equals_empty :
  forall b, iordinal_equals [] b = true -> b = [].

Lemma equal_names_given (a b : list Z) :
  iordinal_equals a b = true -> b <> [] -> a <> [].
Proof.
  intros Heq Hb Ha. subst a. apply Hb, iordinal_equals_empty. exact Heq.
Qed.

Lemma make_errorlogger_spec (f : filenames) (st : ctsConfigLogging) :
  named (connectionFilename f) st (connectionlogger st) ->
  (exists e, make_errorlogger iends_with f st = Thrown e)
  \/ exists st',
       make_errorlogger iends_with f st = Returned st'
       /\ keeps_loggers st st'
       /\ connectionlogger st' = connectionlogger st
       /\ statuslogger st' = statuslogger st
       /\ jitterlogger st' = jitterlogger st
       /\ named (errorFilename f) st' (errorlogger st')
       /\ (errorlogger st' = errorlogger st
           \/ empty_or ClearText st' (errorlogger st')).
Proof.
  intros Hconn. unfold make_errorlogger.
  case_bool_decide as Hname; simpl.
  { right. exists st. split_and!; try reflexivity;
      [solve_keeps | intros Hne; contradiction | left; reflexivity]. }
  destruct (iordinal_equals (connectionFilename f) (errorFilename f)) eqn:Heq.
  - destruct (IsCsvFormat_named _ _ _ Hconn (equal_names_given _ _ Heq Hname))
      as (logger & Hp & ->). simpl.
    destruct (bool_decide (format logger = Csv)) eqn:Hcsv;
      [left; eexists; reflexivity|].
    right. eexists. split; [reflexivity|].
    split_and!; try reflexivity; [solve_keeps | |].
    + intros _. exists logger. exact Hp.
    + right. right. exists logger. split; [exact Hp | apply not_Csv, Hcsv].
  - destruct (iends_with (errorFilename f) (L ".csv"));
      [left; eexists; reflexivity|].
    right. eexists. split; [reflexivity|].
    split_and!; try reflexivity; [solve_keeps | |].
    + intros _. eexists. exact (logger_of_new _ _ _).
    + right. right. eexists. split; [exact (logger_of_new _ _ _) | reflexivity].
Qed.

Lemma make_statuslogger_spec (f : filenames) (st : ctsConfigLogging) :
  named (connectionFilename f) st (connectionlogger st) ->
  named (errorFilename f) st (errorlogger st) ->
  exists st',
    make_statuslogger iends_with f st = Returned st'
    /\ keeps_loggers st st'
    /\ connectionlogger st' = connectionlogger st
    /\ errorlogger st' = errorlogger st
    /\ jitterlogger st' = jitterlogger st
    /\ named (statusFilename f) st' (statuslogger st').
Proof.
  intros Hconn Herr. unfold make_statuslogger.
  case_bool_decide as Hname; simpl.
  { exists st. split_and!; try reflexivity;
      [solve_keeps | intros Hne; contradiction]. }
  destruct (iordinal_equals (connectionFilename f) (statusFilename f)) eqn:Hc.
  { eexists. split; [reflexivity|].
    split_and!; try reflexivity; [solve_keeps|].
    intros _. exact (Hconn (equal_names_given _ _ Hc Hname)). }
  destruct (iordinal_equals (errorFilename f) (statusFilename f)) eqn:He.
  { eexists. split; [reflexivity|].
    split_and!; try reflexivity; [solve_keeps|].
    intros _. exact (Herr (equal_names_given _ _ He Hname)). }
  destruct (iends_with (statusFilename f) (L ".csv"));
    eexists; (split; [reflexivity|]);
    (split_and!; try reflexivity;
     [solve_keeps
     |intros _; eexists; exact (logger_of_new _ _ _)]).
Qed.

Lemma is_Csv (logger : ctsTextLogger) :
  negb (bool_decide (format logger = Csv)) = false -> format logger = Csv.
Proof.
  intros Hcsv. apply negb_false_iff, bool_decide_eq_true_1 in Hcsv.
  exact Hcsv.
Qed.

Lemma make_jitterlogger_spec (f : filenames) (st : ctsConfigLogging) :
  named (connectionFilename f) st (connectionlogger st) ->
  named (errorFilename f) st (errorlogger st) ->
  named (statusFilename f) st (statuslogger st) ->
  (exists e, make_jitterlogger iends_with f st = Thrown e)
  \/ exists st',
       make_jitterlogger iends_with f st = Returned st'
       /\ keeps_loggers st st'
       /\ errorlogger st' = errorlogger st
       /\ (jitterlogger st' = jitterlogger st
           \/ empty_or Csv st' (jitterlogger st')).
Proof.
  intros Hconn Herr Hstatus. unfold make_jitterlogger.
  case_bool_decide as Hname; simpl.
  { right. exists st. split_and!; try reflexivity;
      [solve_keeps | left; reflexivity]. }
  destruct (iordinal_equals (connectionFilename f) (jitterFilename f)) eqn:Hc.
  { destruct (IsCsvFormat_named _ _ _ Hconn (equal_names_given _ _ Hc Hname))
      as (logger & Hp & ->). simpl.
    destruct (negb (bool_decide (format logger = Csv))) eqn:Hcsv;
      [left; eexists; reflexivity|].
    right. eexists. split; [reflexivity|].
    split_and!; try reflexivity; [solve_keeps|].
    right. right. exists logger. split; [exact Hp | apply is_Csv, Hcsv]. }
  destruct (iordinal_equals (errorFilename f) (jitterFilename f)) eqn:He.
  { destruct (IsCsvFormat_named _ _ _ Herr (equal_names_given _ _ He Hname))
      as (logger & Hp & ->). simpl.
    destruct (negb (bool_decide (format logger = Csv))) eqn:Hcsv;
      [left; eexists; reflexivity|].
    right. eexists. split; [reflexivity|].
    split_and!; try reflexivity; [solve_keeps|].
    right. right. exists logger. split; [exact Hp | apply is_Csv, Hcsv]. }
  destruct (iordinal_equals (statusFilename f) (jitterFilename f)) eqn:Hs.
  { destruct (IsCsvFormat_named _ _ _ Hstatus
                (equal_names_given _ _ Hs Hname))
      as (logger & Hp & ->). simpl.
    destruct (negb (bool_decide (format logger = Csv))) eqn:Hcsv;
      [left; eexists; reflexivity|].
    right. eexists. split; [reflexivity|].
    split_and!; try reflexivity; [solve_keeps|].
    right. right. exists logger. split; [exact Hp | apply is_Csv, Hcsv]. }
  destruct (iends_with (jitterFilename f) (L ".csv"));
    [|left; eexists; reflexivity].
  right. eexists. split; [reflexivity|].
  split_and!; try reflexivity; [solve_keeps|].
  right. right. eexists. split; [exact (logger_of_new _ _ _) | reflexivity].
Qed.

(** What the four blocks make of statics whose error and jitter pointers
    are empty. *)
Lemma make_loggers_spec (f : filenames) (st : ctsConfigLogging) :
  errorlogger st = None -> jitterlogger st = None ->
  (exists e, make_loggers iends_with f st = Thrown e)
  \/ exists st',
       make_loggers iends_with f st = Returned st'
       /\ empty_or ClearText st' (errorlogger st')
       /\ empty_or Csv st' (jitterlogger st').
Proof.
  intros Herror Hjitter. unfold make_loggers.
  destruct (make_connectionlogger_spec f st)
    as (st1 & -> & K1 & E1 & _ & J1 & C1). simpl.
  destruct (make_errorlogger_spec f st1 C1)
    as [[e ->] | (st2 & -> & K2 & C2 & _ & J2 & N2 & E2)];
    [left; eexists; reflexivity|]. simpl.
  assert (HE2 : empty_or ClearText st2 (errorlogger st2)).
  { destruct E2 as [E2|E2]; [|exact E2]. left. congruence. }
  assert (HC2 : named (connectionFilename f) st2 (connectionlogger st2)).
  { rewrite C2. exact (named_keeps _ _ _ _ K2 C1). }
  destruct (make_statuslogger_spec f st2 HC2 N2)
    as (st3 & -> & K3 & C3 & E3 & J3 & S3). simpl.
  assert (HC3 : named (connectionFilename f) st3 (connectionlogger st3)).
  { rewrite C3. exact (named_keeps _ _ _ _ K3 HC2). }
  assert (HN3 : named (errorFilename f) st3 (errorlogger st3)).
  { rewrite E3. exact (named_keeps _ _ _ _ K3 N2). }
  destruct (make_jitterlogger_spec f st3 HC3 HN3 S3)
    as [[e ->] | (st4 & -> & K4 & E4 & J4)];
    [left; eexists; reflexivity|].
  right. exists st4. split; [reflexivity|]. split.
  - rewrite E4, E3. apply (empty_or_keeps _ st2); [|exact HE2].
    intros p logger Hp. apply K4, K3. exact Hp.
  - destruct J4 as [J4|J4]; [|exact J4]. left. congruence.
Qed.

(** X29. With names that compare equal only when both or neither are
    empty, and the error and jitter pointers empty before, [set_logging]
    never calls a member of an empty pointer; and when it returns, the
    error logger, if there is one, writes clear text and the jitter
    logger, if there is one, writes csv, so that the two are never one
    logger. *)
Theorem X29_error_text_jitter_csv (args : list (list Z))
    (st : ctsConfigLogging) :
  errorlogger st = None -> jitterlogger st = None ->
  set_logging iends_with args st <> NullDereference
  /\ forall args' st',
       set_logging iends_with args st = Returned (args', st') ->
       empty_or ClearText st' (errorlogger st')
       /\ empty_or Csv st' (jitterlogger st')
       /\ forall n, errorlogger st' = Some n -> jitterlogger st' <> Some n.
Proof.
  intros Herror Hjitter. unfold set_logging.
  destruct (verbosity_arguments args st ≫= _) as [[[args1 st1] f]|e] eqn:Hargs;
    [|split; [discriminate | intros ? ?; discriminate]].
  assert (Hst1 : errorlogger st1 = None /\ jitterlogger st1 = None).
  { apply bind_Ok_inv in Hargs as ([args0 st0] & Hverbosity & Hargs).
    apply bind_Ok_inv in Hargs as ([args2 f2] & _ & Hargs).
    injection Hargs as _ <- _.
    unfold verbosity_arguments in Hverbosity.
    apply bind_Ok_inv in Hverbosity as ([a1 fv] & _ & Hverbosity).
    apply bind_Ok_inv in Hverbosity as ([a2 sv] & Hv & Hverbosity).
    apply bind_Ok_inv in Hverbosity as ([a3 fs] & _ & Hverbosity).
    assert (Hsv : errorlogger sv = None /\ jitterlogger sv = None).
    { destruct fv as [[i value]|]; [|injection Hv as _ <-; auto].
      apply bind_Ok_inv in Hv as (v & _ & Hv).
      destruct (verbosity (with_verbosity v st) >? 6); [discriminate|].
      injection Hv as _ <-. auto. }
    destruct fs as [[i value]|]; [|injection Hverbosity as _ <-; exact Hsv].
    apply bind_Ok_inv in Hverbosity as (v & _ & Hverbosity).
    destruct (0 =? _); [discriminate|].
    injection Hverbosity as _ <-. exact Hsv. }
  destruct Hst1 as [He1 Hj1].
  destruct (make_loggers_spec f st1 He1 Hj1)
    as [[e ->] | (st' & -> & Herr & Hjit)]; simpl.
  { split; [discriminate | intros ? ?; discriminate]. }
  split; [discriminate|].
  intros args' st'' [= <- <-]. split_and!; [exact Herr | exact Hjit |].
  intros n Hn Hjn.
  destruct Herr as [Hnone|(le & Hle & Hfe)]; [congruence|].
  destruct Hjit as [Hnone|(lj & Hlj & Hfj)]; [congruence|].
  rewrite Hn in Hle. rewrite Hjn in Hlj. congruence.
Qed.

(** ** One file, one logger *)

Ltac open_block Hblock :=
  repeat match type of Hblock with
         | context [bool_decide ?P] => destruct (bool_decide P) eqn:?
         | context [iordinal_equals ?a ?b] =>
           destruct (iordinal_equals a b) eqn:?
         | context [iends_with ?a ?b] => destruct (iends_with a b) eqn:?
         | context [IsCsvFormat ?st ?p] =>
           destruct (IsCsvFormat st p) as [[|]| |] eqn:?
         end;
  simpl in Hblock; try discriminate Hblock;
  injection Hblock as <-; simpl;
  split_and!; try reflexivity; try (intros; congruence).

Lemma make_connectionlogger_frame (f : filenames)
    (st st' : ctsConfigLogging) :
  make_connectionlogger iends_with f st = Returned st' ->
  errorlogger st' = errorlogger st
  /\ statuslogger st' = statuslogger st
  /\ jitterlogger st' = jitterlogger st
  /\ (length (made st') <= Datatypes.S (length (made st)))%nat.
Proof.
  unfold make_connectionlogger. intros Hblock. open_block Hblock;
    rewrite ?length_app; simpl; lia.
Qed.

Lemma make_errorlogger_shares (f : filenames) (st st' : ctsConfigLogging) :
  make_errorlogger iends_with f st = Returned st' ->
  connectionlogger st' = connectionlogger st
  /\ statuslogger st' = statuslogger st
  /\ jitterlogger st' = jitterlogger st
  /\ (length (made st') <= Datatypes.S (length (made st)))%nat
  /\ (errorFilename f <> [] ->
      iordinal_equals (connectionFilename f) (errorFilename f) = true ->
      errorlogger st' = connectionlogger st).
Proof.
  unfold make_errorlogger. intros Hblock. open_block Hblock;
    rewrite ?length_app; simpl; try lia;
    intros Hname; exfalso; apply Hname;
    match goal with
    | Hempty : bool_decide (?name = []) = true |- ?name = [] =>
      exact (bool_decide_eq_true_1 _ Hempty)
    end.
Qed.

Lemma make_statuslogger_shares (f : filenames) (st st' : ctsConfigLogging) :
  make_statuslogger iends_with f st = Returned st' ->
  connectionlogger st' = connectionlogger st
  /\ errorlogger st' = errorlogger st
  /\ jitterlogger st' = jitterlogger st
  /\ (length (made st') <= Datatypes.S (length (made st)))%nat
  /\ (statusFilename f <> [] ->
      iordinal_equals (connectionFilename f) (statusFilename f) = true ->
      statuslogger st' = connectionlogger st)
  /\ (statusFilename f <> [] ->
      iordinal_equals (connectionFilename f) (statusFilename f) = false ->
      iordinal_equals (errorFilename f) (statusFilename f) = true ->
      statuslogger st' = errorlogger st).
Proof.
  unfold make_statuslogger. intros Hblock. open_block Hblock;
    rewrite ?length_app; simpl; try lia;
    intros Hname; exfalso; apply Hname;
    match goal with
    | Hempty : bool_decide (?name = []) = true |- ?name = [] =>
      exact (bool_decide_eq_true_1 _ Hempty)
    end.
Qed.

Lemma make_jitterlogger_shares (f : filenames) (st st' : ctsConfigLogging) :
  make_jitterlogger iends_with f st = Returned st' ->
  connectionlogger st' = connectionlogger st
  /\ errorlogger st' = errorlogger st
  /\ statuslogger st' = statuslogger st
  /\ (length (made st') <= Datatypes.S (length (made st)))%nat
  /\ (jitterFilename f <> [] ->
      iordinal_equals (connectionFilename f) (jitterFilename f) = true ->
      jitterlogger st' = connectionlogger st)
  /\ (jitterFilename f <> [] ->
      iordinal_equals (connectionFilename f) (jitterFilename f) = false ->
      iordinal_equals (errorFilename f) (jitterFilename f) = true ->
      jitterlogger st' = errorlogger st)
  /\ (jitterFilename f <> [] ->
      iordinal_equals (connectionFilename f) (jitterFilename f) = false ->
      iordinal_equals (errorFilename f) (jitterFilename f) = false ->
      iordinal_equals (statusFilename f) (jitterFilename f) = true ->
      jitterlogger st' = statuslogger st).
Proof.
  unfold make_jitterlogger. intros Hblock. open_block Hblock;
    rewrite ?length_app; simpl; try lia;
    intros Hname; exfalso; apply Hname;
    match goal with
    | Hempty : bool_decide (?name = []) = true |- ?name = [] =>
      exact (bool_decide_eq_true_1 _ Hempty)
    end.
Qed.

Lemma and_then_Returned {A B : Type} (o : outcome A) (k : A -> outcome B)
    (b : B) :
  and_then o k = Returned b -> exists a, o = Returned a /\ k a = Returned b.
Proof. destruct o as [a| |]; simpl; try discriminate. eauto. Qed.

(** X30. When the four loggers are made, a file name that compares equal
    to the name of an earlier role gets no logger of its own: its pointer
    is the pointer of that role, so the two write through one logger; and
    at most four loggers are made. *)
Theorem X30_one_file_one_logger (f : filenames)
    (st st' : ctsConfigLogging) :
  make_loggers iends_with f st = Returned st' ->
  (length (made st') <= length (made st) + 4)%nat
  /\ (errorFilename f <> [] ->
      iordinal_equals (connectionFilename f) (errorFilename f) = true ->
      errorlogger st' = connectionlogger st')
  /\ (statusFilename f <> [] ->
      iordinal_equals (connectionFilename f) (statusFilename f) = true ->
      statuslogger st' = connectionlogger st')
  /\ (statusFilename f <> [] ->
      iordinal_equals (connectionFilename f) (statusFilename f) = false ->
      iordinal_equals (errorFilename f) (statusFilename f) = true ->
      statuslogger st' = errorlogger st')
  /\ (jitterFilename f <> [] ->
      iordinal_equals (connectionFilename f) (jitterFilename f) = true ->
      jitterlogger st' = connectionlogger st')
  /\ (jitterFilename f <> [] ->
      iordinal_equals (connectionFilename f) (jitterFilename f) = false ->
      iordinal_equals (errorFilename f) (jitterFilename f) = false ->
      iordinal_equals (statusFilename f) (jitterFilename f) = true ->
      jitterlogger st' = statuslogger st').
Proof.
  unfold make_loggers. intros Hmake.
  apply and_then_Returned in Hmake as (st1 & H1 & Hmake).
  apply and_then_Returned in Hmake as (st2 & H2 & Hmake).
  apply and_then_Returned in Hmake as (st3 & H3 & H4).
  apply make_connectionlogger_frame in H1 as (_ & _ & _ & L1).
  apply make_errorlogger_shares in H2 as (C2 & _ & _ & L2 & E2).
  apply make_statuslogger_shares in H3 as (C3 & E3 & _ & L3 & S3c & S3e).
  apply make_jitterlogger_shares in H4
    as (C4 & E4 & S4 & L4 & J4c & _ & J4s).
  split_and!.
  - lia.
  - intros Hname Heq. rewrite E4, E3, C4, C3, C2. exact (E2 Hname Heq).
  - intros Hname Heq. rewrite S4, C4, C3. exact (S3c Hname Heq).
  - intros Hname Hc Heq. rewrite S4, E4, E3. exact (S3e Hname Hc Heq).
  - intros Hname Heq. rewrite C4. exact (J4c Hname Heq).
  - intros Hname Hc He Heq. rewrite S4. exact (J4s Hname Hc He Heq).
Qed.

End LoggingProperties.


Lemma reference_iordinal_equals_empty (b : list Z) :
  iordinal_equals [] b = true -> b = [].
Proof.
  simpl. unfold reference_iordinal_equals. intros Heq.
  apply bool_decide_eq_true_1 in Heq. destruct b; [reflexivity|discriminate].
Qed.

Lemma X29_error_text_jitter_csv_witness :
  exists st',
    Logging.set_logging Logging.reference_iends_with Logging.shared_csv
      (Logging.no_loggers 5000)
    = Logging.Returned ([], st')
    /\ Logging.errorlogger st' = Some O
    /\ Logging.jitterlogger st' <> Some O.
Proof.
  destruct (Logging.set_logging Logging.reference_iends_with
              Logging.shared_csv (Logging.no_loggers 5000))
    as [[args' st']|e|] eqn:Hset;
    [|vm_compute in Hset; discriminate Hset
     |vm_compute in Hset; discriminate Hset].
  assert (Hargs : args' = []) by (vm_compute in Hset; congruence).
  subst args'. exists st'. split; [reflexivity|].
  assert (Herror : Logging.errorlogger st' = Some O)
    by (vm_compute in Hset; injection Hset as <-; reflexivity).
  split; [exact Herror|].
  destruct (X29_error_text_jitter_csv Logging.reference_iends_with
              reference_iordinal_equals_empty Logging.shared_csv
              (Logging.no_loggers 5000) eq_refl eq_refl) as [_ Hformats].
  destruct (Hformats _ _ Hset) as (_ & _ & Hdistinct).
  exact (Hdistinct O Herror).
Defined.

Lemma X30_one_file_one_logger_witness :
  exists st',
    Logging.make_loggers Logging.reference_iends_with Logging.shared_csv_names
      (Logging.no_loggers 5000)
    = Logging.Returned st'
    /\ Logging.jitterlogger st' = Logging.statuslogger st'
    /\ length (Logging.made st') = 2%nat.
Proof.
  destruct (Logging.make_loggers Logging.reference_iends_with
              Logging.shared_csv_names (Logging.no_loggers 5000))
    as [st'|e|] eqn:Hmake;
    [|vm_compute in Hmake; discriminate Hmake
     |vm_compute in Hmake; discriminate Hmake].
  exists st'. split; [reflexivity|].
  destruct (X30_one_file_one_logger Logging.reference_iends_with
              Logging.shared_csv_names (Logging.no_loggers 5000) st' Hmake)
    as (_ & _ & _ & _ & _ & Hjitter).
  split.
  - apply Hjitter; [discriminate | reflexivity | reflexivity | reflexivity].
  - vm_compute in Hmake. injection Hmake as <-. reflexivity.
Defined.
